(** * elasticq: schema cache, DSL validator, context resolver and completion

    A shallow embedding of the JavaScript sources

    - [esMappingService] (debounce, LRUCache, MappingParser,
      ValueSuggestionGenerator, ESMappingService),
    - [esDiagnosticsProvider.js] (ESValidator, ESDiagnosticsProvider),
    - [esDSLParser] (getDSLContext and its helpers),
    - [esCompletionProvider.js] (ESCompletionProvider),

    followed by the vocabulary of the statements and by the properties
    established about the embedding.

    Conventions of the embedding.

    - A JavaScript string is a [string]; the texts of interest are ASCII, so
      one character is one UTF-16 code unit and [String.length] is [.length].
    - A JavaScript object used as a record or dictionary is the list of its own
      enumerable properties in enumeration order.  Where the sources read an
      object under a name that comes from the input, the read follows the
      prototype chain: the field registry is read through
      [MappingParser.index], which finds the names of [Object.prototype]
      ([constructor], [toString], ...) too, and the conversion of a value to
      a string looks for its [toString].  Elsewhere the names read are own
      properties or names that no built-in prototype defines.
    - A function that can raise returns a [completion]; code that pushes into
      a shared array threads that array explicitly.
    - What the host supplies ([JSON.parse], number printing, the network) is a
      parameter of the section that uses it. *)

From Stdlib Require Import String Ascii List ZArith QArith Lia Bool Arith.
From Stdlib Require Import DecimalString Decimal.
From Stdlib Require Import Relation_Operators Wellfounded.
Import ListNotations.
Close Scope Q_scope.
Set Warnings "-register-all".
Set Warnings "-automation".

Open Scope nat_scope.
Open Scope string_scope.
Open Scope list_scope.

(* ================================================================== *)
(** * Part I. The embedding                                            *)
(* ================================================================== *)

(** ** JavaScript strings *)

Module JSString.

(** The double-quote character, and a string wrapped in double quotes as the
    template literals of the sources do. *)
Definition dquote : ascii := "034"%char.
Definition QUOTE : string := String dquote EmptyString.
Definition quoted (s : string) : string := QUOTE ++ s ++ QUOTE.

(** Test inputs are written with apostrophes where the JSON text has double
    quotes; [json] turns them into the text itself. *)
Fixpoint json (s : string) : string :=
  match s with
  | EmptyString => EmptyString
  | String c r => String (if Ascii.eqb c "'"%char then dquote else c) (json r)
  end.

Definition newline : ascii := "010"%char.

(** [s.split(sep)] for a one-character separator: never empty. *)
Fixpoint split (sep : ascii) (s : string) : list string :=
  match s with
  | EmptyString => [EmptyString]
  | String c r =>
      if Ascii.eqb c sep then EmptyString :: split sep r
      else match split sep r with
           | [] => [String c EmptyString]
           | h :: t => String c h :: t
           end
  end.

(** [parts.join(sep)]. *)
Definition join (sep : string) (parts : list string) : string :=
  String.concat sep parts.

(** [s.substring(0, n)]. *)
Definition substring0 (n : nat) (s : string) : string := String.substring 0 n s.

(** [s.substring(n)]. *)
Fixpoint substringFrom (n : nat) (s : string) : string :=
  match n, s with
  | O, _ => s
  | S n', String _ r => substringFrom n' r
  | S _, EmptyString => EmptyString
  end.

(** [s[i]]: [None] is [undefined]. *)
Definition charAt (s : string) (i : nat) : option ascii := String.get i s.

(** [s.includes(c)] for a one-character needle. *)
Fixpoint includesChar (c : ascii) (s : string) : bool :=
  match s with
  | EmptyString => false
  | String d r => Ascii.eqb c d || includesChar c r
  end.

(** [s.lastIndexOf(c)]: [None] is [-1]. *)
Fixpoint lastIndexOf_from (c : ascii) (s : string) (i : nat) (found : option nat)
  : option nat :=
  match s with
  | EmptyString => found
  | String d r =>
      lastIndexOf_from c r (S i) (if Ascii.eqb c d then Some i else found)
  end.
Definition lastIndexOf (c : ascii) (s : string) : option nat :=
  lastIndexOf_from c s 0 None.

(** Number of occurrences of a character: [(s.match(/c/g) || []).length]. *)
Fixpoint countChar (c : ascii) (s : string) : nat :=
  match s with
  | EmptyString => 0
  | String d r => ((if Ascii.eqb c d then 1 else 0) + countChar c r)%nat
  end.

(** The character classes [\s], [\d] and [\w] on ASCII. *)
Definition isSpace (c : ascii) : bool :=
  let n := nat_of_ascii c in
  Nat.eqb n 32 || (Nat.leb 9 n && Nat.leb n 13).
Definition isDigit (c : ascii) : bool :=
  let n := nat_of_ascii c in Nat.leb 48 n && Nat.leb n 57.
Definition isWord (c : ascii) : bool :=
  let n := nat_of_ascii c in
  isDigit c || (Nat.leb 65 n && Nat.leb n 90) || (Nat.leb 97 n && Nat.leb n 122)
  || Nat.eqb n 95.

(** [s.trim()]. *)
Fixpoint trimStart (s : string) : string :=
  match s with
  | String c r => if isSpace c then trimStart r else s
  | EmptyString => EmptyString
  end.
Fixpoint trimEnd (s : string) : string :=
  match s with
  | EmptyString => EmptyString
  | String c r =>
      match trimEnd r with
      | EmptyString => if isSpace c then EmptyString else String c EmptyString
      | r' => String c r'
      end
  end.
Definition trim (s : string) : string := trimEnd (trimStart s).

(** [s.toLowerCase()] on ASCII. *)
Definition lowerChar (c : ascii) : ascii :=
  let n := nat_of_ascii c in
  if Nat.leb 65 n && Nat.leb n 90 then ascii_of_nat (n + 32) else c.
Fixpoint toLowerCase (s : string) : string :=
  match s with
  | EmptyString => EmptyString
  | String c r => String (lowerChar c) (toLowerCase r)
  end.

(** [s.startsWith(p)]. *)
Definition startsWith (s p : string) : bool := String.prefix p s.

(** [arr.includes(x)] on an array of strings. *)
Definition includes (arr : list string) (x : string) : bool :=
  existsb (String.eqb x) arr.

(** Decimal printing of an index, as property keys and template literals
    print it. *)
Definition ofNat (n : nat) : string := NilZero.string_of_uint (Nat.to_uint n).

(** [/^\d+$/.test(s)]. *)
Fixpoint allDigits (s : string) : bool :=
  match s with
  | EmptyString => true
  | String c r => isDigit c && allDigits r
  end.
Definition isIndexLike (s : string) : bool :=
  match s with EmptyString => false | _ => allDigits s end.

(** [parseInt(digits)] on a run of decimal digits. *)
Fixpoint parseDigits (s : string) (acc : nat) : nat :=
  match s with
  | EmptyString => acc
  | String c r => parseDigits r (10 * acc + (nat_of_ascii c - 48))%nat
  end.

End JSString.

(** ** Completions: a result or a raised exception *)

Inductive exn : Type :=
| SyntaxError (message : string)
| TypeError (message : string).

Definition exn_message (e : exn) : string :=
  match e with SyntaxError m => m | TypeError m => m end.

Inductive completion (A : Type) : Type :=
| Normal (a : A)
| Throw (e : exn).
Arguments Normal {A} a.
Arguments Throw {A} e.

(** ** The LRU cache (esMappingService, lines 46-89) *)

Module LRUCache.

Section WithValue.
Context {V : Type}.

(** A JavaScript [Map] with string keys: its entries in insertion order,
    one per key. *)
Definition JSMap : Type := list (string * V).

Fixpoint map_has (key : string) (m : JSMap) : bool :=
  match m with
  | [] => false
  | (k, _) :: r => String.eqb k key || map_has key r
  end.

Fixpoint map_get (key : string) (m : JSMap) : option V :=
  match m with
  | [] => None
  | (k, v) :: r => if String.eqb k key then Some v else map_get key r
  end.

Fixpoint map_delete (key : string) (m : JSMap) : JSMap :=
  match m with
  | [] => []
  | (k, v) :: r => if String.eqb k key then r else (k, v) :: map_delete key r
  end.

(** [Map.prototype.set]: an existing key keeps its place, a new one goes
    last. *)
Fixpoint map_set (key : string) (value : V) (m : JSMap) : JSMap :=
  match m with
  | [] => [(key, value)]
  | (k, v) :: r =>
      if String.eqb k key then (k, value) :: r
      else (k, v) :: map_set key value r
  end.

Definition map_keys (m : JSMap) : list string := map fst m.

(** [m.keys().next().value]: [None] is [undefined]. *)
Definition map_firstKey (m : JSMap) : option string :=
  match m with
  | [] => None
  | (k, _) :: _ => Some k
  end.

Record t : Type := mk { maxSize : nat; cache : JSMap }.

Definition new (maxSize : nat) : t := {| maxSize := maxSize; cache := [] |}.

Definition with_cache (c : t) (m : JSMap) : t :=
  {| maxSize := maxSize c; cache := m |}.

(** [get(key)]: [None] is [undefined]. *)
Definition get (c : t) (key : string) : option V * t :=
  if negb (map_has key (cache c)) then (None, c)
  else
    match map_get key (cache c) with
    | Some value =>
        (Some value,
         with_cache c (map_set key value (map_delete key (cache c))))
    | None => (None, c)
    end.

Definition set (c : t) (key : string) (value : V) : t :=
  let m :=
    if map_has key (cache c) then map_delete key (cache c)
    else if Nat.leb (maxSize c) (length (cache c)) then
      match map_firstKey (cache c) with
      | Some firstKey => map_delete firstKey (cache c)
      | None => cache c
      end
    else cache c in
  with_cache c (map_set key value m).

Definition has (c : t) (key : string) : bool := map_has key (cache c).

Definition clear (c : t) : t := with_cache c [].

Definition size (c : t) : nat := length (cache c).

Definition keys (c : t) : list string := map_keys (cache c).

(** The members an instance answers to: the methods and getters of the
    class body and the two fields the constructor assigns. *)
Inductive member : Type :=
| m_get | m_set | m_has | m_clear   (* methods *)
| m_size | m_keys                    (* getters *)
| m_maxSize | m_cache.               (* fields *)

Definition lookupMember (name : string) : option member :=
  if String.eqb name "get" then Some m_get
  else if String.eqb name "set" then Some m_set
  else if String.eqb name "has" then Some m_has
  else if String.eqb name "clear" then Some m_clear
  else if String.eqb name "size" then Some m_size
  else if String.eqb name "keys" then Some m_keys
  else if String.eqb name "maxSize" then Some m_maxSize
  else if String.eqb name "cache" then Some m_cache
  else None.

(** What a one-argument method call returns. *)
Inductive ret : Type :=
| RUndefined
| RBool (b : bool)
| RValue (v : V).

(** [c.name(key)]: a call with one string argument through the name of
    the member.  A name that is no method of the instance raises
    TypeError and leaves the cache as it was.  [undefinedV] is the value
    a missing second argument takes. *)
Definition call1 (undefinedV : V) (expr : string) (c : t) (name : string)
           (key : string) : completion ret * t :=
  match lookupMember name with
  | Some m_get =>
      let '(r, c') := get c key in
      (Normal (match r with Some v => RValue v | None => RUndefined end), c')
  | Some m_set => (Normal RUndefined, set c key undefinedV)
  | Some m_has => (Normal (RBool (has c key)), c)
  | Some m_clear => (Normal RUndefined, clear c)
  | Some m_size | Some m_keys | Some m_maxSize | Some m_cache
  | None =>
      (Throw (TypeError (expr ++ "." ++ name ++ " is not a function")), c)
  end.

(** A sequence of cache operations, for statements about every use. *)
Inductive op : Type :=
| OpGet (key : string)
| OpSet (key : string) (value : V).

Definition step (c : t) (o : op) : t :=
  match o with
  | OpGet key => snd (get c key)
  | OpSet key value => set c key value
  end.

Definition run (ops : list op) (c : t) : t := fold_left step ops c.

End WithValue.

Arguments JSMap V : clear implicits.
Arguments t V : clear implicits.
Arguments op V : clear implicits.
Arguments ret V : clear implicits.

End LRUCache.

(** ** JavaScript values as [JSON.parse] produces them *)

Module JSValue.
Import JSString.

(** Numbers are the exact values of their literals.  [VObj] lists the own
    properties of an object in enumeration order, one entry per key. *)
Inductive value : Type :=
| VUndefined
| VNull
| VBool (b : bool)
| VNum (q : Q)
| VStr (s : string)
| VArr (elements : list value)
| VObj (props : list (string * value)).

(** [!!v]. *)
Definition truthy (v : value) : bool :=
  match v with
  | VUndefined | VNull => false
  | VBool b => b
  | VNum q => negb (Z.eqb (Qnum q) 0)
  | VStr s => negb (String.eqb s EmptyString)
  | VArr _ | VObj _ => true
  end.

(** [typeof v === 'object'], which holds of [null] too. *)
Definition typeofObject (v : value) : bool :=
  match v with
  | VNull | VArr _ | VObj _ => true
  | _ => false
  end.

(** [typeof v !== 'object' || v === null]. *)
Definition notAnObject (v : value) : bool :=
  match v with
  | VArr _ | VObj _ => false
  | _ => true
  end.

Definition isArray (v : value) : bool :=
  match v with VArr _ => true | _ => false end.

Definition isString (v : value) : bool :=
  match v with VStr _ => true | _ => false end.

Definition isUndefined (v : value) : bool :=
  match v with VUndefined => true | _ => false end.

(** [Number.isInteger(v)]. *)
Definition isInteger (v : value) : bool :=
  match v with
  | VNum q => Z.eqb (Z.modulo (Qnum q) (Zpos (Qden q))) 0
  | _ => false
  end.

(** Own property of an object by name; [VUndefined] when there is none. *)
Fixpoint getOwn (props : list (string * value)) (key : string) : value :=
  match props with
  | [] => VUndefined
  | (k, v) :: r => if String.eqb k key then v else getOwn r key
  end.

(** A canonical array index as a property name. *)
Definition asIndex (key : string) : option nat :=
  if isIndexLike key then
    let n := parseDigits key 0 in
    if String.eqb (ofNat n) key then Some n else None
  else None.

(** [v[key]] and [v.key].  Reading a property of [null] or [undefined]
    raises; primitives other than strings have no own properties. *)
Definition get (v : value) (key : string) : completion value :=
  match v with
  | VUndefined =>
      Throw (TypeError ("Cannot read properties of undefined (reading '"
                        ++ key ++ "')"))
  | VNull =>
      Throw (TypeError ("Cannot read properties of null (reading '"
                        ++ key ++ "')"))
  | VBool _ | VNum _ => Normal VUndefined
  | VStr s =>
      if String.eqb key "length" then Normal (VNum (inject_Z (Z.of_nat (String.length s))))
      else match asIndex key with
           | Some i =>
               match charAt s i with
               | Some c => Normal (VStr (String c EmptyString))
               | None => Normal VUndefined
               end
           | None => Normal VUndefined
           end
  | VArr l =>
      if String.eqb key "length" then Normal (VNum (inject_Z (Z.of_nat (List.length l))))
      else match asIndex key with
           | Some i => Normal (nth i l VUndefined)
           | None => Normal VUndefined
           end
  | VObj props => Normal (getOwn props key)
  end.

(** The indices [from, from+1, ...] of [n] elements, as property names. *)
Fixpoint indexKeys (from n : nat) : list string :=
  match n with
  | O => []
  | S n' => ofNat from :: indexKeys (S from) n'
  end.

(** The names a [for ... in] loop and [Object.keys] enumerate. *)
Definition ownKeys (v : value) : list string :=
  match v with
  | VObj props => map fst props
  | VArr l => indexKeys 0 (List.length l)
  | VStr s => indexKeys 0 (String.length s)
  | _ => []
  end.

(** The enumerable own properties of a value with their values. *)
Fixpoint indexed {A : Type} (from : nat) (l : list A) : list (string * A) :=
  match l with
  | [] => []
  | x :: r => (ofNat from, x) :: indexed (S from) r
  end.

Fixpoint chars (s : string) : list value :=
  match s with
  | EmptyString => []
  | String c r => VStr (String c EmptyString) :: chars r
  end.

Definition entries (v : value) : list (string * value) :=
  match v with
  | VObj props => props
  | VArr l => indexed 0 l
  | VStr s => indexed 0 (chars s)
  | _ => []
  end.

(** [o.hasOwnProperty(key)] for the object with the properties [props]. *)
Definition hasOwn (props : list (string * value)) (key : string) : bool :=
  existsb (fun kv => String.eqb (fst kv) key) props.

(** What conversion to a primitive raises when neither [toString] nor
    [valueOf] yields one. *)
Definition notPrimitive : exn :=
  TypeError "Cannot convert object to primitive value".

Section ToString.
(** [Number.prototype.toString] is the engine's. *)
Variable numberToString : Q -> string.

(** [String(v)], the conversion that template literals and computed property
    names apply.  An array joins the conversions of its elements, [null] and
    [undefined] counting as the empty string.  An object is converted by the
    method found under [toString]: the inherited one prints
    [[object Object]]; an own property of that name is a value of the
    document, which is no function, and then [valueOf], own or inherited,
    gives no primitive either, so the conversion raises. *)
Fixpoint toStr (v : value) : completion string :=
  match v with
  | VUndefined => Normal "undefined"
  | VNull => Normal "null"
  | VBool true => Normal "true"
  | VBool false => Normal "false"
  | VNum q => Normal (numberToString q)
  | VStr s => Normal s
  | VArr l =>
      match
        (fix each (l : list value) : completion (list string) :=
           match l with
           | [] => Normal []
           | x :: r =>
               match
                 match x with
                 | VUndefined | VNull => Normal EmptyString
                 | _ => toStr x
                 end
               with
               | Throw e => Throw e
               | Normal s =>
                   match each r with
                   | Throw e => Throw e
                   | Normal ss => Normal (s :: ss)
                   end
               end
           end) l
      with
      | Throw e => Throw e
      | Normal parts => Normal (join "," parts)
      end
  | VObj props =>
      if hasOwn props "toString" then Throw notPrimitive
      else Normal "[object Object]"
  end.

End ToString.

End JSValue.

(** ** The mapping parser (esMappingService, lines 95-213) *)

Module MappingParser.
Import JSString JSValue.

(** The two shapes of entry [parseProperties] stores: one per field, and one
    per multi-field of a field. *)
Inductive FieldInfo : Type :=
| Field (type analyzer search_analyzer normalizer format : value)
        (isNested hasProperties : bool) (multiFields : list string)
| MultiField (type : value) (parentField : string).

Definition fi_type (fi : FieldInfo) : value :=
  match fi with
  | Field t _ _ _ _ _ _ _ => t
  | MultiField t _ => t
  end.

Definition fi_format (fi : FieldInfo) : value :=
  match fi with
  | Field _ _ _ _ f _ _ _ => f
  | MultiField _ _ => VUndefined
  end.

(** [fi.isNested] as a condition: absent on a multi-field entry. *)
Definition fi_isNested (fi : FieldInfo) : bool :=
  match fi with
  | Field _ _ _ _ _ n _ _ => n
  | MultiField _ _ => false
  end.

(** The registry [fields], a plain object: the entries assigned to it, in the
    order of first assignment.  An assignment under the name [__proto__]
    does not create a property: it makes the entry the prototype of the
    registry.  The list holds that entry under [__proto__] all the same, so
    every list is a registry and every assignment is [assign]; what is read
    under a name is [index]. *)
Definition Registry : Type := list (string * FieldInfo).

(** The entry assigned under [path], if any. *)
Fixpoint lookup (fields : Registry) (path : string) : option FieldInfo :=
  match fields with
  | [] => None
  | (k, fi) :: r => if String.eqb k path then Some fi else lookup r path
  end.

(** [fields[path] = fi]. *)
Fixpoint assign (fields : Registry) (path : string) (fi : FieldInfo) : Registry :=
  match fields with
  | [] => [(path, fi)]
  | (k, old) :: r =>
      if String.eqb k path then (k, fi) :: r else (k, old) :: assign r path fi
  end.

(** A property name that is an array index: a canonical decimal numeral
    below 2^32 - 1. *)
Definition arrayIndex (key : string) : option nat :=
  match asIndex key with
  | Some n => if N.ltb (N.of_nat n) 4294967295 then Some n else None
  | None => None
  end.

(** The entries stored under array indices, in ascending order of the
    index. *)
Fixpoint insertIndexed (n : nat) (entry : string * FieldInfo)
         (sorted : list (nat * (string * FieldInfo)))
  : list (nat * (string * FieldInfo)) :=
  match sorted with
  | [] => [(n, entry)]
  | (m, other) :: rest =>
      if Nat.leb n m then (n, entry) :: sorted
      else (m, other) :: insertIndexed n entry rest
  end.

Fixpoint indexedEntries (entries : Registry) : list (nat * (string * FieldInfo)) :=
  match entries with
  | [] => []
  | entry :: rest =>
      match arrayIndex (fst entry) with
      | Some n => insertIndexed n entry (indexedEntries rest)
      | None => indexedEntries rest
      end
  end.

(** [Object.entries(fields)]: the own properties of the registry, those
    named by an array index first, in ascending order, then the others in
    the order of their creation.  What was assigned under [__proto__] is no
    own property. *)
Definition ownEntries (fields : Registry) : Registry :=
  let own := filter (fun kv => negb (String.eqb (fst kv) "__proto__")) fields in
  map snd (indexedEntries own)
  ++ filter (fun kv => match arrayIndex (fst kv) with
                       | Some _ => false
                       | None => true
                       end) own.

(** The names that every plain object inherits from [Object.prototype]:
    under each of them a read finds a built-in function, under [__proto__]
    the prototype object. *)
Definition objectPrototypeNames : list string :=
  ["constructor"; "__defineGetter__"; "__defineSetter__"; "hasOwnProperty";
   "__lookupGetter__"; "__lookupSetter__"; "isPrototypeOf";
   "propertyIsEnumerable"; "toString"; "valueOf"; "__proto__";
   "toLocaleString"].

(** The own properties of a stored entry, lines 157-169 and 180-184: [None]
    when it has no property of that name. *)
Definition entryProp (fi : FieldInfo) (key : string) : option value :=
  match fi with
  | Field type analyzer search_analyzer normalizer format
          isNested hasProperties multiFields =>
      if String.eqb key "type" then Some type
      else if String.eqb key "analyzer" then Some analyzer
      else if String.eqb key "search_analyzer" then Some search_analyzer
      else if String.eqb key "normalizer" then Some normalizer
      else if String.eqb key "format" then Some format
      else if String.eqb key "isNested" then Some (VBool isNested)
      else if String.eqb key "hasProperties" then Some (VBool hasProperties)
      else if String.eqb key "multiFields" then Some (VArr (map VStr multiFields))
      else None
  | MultiField type parentField =>
      if String.eqb key "type" then Some type
      else if String.eqb key "isMultiField" then Some (VBool true)
      else if String.eqb key "parentField" then Some (VStr parentField)
      else None
  end.

(** What a read [fields[name]] can find: an entry; a property of the entry
    that is the prototype of the registry; or what [Object.prototype] has
    under the name. *)
Inductive Member : Type :=
| Entry (fi : FieldInfo)
| Slot (v : value)
| Inherited (name : string).

(** [fields[name]] along the prototype chain: [None] is [undefined]. *)
Definition index (fields : Registry) (name : string) : option Member :=
  match lookup fields name with
  | Some fi => Some (Entry fi)
  | None =>
      match
        match lookup fields "__proto__" with
        | Some proto => entryProp proto name
        | None => None
        end
      with
      | Some v => Some (Slot v)
      | None =>
          if includes objectPrototypeNames name then Some (Inherited name)
          else None
      end
  end.

(** [!!m]: objects and functions are truthy. *)
Definition truthyMember (m : Member) : bool :=
  match m with
  | Entry _ | Inherited _ => true
  | Slot v => truthy v
  end.

(** [fields[name]] where the code tests it before it uses it: the value
    found when it is truthy. *)
Definition read (fields : Registry) (name : string) : option Member :=
  match index fields name with
  | Some m => if truthyMember m then Some m else None
  | None => None
  end.

(** A property of a truthy value of the mapping: reading it never raises. *)
Definition slotProp (v : value) (key : string) : value :=
  match get v key with
  | Normal x => x
  | Throw _ => VUndefined
  end.

(** [m.type], [m.format] and [m.isNested] of what a read found.  The
    built-in functions and [Object.prototype] have no such properties. *)
Definition member_type (m : Member) : value :=
  match m with
  | Entry fi => fi_type fi
  | Slot v => slotProp v "type"
  | Inherited _ => VUndefined
  end.

Definition member_format (m : Member) : value :=
  match m with
  | Entry fi => fi_format fi
  | Slot v => slotProp v "format"
  | Inherited _ => VUndefined
  end.

(** [m.isNested] as a condition. *)
Definition member_isNested (m : Member) : bool :=
  match m with
  | Entry fi => fi_isNested fi
  | Slot v => truthy (slotProp v "isNested")
  | Inherited _ => false
  end.

(** [getFieldType(fields, fieldName)], lines 196-212.  The loop runs [i] from
    [parts.length] down to 1; [None] is [null]. *)
Fixpoint getFieldType_loop (fields : Registry) (parts : list string) (i : nat)
  : option Member :=
  match i with
  | O => None
  | S i' =>
      let path := join "." (firstn i parts) in
      match read fields path with
      | Some m => Some m
      | None => getFieldType_loop fields parts i'
      end
  end.

Definition getFieldType (fields : Registry) (fieldName : string) : option Member :=
  match read fields fieldName with
  | Some m => Some m
  | None =>
      let parts := split "."%char fieldName in
      getFieldType_loop fields parts (List.length parts)
  end.

Section Parse.

(** Apply [f] to the own property [key] of an object when it has one. *)
Section WithProp.
Context {A : Type} (key : string) (f : value -> A) (d : A).
Fixpoint withProp (props : list (string * value)) : A :=
  match props with
  | [] => d
  | (k, v) :: r => if String.eqb k key then f v else withProp r
  end.
End WithProp.

(** [x || 'object']. *)
Definition orObject (v : value) : value :=
  if truthy v then v else VStr "object".

(** [field.type === 'nested']. *)
Definition isNestedType (v : value) : bool :=
  match v with VStr s => String.eqb s "nested" | _ => false end.

(** The entry stored for [field], whose property reads have succeeded. *)
Definition fieldEntry (field : value) : FieldInfo :=
  let p := match field with VObj props => getOwn props | _ => fun _ => VUndefined end in
  Field (orObject (p "type")) (p "analyzer") (p "search_analyzer")
        (p "normalizer") (p "format")
        (isNestedType (p "type")) (truthy (p "properties"))
        (if truthy (p "fields") then ownKeys (p "fields") else []).

(** The loop over [field.fields], lines 177-186. *)
Fixpoint multiFieldsLoop (mfs : list (string * value)) (fields : Registry)
         (fullPath : string) : completion Registry :=
  match mfs with
  | [] => Normal fields
  | (multiFieldName, multiField) :: rest =>
      match get multiField "type" with
      | Throw e => Throw e
      | Normal t =>
          multiFieldsLoop rest
            (assign fields (fullPath ++ "." ++ multiFieldName)
                    (MultiField t fullPath))
            fullPath
      end
  end.

Definition fullPathOf (prefix fieldName : string) : string :=
  if String.eqb prefix EmptyString then fieldName else prefix ++ "." ++ fieldName.

(** Everything the loop body does for a [field] that has no own properties
    to descend into (a primitive, a string or an array). *)
Definition flatField (field : value) (fields : Registry) (fullPath : string)
  : completion Registry :=
  match get field "type" with
  | Throw e => Throw e
  | Normal _ => Normal (assign fields fullPath (fieldEntry field))
  end.

(** [parseProperties(properties, fields, prefix)], lines 149-188. *)
Fixpoint parseProperties (properties : value) (fields : Registry) (prefix : string)
         {struct properties} : completion Registry :=
  match properties with
  | VObj props =>
      (fix each (ps : list (string * value)) (fields : Registry)
         : completion Registry :=
         match ps with
         | [] => Normal fields
         | (fieldName, field) :: rest =>
             let fullPath := fullPathOf prefix fieldName in
             let r :=
               match field with
               | VObj fprops =>
                   let fields1 := assign fields fullPath (fieldEntry field) in
                   let r1 :=
                     withProp "properties"
                       (fun sub =>
                          if truthy sub then parseProperties sub fields1 fullPath
                          else Normal fields1)
                       (Normal fields1) fprops in
                   match r1 with
                   | Throw e => Throw e
                   | Normal fields2 =>
                       let mf := getOwn fprops "fields" in
                       if truthy mf then multiFieldsLoop (entries mf) fields2 fullPath
                       else Normal fields2
                   end
               | _ => flatField field fields fullPath
               end in
             match r with
             | Throw e => Throw e
             | Normal fields' => each rest fields'
             end
         end) props fields
  | VArr l =>
      (fix each (i : nat) (l : list value) (fields : Registry)
         : completion Registry :=
         match l with
         | [] => Normal fields
         | field :: rest =>
             let fullPath := fullPathOf prefix (ofNat i) in
             let r :=
               match field with
               | VObj fprops =>
                   let fields1 := assign fields fullPath (fieldEntry field) in
                   let r1 :=
                     withProp "properties"
                       (fun sub =>
                          if truthy sub then parseProperties sub fields1 fullPath
                          else Normal fields1)
                       (Normal fields1) fprops in
                   match r1 with
                   | Throw e => Throw e
                   | Normal fields2 =>
                       let mf := getOwn fprops "fields" in
                       if truthy mf then multiFieldsLoop (entries mf) fields2 fullPath
                       else Normal fields2
                   end
               | _ => flatField field fields fullPath
               end in
             match r with
             | Throw e => Throw e
             | Normal fields' => each (S i) rest fields'
             end
         end) 0 l fields
  | VStr s =>
      (fix each (ps : list (string * value)) (fields : Registry)
         : completion Registry :=
         match ps with
         | [] => Normal fields
         | (fieldName, field) :: rest =>
             match flatField field fields (fullPathOf prefix fieldName) with
             | Throw e => Throw e
             | Normal fields' => each rest fields'
             end
         end) (entries properties) fields
  | _ => Normal fields
  end.

(** [parse(mappingData)], lines 101-132. *)
Fixpoint parse_indices (indices : list (string * value)) (fields : Registry)
  : completion Registry :=
  match indices with
  | [] => Normal fields
  | (indexName, indexData) :: rest =>
      if negb (truthy indexData) then parse_indices rest fields
      else
        match get indexData "mappings" with
        | Throw e => Throw e
        | Normal indexMapping =>
            if negb (truthy indexMapping) then parse_indices rest fields
            else
              match get indexMapping "properties" with
              | Throw e => Throw e
              | Normal p =>
                  let properties := if truthy p then p else VObj [] in
                  if typeofObject properties then
                    match parseProperties properties fields EmptyString with
                    | Throw e => Throw e
                    | Normal fields' => parse_indices rest fields'
                    end
                  else parse_indices rest fields
              end
        end
  end.

Definition parse (mappingData : value) : completion Registry :=
  if negb (truthy mappingData) || negb (typeofObject mappingData) then Normal []
  else parse_indices (entries mappingData) [].

End Parse.

End MappingParser.

(** ** The mapping service (esMappingService, lines 30-40 and 324-503) *)

Module ESMappingService.
Import JSString JSValue MappingParser.

(** What a call of [fetchMapping] resolves with and what the cache stores:
    [undefined], or a registry object.  Objects have an identity, the
    reference [ref] under which they were created. *)
Inductive result : Type :=
| RUndefined
| RObject (ref : nat) (fields : Registry).

Record Stats : Type := mkStats {
  cacheHits : nat;
  cacheMisses : nat;
  fetchCount : nat
}.

(** The arguments of [_fetchMapping]. *)
Record FetchArgs : Type := mkArgs {
  elasticsearchUrl : string;
  indexName : string;
  headers : list (string * string);
  cacheKey : string
}.

(** The service object.  [timeout] is the variable of that name in the
    closure [debounce] creates: the timer that is armed, if any, together
    with the arguments its callback [later] closes over. *)
Record t : Type := mk {
  cache : LRUCache.t result;
  pendingRequests : LRUCache.JSMap result;
  stats : Stats;
  timeout : option FetchArgs
}.

(** The constructor, lines 325-343. *)
Definition new : t :=
  {| cache := LRUCache.new 50;
     pendingRequests := [];
     stats := mkStats 0 0 0;
     timeout := None |}.

(** [debounce(func, wait)], lines 30-40: the function it returns cancels the
    armed timer, arms a new one for its own arguments, and returns nothing,
    that is [undefined]. *)
Definition debouncedFetch (s : t) (args : FetchArgs) : result * t :=
  (RUndefined,
   {| cache := cache s;
      pendingRequests := pendingRequests s;
      stats := stats s;
      timeout := Some args |}).

Definition makeKey (elasticsearchUrl indexName : string) : string :=
  elasticsearchUrl ++ "#" ++ indexName.

(** How far the synchronous part of a call of [fetchMapping] gets. *)
Inductive entered : Type :=
| Returned (r : result)                       (* a [return] before the await *)
| Awaiting (cacheKey : string) (awaited : result).   (* suspended at line 372 *)

(** [fetchMapping], lines 352-370: up to the [await]. *)
Definition fetchMapping_enter (s : t) (elasticsearchUrl indexName : string)
           (headers : list (string * string)) : entered * t :=
  let cacheKey := makeKey elasticsearchUrl indexName in
  if LRUCache.has (cache s) cacheKey then
    let '(r, cache') := LRUCache.get (cache s) cacheKey in
    (Returned (match r with Some v => v | None => RUndefined end),
     {| cache := cache';
        pendingRequests := pendingRequests s;
        stats := mkStats (S (cacheHits (stats s))) (cacheMisses (stats s))
                         (fetchCount (stats s));
        timeout := timeout s |})
  else
    let stats1 := mkStats (cacheHits (stats s)) (S (cacheMisses (stats s)))
                          (fetchCount (stats s)) in
    if LRUCache.map_has cacheKey (pendingRequests s) then
      (Returned (match LRUCache.map_get cacheKey (pendingRequests s) with
                 | Some v => v
                 | None => RUndefined
                 end),
       {| cache := cache s;
          pendingRequests := pendingRequests s;
          stats := stats1;
          timeout := timeout s |})
    else
      let s1 := {| cache := cache s;
                   pendingRequests := pendingRequests s;
                   stats := stats1;
                   timeout := timeout s |} in
      let '(requestPromise, s2) :=
        debouncedFetch s1 (mkArgs elasticsearchUrl indexName headers cacheKey) in
      (Awaiting cacheKey requestPromise,
       {| cache := cache s2;
          pendingRequests :=
            LRUCache.map_set cacheKey requestPromise (pendingRequests s2);
          stats := stats s2;
          timeout := timeout s2 |}).

(** [fetchMapping], lines 372-376: after the [await].  The awaited value is
    no promise, so it is the result itself; the [finally] clause runs and
    the call resolves with that value. *)
Definition fetchMapping_resume (s : t) (cacheKey : string) (awaited : result)
  : result * t :=
  (awaited,
   {| cache := cache s;
      pendingRequests := LRUCache.map_delete cacheKey (pendingRequests s);
      stats := stats s;
      timeout := timeout s |}).

(** What the network and [response.json()] can answer. *)
Inductive FetchOutcome : Type :=
| TransportError                 (* the fetch promise rejects *)
| NotOk (status : nat)           (* a response with [ok] false *)
| MalformedBody                  (* [response.json()] rejects *)
| Body (data : value).           (* a 2xx response with a JSON body *)

(** [_fetchMapping], lines 382-394: up to the request. *)
Definition _fetchMapping_start (s : t) : t :=
  {| cache := cache s;
     pendingRequests := pendingRequests s;
     stats := mkStats (cacheHits (stats s)) (cacheMisses (stats s))
                      (S (fetchCount (stats s)));
     timeout := timeout s |}.

(** [_fetchMapping], lines 396-415: from the answer on.  [ref] is the
    identity of the object the run creates ([fields] in [parse], or the
    [{}] of the catch clause). *)
Definition _fetchMapping_settle (s : t) (args : FetchArgs) (outcome : FetchOutcome)
           (ref : nat) : result * t :=
  match outcome with
  | Body data =>
      match parse data with
      | Normal fields =>
          (RObject ref fields,
           {| cache := LRUCache.set (cache s) (cacheKey args) (RObject ref fields);
              pendingRequests := pendingRequests s;
              stats := stats s;
              timeout := timeout s |})
      | Throw _ => (RObject ref [], s)
      end
  | TransportError | NotOk _ | MalformedBody => (RObject ref [], s)
  end.

(** [clearCache], lines 466-474.  Clearing the map of pending requests does
    not touch the debounce timer. *)
Definition clearCache (s : t) : t :=
  {| cache := LRUCache.clear (cache s);
     pendingRequests := [];
     stats := mkStats 0 0 0;
     timeout := timeout s |}.

(** [clearIndexCache], lines 481-484: the call [this.cache.delete(cacheKey)]
    on the [LRUCache] held in [this.cache]. *)
Definition clearIndexCache (s : t) (elasticsearchUrl indexName : string)
  : completion unit * t :=
  let cacheKey := makeKey elasticsearchUrl indexName in
  match LRUCache.call1 RUndefined "this.cache" (cache s) "delete" cacheKey with
  | (Normal _, cache') =>
      (Normal tt,
       {| cache := cache';
          pendingRequests := pendingRequests s;
          stats := stats s;
          timeout := timeout s |})
  | (Throw e, cache') =>
      (Throw e,
       {| cache := cache';
          pendingRequests := pendingRequests s;
          stats := stats s;
          timeout := timeout s |})
  end.

(** [getStats], lines 489-495. *)
Definition getStats (s : t) : Stats * nat * nat :=
  (stats s, LRUCache.size (cache s), List.length (pendingRequests s)).

(** *** The service under the event loop

    The service object together with what the event loop holds for it: the
    calls of [fetchMapping] suspended at their [await], the requests sent
    and not yet answered, and what each finished call resolved with. *)
Record World : Type := mkWorld {
  service : t;
  awaiting : list (nat * string * result);
  inFlight : list FetchArgs;
  sent : list string;
  resolved : list (nat * result);
  discarded : list result;
  nextRef : nat
}.

Definition init : World :=
  {| service := new; awaiting := []; inFlight := []; sent := [];
     resolved := []; discarded := []; nextRef := 0 |}.

Inductive event : Type :=
| Call (caller : nat) (elasticsearchUrl indexName : string)
       (headers : list (string * string))
    (* some code calls [fetchMapping]; [caller] names the call *)
| Resume
    (* a microtask: the call suspended longest continues after its await *)
| TimerFires
    (* a task: the wait of the debounce timer has passed, [later] runs *)
| Response (n : nat) (outcome : FetchOutcome).
    (* a task: the [n]-th request in flight is answered *)

Fixpoint removeNth {A : Type} (n : nat) (l : list A) : list A :=
  match n, l with
  | _, [] => []
  | O, _ :: r => r
  | S n', x :: r => x :: removeNth n' r
  end.

(** One event.  [None]: the event cannot happen in this state.  A task
    starts only when no microtask is left. *)
Definition step (w : World) (e : event) : option World :=
  match e with
  | Call caller elasticsearchUrl indexName headers =>
      match fetchMapping_enter (service w) elasticsearchUrl indexName headers with
      | (Returned r, s') =>
          Some {| service := s'; awaiting := awaiting w; inFlight := inFlight w;
                  sent := sent w;
                  resolved := resolved w ++ [(caller, r)];
                  discarded := discarded w; nextRef := nextRef w |}
      | (Awaiting key awaited, s') =>
          Some {| service := s';
                  awaiting := awaiting w ++ [(caller, key, awaited)];
                  inFlight := inFlight w; sent := sent w;
                  resolved := resolved w;
                  discarded := discarded w; nextRef := nextRef w |}
      end
  | Resume =>
      match awaiting w with
      | [] => None
      | (caller, key, awaited) :: rest =>
          let '(r, s') := fetchMapping_resume (service w) key awaited in
          Some {| service := s'; awaiting := rest; inFlight := inFlight w;
                  sent := sent w;
                  resolved := resolved w ++ [(caller, r)];
                  discarded := discarded w; nextRef := nextRef w |}
      end
  | TimerFires =>
      match awaiting w, timeout (service w) with
      | [], Some args =>
          let s := service w in
          let s1 := {| cache := cache s; pendingRequests := pendingRequests s;
                       stats := stats s; timeout := None |} in
          Some {| service := _fetchMapping_start s1; awaiting := [];
                  inFlight := inFlight w ++ [args];
                  sent := sent w ++ [(elasticsearchUrl args ++ "/" ++ indexName args
                                      ++ "/_mapping")%string];
                  resolved := resolved w;
                  discarded := discarded w; nextRef := nextRef w |}
      | _, _ => None
      end
  | Response n outcome =>
      match awaiting w, nth_error (inFlight w) n with
      | [], Some args =>
          let '(r, s') := _fetchMapping_settle (service w) args outcome (nextRef w) in
          Some {| service := s'; awaiting := [];
                  inFlight := removeNth n (inFlight w); sent := sent w;
                  resolved := resolved w;
                  discarded := discarded w ++ [r];
                  nextRef := S (nextRef w) |}
      | _, _ => None
      end
  end.

Fixpoint run (w : World) (es : list event) : option World :=
  match es with
  | [] => Some w
  | e :: rest =>
      match step w e with
      | Some w' => run w' rest
      | None => None
      end
  end.

(** What the call named [caller] resolved with, if it has finished. *)
Fixpoint resolution (caller : nat) (rs : list (nat * result)) : option result :=
  match rs with
  | [] => None
  | (c, r) :: rest => if Nat.eqb c caller then Some r else resolution caller rest
  end.

End ESMappingService.

(** ** The validator (esDiagnosticsProvider.js, lines 20-790) *)

Module ESValidator.
Import JSString JSValue MappingParser.

(** [monaco.MarkerSeverity]. *)
Inductive Severity : Type := Error | Warning | Info.

(** An element of a [path] array: a property name, an array index, or
    [undefined]. *)
Inductive PathSeg : Type :=
| PKey (name : string)
| PIndex (i : nat)
| PUndefined.

(** An element of the array [errors].  A property the object literal does
    not mention is [None]. *)
Record Finding : Type := mkFinding {
  severity : Severity;
  message : string;
  path : option (list PathSeg);
  startLineNumber : option nat;
  startColumn : option nat;
  endLineNumber : option nat;
  endColumn : option nat
}.

Definition plain (sev : Severity) (msg : string) : Finding :=
  mkFinding sev msg None None None None None.

Definition located (sev : Severity) (msg : string) (p : list PathSeg) : Finding :=
  mkFinding sev msg (Some p) None None None None.

(** Code that pushes into [errors] and may raise: what was pushed before an
    exception stays in the array. *)
Definition M (A : Type) : Type := list Finding -> completion A * list Finding.

Definition ret {A : Type} (a : A) : M A := fun errors => (Normal a, errors).

Definition bind {A B : Type} (m : M A) (f : A -> M B) : M B :=
  fun errors =>
    match m errors with
    | (Normal a, errors') => f a errors'
    | (Throw e, errors') => (Throw e, errors')
    end.

Definition push (f : Finding) : M unit := fun errors => (Normal tt, errors ++ [f]).

Definition lift {A : Type} (c : completion A) : M A := fun errors => (c, errors).

Definition skip : M unit := ret tt.

Notation "x <- m ;; k" := (bind m (fun x => k))
  (at level 61, m at next level, right associativity).
Notation "m ;;; k" := (bind m (fun _ => k))
  (at level 61, right associativity).

(** [for (const k in v)] and [arr.forEach((x, i) => ...)] with a body that
    neither breaks nor returns ([continue] ends the body). *)
Section Loops.
Context (body : string -> value -> M unit).

Fixpoint forEntries (ps : list (string * value)) : M unit :=
  match ps with
  | [] => skip
  | (k, v) :: rest => body k v ;;; forEntries rest
  end.

Fixpoint forIndexed (i : nat) (l : list value) : M unit :=
  match l with
  | [] => skip
  | v :: rest => body (ofNat i) v ;;; forIndexed (S i) rest
  end.

(** Every such loop of the validator runs over a value whose [typeof] is
    ['object']: an object, an array, or [null], which enumerates nothing. *)
Definition forIn (v : value) : M unit :=
  match v with
  | VObj props => forEntries props
  | VArr l => forIndexed 0 l
  | _ => skip
  end.
End Loops.

Section ForEach.
Context (body : value -> nat -> M unit).
Fixpoint forEach_from (i : nat) (l : list value) : M unit :=
  match l with
  | [] => skip
  | v :: rest => body v i ;;; forEach_from (S i) rest
  end.
Definition forEach (l : list value) : M unit := forEach_from 0 l.
End ForEach.

Fixpoint forOf (body : string -> M unit) (l : list string) : M unit :=
  match l with
  | [] => skip
  | x :: rest => body x ;;; forOf body rest
  end.

(** Apply [f] to the own property [key] of an object when it has one. *)
Section WithProp.
Context {A : Type} (key : string) (f : value -> A) (d : A).
Fixpoint withProp (props : list (string * value)) : A :=
  match props with
  | [] => d
  | (k, v) :: r => if String.eqb k key then f v else withProp r
  end.
End WithProp.

(** A property of a value that is an object or an array: never raises. *)
Definition prop (v : value) (key : string) : value :=
  match get v key with
  | Normal x => x
  | Throw _ => VUndefined
  end.

(** [list.includes(v)] for a list of strings and any value [v]. *)
Definition includesValue (l : list string) (v : value) : bool :=
  match v with
  | VStr s => includes l s
  | _ => false
  end.

(** [/position (\d+)/] on a message: the digits of the leftmost match. *)
Fixpoint takeDigits (s : string) : string :=
  match s with
  | EmptyString => EmptyString
  | String c r => if isDigit c then String c (takeDigits r) else EmptyString
  end.

Fixpoint matchPosition (msg : string) : option string :=
  match msg with
  | EmptyString => None
  | String _ r =>
      if String.prefix "position " msg then
        match takeDigits (substringFrom 9 msg) with
        | EmptyString => matchPosition r
        | digits => Some digits
        end
      else matchPosition r
  end.

(** [match ? parseInt(match[1]) : 0]. *)
Definition reportedPosition (msg : string) : nat :=
  match matchPosition msg with
  | Some digits => parseDigits digits 0
  | None => 0
  end.

(** [getErrorPosition(text, position)], lines 88-94. *)
Definition getErrorPosition (text : string) (position : nat) : nat * nat :=
  let lines := split newline (substring0 position text) in
  (List.length lines, String.length (last lines EmptyString) + 1).

Definition validTopLevelFields : list string :=
  ["query"; "aggs"; "aggregations"; "sort"; "size"; "from";
   "timeout"; "track_total_hits"; "track_scores"; "min_score";
   "source"; "_source"; "fields"; "script_fields"; "explain";
   "profile"; "highlight"; "rescore"; "search_after"; "collapse"].

(** [validateTopLevel], lines 99-128. *)
Definition validateTopLevel (query : value) : M unit :=
  if notAnObject query then
    push (mkFinding Error "Root must be an object" None
                    (Some 1) (Some 1) (Some 1) (Some 10))
  else
    forIn (fun key _ =>
             if negb (includes validTopLevelFields key) then
               push (plain Warning ("Unknown top-level field: " ++ quoted key))
             else skip)
          query.

(** [isValidQueryType], lines 205-219. *)
Definition validQueryTypes : list string :=
  ["match"; "match_phrase"; "match_phrase_prefix"; "match_bool_prefix";
   "multi_match"; "combined_fields"; "bool"; "boosting"; "dis_max";
   "constant_score"; "function_score"; "script_score"; "exists"; "ids";
   "prefix"; "range"; "regexp"; "wildcard"; "fuzzy"; "type"; "terms";
   "terms_set"; "term"; "nested"; "has_child"; "has_parent"; "parent_id";
   "geo_bounding_box"; "geo_distance"; "geo_polygon"; "geo_shape";
   "more_like_this"; "script"; "simple_query_string"; "query_string";
   "percolate"; "rank_feature"; "distance_feature"; "interval";
   "span_term"; "span_multi"; "span_first"; "span_near"; "span_or";
   "span_not"; "span_containing"; "span_within"; "span_field_masking"].

Definition isValidQueryType (type : string) : bool := includes validQueryTypes type.

(** [isValidAggregationType], lines 626-636. *)
Definition validAggregationTypes : list string :=
  ["avg"; "max"; "min"; "sum"; "stats"; "extended_stats"; "cardinality";
   "value_count"; "percentiles"; "percentile_ranks"; "terms"; "filter";
   "filters"; "range"; "date_range"; "ip_range"; "histogram"; "date_histogram";
   "geo_bounds"; "geo_centroid"; "nested"; "reverse_nested"; "top_hits";
   "bucket_sort"; "composite"; "significant_terms"; "significant_text";
   "sampler"; "diversified_sampler"].

Definition isValidAggregationType (type : string) : bool :=
  includes validAggregationTypes type.

Section Validator.

(** [Number.prototype.toString], the engine's. *)
Variable numberToString : Q -> string.

(** [this.currentFields]. *)
Variable currentFields : Registry.

(** [`${v}`] and the computed name in [o[v]]: the conversion can raise. *)
Definition str (v : value) : M string := lift (toStr numberToString v).

(** [!this.currentFields[name]]. *)
Definition unmapped (name : string) : bool :=
  match read currentFields name with
  | Some _ => false
  | None => true
  end.

Definition notFound (fieldName : string) : string :=
  "Field " ++ quoted fieldName ++ " not found in mapping".

(** [validateMatchOptions], lines 314-339. *)
Definition validMatchOptions : list string :=
  ["query"; "analyzer"; "boost"; "operator"; "minimum_should_match";
   "fuzziness"; "prefix_length"; "max_expansions"; "zero_terms_query";
   "lenient"; "cutoff_frequency"; "auto_generate_synonyms_phrase_query"].

Definition validateMatchOptions (options : value) (path : list PathSeg) : M unit :=
  forIn (fun option optionValue =>
           (if negb (includes validMatchOptions option) then
              push (located Warning
                      ("Unknown match query option: " ++ quoted option)
                      (path ++ [PKey option]))
            else skip) ;;;
           (if String.eqb option "operator"
               && negb (includesValue ["and"; "or"] optionValue) then
              got <- str optionValue ;;
              push (located Error
                      ("operator must be " ++ quoted "and" ++ " or " ++ quoted "or"
                       ++ ", got " ++ quoted got)
                      (path ++ [PKey option]))
            else skip))
        options.

(** [validateMatchQuery], lines 271-309. *)
Definition validateMatchQuery (matchQuery : value) (path : list PathSeg) : M unit :=
  if notAnObject matchQuery then
    push (located Error "match query must be an object" path)
  else if Nat.eqb (List.length (ownKeys matchQuery)) 0 then
    push (located Error "match query requires at least one field" path)
  else
    forIn (fun fieldName fieldValue =>
             (if unmapped fieldName then
                push (located Warning (notFound fieldName) (path ++ [PKey fieldName]))
              else skip) ;;;
             (if typeofObject fieldValue && negb (notAnObject fieldValue) then
                validateMatchOptions fieldValue (path ++ [PKey fieldName])
              else skip))
          matchQuery.

(** [validateTermQuery], lines 344-374. *)
Definition validateTermQuery (termQuery : value) (path : list PathSeg) : M unit :=
  if notAnObject termQuery then
    push (located Error "term query must be an object" path)
  else
    forIn (fun fieldName fieldValue =>
             (if unmapped fieldName then
                push (located Warning (notFound fieldName) (path ++ [PKey fieldName]))
              else skip) ;;;
             (if typeofObject fieldValue && negb (isArray fieldValue) then
                push (located Error
                        ("term query value for " ++ quoted fieldName
                         ++ " should be a simple value or array")
                        (path ++ [PKey fieldName]))
              else skip))
          termQuery.

(** [validateRangeQuery], lines 379-446. *)
Definition validRangeOperators : list string :=
  ["gt"; "gte"; "lt"; "lte"; "format"; "time_zone"].

Definition rangeFieldTypes : list string :=
  ["integer"; "long"; "float"; "double"; "date"; "ip"].

Definition validateRangeQuery (rangeQuery : value) (path : list PathSeg) : M unit :=
  if notAnObject rangeQuery then
    push (located Error "range query must be an object" path)
  else
    match ownKeys rangeQuery with
    | [fieldName] =>
        let rangeValue := prop rangeQuery fieldName in
        if notAnObject rangeValue || isArray rangeValue then
          push (located Error
                  ("range query value for " ++ quoted fieldName
                   ++ " must be an object with range operators")
                  (path ++ [PKey fieldName]))
        else
          let operators := ownKeys rangeValue in
          if Nat.eqb (List.length operators) 0 then
            push (located Error
                    "range query requires at least one range operator (gt, gte, lt, lte)"
                    (path ++ [PKey fieldName]))
          else
            forOf (fun op =>
                     if negb (includes validRangeOperators op) then
                       push (located Error
                               ("Unknown range operator: " ++ quoted op
                                ++ ". Valid operators are: "
                                ++ join ", " validRangeOperators)
                               (path ++ [PKey fieldName; PKey op]))
                     else skip)
                  operators ;;;
            match read currentFields fieldName with
            | Some field =>
                let fieldType := member_type field in
                if negb (includesValue rangeFieldTypes fieldType) then
                  got <- str fieldType ;;
                  push (located Warning
                          ("range query is typically used with numeric/date fields, got "
                           ++ quoted got)
                          (path ++ [PKey fieldName]))
                else skip
            | None => skip
            end
    | _ =>
        push (located Error "range query must have exactly one field" path)
    end.

(** [validateExistsQuery], lines 451-478. *)
Definition validateExistsQuery (existsQuery : value) (path : list PathSeg) : M unit :=
  if notAnObject existsQuery then
    push (located Error "exists query must be an object" path)
  else
    match prop existsQuery "field" with
    | VStr field =>
        if String.eqb field EmptyString then
          push (located Error
                  ("exists query requires a " ++ quoted "field"
                   ++ " property with a string value") path)
        else if unmapped field then
          push (located Warning (notFound field) (path ++ [PKey "field"]))
        else skip
    | _ =>
        push (located Error
                ("exists query requires a " ++ quoted "field"
                 ++ " property with a string value") path)
    end.

(** [field.split('^')[0]] in [validateMultiMatchQuery]: only a string has a
    method [split]. *)
Definition splitBoost (field : value) : completion string :=
  match field with
  | VStr s => Normal (hd EmptyString (split "^"%char s))
  | VNull => Throw (TypeError "Cannot read properties of null (reading 'split')")
  | VUndefined =>
      Throw (TypeError "Cannot read properties of undefined (reading 'split')")
  | _ => Throw (TypeError "field.split is not a function")
  end.

(** [validateMultiMatchQuery], lines 483-532. *)
Definition validateMultiMatchQuery (multiMatchQuery : value) (path : list PathSeg)
  : M unit :=
  if notAnObject multiMatchQuery then
    push (located Error "multi_match query must be an object" path)
  else
    (if negb (truthy (prop multiMatchQuery "query")) then
       push (located Error
               ("multi_match query requires " ++ quoted "query" ++ " property") path)
     else skip) ;;;
    let fields := prop multiMatchQuery "fields" in
    if negb (truthy fields) then
      push (located Error
              ("multi_match query requires " ++ quoted "fields"
               ++ " property (array)") path)
    else
      match fields with
      | VArr l =>
          forEach (fun field index =>
                     fieldName <- lift (splitBoost field) ;;
                     if unmapped fieldName then
                       push (located Warning (notFound fieldName)
                               (path ++ [PKey "fields"; PIndex index]))
                     else skip)
                  l
      | _ =>
          push (located Error (quoted "fields" ++ " must be an array")
                  (path ++ [PKey "fields"]))
      end.

Section QueryClauses.
(** The function [validateQuery] that the clause validators call back. *)
Variable validateQuery : value -> list PathSeg -> M unit.

(** [validateBoolQuery], lines 224-266. *)
Definition validBoolClauses : list string := ["must"; "filter"; "should"; "must_not"].

Definition validateBoolQuery (boolQuery : value) (path : list PathSeg) : M unit :=
  if notAnObject boolQuery then
    push (located Error "bool query must be an object" path)
  else
    forIn (fun clause clauseValue =>
             if isIndexLike clause then skip
             else if negb (includes validBoolClauses clause) then
               push (located Error
                       ("Unknown bool clause: " ++ quoted clause
                        ++ ". Valid clauses are: " ++ join ", " validBoolClauses)
                       (path ++ [PKey clause]))
             else
               match clauseValue with
               | VArr subQueries =>
                   forEach (fun subQuery _ =>
                              validateQuery subQuery (path ++ [PKey clause]))
                           subQueries
               | _ =>
                   push (located Error (quoted clause ++ " must be an array")
                           (path ++ [PKey clause]))
               end)
          boolQuery.

(** [validateNestedQuery], lines 537-575. *)
Definition validateNestedQuery (nestedQuery : value) (path : list PathSeg) : M unit :=
  if notAnObject nestedQuery then
    push (located Error "nested query must be an object" path)
  else
    let nestedPath := prop nestedQuery "path" in
    if negb (truthy nestedPath) then
      push (located Error
              ("nested query requires " ++ quoted "path" ++ " property") path)
    else
      let missingQuery :=
        push (located Error
                ("nested query requires " ++ quoted "query" ++ " property") path) in
      match nestedQuery with
      | VObj props =>
          withProp "query"
            (fun q =>
               if truthy q then validateQuery q (path ++ [PKey "query"])
               else missingQuery)
            missingQuery props
      | _ => missingQuery
      end ;;;
      name <- str nestedPath ;;
      match read currentFields name with
      | Some nestedField =>
          if negb (member_isNested nestedField) then
            push (located Error
                    ("Field " ++ quoted name ++ " is not a nested field")
                    (path ++ [PKey "path"]))
          else skip
      | None => skip
      end.

(** The body of the loop of [validateQuery], lines 143-199. *)
Definition validateClause (path : list PathSeg) (queryType : string)
           (queryValue : value) : M unit :=
  if negb (isValidQueryType queryType) then
    push (located Error ("Unknown query type: " ++ quoted queryType)
            (path ++ [PKey queryType]))
  else if String.eqb queryType "bool" then
    validateBoolQuery queryValue (path ++ [PKey queryType])
  else if String.eqb queryType "match" || String.eqb queryType "match_phrase"
          || String.eqb queryType "match_phrase_prefix" then
    validateMatchQuery queryValue (path ++ [PKey queryType])
  else if String.eqb queryType "term" || String.eqb queryType "terms" then
    validateTermQuery queryValue (path ++ [PKey queryType])
  else if String.eqb queryType "range" then
    validateRangeQuery queryValue (path ++ [PKey queryType])
  else if String.eqb queryType "exists" then
    validateExistsQuery queryValue (path ++ [PKey queryType])
  else if String.eqb queryType "multi_match" then
    validateMultiMatchQuery queryValue (path ++ [PKey queryType])
  else if String.eqb queryType "nested" then
    validateNestedQuery queryValue (path ++ [PKey queryType])
  else if notAnObject queryValue then
    push (located Error (quoted queryType ++ " query must be an object")
            (path ++ [PKey queryType]))
  else skip.

End QueryClauses.

(** [validateQuery], lines 133-200. *)
Fixpoint validateQuery (query : value) (path : list PathSeg) {struct query} : M unit :=
  if notAnObject query then
    push (located Error "Query must be an object" path)
  else
    forIn (validateClause validateQuery path) query.

Section Aggregations.
(** The function [validateAggregations] that [validateAggregationConfig]
    calls back. *)
Variable validateAggregations : value -> list PathSeg -> M unit.

(** [validateAggregationConfig], lines 641-698. *)
Definition validateAggregationConfig (aggType : string) (config : value)
           (path : list PathSeg) : M unit :=
  if notAnObject config then
    push (located Error
            ("Aggregation config for " ++ quoted aggType ++ " must be an object")
            path)
  else
    (if negb (includes ["filter"; "filters"; "multi_terms"; "diversified_sampler"]
                       aggType) then
       let field := prop config "field" in
       if negb (truthy field) then
         push (located Warning
                 (quoted aggType ++ " aggregation typically requires a "
                  ++ quoted "field" ++ " property") path)
       else
         name <- str field ;;
         if unmapped name then
           push (located Warning (notFound name) (path ++ [PKey "field"]))
         else skip
     else skip) ;;;
    (if String.eqb aggType "date_histogram" then
       if negb (truthy (prop config "calendar_interval"))
          && negb (truthy (prop config "fixed_interval")) then
         push (located Warning
                 "date_histogram should have calendar_interval or fixed_interval"
                 path)
       else skip
     else if String.eqb aggType "histogram" then
       if negb (truthy (prop config "interval")) then
         push (located Warning
                 ("histogram requires " ++ quoted "interval" ++ " property") path)
       else skip
     else skip) ;;;
    match config with
    | VObj props =>
        let viaAggregations :=
          withProp "aggregations"
            (fun nestedAggs =>
               if truthy nestedAggs then validateAggregations nestedAggs path
               else skip)
            skip props in
        withProp "aggs"
          (fun nestedAggs =>
             if truthy nestedAggs then validateAggregations nestedAggs path
             else viaAggregations)
          viaAggregations props
    | _ => skip
    end.

(** The body of the loop of [validateAggregations], lines 590-620. *)
Definition validateAggregation (path : list PathSeg) (aggName : string)
           (aggValue : value) : M unit :=
  if isIndexLike aggName then skip
  else if notAnObject aggValue then
    push (located Error ("Aggregation " ++ quoted aggName ++ " must be an object")
            (path ++ [PKey aggName]))
  else
    match aggValue with
    | VObj ((aggType, config) :: _) =>
        if negb (isValidAggregationType aggType) then
          push (located Error ("Unknown aggregation type: " ++ quoted aggType)
                  (path ++ [PKey aggName; PKey aggType]))
        else
          validateAggregationConfig aggType config
            (path ++ [PKey aggName; PKey aggType])
    | VArr (_ :: _) =>
        push (located Error ("Unknown aggregation type: " ++ quoted "0")
                (path ++ [PKey aggName; PKey "0"]))
    | _ =>
        push (located Error ("Unknown aggregation type: " ++ quoted "undefined")
                (path ++ [PKey aggName; PUndefined]))
    end.

End Aggregations.

(** [validateAggregations], lines 580-621. *)
Fixpoint validateAggregations (aggs : value) (path : list PathSeg) {struct aggs}
  : M unit :=
  if notAnObject aggs then
    push (located Error "aggregations must be an object" path)
  else
    forIn (validateAggregation validateAggregations path) aggs.

(** [[...path, x]] when [path] may be [undefined]: spreading [undefined]
    raises. *)
Definition spread (path : option (list PathSeg)) : completion (list PathSeg) :=
  match path with
  | Some p => Normal p
  | None => Throw (TypeError "path is not iterable")
  end.

Definition sortNotFound (name : string) : string :=
  "Sort field " ++ quoted name ++ " not found in mapping".

(** [validateSort], lines 703-747. *)
Definition validateSort (sort : value) (path : option (list PathSeg)) : M unit :=
  match sort with
  | VArr items =>
      forEach
        (fun sortItem index =>
           match sortItem with
           | VStr name =>
               if unmapped name && negb (includes ["_score"; "_doc"] name) then
                 p <- lift (spread path) ;;
                 push (located Warning (sortNotFound name) (p ++ [PIndex index]))
               else skip
           | _ =>
               if typeofObject sortItem then
                 forIn
                   (fun fieldName order =>
                      (if unmapped fieldName
                          && negb (includes ["_score"; "_doc"] fieldName) then
                         p <- lift (spread path) ;;
                         push (located Warning (sortNotFound fieldName)
                                 (p ++ [PIndex index; PKey fieldName]))
                       else skip) ;;;
                      (if typeofObject order then
                         direction <- lift (get order "order") ;;
                         if truthy direction
                            && negb (includesValue ["asc"; "desc"] direction) then
                           got <- str direction ;;
                           p <- lift (spread path) ;;
                           push (located Error
                                   ("Sort order must be " ++ quoted "asc" ++ " or "
                                    ++ quoted "desc" ++ ", got " ++ quoted got)
                                   (p ++ [PIndex index; PKey fieldName; PKey "order"]))
                         else skip
                       else skip))
                   sortItem
               else skip
           end)
        items
  | _ => skip
  end.

(** Comparisons of [validateCommonFields] on a value that is an integer. *)
Definition negative (v : value) : bool :=
  match v with VNum q => Z.ltb (Qnum q) 0 | _ => false end.

Definition above10000 (v : value) : bool :=
  match v with VNum q => negb (Qle_bool q (inject_Z 10000)) | _ => false end.

Definition plus (a b : value) : value :=
  match a, b with
  | VNum x, VNum y => VNum (Qred (Qplus x y))
  | _, _ => VUndefined
  end.

(** [validateCommonFields], lines 752-789. *)
Definition validateCommonFields (query : value) : M unit :=
  let size := prop query "size" in
  let from := prop query "from" in
  (if negb (isUndefined size) then
     if negb (isInteger size) || negative size then
       push (plain Warning "size must be a non-negative integer")
     else if above10000 size then
       push (plain Info
               "Large size value may impact performance. Consider using pagination.")
     else skip
   else skip) ;;;
  (if negb (isUndefined from) then
     if negb (isInteger from) || negative from then
       push (plain Warning "from must be a non-negative integer")
     else skip
   else skip) ;;;
  (if isInteger from && isInteger size && above10000 (plus from size) then
     push (plain Info
             "from + size exceeds 10000. Consider using search_after for deep pagination.")
   else skip).

(** [JSON.parse], the engine's: the value, or a SyntaxError with its
    message. *)
Variable JSON_parse : string -> completion value.

(** The [try] block of [validate], lines 40-64.  The names read from the
    document are names that no built-in prototype defines, so each read is a
    read of an own property; the one exception is [sort] on a root that is
    an array, where the function found is no array and [validateSort] does
    nothing with it, as with an absent [sort]. *)
Definition validateBody (dslText : string) : M unit :=
  query <- lift (JSON_parse dslText) ;;
  validateTopLevel query ;;;
  q <- lift (get query "query") ;;
  (if truthy q then validateQuery q [PKey "query"] else skip) ;;;
  (let aggs := if truthy (prop query "aggs") then prop query "aggs"
               else prop query "aggregations" in
   if truthy aggs then validateAggregations aggs [PKey "aggs"] else skip) ;;;
  (if truthy (prop query "sort") then validateSort (prop query "sort") None
   else skip) ;;;
  validateCommonFields query.

(** The finding the [catch] clause pushes, lines 66-79. *)
Definition syntaxFinding (dslText : string) (e : exn) : Finding :=
  let position := reportedPosition (exn_message e) in
  let '(lineNumber, column) := getErrorPosition dslText position in
  mkFinding Error ("JSON syntax error: " ++ exn_message e) None
            (Some lineNumber) (Some column) (Some lineNumber) (Some (column + 1)).

(** [validate(dslText)], lines 37-83. *)
Definition validate (dslText : string) : list Finding :=
  match validateBody dslText [] with
  | (Normal _, errors) => errors
  | (Throw e, errors) => errors ++ [syntaxFinding dslText e]
  end.

End Validator.

End ESValidator.

(** ** A reference [JSON.parse] and number printer

    The validator and the context resolver take [JSON.parse] and the
    printing of numbers from the engine; the properties below hold for any
    such functions.  To run the code on concrete texts this module gives one
    instance: a recursive-descent parser of the JSON grammar (without
    [\u] escapes) that reports the offset of the offending character in
    the wording of V8, [Unexpected token c in JSON at position n]. *)

Module RefJSON.
Import JSString JSValue.

Inductive presult (A : Type) : Type :=
| POk (a : A) (pos : nat) (rest : string)
| PErr (message : string).
Arguments POk {A} a pos rest.
Arguments PErr {A} message.

Definition isJsonSpace (c : ascii) : bool :=
  let n := nat_of_ascii c in
  Nat.eqb n 32 || Nat.eqb n 9 || Nat.eqb n 10 || Nat.eqb n 13.

Fixpoint skipWs (pos : nat) (s : string) : nat * string :=
  match s with
  | EmptyString => (pos, s)
  | String c r => if isJsonSpace c then skipWs (S pos) r else (pos, s)
  end.

Definition unexpected (pos : nat) (s : string) : string :=
  match s with
  | EmptyString => "Unexpected end of JSON input"
  | String c _ =>
      "Unexpected token " ++ String c EmptyString ++ " in JSON at position "
      ++ ofNat pos
  end.

Definition unescape (c : ascii) : option ascii :=
  if Ascii.eqb c dquote then Some dquote
  else if Ascii.eqb c "\"%char then Some "\"%char
  else if Ascii.eqb c "/"%char then Some "/"%char
  else if Ascii.eqb c "b"%char then Some "008"%char
  else if Ascii.eqb c "f"%char then Some "012"%char
  else if Ascii.eqb c "n"%char then Some "010"%char
  else if Ascii.eqb c "r"%char then Some "013"%char
  else if Ascii.eqb c "t"%char then Some "009"%char
  else None.

(** The characters of a string literal after its opening quote. *)
Fixpoint pString (pos : nat) (s : string) : presult string :=
  match s with
  | EmptyString => PErr "Unexpected end of JSON input"
  | String c r =>
      if Ascii.eqb c dquote then POk EmptyString (S pos) r
      else if Ascii.eqb c "\"%char then
        match r with
        | EmptyString => PErr "Unexpected end of JSON input"
        | String e r' =>
            match unescape e with
            | None => PErr (unexpected (S pos) r)
            | Some ch =>
                match pString (S (S pos)) r' with
                | POk t p rest => POk (String ch t) p rest
                | PErr m => PErr m
                end
            end
        end
      else if Nat.ltb (nat_of_ascii c) 32 then PErr (unexpected pos s)
      else
        match pString (S pos) r with
        | POk t p rest => POk (String c t) p rest
        | PErr m => PErr m
        end
  end.

Fixpoint spanDigits (s : string) : string * string :=
  match s with
  | EmptyString => (EmptyString, EmptyString)
  | String c r =>
      if isDigit c then let '(d, rest) := spanDigits r in (String c d, rest)
      else (EmptyString, s)
  end.

(** A number literal: [-? int frac? exp?]. *)
Definition pNumber (pos : nat) (s : string) : presult Q :=
  let '(neg, p0, s0) :=
    match s with
    | String "-"%char r => (true, S pos, r)
    | _ => (false, pos, s)
    end in
  let '(int, s1) := spanDigits s0 in
  let p1 := p0 + String.length int in
  if String.eqb int EmptyString then PErr (unexpected p0 s0)
  else if Nat.ltb 1 (String.length int) && String.prefix "0" int then
    PErr ("Unexpected number in JSON at position " ++ ofNat (S p0))
  else
    let '(frac, p2, s2, fracOk) :=
      match s1 with
      | String "."%char r =>
          let '(d, rest) := spanDigits r in
          (d, S p1 + String.length d, rest, negb (String.eqb d EmptyString))
      | _ => (EmptyString, p1, s1, true)
      end in
    if negb fracOk then PErr (unexpected (S p1) (substringFrom 1 s1))
    else
      let '(expNeg, expDigits, p3, s3, expOk) :=
        match s2 with
        | String c r =>
            if Ascii.eqb c "e"%char || Ascii.eqb c "E"%char then
              let '(sgn, q, r') :=
                match r with
                | String "-"%char r' => (true, S (S p2), r')
                | String "+"%char r' => (false, S (S p2), r')
                | _ => (false, S p2, r)
                end in
              let '(d, rest) := spanDigits r' in
              (sgn, d, q + String.length d, rest, negb (String.eqb d EmptyString))
            else (false, EmptyString, p2, s2, true)
        | EmptyString => (false, EmptyString, p2, s2, true)
        end in
      if negb expOk then PErr "Unexpected end of JSON input"
      else
        let mantissa := Z.of_nat (parseDigits (int ++ frac) 0) in
        let scale := Z.of_nat (String.length frac) in
        let e := Z.of_nat (parseDigits expDigits 0) in
        let e' := ((if expNeg then - e else e) - scale)%Z in
        let q :=
          if Z.leb 0 e' then inject_Z (mantissa * 10 ^ e')
          else Qred (Qmake mantissa (Z.to_pos (10 ^ (- e')))) in
        POk (if neg then Qopp q else q) p3 s3.

(** Defining a property: a repeated key keeps its place and takes the later
    value. *)
Fixpoint define (key : string) (v : value) (props : list (string * value))
  : list (string * value) :=
  match props with
  | [] => [(key, v)]
  | (k, old) :: r =>
      if String.eqb k key then (k, v) :: r else (k, old) :: define key v r
  end.

Definition outOfFuel : string := "Maximum call stack size exceeded".

Fixpoint pValue (fuel : nat) (pos : nat) (s : string) {struct fuel} : presult value :=
  match fuel with
  | O => PErr outOfFuel
  | S fuel' =>
      let '(pos, s) := skipWs pos s in
      match s with
      | EmptyString => PErr "Unexpected end of JSON input"
      | String c r =>
          if Ascii.eqb c "{"%char then
            let '(p1, s1) := skipWs (S pos) r in
            match s1 with
            | String "}"%char r1 => POk (VObj []) (S p1) r1
            | _ => pMembers fuel' p1 s1 []
            end
          else if Ascii.eqb c "["%char then
            let '(p1, s1) := skipWs (S pos) r in
            match s1 with
            | String "]"%char r1 => POk (VArr []) (S p1) r1
            | _ => pElements fuel' p1 s1 []
            end
          else if Ascii.eqb c dquote then
            match pString (S pos) r with
            | POk t p rest => POk (VStr t) p rest
            | PErr m => PErr m
            end
          else if Ascii.eqb c "-"%char || isDigit c then
            match pNumber pos s with
            | POk q p rest => POk (VNum q) p rest
            | PErr m => PErr m
            end
          else if String.prefix "true" s then
            POk (VBool true) (pos + 4) (substringFrom 4 s)
          else if String.prefix "false" s then
            POk (VBool false) (pos + 5) (substringFrom 5 s)
          else if String.prefix "null" s then
            POk VNull (pos + 4) (substringFrom 4 s)
          else PErr (unexpected pos s)
      end
  end

with pMembers (fuel : nat) (pos : nat) (s : string) (acc : list (string * value))
              {struct fuel} : presult value :=
  match fuel with
  | O => PErr outOfFuel
  | S fuel' =>
      match s with
      | EmptyString => PErr "Unexpected end of JSON input"
      | String c r =>
          if Ascii.eqb c dquote then
            match pString (S pos) r with
            | PErr m => PErr m
            | POk key p1 s1 =>
                let '(p2, s2) := skipWs p1 s1 in
                match s2 with
                | String ":"%char r2 =>
                    match pValue fuel' (S p2) r2 with
                    | PErr m => PErr m
                    | POk v p3 s3 =>
                        let '(p4, s4) := skipWs p3 s3 in
                        match s4 with
                        | String ","%char r4 =>
                            let '(p5, s5) := skipWs (S p4) r4 in
                            pMembers fuel' p5 s5 (define key v acc)
                        | String "}"%char r4 =>
                            POk (VObj (define key v acc)) (S p4) r4
                        | _ => PErr (unexpected p4 s4)
                        end
                    end
                | _ => PErr (unexpected p2 s2)
                end
            end
          else PErr (unexpected pos s)
      end
  end

with pElements (fuel : nat) (pos : nat) (s : string) (acc : list value)
               {struct fuel} : presult value :=
  match fuel with
  | O => PErr outOfFuel
  | S fuel' =>
      match pValue fuel' pos s with
      | PErr m => PErr m
      | POk v p1 s1 =>
          let '(p2, s2) := skipWs p1 s1 in
          match s2 with
          | String ","%char r2 => pElements fuel' (S p2) r2 (acc ++ [v])
          | String "]"%char r2 => POk (VArr (acc ++ [v])) (S p2) r2
          | _ => PErr (unexpected p2 s2)
          end
      end
  end.

Definition parse (text : string) : completion value :=
  match pValue (S (String.length text)) 0 text with
  | PErr m => Throw (SyntaxError m)
  | POk v p rest =>
      let '(p', rest') := skipWs p rest in
      match rest' with
      | EmptyString => Normal v
      | _ => Throw (SyntaxError (unexpected p' rest'))
      end
  end.

(** Printing a number: the decimal digits of an integer; otherwise integer
    part, point, and up to twenty fraction digits. *)
Fixpoint fractionDigits (fuel : nat) (num den : Z) : string :=
  match fuel with
  | O => EmptyString
  | S fuel' =>
      if Z.eqb num 0 then EmptyString
      else
        let d := (num * 10 / den)%Z in
        ofNat (Z.to_nat d) ++ fractionDigits fuel' (num * 10 - d * den)%Z den
  end.

Definition numberToString (q : Q) : string :=
  let n := Qnum q in
  let d := Zpos (Qden q) in
  let a := Z.abs n in
  let sign := if Z.ltb n 0 then "-" else EmptyString in
  let whole := ofNat (Z.to_nat (a / d)) in
  let rest := (a mod d)%Z in
  if Z.eqb rest 0 then sign ++ whole
  else sign ++ whole ++ "." ++ fractionDigits 20 rest d.

End RefJSON.

(** ** The context resolver (esDSLParser, [getDSLContext] and its helpers) *)

Module DSLParser.
Import JSString JSValue.

(** The context record that [analyzePath] and [getDefaultContext] build.
    [None] is [null]; [boolClause] is [None] while the property is absent. *)
Record Context : Type := mkContext {
  path : list string;
  location : string;
  queryType : option string;
  inArray : bool;
  arrayIndex : Z;
  expecting : string;
  depth : nat;
  parentKey : option string;
  currentKey : option string;
  boolClause : option string
}.

(** [getDefaultContext]. *)
Definition getDefaultContext : Context :=
  {| path := [];
     location := "unknown";
     queryType := None;
     inArray := false;
     arrayIndex := (-1)%Z;
     expecting := "key";
     depth := 0;
     parentKey := None;
     currentKey := None;
     boolClause := None |}.

(** [isValidQueryType] of the parser. *)
Definition validQueryTypes : list string :=
  ["match"; "match_phrase"; "match_phrase_prefix"; "match_bool_prefix";
   "multi_match"; "combined_fields"; "bool"; "boosting"; "dis_max";
   "constant_score"; "function_score"; "script_score"; "exists"; "ids";
   "prefix"; "range"; "regexp"; "wildcard"; "fuzzy"; "type"; "terms";
   "terms_set"; "term"; "nested"; "has_child"; "has_parent"; "parent_id";
   "geo_bounding_box"; "geo_distance"; "geo_polygon"; "geo_shape";
   "more_like_this"; "script"; "simple_query_string"; "query_string";
   "percolate"; "rank_feature"; "distance_feature"; "interval"].

Definition isValidQueryType (type : string) : bool := includes validQueryTypes type.

(** *** [partialParse] *)

Record BraceCount : Type := mkBraces {
  openBrace : nat; closeBrace : nat; openBracket : nat; closeBracket : nat
}.

Definition isChar (c : ascii) (x : string) : bool :=
  String.eqb (String c EmptyString) x.

(** The first loop: braces and brackets outside string literals. *)
Fixpoint countBraces (s : string) (inString escapeNext : bool) (b : BraceCount)
  : BraceCount :=
  match s with
  | EmptyString => b
  | String char rest =>
      if escapeNext then countBraces rest inString false b
      else if isChar char "\" then countBraces rest inString true b
      else if Ascii.eqb char dquote then countBraces rest (negb inString) false b
      else if negb inString then
        countBraces rest inString false
          (mkBraces
             (openBrace b + if isChar char "{" then 1 else 0)
             (closeBrace b + if isChar char "}" then 1 else 0)
             (openBracket b + if isChar char "[" then 1 else 0)
             (closeBracket b + if isChar char "]" then 1 else 0))
      else countBraces rest inString false b
  end.

(** The backslashes directly before index [i]: the loop over [j]. *)
Fixpoint escapeCount (code : string) (i : nat) : nat :=
  match i with
  | O => 0
  | S j =>
      match charAt code j with
      | Some c => if isChar c "\" then S (escapeCount code j) else 0
      | None => 0
      end
  end.

(** The second loop, from index [n - 1] down to 0; [Some p] when it breaks
    with [lastCompletePos = p]. *)
Fixpoint scanBack (code : string) (n : nat) (depth : Z) (inString : bool)
  : option nat :=
  match n with
  | O => None
  | S i =>
      match charAt code i with
      | None => scanBack code i depth inString
      | Some char =>
          let depth1 :=
            if negb inString then
              let d := if isChar char "}" || isChar char "]"
                       then (depth + 1)%Z else depth in
              if isChar char "{" || isChar char "[" then (d - 1)%Z else d
            else depth in
          let inString1 :=
            if Ascii.eqb char dquote then
              if Nat.even (escapeCount code i) then negb inString else inString
            else inString in
          if Z.eqb depth1 0 && Nat.ltb i (String.length code - 1) then Some (i + 1)
          else scanBack code i depth1 inString1
      end
  end.

Fixpoint repeat_string (s : string) (n : nat) : string :=
  match n with
  | O => EmptyString
  | S n' => s ++ repeat_string s n'
  end.

(** The text [partialParse] hands to [JSON.parse]. *)
Definition truncate (code : string) : string :=
  let b := countBraces code false false (mkBraces 0 0 0 0) in
  if Nat.ltb (closeBrace b) (openBrace b) || Nat.ltb (closeBracket b) (openBracket b)
  then
    let lastCompletePos :=
      match scanBack code (String.length code) 0%Z false with
      | Some p => p
      | None => String.length code
      end in
    let truncated := substring0 lastCompletePos code in
    let openBraces := countChar "{"%char truncated in
    let closeBraces := countChar "}"%char truncated in
    let openBrackets := countChar "["%char truncated in
    let closeBrackets := countChar "]"%char truncated in
    truncated ++ repeat_string "}" (openBraces - closeBraces)
              ++ repeat_string "]" (openBrackets - closeBrackets)
  else code.

(** *** [findPathToOffset] and [processChar] *)

Record State : Type := mkState {
  s_path : list string;
  s_inString : bool;
  s_escapeNext : bool;
  s_currentKey : option string;
  s_expectingKey : bool;
  s_depth : Z
}.

Definition initialState : State :=
  {| s_path := []; s_inString := false; s_escapeNext := false;
     s_currentKey := None; s_expectingKey := true; s_depth := 0%Z |}.

(** The first index at or after [pos] that holds no white space: the loop
    over [nextPos]. *)
Fixpoint skipSpaces (rest : string) : option ascii :=
  match rest with
  | EmptyString => None
  | String c r => if isSpace c then skipSpaces r else Some c
  end.

Definition nextIsColon (code : string) (pos : nat) : bool :=
  match skipSpaces (substringFrom (pos + 1) code) with
  | Some c => isChar c ":"
  | None => false
  end.

(** [processChar(char, state, pos, code)]; [None] is the [undefined] that
    [code[i]] gives past the end of the text. *)
Definition processChar (char : option ascii) (st : State) (pos : nat)
           (code : string) : State :=
  let charIs x := match char with Some c => isChar c x | None => false end in
  if s_escapeNext st then
    mkState (s_path st) (s_inString st) false (s_currentKey st)
            (s_expectingKey st) (s_depth st)
  else if charIs "\" then
    mkState (s_path st) (s_inString st) true (s_currentKey st)
            (s_expectingKey st) (s_depth st)
  else if charIs QUOTE then
    let inString := negb (s_inString st) in
    match inString, s_currentKey st with
    | false, Some key =>
        if s_expectingKey st then
          if nextIsColon code pos then
            mkState (s_path st ++ [key]) inString false None false (s_depth st)
          else
            mkState (s_path st) inString false None (s_expectingKey st) (s_depth st)
        else
          mkState (s_path st) inString false (s_currentKey st)
                  (s_expectingKey st) (s_depth st)
    | _, _ =>
        mkState (s_path st) inString false (s_currentKey st)
                (s_expectingKey st) (s_depth st)
    end
  else if s_inString st then
    let appended :=
      match char with
      | Some c => String c EmptyString
      | None => "undefined"
      end in
    let key := match s_currentKey st with Some k => k | None => EmptyString end in
    mkState (s_path st) true false (Some (key ++ appended)%string)
            (s_expectingKey st) (s_depth st)
  else if charIs "{" then
    mkState (s_path st) false false (s_currentKey st) true (s_depth st + 1)%Z
  else if charIs "}" then
    mkState (removelast (s_path st)) false false (s_currentKey st) true
            (s_depth st - 1)%Z
  else if charIs "[" then
    mkState (s_path st ++ ["[]"]) false false (s_currentKey st) true (s_depth st)
  else if charIs "]" then
    mkState (if String.eqb (last (s_path st) EmptyString) "[]"
                && negb (Nat.eqb (List.length (s_path st)) 0)
             then removelast (s_path st) else s_path st)
            false false (s_currentKey st) false (s_depth st)
  else if charIs "," then
    mkState (s_path st) false false (s_currentKey st) true (s_depth st)
  else if charIs ":" then
    mkState (s_path st) false false (s_currentKey st) false (s_depth st)
  else st.

(** The loop of [findPathToOffset]: indices [i], [i + 1], ..., [n] times. *)
Fixpoint scan (code : string) (i n : nat) (st : State) : State :=
  match n with
  | O => st
  | S n' => scan code (S i) n' (processChar (charAt code i) st i code)
  end.

Definition findPath (code : string) (offset : nat) : list string :=
  s_path (scan code 0 offset initialState).

(** *** [analyzePath] *)

(** The loop over the items of the path. *)
Fixpoint classify (items : list string) (ctx : Context) : Context :=
  match items with
  | [] => ctx
  | item :: rest =>
      if String.eqb item "[]" then
        classify rest
          (mkContext (path ctx) (location ctx) (queryType ctx) true
                     (arrayIndex ctx) (expecting ctx) (depth ctx)
                     (parentKey ctx) (currentKey ctx) (boolClause ctx))
      else
        let ctx1 :=
          mkContext (path ctx ++ [item]) (location ctx) (queryType ctx)
                    (inArray ctx) (arrayIndex ctx) (expecting ctx) (depth ctx)
                    (currentKey ctx) (Some item) (boolClause ctx) in
        let withLocation (l : string) :=
          mkContext (path ctx1) l (queryType ctx1) (inArray ctx1)
                    (arrayIndex ctx1) (expecting ctx1) (depth ctx1)
                    (parentKey ctx1) (currentKey ctx1) (boolClause ctx1) in
        classify rest
          (if String.eqb item "query" then withLocation "query"
           else if String.eqb item "aggs" || String.eqb item "aggregations"
           then withLocation "aggs"
           else if String.eqb item "bool" then withLocation "bool"
           else if includes ["must"; "should"; "filter"; "must_not"] item then
             mkContext (path ctx1) "bool_clause" (queryType ctx1) (inArray ctx1)
                       (arrayIndex ctx1) (expecting ctx1) (depth ctx1)
                       (parentKey ctx1) (currentKey ctx1) (Some item)
           else if isValidQueryType item then
             mkContext (path ctx1) (location ctx1) (Some item) (inArray ctx1)
                       (arrayIndex ctx1) (expecting ctx1) (depth ctx1)
                       (parentKey ctx1) (currentKey ctx1) (boolClause ctx1)
           else ctx1)
  end.

(** Key or value, from the current line up to the offset. *)
Definition expectingAt (code : string) (offset : nat) : string :=
  let textBefore := substring0 offset code in
  let currentLine := last (split newline textBefore) EmptyString in
  match lastIndexOf ":"%char currentLine with
  | Some colonPos =>
      let afterColon := substringFrom (colonPos + 1) currentLine in
      let quotes := countChar dquote afterColon in
      if Nat.eqb (Nat.modulo quotes 2) 1 then "value"
      else if Nat.eqb (String.length (trim afterColon)) 0
              || String.eqb (trim afterColon) "{"
              || String.eqb (trim afterColon) "[" then "key"
      else "value"
  | None => "key"
  end.

Definition analyzePath (items : list string) (code : string) (offset : nat)
  : Context :=
  let ctx := classify items getDefaultContext in
  mkContext (path ctx) (location ctx) (queryType ctx) (inArray ctx)
            (arrayIndex ctx) (expectingAt code offset) (List.length items)
            (parentKey ctx) (currentKey ctx) (boolClause ctx).

Section WithEngine.
(** [JSON.parse], the engine's. *)
Variable JSON_parse : string -> completion value.

(** The argument [code]: a text, or [undefined] ([None]) from a caller that
    has none. *)
Definition textOf (code : option string) : string :=
  match code with Some s => s | None => "undefined" end.

(** [partialParse(code)]: reading [code.length] raises when there is no
    text. *)
Definition partialParse (code : option string) : completion value :=
  match code with
  | None =>
      Throw (TypeError "Cannot read properties of undefined (reading 'length')")
  | Some s =>
      match JSON_parse (truncate s) with
      | Normal ast => Normal ast
      | Throw _ => Normal (VObj [])
      end
  end.

(** [findPathToOffset(ast, code, offset)]: calling [code.substring] raises
    when there is no text. *)
Definition findPathToOffset (ast : value) (code : option string) (offset : nat)
  : completion (list string) :=
  match code with
  | None =>
      Throw (TypeError
               "Cannot read properties of undefined (reading 'substring')")
  | Some s => Normal (findPath s offset)
  end.

(** The [try] block of [getDSLContext]. *)
Definition getDSLContext_body (code : option string) (offset : nat)
  : completion Context :=
  let parsed :=
    match JSON_parse (textOf code) with
    | Normal ast => Normal ast
    | Throw _ => partialParse code
    end in
  match parsed with
  | Throw e => Throw e
  | Normal ast =>
      match findPathToOffset ast code offset with
      | Throw e => Throw e
      | Normal items => Normal (analyzePath items (textOf code) offset)
      end
  end.

(** [try { body } catch (error) { handler }]. *)
Definition tryCatch {A : Type} (body : completion A) (handler : exn -> completion A)
  : completion A :=
  match body with
  | Normal a => Normal a
  | Throw e => handler e
  end.

(** [getDSLContext(code, offset)]. *)
Definition getDSLContext (code : option string) (offset : nat) : completion Context :=
  tryCatch (getDSLContext_body code offset)
           (fun error => Normal getDefaultContext).

End WithEngine.

End DSLParser.

(** ** The completion provider (esCompletionProvider.js, lines 341-664) *)

Module ESCompletionProvider.
Import JSString JSValue MappingParser.

(** [monaco.languages.CompletionItemKind], the members used. *)
Inductive Kind : Type := Property | Function | Value | Snippet.

Record WordRange : Type := mkRange {
  startLineNumber : nat;
  startColumn : nat;
  endLineNumber : nat;
  endColumn : nat
}.

(** A suggestion.  Of its properties the label, the kind, the detail and
    the range are kept; [insertText], [insertTextRules], [documentation] and
    [sortText] are text for the editor that no code here reads. *)
Record Suggestion : Type := mkSuggestion {
  label : string;
  kind : Kind;
  detail : option string;
  range : option WordRange
}.

Definition suggest (l : string) (k : Kind) (d : string) : Suggestion :=
  mkSuggestion l k (Some d) None.

(** [QUERY_TEMPLATES], lines 155-336: label and description of each. *)
Definition QUERY_TEMPLATES : list (string * string) :=
  [("match_all", "Match all documents");
   ("match query", "Full-text search");
   ("term query", "Exact value match");
   ("range query", "Range query");
   ("bool query", "Boolean combination");
   ("multi_match query", "Search multiple fields");
   ("exists query", "Field exists");
   ("terms aggregation", "Group by field values");
   ("date_histogram", "Time series aggregation");
   ("filter aggregation", "Filter and aggregate");
   ("complex query", "Complex query with aggregations")].

(** [getTemplateSuggestions], lines 640-649. *)
Definition getTemplateSuggestions : list Suggestion :=
  map (fun template => suggest (fst template) Snippet (snd template))
      QUERY_TEMPLATES.

(** [getQueryTypeSuggestions], lines 562-587. *)
Definition getQueryTypeSuggestions : list Suggestion :=
  map (fun q => suggest (fst q) Function (snd q))
      [("match", "Full-text search");
       ("term", "Exact value");
       ("terms", "Multiple values");
       ("range", "Range query");
       ("bool", "Boolean query");
       ("exists", "Field exists");
       ("match_phrase", "Phrase match");
       ("prefix", "Prefix match");
       ("wildcard", "Wildcard match");
       ("multi_match", "Multi-field search");
       ("nested", "Nested query");
       ("function_score", "Function score");
       ("dis_max", "Disjunction max")].

(** [getAggregationSuggestions], lines 606-635. *)
Definition getAggregationSuggestions : list Suggestion :=
  map (fun a => suggest (fst a) Function (snd a))
      [("terms", "Bucket by unique terms");
       ("avg", "Average");
       ("sum", "Sum");
       ("max", "Maximum");
       ("min", "Minimum");
       ("stats", "Statistics");
       ("extended_stats", "Extended statistics");
       ("cardinality", "Unique count");
       ("value_count", "Count values");
       ("filter", "Filter aggregation");
       ("filters", "Multiple filters");
       ("range", "Range buckets");
       ("date_range", "Date range buckets");
       ("date_histogram", "Date histogram");
       ("histogram", "Numeric histogram");
       ("nested", "Nested aggregation");
       ("reverse_nested", "Reverse nested");
       ("top_hits", "Top documents")].

(** The longest suffix of word characters: [s.match(/[\w_]+$/)], with the
    empty string when there is no match. *)
Fixpoint trailingWord (s : string) : string :=
  match s with
  | EmptyString => EmptyString
  | String c r =>
      if isWord c && Nat.eqb (String.length (trailingWord r)) (String.length r)
      then String c r
      else trailingWord r
  end.

(** [extractCurrentWord], lines 432-453. *)
Definition extractCurrentWord (lineUntilPosition : string) : string :=
  match lastIndexOf dquote lineUntilPosition with
  | None => trailingWord lineUntilPosition
  | Some lastQuoteIndex =>
      let afterQuote := substringFrom (lastQuoteIndex + 1) lineUntilPosition in
      if includesChar dquote afterQuote then trailingWord afterQuote
      else afterQuote
  end.

Record Position : Type := mkPosition { lineNumber : nat; column : nat }.

(** [getWordRange], lines 458-470. *)
Definition getWordRange (lineUntilPosition : string) (position : Position)
  : WordRange :=
  let currentWord := extractCurrentWord lineUntilPosition in
  mkRange (lineNumber position) (column position - String.length currentWord)
          (lineNumber position) (column position).

(** [filterSuggestions], lines 475-483. *)
Definition filterSuggestions (suggestions : list Suggestion) (currentWord : string)
  : list Suggestion :=
  if String.eqb currentWord EmptyString then suggestions
  else
    let lowerWord := toLowerCase currentWord in
    filter (fun s => startsWith (toLowerCase (label s)) lowerWord) suggestions.

(** [deduplicateSuggestions], lines 654-663: the first suggestion of every
    label.  No function of the provider calls it. *)
Fixpoint deduplicate_from (seen : list string) (suggestions : list Suggestion)
  : list Suggestion :=
  match suggestions with
  | [] => []
  | s :: rest =>
      if includes seen (label s) then deduplicate_from seen rest
      else s :: deduplicate_from (seen ++ [label s]) rest
  end.

Definition deduplicateSuggestions (suggestions : list Suggestion) : list Suggestion :=
  deduplicate_from [] suggestions.

(** The text model of the editor, for a text whose lines end in a newline
    character and a position inside the text: lines and columns count from
    1. *)
Definition getLineContent (text : string) (lineNumber : nat) : string :=
  nth (lineNumber - 1) (split newline text) EmptyString.

Fixpoint lineStart (lines : list string) (n : nat) : nat :=
  match n, lines with
  | S n', line :: rest => String.length line + 1 + lineStart rest n'
  | _, _ => 0
  end.

Definition getOffsetAt (text : string) (position : Position) : nat :=
  lineStart (split newline text) (lineNumber position - 1) + (column position - 1).

Section Provider.

(** [Number.prototype.toString] and [JSON.parse], the engine's. *)
Variable numberToString : Q -> string.
Variable JSON_parse : string -> completion value.

(** [this.currentFields]. *)
Variable currentFields : Registry.

(** [getFieldNameSuggestions], lines 592-601: one suggestion for every own
    property of the registry; the template literal converts the type of the
    entry, which can raise. *)
Fixpoint fieldNameSuggestions (entries : Registry) : completion (list Suggestion) :=
  match entries with
  | [] => Normal []
  | (name, info) :: rest =>
      match toStr numberToString (fi_type info) with
      | Throw e => Throw e
      | Normal type =>
          match fieldNameSuggestions rest with
          | Throw e => Throw e
          | Normal suggestions => Normal (suggest name Property type :: suggestions)
          end
      end
  end.

Definition getFieldNameSuggestions : completion (list Suggestion) :=
  fieldNameSuggestions (ownEntries currentFields).

(** [getKeySuggestions], lines 488-528. *)
Definition getKeySuggestions (dslContext : DSLParser.Context)
  : completion (list Suggestion) :=
  let path := DSLParser.path dslContext in
  let location := DSLParser.location dslContext in
  if Nat.eqb (DSLParser.depth dslContext) 0 || Nat.eqb (List.length path) 0 then
    Normal
      [suggest "query" Property "Query clause";
       suggest "aggs" Property "Aggregations";
       suggest "sort" Property "Sort criteria";
       suggest "size" Property "Number of results";
       suggest "from" Property "Starting offset";
       suggest "_source" Property "Source filtering"]
  else if String.eqb location "query" && Nat.eqb (List.length path) 1 then
    Normal getQueryTypeSuggestions
  else if String.eqb location "bool" && Nat.eqb (List.length path) 2 then
    Normal
      [suggest "must" Property "Must match";
       suggest "should" Property "Should match";
       suggest "filter" Property "Filter";
       suggest "must_not" Property "Must not match"]
  else if String.eqb location "bool_clause" then Normal getQueryTypeSuggestions
  else
    match DSLParser.queryType dslContext with
    | Some _ => getFieldNameSuggestions
    | None =>
        Normal (if String.eqb location "aggs" then getAggregationSuggestions
                else [])
    end.

(** [getValueSuggestions], lines 533-557.  The class has no method
    [getFieldValueSuggestions]: the call on line 553 raises. *)
Definition getValueSuggestions (dslContext : DSLParser.Context)
  : completion (list Suggestion) :=
  let queryType := DSLParser.queryType dslContext in
  let currentKey := DSLParser.currentKey dslContext in
  let suggestions :=
    match currentKey, queryType with
    | Some key, Some type =>
        if String.eqb key "operator" && includes ["match"; "match_phrase"] type then
          [mkSuggestion "or" Value None None; mkSuggestion "and" Value None None]
        else []
    | _, _ => []
    end in
  match currentKey with
  | Some key =>
      if negb (String.eqb key EmptyString) then
        match read currentFields key with
        | Some field =>
            Throw (TypeError "this.getFieldValueSuggestions is not a function")
        | None => Normal suggestions
        end
      else Normal suggestions
  | None => Normal suggestions
  end.

(** The in-progress token of a call: [currentWord], lines 374-378. *)
Definition currentWordAt (text : string) (position : Position) : string :=
  let lineContent := getLineContent text (lineNumber position) in
  extractCurrentWord (substring0 (column position - 1) lineContent).

(** [provideCompletionItems], lines 366-427, on the text and the position
    the editor hands over: the array [result.suggestions]. *)
Definition provideCompletionItems (text : string) (position : Position)
  : completion (list Suggestion) :=
  let code := text in
  let offset := getOffsetAt text position in
  let lineContent := getLineContent text (lineNumber position) in
  let lineUntilPosition := substring0 (column position - 1) lineContent in
  let currentWord := extractCurrentWord lineUntilPosition in
  let wordRange := getWordRange lineUntilPosition position in
  let codeBeforeWord := substring0 (offset - String.length currentWord) code in
  match DSLParser.getDSLContext JSON_parse (Some codeBeforeWord)
          (offset - String.length currentWord) with
  | Throw e => Throw e
  | Normal dslContext =>
      let byContext :=
        if String.eqb (DSLParser.expecting dslContext) "key" then
          getKeySuggestions dslContext
        else if String.eqb (DSLParser.expecting dslContext) "value" then
          getValueSuggestions dslContext
        else Normal [] in
      match byContext with
      | Throw e => Throw e
      | Normal suggestions =>
          let textBefore := substring0 offset code in
          let withTemplates :=
            if Nat.ltb (String.length (trim textBefore)) 50
            then suggestions ++ getTemplateSuggestions
            else suggestions in
          let filteredSuggestions := filterSuggestions withTemplates currentWord in
          Normal (map (fun s => mkSuggestion (label s) (kind s) (detail s)
                                             (Some wordRange))
                      filteredSuggestions)
      end
  end.

End Provider.

End ESCompletionProvider.

(** ** The value suggestion generator (esMappingService, lines 219-319) *)

Module ValueSuggestionGenerator.
Import JSString JSValue MappingParser.

Record Suggestion : Type := mkSuggestion { label : string; detail : string }.

(** An element of the arrays the generator returns: a suggestion, or what
    the object [formatExamples] inherits under one of the names of
    [Object.prototype], a built-in function or the prototype itself. *)
Inductive Item : Type :=
| Plain (s : Suggestion)
| Builtin (name : string).

Section Generator.
(** [Number.prototype.toString] and the value of [Date.now()], the
    engine's. *)
Variable numberToString : Q -> string.
Variable now : nat.

(** [getRangeOperatorSuggestions], lines 311-318. *)
Definition getRangeOperatorSuggestions (numberType : string) : list Suggestion :=
  [mkSuggestion "gte" "Greater than or equal";
   mkSuggestion "gt" "Greater than";
   mkSuggestion "lte" "Less than or equal";
   mkSuggestion "lt" "Less than"].

Definition dateExpressions : list Suggestion :=
  [mkSuggestion "now" "Current time";
   mkSuggestion "now-1d" "One day ago";
   mkSuggestion "now-7d" "Seven days ago";
   mkSuggestion "now-30d" "Thirty days ago";
   mkSuggestion "now-1M" "One month ago";
   mkSuggestion "now-1y" "One year ago";
   mkSuggestion "now/d" "Rounded to day";
   mkSuggestion "now-1d/d" "Yesterday rounded to day"].

(** [formatExamples[format]], lines 295-301: the computed name converts
    [format], which can raise; [None] is [undefined].  Whatever is found is
    an object or a function, and so truthy. *)
Definition formatExample (format : value) : completion (option Item) :=
  match toStr numberToString format with
  | Throw e => Throw e
  | Normal key =>
      Normal
        (if String.eqb key "strict_date_optional_time" then
           Some (Plain (mkSuggestion "2024-01-15T10:30:00Z" "ISO 8601 format"))
         else if String.eqb key "epoch_millis" then
           Some (Plain (mkSuggestion (ofNat now) "Epoch milliseconds"))
         else if String.eqb key "epoch_second" then
           Some (Plain (mkSuggestion (ofNat (now / 1000)) "Epoch seconds"))
         else if includes objectPrototypeNames key then Some (Builtin key)
         else None)
  end.

(** [getDateSuggestions], lines 282-306. *)
Definition getDateSuggestions (format : value) : completion (list Item) :=
  match formatExample format with
  | Throw e => Throw e
  | Normal (Some example) => Normal (example :: map Plain dateExpressions)
  | Normal None => Normal (map Plain dateExpressions)
  end.

(** [getSuggestions(field, context)], lines 226-277, for a [field] that
    [getFieldType] returned; [None] is [null]. *)
Definition getSuggestions (field : option Member) (context : string)
  : completion (list Item) :=
  match field with
  | None => Normal []
  | Some m =>
      match member_type m with
      | VStr type =>
          if String.eqb type "boolean" then
            Normal
              (map Plain
                 [mkSuggestion "true" "Boolean true";
                  mkSuggestion "false" "Boolean false"])
          else if String.eqb type "date" then getDateSuggestions (member_format m)
          else if includes ["integer"; "long"; "short"; "byte"] type then
            Normal
              (map Plain
                 (if String.eqb context "range"
                  then getRangeOperatorSuggestions "integer" else []))
          else if includes ["float"; "double"; "scaled_float"] type then
            Normal
              (map Plain
                 (if String.eqb context "range"
                  then getRangeOperatorSuggestions "float" else []))
          else if String.eqb type "ip" then
            Normal
              (map Plain
                 [mkSuggestion "192.168.0.0/16" "IP range";
                  mkSuggestion "10.0.0.0/8" "IP range"])
          else if String.eqb type "geo_point" then
            Normal
              (map Plain
                 [mkSuggestion
                    (quoted "lat" ++ ": 40.73, " ++ quoted "lon" ++ ": -73.98")
                    "Geo coordinate"])
          else Normal []
      | _ => Normal []
      end
  end.

End Generator.

End ValueSuggestionGenerator.

(** ** The mapping service: the functions around [fetchMapping]
    (esMappingService, lines 439-461 and 500-502) *)

Module MappingServiceQueries.
Import JSString JSValue MappingParser ESMappingService.

Section Queries.
Variable numberToString : Q -> string.
Variable now : nat.

(** [getValueSuggestions], lines 457-461, from the value [fields] that the
    awaited [fetchMapping] resolved with: [getFieldType] reads a property of
    [fields], which raises when [fields] is [undefined]. *)
Definition getValueSuggestions_resume (fields : result) (fieldName context : string)
  : completion (list ValueSuggestionGenerator.Item) :=
  match fields with
  | RUndefined =>
      Throw (TypeError ("Cannot read properties of undefined (reading '"
                        ++ fieldName ++ "')"))
  | RObject _ registry =>
      ValueSuggestionGenerator.getSuggestions numberToString now
        (getFieldType registry fieldName) context
  end.

End Queries.

(** [getCachedIndices], lines 500-502: [key.split('#')[1]] for every key of
    the cache; [None] is [undefined]. *)
Definition getCachedIndices (s : t) : list (option string) :=
  map (fun key => nth_error (split "#"%char key) 1) (LRUCache.keys (cache s)).

(** [preloadMappings], lines 439-446, as the event loop sees it: the callback
    of [map] calls [fetchMapping] for every name in turn, each call running
    up to its await before the next one starts.  [caller] names the first
    call, the following ones count on from it. *)
Fixpoint preloadMappings (caller : nat) (elasticsearchUrl : string)
         (indexNames : list string) (headers : list (string * string))
  : list event :=
  match indexNames with
  | [] => []
  | indexName :: rest =>
      Call caller elasticsearchUrl indexName headers
      :: preloadMappings (S caller) elasticsearchUrl rest headers
  end.

End MappingServiceQueries.

(** ** The diagnostics provider (esDiagnosticsProvider.js, lines 795-858) *)

Module ESDiagnosticsProvider.
Import JSString JSValue MappingParser.

(** A marker as [monaco.editor.setModelMarkers] takes it. *)
Record Marker : Type := mkMarker {
  severity : ESValidator.Severity;
  message : string;
  startLineNumber : nat;
  startColumn : nat;
  endLineNumber : nat;
  endColumn : nat
}.

(** [x || d] for a number that may be absent: 0 is falsy too. *)
Definition orElse (x : option nat) (d : nat) : nat :=
  match x with
  | Some O => d
  | Some n => n
  | None => d
  end.

(** The callback of [errors.map], lines 827-834. *)
Definition toMarker (error : ESValidator.Finding) : Marker :=
  mkMarker (ESValidator.severity error) (ESValidator.message error)
    (orElse (ESValidator.startLineNumber error) 1)
    (orElse (ESValidator.startColumn error) 1)
    (orElse (ESValidator.endLineNumber error)
            (orElse (ESValidator.startLineNumber error) 1))
    (orElse (ESValidator.endColumn error)
            (orElse (ESValidator.startColumn error) 1)).

Section Provider.
Variable numberToString : Q -> string.
Variable JSON_parse : string -> completion value.

(** [validate(model, indexName, fields)], lines 815-840, on the text of the
    model: the markers it sets and returns.  [fields] is [None] when the
    caller passes a falsy value, which [updateFields] replaces by [{}]. *)
Definition validate (dslText : string) (fields : option Registry) : list Marker :=
  let currentFields := match fields with Some f => f | None => [] end in
  map toMarker (ESValidator.validate numberToString currentFields JSON_parse dslText).

End Provider.

End ESDiagnosticsProvider.


(* ================================================================== *)
(** * Part II. The vocabulary of the statements                        *)
(* ================================================================== *)

(** ** The cache *)

Section CacheVocabulary.
Context {V : Type}.
Import LRUCache.

(** The entries of [m] other than the one for [key], in their order. *)
Definition others (key : string) (m : JSMap V) : JSMap V :=
  filter (fun e => negb (String.eqb (fst e) key)) m.

(** The invariant of every cache built by [new] and used through [get] and
    [set]. *)
Definition lru_inv (c : t V) : Prop := NoDup (keys c) /\ size c <= maxSize c.

(** [touch key order] records a use of [key] in a list of keys ordered by
    their last use, oldest first. *)
Definition touch (key : string) (order : list string) : list string :=
  filter (fun k => negb (String.eqb k key)) order ++ [key].

(** The keys a sequence of operations has used, in the order of their last
    use.  A [set] uses its key; a [get] uses its key when it finds it. *)
Fixpoint lastUses (ops : list (op V)) (c : t V) (order : list string)
  : list string :=
  match ops with
  | [] => order
  | o :: rest =>
      lastUses rest (step c o)
        (match o with
         | OpGet key => if has c key then touch key order else order
         | OpSet key _ => touch key order
         end)
  end.

(** The cache holds the keys used last: [order] is some older keys followed
    by the keys of the cache, and there are older keys only when the cache
    is full. *)
Definition recency_inv (c : t V) (order : list string) : Prop :=
  exists older,
    order = older ++ keys c
    /\ NoDup order
    /\ (size c < maxSize c -> older = []).

End CacheVocabulary.

(** ** The mapping service *)

Section ServiceVocabulary.
Import ESMappingService.

(** What holds of the service in every state the event loop can reach: the
    map of pending requests lists exactly the suspended calls, in order, and
    every value stored there and awaited is [undefined]. *)
Definition pending_inv (w : World) : Prop :=
  pendingRequests (service w)
  = map (fun x => (snd (fst x), snd x)) (awaiting w)
  /\ Forall (fun x => snd x = RUndefined) (awaiting w).

(** A failed fetch, as the sources list the ways: a transport error, a
    status that is not 2xx, a body that is not JSON. *)
Definition failed (outcome : FetchOutcome) : Prop :=
  match outcome with
  | TransportError | NotOk _ | MalformedBody => True
  | Body _ => False
  end.

End ServiceVocabulary.

(** Inputs used below: an endpoint, an index, and a mapping response for
    it. *)
Definition sampleUrl : string := "http://es:9200".
Definition sampleIndex : string := "logs".
Definition sampleMapping : JSValue.value :=
  JSValue.VObj
    [("logs",
      JSValue.VObj
        [("mappings",
          JSValue.VObj
            [("properties",
              JSValue.VObj
                [("age", JSValue.VObj [("type", JSValue.VStr "integer")])])])])].
Definition sampleRegistry : MappingParser.Registry :=
  [("age",
    MappingParser.Field (JSValue.VStr "integer") JSValue.VUndefined
      JSValue.VUndefined JSValue.VUndefined JSValue.VUndefined false false [])].

(** ** The validator *)

Definition isInfo (f : ESValidator.Finding) : bool :=
  match ESValidator.severity f with ESValidator.Info => true | _ => false end.
Definition isError (f : ESValidator.Finding) : bool :=
  match ESValidator.severity f with ESValidator.Error => true | _ => false end.
Definition isWarning (f : ESValidator.Finding) : bool :=
  match ESValidator.severity f with ESValidator.Warning => true | _ => false end.

(** The document of scenario D: [{"size": 50000, "from": 0}]. *)
Definition scenarioD : string := JSString.json "{'size': 50000, 'from': 0}".

Definition largeSize : ESValidator.Finding :=
  ESValidator.plain ESValidator.Info
    "Large size value may impact performance. Consider using pagination.".
Definition deepPagination : ESValidator.Finding :=
  ESValidator.plain ESValidator.Info
    "from + size exceeds 10000. Consider using search_after for deep pagination.".

Section ValidatorVocabulary.
Import JSString JSValue MappingParser ESValidator.

(** [m] raises nothing and appends exactly [added] to [errors]. *)
Definition pushes (m : M unit) (added : list Finding) : Prop :=
  forall errors, m errors = (Normal tt, errors ++ added).

(** [x] is an element of the array [v] or the value of one of the
    properties of the object [v]. *)
Inductive child : value -> value -> Prop :=
| child_element x l : In x l -> child x (VArr l)
| child_property k x props : In (k, x) props -> child x (VObj props).

Definition descendant : value -> value -> Prop :=
  clos_trans value child.

(** Some object inside [v], or [v] itself, has a property named [key]. *)
Fixpoint mentions (key : string) (v : value) : bool :=
  match v with
  | VArr l => existsb (mentions key) l
  | VObj props =>
      existsb (fun kv => match kv with
                         | (k, x) => String.eqb k key || mentions key x
                         end) props
  | _ => false
  end.

(** The values an entry of the registry took from the mapping. *)
Definition entryValues (fi : FieldInfo) : list value :=
  match fi with
  | Field type analyzer search_analyzer normalizer format _ _ _ =>
      [type; analyzer; search_analyzer; normalizer; format]
  | MultiField type _ => [type]
  end.

(** No value of the registry holds an object with a property [toString]:
    every type the registry can give converts to a string. *)
Definition printableRegistry (fields : Registry) : bool :=
  forallb (fun kv => forallb (fun v => negb (mentions "toString" v))
                             (entryValues (snd kv)))
          fields.

Variable numberToString : Q -> string.
Variable fields : Registry.

(** The string a value converts to, when its conversion returns. *)
Definition printed (v : value) : string :=
  match toStr numberToString v with
  | Normal s => s
  | Throw _ => EmptyString
  end.

(** The checks [validateAggregationConfig] makes before it descends. *)
Definition configChecks (aggType : string) (config : value) (path : list PathSeg)
  : list Finding :=
  (if negb (includes ["filter"; "filters"; "multi_terms"; "diversified_sampler"]
                     aggType) then
     if negb (truthy (prop config "field")) then
       [located Warning
          (quoted aggType ++ " aggregation typically requires a "
           ++ quoted "field" ++ " property") path]
     else if unmapped fields (printed (prop config "field")) then
       [located Warning (notFound (printed (prop config "field")))
          (path ++ [PKey "field"])]
     else []
   else [])
  ++ (if String.eqb aggType "date_histogram" then
        if negb (truthy (prop config "calendar_interval"))
           && negb (truthy (prop config "fixed_interval")) then
          [located Warning
             "date_histogram should have calendar_interval or fixed_interval" path]
        else []
      else if String.eqb aggType "histogram" then
        if negb (truthy (prop config "interval")) then
          [located Warning
             ("histogram requires " ++ quoted "interval" ++ " property") path]
        else []
      else []).

End ValidatorVocabulary.

(** A schema with the single field [a], of type integer, and queries that
    name the unmapped path [a.b]. *)
Definition integerField : MappingParser.FieldInfo :=
  MappingParser.Field (JSValue.VStr "integer") JSValue.VUndefined
    JSValue.VUndefined JSValue.VUndefined JSValue.VUndefined false false [].
Definition schemaA : MappingParser.Registry := [("a", integerField)].
Definition rangeOnExtension : string :=
  JSString.json "{'query':{'range':{'a.b':{'gte':1}}}}".
Definition matchOnExtension : string :=
  JSString.json "{'query':{'match':{'a.b':'x'}}}".
Definition sortOnExtension : string :=
  JSString.json "{'sort':['a.b']}".
Definition matchAfterRaise : string :=
  JSString.json "{'query':{'match':{'x':{'operator':{'toString':1}},'a.b':'v'}}}".
Definition digitNamedAggregation : string :=
  JSString.json "{'aggs':{'1':{'terms':{'field':'a.b'}}}}".

(** ** The completion provider *)

(** The text of two lines [{"aggs":{"a":{] and [da], with the cursor behind
    [da]. *)
Definition aggsText : string :=
  (JSString.json "{'aggs':{'a':{" ++ String JSString.newline "da")%string.
Definition aggsCursor : ESCompletionProvider.Position :=
  ESCompletionProvider.mkPosition 2 3.

(** ** The cache: values *)

Section CacheValues.
Context {V : Type}.
Import LRUCache.

(** The value the last [set] of [key] in a sequence of operations stored,
    starting from [current]. *)
Fixpoint lastValue (ops : list (op V)) (key : string) (current : option V)
  : option V :=
  match ops with
  | [] => current
  | OpSet k v :: rest =>
      lastValue rest key (if String.eqb k key then Some v else current)
  | OpGet _ :: rest => lastValue rest key current
  end.

End CacheValues.

(** ** The mapping service: counting *)

Section ServiceCounting.
Import ESMappingService.

(** The calls of [fetchMapping] among the events. *)
Definition isCall (e : event) : bool :=
  match e with Call _ _ _ _ => true | _ => false end.

Definition callCount (es : list event) : nat := length (filter isCall es).

(** 1 while the debounce timer is armed. *)
Definition armed (s : t) : nat :=
  match timeout s with Some _ => 1 | None => 0 end.

(** The address [_fetchMapping] requests. *)
Definition mappingUrl (elasticsearchUrl indexName : string) : string :=
  (elasticsearchUrl ++ "/" ++ indexName ++ "/_mapping")%string.

(** The relations between the counters, the cache and what the event loop
    holds, after [n] calls. *)
Definition counters_inv (w : World) (n : nat) : Prop :=
  fetchCount (stats (service w)) = length (sent w)
  /\ cacheHits (stats (service w)) + cacheMisses (stats (service w)) = n
  /\ fetchCount (stats (service w)) + armed (service w)
     <= cacheMisses (stats (service w))
  /\ length (sent w) = length (inFlight w) + length (discarded w)
  /\ lru_inv (cache (service w))
  /\ LRUCache.maxSize (cache (service w)) = 50.

End ServiceCounting.

(** ** The mapping service: preloading *)

Section PreloadVocabulary.
Import ESMappingService.

(** The calls of [preloadMappings] once every one of them is suspended at
    its await. *)
Fixpoint suspended (caller : nat) (elasticsearchUrl : string)
         (indexNames : list string) : list (nat * string * result) :=
  match indexNames with
  | [] => []
  | indexName :: rest =>
      (caller, makeKey elasticsearchUrl indexName, RUndefined)
      :: suspended (S caller) elasticsearchUrl rest
  end.

(** The arguments the debounce timer holds after calls for [indexNames]. *)
Definition lastArmed (elasticsearchUrl : string) (headers : list (string * string))
           (indexNames : list string) (before : option FetchArgs)
  : option FetchArgs :=
  fold_left
    (fun _ indexName =>
       Some (mkArgs elasticsearchUrl indexName headers
                    (makeKey elasticsearchUrl indexName)))
    indexNames before.

End PreloadVocabulary.

(** ** The validator: the offset a message reports *)

Section PositionVocabulary.
Import JSString.






End PositionVocabulary.

(** ** The registry: names that a read finds without an entry *)

Section RegistryVocabulary.
Import JSString JSValue MappingParser.

(** [name] is one of the names of [Object.prototype], or the name of a
    property of the entry that the registry has as its prototype: a read
    under it finds something whether or not an entry is stored under it. *)
Definition reserved (fields : Registry) (name : string) : bool :=
  includes objectPrototypeNames name
  || match lookup fields "__proto__" with
     | Some proto =>
         match entryProp proto name with Some _ => true | None => false end
     | None => false
     end.

(** The first dot-segment of a field name. *)
Definition firstSegment (fieldName : string) : string :=
  hd EmptyString (split "."%char fieldName).

(** The entry [parseProperties] stores for a field that has a type and
    nothing else. *)
Definition typedField (type : string) : FieldInfo :=
  Field (VStr type) VUndefined VUndefined VUndefined VUndefined false false [].

(** A registry after the assignments, in this order, of the fields [b], [1],
    [__proto__] and [0], as [parse] makes them for three indices whose
    mappings declare [b], then [1] and [__proto__], then [0]. *)
Definition protoRegistry : Registry :=
  [("b", typedField "keyword"); ("1", typedField "long");
   ("__proto__", typedField "text"); ("0", typedField "date")].

End RegistryVocabulary.

(** ** The mapping parser *)

Section ParserVocabulary.
Import JSString JSValue MappingParser.

(** What the body of the loop of [parseProperties] does for one [field]
    under its full path. *)
Definition fieldStep (field : value) (fields : Registry) (fullPath : string)
  : completion Registry :=
  match field with
  | VObj fprops =>
      let fields1 := assign fields fullPath (fieldEntry field) in
      let r1 :=
        MappingParser.withProp "properties"
          (fun sub =>
             if truthy sub then parseProperties sub fields1 fullPath
             else Normal fields1)
          (Normal fields1) fprops in
      match r1 with
      | Throw e => Throw e
      | Normal fields2 =>
          let mf := getOwn fprops "fields" in
          if truthy mf then multiFieldsLoop (entries mf) fields2 fullPath
          else Normal fields2
      end
  | _ => flatField field fields fullPath
  end.

(** The loop of [parseProperties] over the enumerable properties. *)
Fixpoint eachProperty (prefix : string) (ps : list (string * value))
         (fields : Registry) : completion Registry :=
  match ps with
  | [] => Normal fields
  | (fieldName, field) :: rest =>
      match fieldStep field fields (fullPathOf prefix fieldName) with
      | Throw e => Throw e
      | Normal fields' => eachProperty prefix rest fields'
      end
  end.

(** The same loop as [parseProperties] runs it over the elements of an
    array, and over the characters of a string. *)
Fixpoint eachElement (prefix : string) (i : nat) (l : list value)
         (fields : Registry) : completion Registry :=
  match l with
  | [] => Normal fields
  | field :: rest =>
      match fieldStep field fields (fullPathOf prefix (ofNat i)) with
      | Throw e => Throw e
      | Normal fields' => eachElement prefix (S i) rest fields'
      end
  end.

Fixpoint eachFlat (prefix : string) (ps : list (string * value))
         (fields : Registry) : completion Registry :=
  match ps with
  | [] => Normal fields
  | (fieldName, field) :: rest =>
      match flatField field fields (fullPathOf prefix fieldName) with
      | Throw e => Throw e
      | Normal fields' => eachFlat prefix rest fields'
      end
  end.

(** No [null] and no [undefined] anywhere in a value. *)
Fixpoint nullFree (v : value) : bool :=
  match v with
  | VUndefined | VNull => false
  | VBool _ | VNum _ | VStr _ => true
  | VArr l => forallb nullFree l
  | VObj props =>
      forallb (fun kv => match kv with (_, x) => nullFree x end) props
  end.

(** The key under which [parseProperties] stores the field reached from
    [prefix] through the names [path]. *)
Definition pathKey (prefix : string) (path : list string) : string :=
  fold_left fullPathOf path prefix.

(** [declares properties path]: the names [path] lead through the
    [properties] objects of nested field definitions to a field. *)
Inductive declares : value -> list string -> Prop :=
| declares_field props fieldName field :
    In (fieldName, field) props ->
    declares (VObj props) [fieldName]
| declares_nested props fieldName fprops path :
    In (fieldName, VObj fprops) props ->
    truthy (getOwn fprops "properties") = true ->
    declares (getOwn fprops "properties") path ->
    declares (VObj props) (fieldName :: path).

(** [grows fields fields']: [fields'] comes from [fields] by assignments of
    the two kinds [parseProperties] makes, an entry for a field, or an entry
    for a multi-field of a field that is in the registry. *)
Inductive grows : Registry -> Registry -> Prop :=
| grows_refl fields : grows fields fields
| grows_field fields path type analyzer search_analyzer normalizer format
              isNested hasProperties multiFields fields' :
    grows (assign fields path
             (Field type analyzer search_analyzer normalizer format
                    isNested hasProperties multiFields)) fields' ->
    grows fields fields'
| grows_multi fields parent name type fields' :
    In parent (map fst fields) ->
    grows (assign fields (parent ++ "." ++ name) (MultiField type parent)) fields' ->
    grows fields fields'.

(** The keys of a registry. *)
Definition registryKeys (fields : Registry) : list string := map fst fields.


(** What holds of [parseProperties] on a value, and of the loop body on it
    as a field. *)
Definition parse_grows (v : value) : Prop :=
  forall fields prefix fields',
    parseProperties v fields prefix = Normal fields' -> grows fields fields'.

Definition step_grows (v : value) : Prop :=
  forall fields fullPath fields',
    fieldStep v fields fullPath = Normal fields' ->
    grows fields fields' /\ In fullPath (registryKeys fields').

(** [parseProperties] on a value, and the loop body on it as a field,
    return a registry. *)
Definition parse_total (v : value) : Prop :=
  forall fields prefix, exists fields',
    parseProperties v fields prefix = Normal fields'.

Definition step_total (v : value) : Prop :=
  forall fields fullPath, exists fields',
    fieldStep v fields fullPath = Normal fields'.

End ParserVocabulary.

(** A mapping response with a nested field that has a multi-field:
    [user.name] of type text with the multi-field [keyword]. *)
Definition nestedProperties : JSValue.value :=
  JSValue.VObj
    [("user",
      JSValue.VObj
        [("properties",
          JSValue.VObj
            [("name",
              JSValue.VObj
                [("type", JSValue.VStr "text");
                 ("fields",
                  JSValue.VObj
                    [("keyword",
                      JSValue.VObj [("type", JSValue.VStr "keyword")])])])])])].
Definition nestedMapping : JSValue.value :=
  JSValue.VObj
    [("logs", JSValue.VObj [("mappings",
                             JSValue.VObj [("properties", nestedProperties)])])].

(** A mapping response in which a field definition is [null]. *)
Definition nullFieldMapping : JSValue.value :=
  JSValue.VObj
    [("logs",
      JSValue.VObj
        [("mappings",
          JSValue.VObj
            [("properties", JSValue.VObj [("age", JSValue.VNull)])])])].


(** ** The validator: what a finding can be *)

Section FindingVocabulary.
Import ESValidator.

(** Code in the monad appends findings that all satisfy [P], whether it
    returns or raises. *)
Definition emits (P : Finding -> Prop) {A : Type} (m : M A) : Prop :=
  forall errors, exists added,
    snd (m errors) = errors ++ added /\ Forall P added.

(** A finding that carries no position. *)
Definition unpositioned (f : Finding) : Prop :=
  startLineNumber f = None /\ startColumn f = None
  /\ endLineNumber f = None /\ endColumn f = None.

Definition rootFinding : Finding :=
  mkFinding Error "Root must be an object" None
            (Some 1) (Some 1) (Some 1) (Some 10).

(** The findings of the checks: the one about the root, or a finding
    without position that is of severity Info only when it is one of the
    two about [size] and [from]. *)
Definition expected (f : Finding) : Prop :=
  f = rootFinding
  \/ (unpositioned f
      /\ (severity f = Info -> f = largeSize \/ f = deepPagination)).

(** A marker in the top left corner of the editor. *)
Definition atCorner (m : ESDiagnosticsProvider.Marker) : Prop :=
  ESDiagnosticsProvider.startLineNumber m = 1
  /\ ESDiagnosticsProvider.startColumn m = 1
  /\ ESDiagnosticsProvider.endLineNumber m = 1
  /\ ESDiagnosticsProvider.endColumn m = 1.

End FindingVocabulary.

(** ** The context resolver *)

Section ResolverVocabulary.
Import DSLParser.

(** The array marker that [processChar] pushes at an opening bracket. *)
Definition isMarker (item : string) : bool := String.eqb item "[]".

(** The keys among the items of a path. *)
Definition keysOf (items : list string) : list string :=
  filter (fun item => negb (isMarker item)) items.

(** The last element of a list, [null] when there is none. *)
Definition lastKey (keys : list string) : option string :=
  last (map Some keys) None.

(** The contexts in which the key suggestions are the names of the fields:
    below the top level, not directly in [query] or in a [bool] or in one of
    its clauses, with a query type around. *)
Definition listsFieldNames (ctx : Context) : bool :=
  negb (Nat.eqb (depth ctx) 0 || Nat.eqb (List.length (path ctx)) 0)
  && negb (String.eqb (location ctx) "query"
           && Nat.eqb (List.length (path ctx)) 1)
  && negb (String.eqb (location ctx) "bool"
           && Nat.eqb (List.length (path ctx)) 2)
  && negb (String.eqb (location ctx) "bool_clause")
  && match queryType ctx with Some _ => true | None => false end.

End ResolverVocabulary.

(** A registry with the field [age], and a text whose cursor stands behind
    the opening quote of the value of [age] in a match query. *)
Definition ageValueText : string :=
  JSString.json "{'query':{'match':{'age': '".
Definition ageValueCursor : ESCompletionProvider.Position :=
  ESCompletionProvider.mkPosition 1 28.


(** ** The context resolver: scanning *)

Section ScanVocabulary.
Import JSString DSLParser.

(** The loop of [findPathToOffset] over the rest of the text: what
    [processChar] looks at behind a character is that rest. *)
Fixpoint scanText (rest : string) (st : State) : State :=
  match rest with
  | EmptyString => st
  | String c r => scanText r (processChar (Some c) st 0 rest)
  end.

(** Characters that neither end a string literal nor escape. *)
Definition plainChar (c : ascii) : bool :=
  negb (Ascii.eqb c dquote) && negb (isChar c "\").
Fixpoint plain (s : string) : bool :=
  match s with
  | EmptyString => true
  | String c r => plainChar c && plain r
  end.

(** [currentKey] after the characters [s] of a string literal. *)
Definition appendKey (key : option string) (s : string) : option string :=
  match s with
  | EmptyString => key
  | _ => Some ((match key with Some k => k | None => EmptyString end) ++ s)%string
  end.

(** The text [{"a":"v","b":{] for a key [a] with the string value [v] and a
    following key [b] whose object has just been opened. *)
Definition siblingText (a v b : string) : string :=
  ("{" ++ quoted a ++ ":" ++ quoted v ++ "," ++ quoted b ++ ":{")%string.

End ScanVocabulary.

(** The text [{"k1":1,"k2":1,...,"b":{]: keys with number values, then a
    key whose object has just been opened. *)
Definition numberEntry (key : string) : string :=
  (JSString.quoted key ++ ":1,")%string.
Fixpoint numberEntries (keys : list string) : string :=
  match keys with
  | [] => EmptyString
  | key :: rest => (numberEntry key ++ numberEntries rest)%string
  end.
Definition objectText (keys : list string) (b : string) : string :=
  ("{" ++ numberEntries keys ++ JSString.quoted b ++ ":{")%string.

(** A call of [clearCache] between two events. *)
Definition cleared (w : ESMappingService.World) : ESMappingService.World :=
  {| ESMappingService.service :=
       ESMappingService.clearCache (ESMappingService.service w);
     ESMappingService.awaiting := ESMappingService.awaiting w;
     ESMappingService.inFlight := ESMappingService.inFlight w;
     ESMappingService.sent := ESMappingService.sent w;
     ESMappingService.resolved := ESMappingService.resolved w;
     ESMappingService.discarded := ESMappingService.discarded w;
     ESMappingService.nextRef := ESMappingService.nextRef w |}.


(** ** The validator: code that returns *)

Section ReturnVocabulary.
Import JSValue ESValidator.

(** Code in the monad returns, whatever the findings so far. *)
Definition returns {A : Type} (m : M A) : Prop :=
  forall errors, exists a errors', m errors = (Normal a, errors').

(** A [multi_match] query whose [fields] holds a number. *)
Definition multiMatchOnNumber : string :=
  JSString.json "{'query':{'multi_match':{'query':'x','fields':[1]}}}".

(** An aggregation whose [field] is an object with a property [toString]. *)
Definition aggsOnUnprintable : string :=
  JSString.json "{'aggs':{'a':{'terms':{'field':{'toString':1}}}}}".

End ReturnVocabulary.

(* ================================================================== *)
(** * Part III. Properties                                             *)
(* ================================================================== *)

(** ** The LRU cache *)

Section LRUCacheFacts.
Context {V : Type}.
Implicit Types (m : LRUCache.JSMap V) (c : LRUCache.t V) (key k : string).

Import LRUCache.

Lemma map_has_In key m : map_has key m = true <-> In key (map_keys m).
Proof.
  induction m as [|[k v] r IH]; simpl.
  - split; [discriminate | tauto].
  - rewrite orb_true_iff, IH, String.eqb_eq. tauto.
Qed.

Lemma map_has_false_notin key m : map_has key m = false <-> ~ In key (map_keys m).
Proof.
  rewrite <- map_has_In. destruct (map_has key m); split; congruence.
Qed.

Lemma map_has_get key m : map_has key m = true <-> exists v, map_get key m = Some v.
Proof.
  induction m as [|[k v] r IH]; simpl.
  - split; [discriminate | intros [v H]; discriminate].
  - destruct (String.eqb k key); simpl; [split; eauto | exact IH].
Qed.

Lemma map_set_absent key value m :
  map_has key m = false -> map_set key value m = m ++ [(key, value)].
Proof.
  induction m as [|[k v] r IH]; simpl; [reflexivity|].
  intros H. apply orb_false_iff in H as [Hk Hr].
  rewrite Hk, IH by assumption. reflexivity.
Qed.

Lemma others_absent key m : map_has key m = false -> others key m = m.
Proof.
  induction m as [|[k v] r IH]; simpl; [reflexivity|].
  intros H. apply orb_false_iff in H as [Hk Hr].
  rewrite Hk; simpl. now rewrite IH.
Qed.

Lemma map_delete_others key m :
  NoDup (map_keys m) -> map_delete key m = others key m.
Proof.
  induction m as [|[k v] r IH]; simpl; [reflexivity|].
  intros Hnd. inversion Hnd as [|? ? Hnotin Hnd']; subst.
  destruct (String.eqb k key) eqn:E; simpl.
  - apply String.eqb_eq in E; subst.
    symmetry. apply others_absent. now apply map_has_false_notin.
  - now rewrite IH.
Qed.

Lemma others_has key m : map_has key (others key m) = false.
Proof.
  induction m as [|[k v] r IH]; simpl; [reflexivity|].
  destruct (String.eqb k key) eqn:E; simpl; [assumption|].
  now rewrite E, IH.
Qed.

Lemma others_keys_incl key m k : In k (map_keys (others key m)) -> In k (map_keys m).
Proof.
  unfold map_keys, others. rewrite !in_map_iff.
  intros [e [He Hin]]. apply filter_In in Hin as [Hin _]. eauto.
Qed.

Lemma others_NoDup key m : NoDup (map_keys m) -> NoDup (map_keys (others key m)).
Proof.
  induction m as [|[k v] r IH]; simpl; [constructor|].
  intros Hnd. inversion Hnd as [|? ? Hnotin Hnd']; subst.
  destruct (String.eqb k key); simpl; [auto|].
  constructor; [|auto]. intros Hin. apply Hnotin. eapply others_keys_incl; eauto.
Qed.

Lemma others_length_present key m :
  NoDup (map_keys m) -> map_has key m = true ->
  S (length (others key m)) = length m.
Proof.
  induction m as [|[k v] r IH]; simpl; [discriminate|].
  intros Hnd H. inversion Hnd as [|? ? Hnotin Hnd']; subst.
  destruct (String.eqb k key) eqn:E; simpl.
  - apply String.eqb_eq in E; subst.
    rewrite others_absent; [reflexivity | now apply map_has_false_notin].
  - simpl in H. now rewrite IH.
Qed.

Lemma snoc_NoDup key value m :
  NoDup (map_keys m) -> map_has key m = false ->
  NoDup (map_keys (m ++ [(key, value)])).
Proof.
  intros Hnd H. unfold map_keys. rewrite map_app; simpl.
  apply NoDup_app.
  - exact Hnd.
  - constructor; [simpl; tauto | constructor].
  - intros a Ha [<-|[]]. apply map_has_false_notin in H. auto.
Qed.

(** Reading a stored key: the entry moves to the last place. *)
Lemma get_present c key value :
  NoDup (keys c) -> map_get key (cache c) = Some value ->
  get c key = (Some value, with_cache c (others key (cache c) ++ [(key, value)])).
Proof.
  intros Hnd Hget. unfold get.
  assert (Hhas : map_has key (cache c) = true) by (apply map_has_get; eauto).
  rewrite Hhas, Hget; simpl.
  rewrite map_delete_others by exact Hnd.
  rewrite map_set_absent by apply others_has. reflexivity.
Qed.

Lemma get_absent c key : has c key = false -> get c key = (None, c).
Proof. unfold get, has. now intros ->. Qed.

(** Writing a stored key: the entry moves to the last place with its new
    value. *)
Lemma set_present c key value :
  NoDup (keys c) -> has c key = true ->
  set c key value = with_cache c (others key (cache c) ++ [(key, value)]).
Proof.
  intros Hnd Hhas. unfold set, has in *. rewrite Hhas.
  rewrite map_delete_others by exact Hnd.
  rewrite map_set_absent by apply others_has. reflexivity.
Qed.

(** Writing a new key into a cache with room: the entry is appended. *)
Lemma set_room c key value :
  has c key = false -> size c < maxSize c ->
  set c key value = with_cache c (cache c ++ [(key, value)]).
Proof.
  intros Hhas Hlt. unfold set, has, size in *. rewrite Hhas.
  destruct (Nat.leb_spec (maxSize c) (length (cache c))); [lia|].
  now rewrite map_set_absent.
Qed.

(** Writing a new key into a full cache: the first entry goes, the rest stay
    in order, the new entry is last. *)
Lemma set_full c key value :
  NoDup (keys c) -> has c key = false -> maxSize c <= size c -> 0 < size c ->
  exists lru rest,
    cache c = lru :: rest /\
    set c key value = with_cache c (rest ++ [(key, value)]).
Proof.
  intros Hnd Hhas Hfull Hpos. unfold set, has, size, keys in *. rewrite Hhas.
  destruct (Nat.leb_spec (maxSize c) (length (cache c))); [|lia].
  destruct (cache c) as [|[k v] rest] eqn:E; simpl in Hpos; [lia|].
  exists (k, v), rest. split; [reflexivity|].
  simpl. rewrite String.eqb_refl.
  simpl in Hhas. apply orb_false_iff in Hhas as [_ Hrest].
  now rewrite map_set_absent.
Qed.

Lemma new_inv n : lru_inv (new (V := V) n).
Proof. split; cbv; [constructor | lia]. Qed.

Lemma set_inv c key value : 0 < maxSize c -> lru_inv c -> lru_inv (set c key value).
Proof.
  intros Hpos [Hnd Hsz].
  destruct (has c key) eqn:Hhas.
  - rewrite set_present by assumption. unfold lru_inv, keys, size in *; simpl.
    split.
    + apply snoc_NoDup; [now apply others_NoDup | apply others_has].
    + rewrite length_app; simpl.
      pose proof (others_length_present key (cache c) Hnd Hhas). lia.
  - destruct (Nat.lt_ge_cases (size c) (maxSize c)) as [Hlt|Hge].
    + rewrite set_room by assumption. unfold lru_inv, keys, size in *; simpl.
      split; [now apply snoc_NoDup | rewrite length_app; simpl; lia].
    + destruct (set_full c key value Hnd Hhas Hge) as (lru & rest & Hc & ->); [lia|].
      unfold lru_inv, keys, size, has in *; simpl. rewrite Hc in *.
      destruct lru as [k0 v0]. simpl in *. inversion Hnd; subst.
      apply orb_false_iff in Hhas as [_ Hrest].
      split; [now apply snoc_NoDup | rewrite length_app; simpl; lia].
Qed.

Lemma get_inv c key : lru_inv c -> lru_inv (snd (get c key)).
Proof.
  intros [Hnd Hsz]. destruct (map_get key (cache c)) as [v|] eqn:Hget.
  - rewrite (get_present c key v) by assumption; simpl.
    assert (Hhas : map_has key (cache c) = true) by (apply map_has_get; eauto).
    unfold lru_inv, keys, size in *; simpl. split.
    + apply snoc_NoDup; [now apply others_NoDup | apply others_has].
    + rewrite length_app; simpl.
      pose proof (others_length_present key (cache c) Hnd Hhas). lia.
  - rewrite get_absent; [now split|].
    unfold has. destruct (map_has key (cache c)) eqn:E; [|reflexivity].
    apply map_has_get in E as [v Hv]. congruence.
Qed.

Lemma set_maxSize c key value : maxSize (set c key value) = maxSize c.
Proof. reflexivity. Qed.

Lemma get_maxSize c key : maxSize (snd (get c key)) = maxSize c.
Proof.
  unfold get. destruct (negb _); [reflexivity|]. now destruct (map_get _ _).
Qed.

Lemma run_inv ops c :
  0 < maxSize c -> lru_inv c -> lru_inv (run ops c) /\ maxSize (run ops c) = maxSize c.
Proof.
  revert c. induction ops as [|o ops IH]; intros c Hpos Hinv; [now split|].
  simpl. destruct o as [key|key value]; simpl.
  - destruct (IH (snd (get c key))) as [H1 H2].
    + now rewrite get_maxSize.
    + now apply get_inv.
    + split; [exact H1 | now rewrite H2, get_maxSize].
  - destruct (IH (set c key value)) as [H1 H2]; auto using set_inv.
Qed.

(** *** Recency *)

Lemma others_keys key m :
  map_keys (others key m) = filter (fun k => negb (String.eqb k key)) (map_keys m).
Proof.
  unfold map_keys, others. now rewrite filter_map_swap.
Qed.

Lemma without_absent key (l : list string) :
  ~ In key l -> filter (fun k => negb (String.eqb k key)) l = l.
Proof.
  induction l as [|x r IH]; simpl; [reflexivity|].
  intros Hnot. destruct (String.eqb_spec x key) as [->|Hne]; simpl.
  - exfalso. apply Hnot. now left.
  - rewrite IH; [reflexivity|]. intros Hin. apply Hnot. now right.
Qed.

Lemma NoDup_app_disjoint (l1 l2 : list string) x :
  NoDup (l1 ++ l2) -> In x l1 -> In x l2 -> False.
Proof.
  intros Hnd H1 H2. apply in_split in H2 as (a & b & ->).
  rewrite app_assoc in Hnd. apply NoDup_remove_2 in Hnd.
  apply Hnd. apply in_or_app. left. apply in_or_app. now left.
Qed.

Lemma touch_NoDup key order : NoDup order -> NoDup (touch key order).
Proof.
  intros Hnd. unfold touch. apply NoDup_app.
  - now apply NoDup_filter.
  - constructor; [simpl; tauto | constructor].
  - intros a Ha [<-|[]]. apply filter_In in Ha as [_ Ha].
    now rewrite String.eqb_refl in Ha.
Qed.

Lemma recency_hit c order key (cache' : JSMap V) :
  NoDup (keys c) -> has c key = true ->
  map_keys cache' = map_keys (others key (cache c)) ++ [key] ->
  recency_inv c order ->
  recency_inv (with_cache c cache') (touch key order).
Proof.
  intros Hnd Hhas Hkeys (older & Horder & Hndo & Hfull).
  exists older. unfold keys, size in *. simpl.
  assert (Hin : In key (map_keys (cache c))) by now apply map_has_In.
  assert (Hnotin : ~ In key older).
  { intros Hold. rewrite Horder in Hndo.
    exact (NoDup_app_disjoint _ _ key Hndo Hold Hin). }
  split; [|split].
  - unfold touch. rewrite Horder, filter_app, (without_absent key older) by assumption.
    rewrite Hkeys, others_keys. now rewrite app_assoc.
  - now apply touch_NoDup.
  - intros Hlt. apply Hfull.
    assert (Hlen : length cache' = length (cache c)).
    { rewrite <- (length_map fst cache'). fold (map_keys cache').
      rewrite Hkeys, length_app. unfold map_keys. rewrite length_map. simpl.
      pose proof (others_length_present key (cache c) Hnd Hhas). lia. }
    lia.
Qed.

Lemma step_recency_inv c o order :
  0 < maxSize c -> lru_inv c -> recency_inv c order ->
  recency_inv (step c o)
    (match o with
     | OpGet key => if has c key then touch key order else order
     | OpSet key _ => touch key order
     end).
Proof.
  intros Hpos [Hnd Hsz] Hrec. destruct o as [key|key value]; simpl.
  - destruct (has c key) eqn:Hhas.
    + destruct (proj1 (map_has_get key (cache c)) Hhas) as [v Hv].
      rewrite (get_present c key v) by assumption. simpl.
      apply recency_hit; try assumption.
      unfold map_keys. rewrite map_app. reflexivity.
    + now rewrite get_absent.
  - destruct (has c key) eqn:Hhas.
    + rewrite set_present by assumption.
      apply recency_hit; try assumption.
      unfold map_keys. rewrite map_app. reflexivity.
    + destruct Hrec as (older & Horder & Hndo & Hfull).
      assert (Hnotin : ~ In key (keys c)) by now apply map_has_false_notin.
      destruct (Nat.lt_ge_cases (size c) (maxSize c)) as [Hlt|Hge].
      * rewrite set_room by assumption.
        specialize (Hfull Hlt). subst older. simpl in Horder. subst order.
        exists []. unfold keys, size in *. simpl. split; [|split].
        -- unfold touch. rewrite without_absent by assumption.
           unfold map_keys. now rewrite map_app.
        -- now apply touch_NoDup.
        -- reflexivity.
      * destruct (set_full c key value Hnd Hhas Hge) as (lru & rest & Hc & ->);
          [lia|].
        exists (filter (fun k => negb (String.eqb k key)) older ++ [fst lru]).
        unfold keys, size in *. simpl. rewrite Hc in *. simpl in *.
        split; [|split].
        -- unfold touch. rewrite Horder, filter_app.
           rewrite (without_absent key (fst lru :: map_keys rest)) by assumption.
           unfold map_keys. rewrite map_app. simpl.
           rewrite <- !app_assoc. reflexivity.
        -- now apply touch_NoDup.
        -- rewrite length_app. simpl. lia.
Qed.

Lemma run_recency_inv ops : forall c order,
  0 < maxSize c -> lru_inv c -> recency_inv c order ->
  recency_inv (run ops c) (lastUses ops c order).
Proof.
  induction ops as [|o ops IH]; intros c order Hpos Hinv Hrec; [exact Hrec|].
  simpl. apply IH.
  - destruct o; simpl; [now rewrite get_maxSize | assumption].
  - destruct o; simpl; [now apply get_inv | now apply set_inv].
  - now apply step_recency_inv.
Qed.

(** The keys of the cache are the last [maxSize] keys in the order of last
    use: the key in front is the one used least recently. *)
Lemma run_keys_last_used ops n :
  0 < n ->
  let c := run ops (new (V := V) n) in
  let order := lastUses ops (new n) [] in
  NoDup order /\ keys c = skipn (length order - n) order.
Proof.
  intros Hpos c order.
  destruct (run_inv ops (new n)) as [[Hnd Hsz] Hmax];
    [exact Hpos | apply new_inv |].
  destruct (run_recency_inv ops (new n) []) as (older & Horder & Hndo & Hfull).
  - exact Hpos.
  - apply new_inv.
  - exists []. split; [reflexivity|]. split; [constructor | reflexivity].
  - fold c in Hnd, Hsz, Hmax, Horder, Hfull. fold order in Horder, Hndo.
    simpl in Hmax. rewrite Hmax in *.
    split; [exact Hndo|].
    rewrite Horder, length_app.
    destruct (Nat.lt_ge_cases (size c) n) as [Hlt|Hge].
    + rewrite (Hfull Hlt). simpl.
      unfold size, keys, map_keys in *. rewrite length_map.
      replace (length (cache c) - n) with 0 by lia. reflexivity.
    + unfold size, keys, map_keys in *. rewrite length_map.
      replace (length older + length (cache c) - n) with (length older) by lia.
      rewrite skipn_app, Nat.sub_diag, skipn_all. reflexivity.
Qed.

End LRUCacheFacts.

(** C2.  The mapping cache is an [LRUCache] of capacity 50.  After any
    sequence of [get] and [set] calls it holds at most 50 entries under
    pairwise different keys; a [get] or a [set] of a stored key moves that
    entry behind all others (the most-recently-used place) and leaves the
    others in their order; a [set] of a new key appends it while there is
    room, and on a full cache removes exactly the entry in front, keeping
    all others in order.  The entry in front is the least recently used
    one: the keys of the cache are the 50 keys used last, in the order of
    their last use. *)
Theorem lru_cache_bound_and_recency :
  forall (V : Type) (ops : list (LRUCache.op V)),
    let c := LRUCache.run ops (LRUCache.new 50) in
    LRUCache.size c <= 50
    /\ NoDup (LRUCache.keys c)
    /\ (forall key value,
          LRUCache.map_get key (LRUCache.cache c) = Some value ->
          LRUCache.get c key =
            (Some value,
             LRUCache.with_cache c
               (others key (LRUCache.cache c) ++ [(key, value)]))
          /\ forall value',
              LRUCache.set c key value' =
                LRUCache.with_cache c
                  (others key (LRUCache.cache c) ++ [(key, value')]))
    /\ (forall key value,
          LRUCache.has c key = false -> LRUCache.size c < 50 ->
          LRUCache.cache (LRUCache.set c key value) =
            LRUCache.cache c ++ [(key, value)])
    /\ (forall key value,
          LRUCache.has c key = false -> LRUCache.size c = 50 ->
          exists lru rest,
            LRUCache.cache c = lru :: rest /\
            LRUCache.cache (LRUCache.set c key value) = rest ++ [(key, value)] /\
            LRUCache.size (LRUCache.set c key value) = 50)
    /\ (let order := lastUses ops (LRUCache.new 50) [] in
        NoDup order
        /\ LRUCache.keys c = skipn (length order - 50) order).
Proof.
  intros V ops c.
  destruct (run_inv ops (LRUCache.new 50)) as [[Hnd Hsz] Hmax];
    [simpl; lia | apply new_inv |].
  fold c in Hnd, Hsz, Hmax. simpl in Hmax.
  split; [lia|]. split; [exact Hnd|]. split; [|split; [|split]].
  - intros key value Hget. split.
    + now apply get_present.
    + intros value'. apply set_present; [exact Hnd|].
      apply map_has_get. eauto.
  - intros key value Hhas Hlt. rewrite set_room by (assumption || lia). reflexivity.
  - intros key value Hhas Hfull.
    destruct (set_full c key value Hnd Hhas) as (lru & rest & Hc & Hset); [lia | lia |].
    exists lru, rest. rewrite Hset. simpl. repeat split; [exact Hc|].
    unfold LRUCache.size in *. simpl. rewrite Hc in Hfull. simpl in Hfull.
    rewrite length_app. simpl. lia.
  - apply (run_keys_last_used ops 50). lia.
Qed.

(** ** Field lookup *)

Section GetFieldTypeFacts.
Import JSString MappingParser.

Lemma split_nonempty sep s : split sep s <> [].
Proof.
  destruct s as [|c r]; simpl; [discriminate|].
  destruct (Ascii.eqb c sep); [discriminate|].
  destruct (split sep r); discriminate.
Qed.

(** Joining what [split] produced gives the string back. *)
Lemma join_split sep s : join (String sep EmptyString) (split sep s) = s.
Proof.
  induction s as [|c r IH]; [reflexivity|].
  simpl. destruct (Ascii.eqb_spec c sep) as [->|Hne].
  - unfold join in *. simpl.
    destruct (split sep r) as [|h t] eqn:E; [now apply split_nonempty in E|].
    simpl. now rewrite <- IH.
  - unfold join in *.
    destruct (split sep r) as [|h t] eqn:E; [now apply split_nonempty in E|].
    rewrite <- IH. simpl. destruct t; reflexivity.
Qed.

Lemma includesChar_app c a b :
  includesChar c (a ++ b) = includesChar c a || includesChar c b.
Proof.
  induction a as [|d a IH]; simpl; [reflexivity|].
  rewrite IH. now rewrite orb_assoc.
Qed.

(** A name with a dot differs from every name without one. *)
Lemma eqb_dotted name s :
  includesChar "."%char name = true -> includesChar "."%char s = false ->
  String.eqb name s = false.
Proof.
  intros Hname Hs. destruct (String.eqb_spec name s) as [->|]; [|reflexivity].
  congruence.
Qed.

Lemma entryProp_dotted fi name :
  includesChar "."%char name = true -> entryProp fi name = None.
Proof.
  intros Hdot. destruct fi; unfold entryProp;
    rewrite !(eqb_dotted name) by (exact Hdot || reflexivity); reflexivity.
Qed.

Lemma inherited_dotted name :
  includesChar "."%char name = true -> includes objectPrototypeNames name = false.
Proof.
  intros Hdot. unfold includes, objectPrototypeNames. cbn [existsb].
  rewrite !(eqb_dotted name) by (exact Hdot || reflexivity). reflexivity.
Qed.

Lemma reserved_dotted fields name :
  includesChar "."%char name = true -> reserved fields name = false.
Proof.
  intros Hdot. unfold reserved. rewrite (inherited_dotted name Hdot).
  destruct (lookup fields "__proto__"); [|reflexivity].
  now rewrite (entryProp_dotted _ name Hdot).
Qed.

(** Under a name that is not reserved a read finds the stored entry and
    nothing else. *)
Lemma index_plain fields name :
  reserved fields name = false ->
  index fields name = option_map Entry (lookup fields name).
Proof.
  unfold reserved, index. intros H. apply orb_false_iff in H as [Hinh Hslot].
  destruct (lookup fields name); [reflexivity|]. rewrite Hinh.
  destruct (lookup fields "__proto__") as [proto|]; [|reflexivity].
  destruct (entryProp proto name); [discriminate | reflexivity].
Qed.

Lemma read_plain fields name :
  reserved fields name = false ->
  read fields name = option_map Entry (lookup fields name).
Proof.
  intros H. unfold read. rewrite (index_plain _ _ H).
  destruct (lookup fields name); reflexivity.
Qed.

(** A stored entry is found under its name, reserved or not. *)
Lemma read_stored fields name fi :
  lookup fields name = Some fi -> read fields name = Some (Entry fi).
Proof. intros H. unfold read, index. now rewrite H. Qed.

Lemma read_dotted fields name :
  includesChar "."%char name = true ->
  read fields name = option_map Entry (lookup fields name).
Proof. intros H. apply read_plain. now apply reserved_dotted. Qed.

Lemma getFieldType_loop_some fields parts i m :
  getFieldType_loop fields parts i = Some m ->
  exists j, 1 <= j <= i /\
    read fields (join "." (firstn j parts)) = Some m /\
    forall k, j < k <= i -> read fields (join "." (firstn k parts)) = None.
Proof.
  induction i as [|i IH]; cbn [getFieldType_loop]; [discriminate|].
  destruct (read fields (join "." (firstn (S i) parts))) as [m'|] eqn:E.
  - intros [= ->]. exists (S i). repeat split; [lia | lia | exact E | intros; lia].
  - intros H. destruct (IH H) as (j & Hj & Hl & Hrest).
    exists j. repeat split; [lia | lia | exact Hl |].
    intros k Hk. destruct (Nat.eq_dec k (S i)) as [->|]; [exact E|].
    apply Hrest. lia.
Qed.

Lemma getFieldType_loop_none fields parts i :
  getFieldType_loop fields parts i = None <->
  forall j, 1 <= j <= i -> read fields (join "." (firstn j parts)) = None.
Proof.
  induction i as [|i IH]; cbn [getFieldType_loop].
  - split; [intros _ j Hj; lia | reflexivity].
  - destruct (read fields (join "." (firstn (S i) parts))) as [m'|] eqn:E.
    + split; [discriminate|]. intros H. rewrite H in E by lia. discriminate.
    + rewrite IH. split; intros H j Hj.
      * destruct (Nat.eq_dec j (S i)) as [->|]; [exact E | apply H; lia].
      * apply H; lia.
Qed.

Lemma split_length_pos sep s : 1 <= length (split sep s).
Proof.
  pose proof (split_nonempty sep s).
  destruct (split sep s); [congruence | simpl; lia].
Qed.

Lemma firstn_split_all sep s :
  join (String sep EmptyString) (firstn (length (split sep s)) (split sep s)) = s.
Proof. rewrite firstn_all. apply join_split. Qed.

(** Nothing is found exactly when a read finds nothing under any ancestor
    path. *)
Lemma getFieldType_none fields fieldName :
  getFieldType fields fieldName = None <->
  forall i, 1 <= i <= length (split "."%char fieldName) ->
            read fields (join "." (firstn i (split "."%char fieldName))) = None.
Proof.
  unfold getFieldType.
  destruct (read fields fieldName) as [m|] eqn:E.
  - split; [discriminate|]. intros H.
    specialize (H (length (split "."%char fieldName))).
    rewrite (firstn_split_all "."%char), E in H.
    discriminate H. split; [apply split_length_pos | lia].
  - apply getFieldType_loop_none.
Qed.

(** What [getFieldType] returns was read under the longest ancestor path
    under which a read finds something. *)
Lemma getFieldType_some fields fieldName m :
  getFieldType fields fieldName = Some m ->
  exists i, 1 <= i <= length (split "."%char fieldName) /\
    read fields (join "." (firstn i (split "."%char fieldName))) = Some m /\
    forall j, i < j <= length (split "."%char fieldName) ->
      read fields (join "." (firstn j (split "."%char fieldName))) = None.
Proof.
  unfold getFieldType.
  destruct (read fields fieldName) as [m'|] eqn:E.
  - intros [= ->]. exists (length (split "."%char fieldName)).
    pose proof (split_length_pos "."%char fieldName).
    repeat split; [lia | lia | now rewrite (firstn_split_all "."%char) |
                   intros; lia].
  - apply getFieldType_loop_some.
Qed.

(** An ancestor path of two or more segments has a dot. *)
Lemma join_dotted a b rest :
  includesChar "."%char (join "." (a :: b :: rest)) = true.
Proof.
  unfold join. cbn [String.concat].
  rewrite includesChar_app. apply orb_true_iff. right.
  cbn [append includesChar Ascii.eqb]. reflexivity.
Qed.

(** When the first segment of a name is not reserved, a read under any of
    its ancestor paths finds the stored entry and nothing else. *)
Lemma read_ancestor fields fieldName i :
  reserved fields (firstSegment fieldName) = false ->
  1 <= i ->
  read fields (join "." (firstn i (split "."%char fieldName)))
  = option_map Entry
      (lookup fields (join "." (firstn i (split "."%char fieldName)))).
Proof.
  unfold firstSegment. intros Hplain Hi.
  destruct (split "."%char fieldName) as [|a parts] eqn:E;
    [now apply split_nonempty in E|].
  destruct i as [|[|i]]; [lia | |].
  - cbn [firstn hd] in *. unfold join. cbn [String.concat].
    now apply read_plain.
  - destruct parts as [|b rest].
    + cbn [firstn hd] in *. unfold join. cbn [String.concat].
      now apply read_plain.
    + cbn [firstn]. apply read_dotted. apply join_dotted.
Qed.

End GetFieldTypeFacts.

(** C6.  [getFieldType] reads the registry, a plain object, under the field
    name and then under the name shortened by one trailing dot-segment after
    the other, and returns the first value found that is truthy.  (1) A
    stored entry is returned for its own name.  (2) What is returned was
    read under the longest of these paths under which a read finds
    something, and nothing is returned exactly when no read finds anything.
    (3) When the first segment of the name is none of the names that the
    registry inherits, the reads find stored entries only, and the function
    does what the claim says: the entry of the longest stored ancestor path,
    otherwise nothing.  (4) For a registry holding only [a.b], looking up
    [a.b.c] gives the entry of [a.b] and looking up [x] gives nothing.
    (5) Under an inherited name the claim fails: in the empty registry the
    lookup of [constructor] does not return nothing but the function that
    every object inherits under that name, and the lookup of [toString.x]
    the one inherited under [toString]; and where the mapping has a field
    [__proto__], of type text, the lookup of [type] returns that type. *)
Theorem getFieldType_longest_ancestor :
  forall (fields : MappingParser.Registry) (fieldName : string),
    let parts := JSString.split "."%char fieldName in
    let ancestor i := JSString.join "." (firstn i parts) in
    ancestor (length parts) = fieldName
    /\ (forall fi, MappingParser.lookup fields fieldName = Some fi ->
                   MappingParser.getFieldType fields fieldName
                   = Some (MappingParser.Entry fi))
    /\ (forall m, MappingParser.getFieldType fields fieldName = Some m ->
          exists i, 1 <= i <= length parts /\
            MappingParser.read fields (ancestor i) = Some m /\
            forall j, i < j <= length parts ->
                      MappingParser.read fields (ancestor j) = None)
    /\ (MappingParser.getFieldType fields fieldName = None <->
        forall i, 1 <= i <= length parts ->
                  MappingParser.read fields (ancestor i) = None)
    /\ (reserved fields (firstSegment fieldName) = false ->
        (forall m, MappingParser.getFieldType fields fieldName = Some m ->
           exists fi i,
             m = MappingParser.Entry fi /\ 1 <= i <= length parts /\
             MappingParser.lookup fields (ancestor i) = Some fi /\
             forall j, i < j <= length parts ->
                       MappingParser.lookup fields (ancestor j) = None)
        /\ (MappingParser.getFieldType fields fieldName = None <->
            forall i, 1 <= i <= length parts ->
                      MappingParser.lookup fields (ancestor i) = None))
    /\ (forall fi,
          MappingParser.getFieldType [("a.b", fi)] "a.b.c"
          = Some (MappingParser.Entry fi) /\
          MappingParser.getFieldType [("a.b", fi)] "x" = None)
    /\ MappingParser.getFieldType [] "constructor"
       = Some (MappingParser.Inherited "constructor")
    /\ MappingParser.getFieldType [] "toString.x"
       = Some (MappingParser.Inherited "toString")
    /\ MappingParser.getFieldType protoRegistry "type"
       = Some (MappingParser.Slot (JSValue.VStr "text")).
Proof.
  intros fields fieldName parts ancestor.
  assert (Hfull : ancestor (length parts) = fieldName).
  { unfold ancestor, parts. rewrite firstn_all. apply (join_split "."%char). }
  split; [exact Hfull|]. split; [|split; [|split; [|split; [|split]]]].
  - intros fi H. unfold MappingParser.getFieldType.
    now rewrite (read_stored _ _ _ H).
  - intros m. apply getFieldType_some.
  - apply getFieldType_none.
  - intros Hplain.
    assert (Hread : forall i, 1 <= i ->
              MappingParser.read fields (ancestor i)
              = option_map MappingParser.Entry
                  (MappingParser.lookup fields (ancestor i))).
    { intros i Hi. now apply read_ancestor. }
    split.
    + intros m Hm. destruct (getFieldType_some _ _ _ Hm) as (i & Hi & Hfound & Hnone).
      fold parts in Hi, Hfound, Hnone. fold (ancestor i) in Hfound.
      rewrite Hread in Hfound by lia.
      destruct (MappingParser.lookup fields (ancestor i)) as [fi|] eqn:E;
        [|discriminate Hfound].
      injection Hfound as <-. exists fi, i.
      split; [reflexivity|]. split; [exact Hi|]. split; [exact E|].
      intros j Hj. specialize (Hnone j Hj). fold (ancestor j) in Hnone.
      rewrite Hread in Hnone by lia.
      destruct (MappingParser.lookup fields (ancestor j)); [discriminate|reflexivity].
    + rewrite getFieldType_none. fold parts. split; intros H i Hi.
      * specialize (H i Hi). fold (ancestor i) in H. rewrite Hread in H by lia.
        destruct (MappingParser.lookup fields (ancestor i));
          [discriminate | reflexivity].
      * fold (ancestor i). rewrite Hread by lia. now rewrite (H i Hi).
  - intros fi. split; reflexivity.
  - repeat split; reflexivity.
Qed.

(** ** The mapping service *)

Section ServiceFacts.
Import ESMappingService.

Lemma init_pending_inv : pending_inv init.
Proof. split; [reflexivity | constructor]. Qed.

Lemma step_pending_inv w e w' :
  pending_inv w -> step w e = Some w' -> pending_inv w'.
Proof.
  intros [Hp Ha] Hstep. destruct e as [caller url index hs| | |n outcome]; simpl in Hstep.
  - unfold fetchMapping_enter in Hstep.
    destruct (LRUCache.has (cache (service w)) (makeKey url index)).
    + destruct (LRUCache.get (cache (service w)) (makeKey url index)) as [r c'].
      injection Hstep as <-. split; simpl; assumption.
    + destruct (LRUCache.map_has (makeKey url index) (pendingRequests (service w))) eqn:Hhas.
      * injection Hstep as <-. split; simpl; assumption.
      * simpl in Hstep. injection Hstep as <-. split; simpl.
        -- rewrite map_set_absent by exact Hhas.
           rewrite map_app. simpl. now rewrite Hp.
        -- apply Forall_app. split; [assumption | repeat constructor].
  - destruct (awaiting w) as [|[[caller key] awaited] rest] eqn:E; [discriminate|].
    simpl in Hstep. injection Hstep as <-. split; simpl.
    + rewrite Hp. simpl. now rewrite String.eqb_refl.
    + now inversion Ha.
  - destruct (awaiting w) eqn:E; [|discriminate].
    destruct (timeout (service w)); [|discriminate].
    injection Hstep as <-. split; simpl; [assumption | constructor].
  - destruct (awaiting w) eqn:E; [|discriminate].
    destruct (nth_error (inFlight w) n) as [args|]; [|discriminate].
    unfold _fetchMapping_settle in Hstep.
    destruct outcome as [| | |data];
      try (injection Hstep as <-; split; simpl; [assumption | constructor]).
    destruct (MappingParser.parse data);
      injection Hstep as <-; split; simpl; try assumption; constructor.
Qed.

Lemma run_pending_inv es : forall w w',
  pending_inv w -> run w es = Some w' -> pending_inv w'.
Proof.
  induction es as [|e es IH]; simpl; intros w w' Hinv Hrun.
  - now injection Hrun as <-.
  - destruct (step w e) as [w1|] eqn:E; [|discriminate].
    eapply IH; [eapply step_pending_inv; eassumption | exact Hrun].
Qed.

Lemma run_app es1 es2 : forall w w1,
  run w es1 = Some w1 -> run w (es1 ++ es2) = run w1 es2.
Proof.
  induction es1 as [|e es1 IH]; simpl; intros w w1 H.
  - now injection H as ->.
  - destruct (step w e) as [w'|]; [now apply IH | discriminate].
Qed.

End ServiceFacts.

(** C1, as the code has it.  Take any state the service reaches with no
    suspended call, no request in flight, and the key of the call not in the
    cache.  The call of [fetchMapping] suspends, its continuation runs, and
    it resolves with [undefined]: the debounced function returns nothing, so
    there is no promise to await.  The request goes out only when the timer
    fires afterwards, and when it fails the empty registry that
    [_fetchMapping] returns reaches nobody.  No exception is raised. *)
Theorem fetchMapping_miss_resolves_undefined :
  forall es w caller url index hs outcome,
    ESMappingService.run ESMappingService.init es = Some w ->
    ESMappingService.awaiting w = [] ->
    ESMappingService.inFlight w = [] ->
    LRUCache.has (ESMappingService.cache (ESMappingService.service w))
                 (ESMappingService.makeKey url index) = false ->
    failed outcome ->
    exists w1 w2,
      ESMappingService.run w
        [ESMappingService.Call caller url index hs; ESMappingService.Resume]
      = Some w1
      /\ ESMappingService.resolved w1
         = ESMappingService.resolved w ++ [(caller, ESMappingService.RUndefined)]
      /\ ESMappingService.sent w1 = ESMappingService.sent w
      /\ ESMappingService.run w1
           [ESMappingService.TimerFires; ESMappingService.Response 0 outcome]
         = Some w2
      /\ ESMappingService.resolved w2 = ESMappingService.resolved w1
      /\ ESMappingService.discarded w2
         = ESMappingService.discarded w
           ++ [ESMappingService.RObject (ESMappingService.nextRef w) []].
Proof.
  intros es w caller url index hs outcome Hrun Haw Hfl Hmiss Hfail.
  destruct (run_pending_inv es _ _ init_pending_inv Hrun) as [Hp _].
  rewrite Haw in Hp. simpl in Hp.
  unfold ESMappingService.run, ESMappingService.step.
  unfold ESMappingService.fetchMapping_enter.
  rewrite Hmiss, Hp. simpl. rewrite Haw. simpl.
  eexists. eexists. split; [reflexivity|]. simpl.
  split; [reflexivity|]. split; [reflexivity|].
  rewrite Hfl. simpl.
  destruct outcome; try contradiction; simpl; repeat split; reflexivity.
Qed.

Lemma fetchMapping_miss_resolves_undefined_witness :
  exists w2,
    ESMappingService.run ESMappingService.init
      [ESMappingService.Call 1 sampleUrl sampleIndex [];
       ESMappingService.Resume;
       ESMappingService.TimerFires;
       ESMappingService.Response 0 ESMappingService.TransportError]
    = Some w2
    /\ ESMappingService.resolved w2 = [(1, ESMappingService.RUndefined)]
    /\ ESMappingService.discarded w2 = [ESMappingService.RObject 0 []].
Proof.
  destruct (fetchMapping_miss_resolves_undefined
              [] ESMappingService.init 1 sampleUrl sampleIndex []
              ESMappingService.TransportError
              eq_refl eq_refl eq_refl eq_refl I)
    as (w1 & w2 & H1 & R1 & _ & H2 & R2 & D2).
  exists w2. split.
  - change (ESMappingService.run ESMappingService.init
              ([ESMappingService.Call 1 sampleUrl sampleIndex [];
                ESMappingService.Resume]
               ++ [ESMappingService.TimerFires;
                   ESMappingService.Response 0 ESMappingService.TransportError])
            = Some w2).
    rewrite (run_app _ _ _ _ H1). exact H2.
  - split; [now rewrite R2, R1 | exact D2].
Defined.

(** C3, as the code has it.  (1) Two calls for the same uncached key in one
    turn of the event loop: one request goes out, after both calls have
    resolved, and both resolve with [undefined], not with the registry the
    request produces, which goes into the cache only.  (2) The pending entry
    is removed when the first call continues, before any request is sent.
    (3) A second call that arrives while the request of the first is in
    flight finds neither a cache entry nor a pending entry and has a second
    request sent for the same key. *)
Theorem fetchMapping_same_key_calls :
  (exists w,
      ESMappingService.run ESMappingService.init
        [ESMappingService.Call 1 sampleUrl sampleIndex [];
         ESMappingService.Call 2 sampleUrl sampleIndex [];
         ESMappingService.Resume;
         ESMappingService.TimerFires;
         ESMappingService.Response 0 (ESMappingService.Body sampleMapping)]
      = Some w
      /\ ESMappingService.sent w = ["http://es:9200/logs/_mapping"]
      /\ ESMappingService.resolved w
         = [(2, ESMappingService.RUndefined); (1, ESMappingService.RUndefined)]
      /\ LRUCache.cache (ESMappingService.cache (ESMappingService.service w))
         = [("http://es:9200#logs", ESMappingService.RObject 0 sampleRegistry)])
  /\ (exists w,
      ESMappingService.run ESMappingService.init
        [ESMappingService.Call 1 sampleUrl sampleIndex [];
         ESMappingService.Resume]
      = Some w
      /\ ESMappingService.pendingRequests (ESMappingService.service w) = []
      /\ ESMappingService.sent w = [])
  /\ (exists w,
      ESMappingService.run ESMappingService.init
        [ESMappingService.Call 1 sampleUrl sampleIndex [];
         ESMappingService.Resume;
         ESMappingService.TimerFires;
         ESMappingService.Call 2 sampleUrl sampleIndex [];
         ESMappingService.Resume;
         ESMappingService.TimerFires]
      = Some w
      /\ ESMappingService.sent w
         = ["http://es:9200/logs/_mapping"; "http://es:9200/logs/_mapping"]
      /\ length (ESMappingService.inFlight w) = 2
      /\ ESMappingService.fetchCount
           (ESMappingService.stats (ESMappingService.service w)) = 2
      /\ ESMappingService.resolved w
         = [(1, ESMappingService.RUndefined); (2, ESMappingService.RUndefined)]).
Proof.
  split; [|split]; eexists; (split; [vm_compute; reflexivity|]);
    repeat split; reflexivity.
Qed.

(** C4, as the code has it.  [clearIndexCache] calls [delete] on the
    [LRUCache], whose class defines no such method: for every state of the
    service and every endpoint and index the call raises TypeError and the
    service, the cache entry included, is as before. *)
Theorem clearIndexCache_raises :
  (forall s url index,
      ESMappingService.clearIndexCache s url index
      = (Throw (TypeError "this.cache.delete is not a function"), s))
  /\ (exists w,
      ESMappingService.run ESMappingService.init
        [ESMappingService.Call 1 sampleUrl sampleIndex [];
         ESMappingService.Resume;
         ESMappingService.TimerFires;
         ESMappingService.Response 0 (ESMappingService.Body sampleMapping)]
      = Some w
      /\ LRUCache.has (ESMappingService.cache (ESMappingService.service w))
                      "http://es:9200#logs" = true
      /\ LRUCache.has
           (ESMappingService.cache
              (snd (ESMappingService.clearIndexCache
                      (ESMappingService.service w) sampleUrl sampleIndex)))
           "http://es:9200#logs" = true).
Proof.
  split.
  - intros [c p st tm] url index. reflexivity.
  - eexists. split; [vm_compute; reflexivity|]. split; reflexivity.
Qed.

Lemma lru_cache_bound_and_recency_witness :
  let c := LRUCache.run [LRUCache.OpSet "a" 1; LRUCache.OpSet "b" 2]
                        (LRUCache.new 50) in
  let full :=
    LRUCache.run (map (fun i => LRUCache.OpSet (JSString.ofNat i) i) (seq 0 50))
                 (LRUCache.new 50) in
  (LRUCache.map_get "a" (LRUCache.cache c) = Some 1
   /\ LRUCache.get c "a"
      = (Some 1, LRUCache.with_cache c [("b", 2); ("a", 1)])
   /\ LRUCache.set c "a" 7 = LRUCache.with_cache c [("b", 2); ("a", 7)])
  /\ (LRUCache.has c "z" = false /\ LRUCache.size c < 50
      /\ LRUCache.cache (LRUCache.set c "z" 3) = [("a", 1); ("b", 2); ("z", 3)])
  /\ (LRUCache.has full "z" = false /\ LRUCache.size full = 50
      /\ exists lru rest,
          LRUCache.cache full = lru :: rest
          /\ LRUCache.cache (LRUCache.set full "z" 3) = rest ++ [("z", 3)]
          /\ LRUCache.size (LRUCache.set full "z" 3) = 50).
Proof.
  intros c full.
  pose proof (lru_cache_bound_and_recency nat
                [LRUCache.OpSet "a" 1; LRUCache.OpSet "b" 2]) as Hc.
  pose proof (lru_cache_bound_and_recency nat
                (map (fun i => LRUCache.OpSet (JSString.ofNat i) i) (seq 0 50)))
    as Hfull.
  cbv zeta in Hc, Hfull. fold c in Hc. fold full in Hfull.
  destruct Hc as (_ & _ & Hmove & Hroom & _).
  destruct Hfull as (_ & _ & _ & _ & Hevict & _).
  split; [|split].
  - split; [reflexivity|].
    destruct (Hmove "a" 1 eq_refl) as [Hg Hs]. split; [exact Hg | exact (Hs 7)].
  - assert (Hlt : LRUCache.size c < 50) by (vm_compute; lia).
    split; [reflexivity|]. split; [exact Hlt|].
    exact (Hroom "z" 3 eq_refl Hlt).
  - assert (Hhas : LRUCache.has full "z" = false) by (vm_compute; reflexivity).
    assert (Hsz : LRUCache.size full = 50) by (vm_compute; reflexivity).
    split; [exact Hhas|]. split; [exact Hsz|].
    exact (Hevict "z" 3 Hhas Hsz).
Defined.

Lemma getFieldType_longest_ancestor_witness :
  let fi := MappingParser.Field (JSValue.VStr "object") JSValue.VUndefined
              JSValue.VUndefined JSValue.VUndefined JSValue.VUndefined
              false true [] in
  MappingParser.lookup [("user", fi)] "user" = Some fi
  /\ MappingParser.getFieldType [("user", fi)] "user"
     = Some (MappingParser.Entry fi)
  /\ MappingParser.getFieldType [("user", fi)] "user.name.keyword"
     = Some (MappingParser.Entry fi)
  /\ reserved [("user", fi)] (firstSegment "user.name.keyword") = false
  /\ exists fi' i,
       MappingParser.Entry fi = MappingParser.Entry fi' /\ 1 <= i <= 3 /\
       MappingParser.lookup [("user", fi)]
         (JSString.join "." (firstn i ["user"; "name"; "keyword"])) = Some fi'.
Proof.
  intros fi.
  destruct (getFieldType_longest_ancestor [("user", fi)] "user")
    as (_ & Hexact & _).
  destruct (getFieldType_longest_ancestor [("user", fi)] "user.name.keyword")
    as (_ & _ & _ & _ & Hplain & _).
  split; [reflexivity|]. split; [exact (Hexact fi eq_refl)|].
  split; [reflexivity|]. split; [reflexivity|].
  destruct (proj1 (Hplain eq_refl) (MappingParser.Entry fi) eq_refl)
    as (fi' & i & Heq & Hi & Hl & _).
  exists fi', i. split; [exact Heq|]. split; [exact Hi | exact Hl].
Defined.

(** ** The validator: syntax errors *)

Section ErrorPositionFacts.
Import JSString ESValidator.


Lemma countChar_app c s t :
  countChar c (s ++ t)%string = countChar c s + countChar c t.
Proof. induction s as [|d r IH]; simpl; [reflexivity | rewrite IH; lia]. Qed.


(** *** The offset in the message of the parser *)










Lemma prefix_of_app p r : String.prefix p (p ++ r) = true.
Proof.
  induction p as [|c p IH]; simpl; [now destruct r|].
  destruct (ascii_dec c c); [exact IH | contradiction].
Qed.








End ErrorPositionFacts.



(** ** The validator: size and from *)

(** C7 as stated fails: on scenario D the validator, run with the reference
    parser and an empty schema, does not return exactly one info finding. *)
Lemma scenarioD_not_one_info :
  ~ (length (filter isInfo
               (ESValidator.validate RefJSON.numberToString [] RefJSON.parse
                  scenarioD)) = 1
     /\ filter isError
          (ESValidator.validate RefJSON.numberToString [] RefJSON.parse
             scenarioD) = []).
Proof. vm_compute. intros [H _]. discriminate H. Qed.

(** C7, amended.  Validating [{"size": 50000, "from": 0}] yields exactly
    two findings, both of severity Info: the one about the large size, and
    the one about [from + size] exceeding 10000, since 0 + 50000 does.  No
    error and no warning is reported. *)
Theorem validate_scenarioD_two_infos :
  forall numberToString currentFields JSON_parse,
    JSON_parse scenarioD
    = Normal (JSValue.VObj
                [("size", JSValue.VNum (inject_Z 50000));
                 ("from", JSValue.VNum (inject_Z 0))]) ->
    let findings :=
      ESValidator.validate numberToString currentFields JSON_parse scenarioD in
    findings = [largeSize; deepPagination]
    /\ filter isInfo findings = [largeSize; deepPagination]
    /\ filter isError findings = []
    /\ filter isWarning findings = [].
Proof.
  intros numberToString currentFields JSON_parse Hparse findings.
  assert (H : findings = [largeSize; deepPagination]).
  { unfold findings, ESValidator.validate, ESValidator.validateBody,
      ESValidator.bind, ESValidator.lift.
    rewrite Hparse. reflexivity. }
  rewrite H. repeat split; reflexivity.
Qed.

Lemma validate_scenarioD_two_infos_witness :
  RefJSON.parse scenarioD
  = Normal (JSValue.VObj
              [("size", JSValue.VNum (inject_Z 50000));
               ("from", JSValue.VNum (inject_Z 0))])
  /\ ESValidator.validate RefJSON.numberToString [] RefJSON.parse scenarioD
     = [largeSize; deepPagination].
Proof.
  split; [reflexivity|].
  exact (proj1 (validate_scenarioD_two_infos
                  RefJSON.numberToString [] RefJSON.parse eq_refl)).
Defined.

(** ** The validator: field-existence checks *)

Section PushFacts.
Import JSString JSValue MappingParser ESValidator.

Lemma pushes_skip : pushes skip [].
Proof. intros errors. unfold skip, ret. now rewrite app_nil_r. Qed.

Lemma pushes_push f : pushes (push f) [f].
Proof. intros errors. reflexivity. Qed.

Lemma pushes_seq m1 m2 a1 a2 :
  pushes m1 a1 -> pushes m2 a2 -> pushes (m1 ;;; m2) (a1 ++ a2).
Proof.
  intros H1 H2 errors. unfold bind. rewrite H1, H2. now rewrite app_assoc.
Qed.

Lemma pushes_if (b : bool) m1 m2 a1 a2 :
  pushes m1 a1 -> pushes m2 a2 ->
  pushes (if b then m1 else m2) (if b then a1 else a2).
Proof. now destruct b. Qed.

(** A loop whose bodies all push: it pushes what they push, in order. *)
Lemma pushes_forEntries body ps :
  (forall k v, In (k, v) ps -> exists a, pushes (body k v) a) ->
  exists added,
    pushes (forEntries body ps) added
    /\ forall k v a, In (k, v) ps -> pushes (body k v) a -> incl a added.
Proof.
  induction ps as [|[k v] rest IH]; intros Hall.
  - exists []. split; [apply pushes_skip | intros ? ? ? []].
  - destruct (Hall k v (or_introl eq_refl)) as [a Ha].
    destruct IH as (added & Hrest & Hincl).
    { intros k' v' Hin. apply Hall. now right. }
    exists (a ++ added). split.
    + simpl. now apply pushes_seq.
    + intros k' v' a' [Heq|Hin] Ha'.
      * injection Heq as <- <-.
        assert (a' = a) as ->.
        { specialize (Ha []). specialize (Ha' []). rewrite Ha in Ha'.
          now injection Ha'. }
        now apply incl_appl, incl_refl.
      * apply incl_appr. eapply Hincl; eauto.
Qed.

Lemma pushes_forIndexed body l : forall i,
  (forall k v, In v l -> exists a, pushes (body k v) a) ->
  exists added, pushes (forIndexed body i l) added.
Proof.
  induction l as [|v rest IH]; intros i Hall.
  - exists []. apply pushes_skip.
  - destruct (Hall (ofNat i) v (or_introl eq_refl)) as [a Ha].
    destruct (IH (S i)) as (added & Hrest).
    { intros k' v' Hin. apply Hall. now right. }
    exists (a ++ added). simpl. now apply pushes_seq.
Qed.

Lemma pushes_forIn_total body v :
  (forall k x, exists a, pushes (body k x) a) ->
  exists added, pushes (forIn body v) added.
Proof.
  intros Hall. destruct v; simpl; try (exists []; apply pushes_skip).
  - apply pushes_forIndexed. auto.
  - destruct (pushes_forEntries body props) as (added & H & _); eauto.
Qed.

Lemma pushes_forOf body l :
  (forall x, exists a, pushes (body x) a) ->
  exists added, pushes (forOf body l) added
    /\ forall f, In f added -> exists x a, In x l /\ pushes (body x) a /\ In f a.
Proof.
  intros Hall. induction l as [|x rest IH].
  - exists []. split; [apply pushes_skip | intros ? []].
  - destruct (Hall x) as [a Ha]. destruct IH as (added & Hrest & Hfrom).
    exists (a ++ added). split; [simpl; now apply pushes_seq|].
    intros f Hin. apply in_app_or in Hin as [Hin|Hin].
    + exists x, a. simpl. auto.
    + destruct (Hfrom f Hin) as (x' & a' & Hx & Hp & Hf).
      exists x', a'. simpl. auto.
Qed.

(** [forEach] over an array: what the callback pushes for the element at
    index [n] is part of what the loop pushes. *)
Lemma pushes_forEach_from body l : forall i,
  (forall v j, In v l -> exists a, pushes (body v j) a) ->
  exists added,
    pushes (forEach_from body i l) added
    /\ forall n v a, nth_error l n = Some v -> pushes (body v (i + n)) a ->
                     incl a added.
Proof.
  induction l as [|v rest IH]; intros i Hall.
  - exists []. split; [apply pushes_skip|]. intros [|n] ? ? H; discriminate H.
  - destruct (Hall v i (or_introl eq_refl)) as [a Ha].
    destruct (IH (S i)) as (added & Hrest & Hincl).
    { intros v' j Hin. apply Hall. now right. }
    exists (a ++ added). split; [simpl; now apply pushes_seq|].
    intros [|n] v' a' Hn Ha'; simpl in Hn.
    + injection Hn as <-. rewrite Nat.add_0_r in Ha'.
      assert (a' = a) as ->.
      { specialize (Ha []). specialize (Ha' []). rewrite Ha in Ha'.
        now injection Ha'. }
      now apply incl_appl, incl_refl.
    + apply incl_appr. apply (Hincl n v' a' Hn).
      now rewrite Nat.add_succ_comm.
Qed.

End PushFacts.

Section ValueInduction.
Import JSValue.
Variable P : value -> Prop.
Hypothesis Hundefined : P VUndefined.
Hypothesis Hnull : P VNull.
Hypothesis Hbool : forall b, P (VBool b).
Hypothesis Hnum : forall q, P (VNum q).
Hypothesis Hstr : forall s, P (VStr s).
Hypothesis Harr : forall l, Forall P l -> P (VArr l).
Hypothesis Hobj : forall props, Forall (fun kv => P (snd kv)) props -> P (VObj props).

(** Induction on a value with the hypothesis for every element and every
    property value. *)
Fixpoint value_ind_nested (v : value) : P v :=
  match v with
  | VUndefined => Hundefined
  | VNull => Hnull
  | VBool b => Hbool b
  | VNum q => Hnum q
  | VStr s => Hstr s
  | VArr l =>
      Harr l
        ((fix each (l : list value) : Forall P l :=
            match l with
            | [] => Forall_nil P
            | x :: r => Forall_cons x (value_ind_nested x) (each r)
            end) l)
  | VObj props =>
      Hobj props
        ((fix each (ps : list (string * value))
            : Forall (fun kv => P (snd kv)) ps :=
            match ps with
            | [] => Forall_nil _
            | kv :: r => Forall_cons kv (value_ind_nested (snd kv)) (each r)
            end) props)
  end.
End ValueInduction.

Section Descendants.
Import JSValue.

Lemma child_wf : well_founded child.
Proof.
  intros v. induction v using value_ind_nested;
    constructor; intros y Hy; inversion Hy; subst.
  - rewrite Forall_forall in H. auto.
  - rewrite Forall_forall in H. apply (H (k, y)). assumption.
Qed.

Lemma descendant_wf : well_founded descendant.
Proof. apply wf_clos_trans, child_wf. Qed.

Lemma descendant_child x v : child x v -> descendant x v.
Proof. apply t_step. Qed.

Lemma descendant_trans x y z : descendant x y -> descendant y z -> descendant x z.
Proof. apply t_trans. Qed.

End Descendants.

Section PrintFacts.
Import JSString JSValue MappingParser ESValidator.
Variable numberToString : Q -> string.

Lemma mentions_child key x v :
  child x v -> mentions key v = false -> mentions key x = false.
Proof.
  intros Hchild Hv. destruct Hchild as [x l Hin|k x props Hin]; simpl in Hv.
  - destruct (mentions key x) eqn:E; [|reflexivity].
    assert (existsb (mentions key) l = true)
      by (apply existsb_exists; eauto).
    congruence.
  - destruct (mentions key x) eqn:E; [|reflexivity].
    assert (existsb (fun kv : string * value =>
                       let (k0, x0) := kv in
                       String.eqb k0 key || mentions key x0) props = true).
    { apply existsb_exists. exists (k, x). split; [exact Hin|].
      rewrite E. apply orb_true_r. }
    congruence.
Qed.

Lemma mentions_descendant key x v :
  descendant x v -> mentions key v = false -> mentions key x = false.
Proof.
  induction 1 as [x v Hchild|x y v _ IH1 _ IH2]; intros Hv.
  - eapply mentions_child; eassumption.
  - apply IH1. now apply IH2.
Qed.

(** An object that mentions no [key] has no own property [key]. *)
Lemma mentions_hasOwn key props :
  mentions key (VObj props) = false -> hasOwn props key = false.
Proof.
  simpl. unfold hasOwn. induction props as [|[k x] r IH]; simpl; [reflexivity|].
  intros H. apply orb_false_iff in H as [H1 H2].
  apply orb_false_iff in H1 as [H1 _]. rewrite H1. now apply IH.
Qed.

Lemma getOwn_child props key :
  getOwn props key = VUndefined \/ child (getOwn props key) (VObj props).
Proof.
  induction props as [|[k x] r IH]; simpl; [now left|].
  destruct (String.eqb k key).
  - right. econstructor. now left.
  - destruct IH as [IH|IH]; [now left|]. right.
    inversion IH; subst. econstructor. right. eassumption.
Qed.

(** What is read from a value mentions no more names than the value. *)
Lemma mentions_prop key v k :
  mentions key v = false -> mentions key (prop v k) = false.
Proof.
  intros Hno. unfold prop.
  destruct v as [| | | |s|l|props]; simpl get; try reflexivity.
  - destruct (String.eqb k "length"); [reflexivity|].
    destruct (asIndex k) as [i|]; [|reflexivity].
    destruct (charAt s i); reflexivity.
  - destruct (String.eqb k "length"); [reflexivity|].
    destruct (asIndex k) as [i|]; [|reflexivity].
    destruct (nth_in_or_default i l VUndefined) as [Hin | Hnth];
      [|rewrite Hnth; reflexivity].
    eapply mentions_child; [|exact Hno]. now constructor.
  - destruct (getOwn_child props k) as [->|Hchild]; [reflexivity|].
    eapply mentions_child; eassumption.
Qed.

(** The conversion to a string returns on every value that holds no object
    with a property [toString]. *)
Lemma toStr_total v :
  mentions "toString" v = false -> exists s, toStr numberToString v = Normal s.
Proof.
  induction v using value_ind_nested; intros Hno; try (simpl; eauto; fail).
  - destruct b; simpl; eauto.
  - rename H into IH. cbn [toStr].
    match goal with
    | |- exists s, match ?E with _ => _ end = _ =>
        assert (Heach : exists ss, E = Normal ss)
    end.
    { simpl in Hno. induction l as [|x l IHl]; [eauto|].
      inversion IH as [|? ? Hx Hl]; subst.
      simpl in Hno. apply orb_false_iff in Hno as [Hnx Hnl].
      destruct (IHl Hl Hnl) as [ss Hss]. rewrite Hss.
      destruct (Hx Hnx) as [sx Hsx].
      destruct x; try (rewrite Hsx); eauto. }
    destruct Heach as [ss ->]. eauto.
  - cbn [toStr]. rewrite (mentions_hasOwn _ _ Hno). eauto.
Qed.

Lemma printed_spec v :
  mentions "toString" v = false ->
  toStr numberToString v = Normal (printed numberToString v).
Proof.
  intros Hno. unfold printed.
  destruct (toStr_total v Hno) as [s ->]. reflexivity.
Qed.

(** A conversion that returns is a step that pushes nothing. *)
Lemma pushes_str v s (k : string -> M unit) a :
  toStr numberToString v = Normal s ->
  pushes (k s) a -> pushes (bind (str numberToString v) k) a.
Proof. intros H Hk errors. unfold bind, str, lift. rewrite H. apply Hk. Qed.

Lemma pushes_forIn body v :
  (forall k x, child x v -> exists a, pushes (body k x) a) ->
  exists added, pushes (forIn body v) added.
Proof.
  intros Hall. destruct v; simpl; try (exists []; apply pushes_skip).
  - apply pushes_forIndexed. intros k x Hin. apply Hall. now constructor.
  - destruct (pushes_forEntries body props) as (added & H & _); [|eauto].
    intros k x Hin. apply Hall. econstructor. exact Hin.
Qed.

End PrintFacts.

Section FieldCheckFacts.
Import JSString JSValue MappingParser ESValidator.
Variable numberToString : Q -> string.
Variable fields : Registry.

Lemma split_app_sep sep a b :
  split sep (a ++ String sep b) = split sep a ++ split sep b.
Proof.
  induction a as [|c a' IH]; simpl.
  - now rewrite Ascii.eqb_refl.
  - destruct (Ascii.eqb c sep); [now rewrite IH|].
    rewrite IH.
    destruct (split sep a') as [|h t] eqn:E; [now apply split_nonempty in E|].
    reflexivity.
Qed.

(** The fallback lookup resolves a dotted extension of a mapped path. *)
Lemma getFieldType_extension mapped rest fi :
  lookup fields mapped = Some fi ->
  getFieldType fields (mapped ++ "." ++ rest) <> None.
Proof.
  intros Hmapped Hnone.
  apply (proj1 (getFieldType_none fields (mapped ++ "." ++ rest)))
    with (i := length (split "."%char mapped)) in Hnone.
  - change (mapped ++ "." ++ rest)%string
      with (mapped ++ String "."%char rest)%string in Hnone.
    rewrite split_app_sep, firstn_app, firstn_all, Nat.sub_diag in Hnone.
    simpl firstn in Hnone. rewrite app_nil_r in Hnone.
    rewrite (join_split "."%char) in Hnone.
    rewrite (read_stored _ _ _ Hmapped) in Hnone. discriminate Hnone.
  - change (mapped ++ "." ++ rest)%string
      with (mapped ++ String "."%char rest)%string.
    rewrite split_app_sep, length_app.
    pose proof (split_nonempty "."%char mapped).
    destruct (split "."%char mapped); [congruence | simpl; lia].
Qed.

Lemma extension_nonempty mapped rest :
  String.eqb (mapped ++ "." ++ rest) EmptyString = false.
Proof. destruct mapped; reflexivity. Qed.

Lemma extension_dotted mapped rest :
  includesChar "."%char (mapped ++ "." ++ rest) = true.
Proof. rewrite includesChar_app. apply orb_true_iff. right. reflexivity. Qed.

(** A dotted name under which no entry is stored is unmapped for the
    checks: with its dot it is none of the inherited names. *)
Lemma unmapped_extension mapped rest :
  lookup fields (mapped ++ "." ++ rest) = None ->
  unmapped fields (mapped ++ "." ++ rest) = true.
Proof.
  intros H. unfold unmapped.
  rewrite read_dotted by apply extension_dotted. now rewrite H.
Qed.

Lemma unmapped_read name :
  unmapped fields name = true -> read fields name = None.
Proof. unfold unmapped. destruct (read fields name); [discriminate | reflexivity]. Qed.

Lemma validateMatchOptions_pushes options path :
  mentions "toString" options = false ->
  exists a, pushes (validateMatchOptions numberToString options path) a.
Proof.
  intros Hno. unfold validateMatchOptions. apply pushes_forIn.
  intros k x Hchild.
  destruct (toStr_total numberToString x) as [s Hs];
    [eapply mentions_child; eassumption|].
  eexists. apply pushes_seq.
  - apply pushes_if; [apply pushes_push | apply pushes_skip].
  - apply pushes_if; [|apply pushes_skip].
    eapply pushes_str; [exact Hs | apply pushes_push].
Qed.

Lemma validateMatchQuery_warns props path fieldName v :
  In (fieldName, v) props -> unmapped fields fieldName = true ->
  mentions "toString" (VObj props) = false ->
  exists added,
    pushes (validateMatchQuery numberToString fields (VObj props) path) added
    /\ In (located Warning (notFound fieldName) (path ++ [PKey fieldName])) added.
Proof.
  intros Hin Hun Hno. unfold validateMatchQuery. simpl notAnObject. cbv iota.
  destruct props as [|p0 props0] eqn:E; [contradiction|].
  simpl ownKeys. simpl length. simpl Nat.eqb. cbv iota. rewrite <- E in *.
  simpl forIn.
  match goal with |- context [forEntries ?b props] => set (body := b) end.
  assert (Hoptions : forall k x, In (k, x) props ->
            exists a, pushes (validateMatchOptions numberToString x
                                (path ++ [PKey k])) a).
  { intros k x Hkx. apply validateMatchOptions_pushes.
    eapply mentions_child; [|exact Hno]. econstructor. exact Hkx. }
  destruct (pushes_forEntries body props) as (added & Hp & Hincl).
  - intros k x Hkx. subst body. cbv beta.
    destruct (Hoptions k x Hkx) as [a Ha].
    eexists. apply pushes_seq; apply pushes_if;
      first [apply pushes_push | apply pushes_skip | exact Ha].
  - exists added. split; [exact Hp|].
    destruct (Hoptions fieldName v Hin) as [a Ha].
    eapply (Hincl fieldName v).
    + exact Hin.
    + subst body. cbv beta. apply pushes_seq; apply pushes_if;
        first [apply pushes_push | apply pushes_skip | exact Ha].
    + rewrite Hun. simpl. now left.
Qed.

Lemma validateTermQuery_warns props path fieldName v :
  In (fieldName, v) props -> unmapped fields fieldName = true ->
  exists added,
    pushes (validateTermQuery fields (VObj props) path) added
    /\ In (located Warning (notFound fieldName) (path ++ [PKey fieldName])) added.
Proof.
  intros Hin Hun. unfold validateTermQuery. simpl notAnObject. cbv iota.
  simpl forIn.
  match goal with |- context [forEntries ?b props] => set (body := b) end.
  destruct (pushes_forEntries body props) as (added & Hp & Hincl).
  - intros k x _. subst body. cbv beta.
    eexists. apply pushes_seq; apply pushes_if;
      first [apply pushes_push | apply pushes_skip].
  - exists added. split; [exact Hp|].
    eapply (Hincl fieldName v).
    + exact Hin.
    + subst body. cbv beta. apply pushes_seq; apply pushes_if;
        first [apply pushes_push | apply pushes_skip].
    + rewrite Hun. simpl. now left.
Qed.

Lemma validateExistsQuery_warns props path fieldName :
  getOwn props "field" = VStr fieldName ->
  String.eqb fieldName EmptyString = false ->
  unmapped fields fieldName = true ->
  pushes (validateExistsQuery fields (VObj props) path)
         [located Warning (notFound fieldName) (path ++ [PKey "field"])].
Proof.
  intros Hfield Hne Hun errors.
  unfold validateExistsQuery, prop. simpl. rewrite Hfield, Hne.
  now rewrite Hun.
Qed.

Lemma validateMultiMatchQuery_warns props path l n s :
  getOwn props "fields" = VArr l ->
  Forall (fun v => isString v = true) l ->
  nth_error l n = Some (VStr s) ->
  unmapped fields (hd EmptyString (split "^"%char s)) = true ->
  exists added,
    pushes (validateMultiMatchQuery fields (VObj props) path) added
    /\ In (located Warning (notFound (hd EmptyString (split "^"%char s)))
                   (path ++ [PKey "fields"; PIndex n])) added.
Proof.
  intros Hfields Hall Hn Hun.
  unfold validateMultiMatchQuery, prop. simpl. rewrite Hfields. simpl.
  match goal with |- context [forEach ?b l] => set (body := b) end.
  assert (Hbody : forall v j, In v l -> exists a, pushes (body v j) a).
  { intros v j Hin. rewrite Forall_forall in Hall. specialize (Hall v Hin).
    destruct v; try discriminate. subst body. cbv beta.
    eexists. intros errors. unfold bind, lift. simpl.
    apply (pushes_if _ _ _ _ _ (pushes_push _) pushes_skip). }
  destruct (pushes_forEach_from body l 0 Hbody) as (added & Hp & Hincl).
  eexists. split.
  - apply pushes_seq; [|exact Hp].
    apply pushes_if; [apply pushes_push | apply pushes_skip].
  - apply in_or_app. right.
    eapply (Hincl n (VStr s)); [exact Hn | |].
    + subst body. cbv beta. intros errors. unfold bind, lift. simpl.
      apply (pushes_if _ _ _ _ _ (pushes_push _) pushes_skip).
    + rewrite Hun. simpl. now left.
Qed.

End FieldCheckFacts.

Section AggregationFacts.
Import JSString JSValue MappingParser ESValidator.
Variable numberToString : Q -> string.
Variable fields : Registry.

Lemma withProp_cases {A : Type} key (f : value -> A) d props :
  withProp key f d props = d
  \/ exists v, In (key, v) props /\ withProp key f d props = f v.
Proof.
  induction props as [|[k v] r IH]; simpl; [now left|].
  destruct (String.eqb_spec k key) as [->|Hne].
  - right. exists v. auto.
  - destruct IH as [IH|(v' & Hin & IH)]; [now left|].
    right. exists v'. auto.
Qed.

(** The checks of a configuration before the nested aggregations, for a
    configuration whose [field] converts to a string. *)
Lemma configChecks_pushes aggType config path :
  notAnObject config = false ->
  mentions "toString" config = false ->
  forall nestedChecks nested,
    pushes nestedChecks nested ->
    pushes
      ((if negb (includes ["filter"; "filters"; "multi_terms"; "diversified_sampler"]
                          aggType) then
          let field := prop config "field" in
          if negb (truthy field) then
            push (located Warning
                    (quoted aggType ++ " aggregation typically requires a "
                     ++ quoted "field" ++ " property") path)
          else
            name <- str numberToString field ;;
            if unmapped fields name then
              push (located Warning (notFound name) (path ++ [PKey "field"]))
            else skip
        else skip) ;;;
       (if String.eqb aggType "date_histogram" then
          if negb (truthy (prop config "calendar_interval"))
             && negb (truthy (prop config "fixed_interval")) then
            push (located Warning
                    "date_histogram should have calendar_interval or fixed_interval"
                    path)
          else skip
        else if String.eqb aggType "histogram" then
          if negb (truthy (prop config "interval")) then
            push (located Warning
                    ("histogram requires " ++ quoted "interval" ++ " property") path)
          else skip
        else skip) ;;;
       nestedChecks)
      (configChecks numberToString fields aggType config path ++ nested).
Proof.
  intros Hobj Hno nestedChecks nested Hnested.
  unfold configChecks. rewrite <- app_assoc.
  apply pushes_seq; [|apply pushes_seq; [|exact Hnested]].
  - destruct (negb (includes _ aggType)); [|apply pushes_skip]. cbv zeta.
    destruct (negb (truthy _)); [apply pushes_push|].
    eapply pushes_str; [apply printed_spec; apply mentions_prop; exact Hno|].
    destruct (unmapped _ _); [apply pushes_push | apply pushes_skip].
  - destruct (String.eqb aggType "date_histogram").
    + destruct (_ && _); [apply pushes_push | apply pushes_skip].
    + destruct (String.eqb aggType "histogram"); [|apply pushes_skip].
      destruct (negb _); [apply pushes_push | apply pushes_skip].
Qed.

Lemma validateAggregationConfig_pushes rec aggType cprops path :
  mentions "toString" (VObj cprops) = false ->
  (forall k v p, In (k, v) cprops -> exists a, pushes (rec v p) a) ->
  exists nested,
    pushes (validateAggregationConfig numberToString fields rec aggType
              (VObj cprops) path)
           (configChecks numberToString fields aggType (VObj cprops) path ++ nested).
Proof.
  intros Hno Hrec. unfold validateAggregationConfig. simpl notAnObject. cbv iota.
  assert (Hnested : exists nested,
    pushes
      (let viaAggregations :=
         withProp "aggregations"
           (fun nestedAggs =>
              if truthy nestedAggs then rec nestedAggs path else skip)
           skip cprops in
       withProp "aggs"
         (fun nestedAggs =>
            if truthy nestedAggs then rec nestedAggs path else viaAggregations)
         viaAggregations cprops) nested).
  { cbv zeta.
    assert (Hvia : exists a,
      pushes (withProp "aggregations"
                (fun nestedAggs =>
                   if truthy nestedAggs then rec nestedAggs path else skip)
                skip cprops) a).
    { match goal with |- context [withProp ?k ?f ?d cprops] =>
        destruct (withProp_cases k f d cprops) as [->|(v & Hin & ->)] end.
      - eexists. apply pushes_skip.
      - destruct (truthy v); [eauto | eexists; apply pushes_skip]. }
    match goal with |- context [withProp "aggs" ?f ?d cprops] =>
      destruct (withProp_cases "aggs" f d cprops) as [->|(v & Hin & ->)] end.
    - exact Hvia.
    - destruct (truthy v); [eauto | exact Hvia]. }
  destruct Hnested as [nested Hnested]. exists nested.
  now apply configChecks_pushes.
Qed.

Lemma validateAggregation_pushes rec path aggName aggValue :
  mentions "toString" aggValue = false ->
  (forall v p, descendant v aggValue -> exists a, pushes (rec v p) a) ->
  exists a, pushes (validateAggregation numberToString fields rec path
                      aggName aggValue) a.
Proof.
  intros Hno Hrec. unfold validateAggregation.
  destruct (isIndexLike aggName); [eexists; apply pushes_skip|].
  destruct (notAnObject aggValue) eqn:Hobj; [eexists; apply pushes_push|].
  destruct aggValue as [| | | | |l|props]; try discriminate.
  - destruct l; eexists; apply pushes_push.
  - destruct props as [|[aggType config] rest]; [eexists; apply pushes_push|].
    destruct (negb (isValidAggregationType aggType)); [eexists; apply pushes_push|].
    assert (Hconfig : mentions "toString" config = false).
    { eapply mentions_child; [|exact Hno]. econstructor. now left. }
    destruct config as [| | | | |l|cprops];
      try (eexists; unfold validateAggregationConfig; simpl; apply pushes_push).
    + eexists. unfold validateAggregationConfig. simpl notAnObject. cbv iota.
      apply (configChecks_pushes aggType (VArr l) _ eq_refl Hconfig skip []).
      apply pushes_skip.
    + destruct (validateAggregationConfig_pushes rec aggType cprops
                  (path ++ [PKey aggName; PKey aggType]) Hconfig)
        as [nested Hn].
      * intros k v p Hin. apply Hrec.
        eapply descendant_trans.
        -- apply descendant_child. eapply child_property. exact Hin.
        -- apply descendant_child. eapply child_property. now left.
      * eexists. exact Hn.
Qed.

(** [validateAggregations] raises nothing on a value that holds no object
    with a property [toString]. *)
Lemma validateAggregations_pushes aggs : forall path,
  mentions "toString" aggs = false ->
  exists a, pushes (validateAggregations numberToString fields aggs path) a.
Proof.
  induction aggs as [aggs IH] using (well_founded_induction descendant_wf).
  intros path Hno.
  destruct aggs as [| | | | |l|props];
    try (eexists; simpl; apply pushes_push).
  - simpl. apply pushes_forIndexed. intros k v Hin.
    assert (Hchild : child v (VArr l)) by now constructor.
    apply validateAggregation_pushes;
      [eapply mentions_child; eassumption|].
    intros x p Hx. apply IH.
    + eapply descendant_trans; [exact Hx | now apply descendant_child].
    + eapply mentions_descendant; [exact Hx|].
      eapply mentions_child; eassumption.
  - simpl.
    destruct (pushes_forEntries
                (validateAggregation numberToString fields
                   (validateAggregations numberToString fields) path) props)
      as (added & H & _); [|eauto].
    intros k v Hin.
    assert (Hchild : child v (VObj props)) by (econstructor; exact Hin).
    apply validateAggregation_pushes;
      [eapply mentions_child; eassumption|].
    intros x p Hx. apply IH.
    + eapply descendant_trans; [exact Hx | now apply descendant_child].
    + eapply mentions_descendant; [exact Hx|].
      eapply mentions_child; eassumption.
Qed.

Lemma validateAggregations_warns props path aggName aggType cprops rest fieldName :
  In (aggName, VObj ((aggType, VObj cprops) :: rest)) props ->
  mentions "toString" (VObj props) = false ->
  isIndexLike aggName = false ->
  isValidAggregationType aggType = true ->
  includes ["filter"; "filters"; "multi_terms"; "diversified_sampler"] aggType
  = false ->
  getOwn cprops "field" = VStr fieldName ->
  String.eqb fieldName EmptyString = false ->
  unmapped fields fieldName = true ->
  exists added,
    pushes (validateAggregations numberToString fields (VObj props) path) added
    /\ In (located Warning (notFound fieldName)
             (path ++ [PKey aggName; PKey aggType; PKey "field"])) added.
Proof.
  intros Hin Hno Hidx Hvalid Hexempt Hfield Hne Hun. simpl.
  assert (Hvalue : mentions "toString" (VObj ((aggType, VObj cprops) :: rest))
                   = false).
  { eapply mentions_child; [|exact Hno]. econstructor. exact Hin. }
  assert (Hconfig : mentions "toString" (VObj cprops) = false).
  { eapply mentions_child; [|exact Hvalue]. econstructor. now left. }
  assert (Hsub : forall v p, descendant v (VObj props) ->
            exists a, pushes (validateAggregations numberToString fields v p) a).
  { intros v p Hv. apply validateAggregations_pushes.
    eapply mentions_descendant; eassumption. }
  destruct (pushes_forEntries
              (validateAggregation numberToString fields
                 (validateAggregations numberToString fields) path) props)
    as (added & Hp & Hincl).
  { intros k v Hkv.
    assert (Hchild : child v (VObj props)) by (econstructor; exact Hkv).
    apply validateAggregation_pushes;
      [eapply mentions_child; eassumption|].
    intros x p Hx. apply Hsub.
    eapply descendant_trans; [exact Hx | now apply descendant_child]. }
  exists added. split; [exact Hp|].
  destruct (validateAggregationConfig_pushes
              (validateAggregations numberToString fields) aggType cprops
              (path ++ [PKey aggName; PKey aggType]) Hconfig) as [nested Hn].
  { intros k v p Hkv. apply Hsub.
    eapply descendant_trans;
      [apply descendant_child; eapply child_property; exact Hkv|].
    eapply descendant_trans;
      [apply descendant_child;
       apply (child_property aggType _ ((aggType, VObj cprops) :: rest));
       now left|].
    apply descendant_child. eapply child_property. exact Hin. }
  eapply (Hincl aggName _ _ Hin).
  - unfold validateAggregation. rewrite Hidx. simpl notAnObject. cbv iota.
    rewrite Hvalid. simpl negb. cbv iota. exact Hn.
  - apply in_or_app. left. unfold configChecks. apply in_or_app. left.
    rewrite Hexempt. simpl negb. cbv iota.
    unfold prop. simpl get. rewrite Hfield. simpl truthy. rewrite Hne.
    simpl negb. cbv iota. unfold printed. cbn [toStr]. rewrite Hun.
    rewrite <- app_assoc. simpl. now left.
Qed.

(** A range clause on a field that is not mapped: every finding is an
    error; none is a warning. *)
Lemma validateRangeQuery_unmapped fieldName v path :
  unmapped fields fieldName = true ->
  exists added,
    pushes (validateRangeQuery numberToString fields (VObj [(fieldName, v)]) path)
           added
    /\ Forall (fun f => severity f = Error) added.
Proof.
  intros Hun. unfold validateRangeQuery. simpl notAnObject. cbv iota.
  simpl ownKeys. cbv iota.
  assert (Hprop : prop (VObj [(fieldName, v)]) fieldName = v).
  { unfold prop. simpl. now rewrite String.eqb_refl. }
  rewrite Hprop.
  destruct (notAnObject v || isArray v).
  { eexists. split; [apply pushes_push | repeat constructor]. }
  destruct (Nat.eqb (length (ownKeys v)) 0).
  { eexists. split; [apply pushes_push | repeat constructor]. }
  rewrite (unmapped_read _ _ Hun).
  match goal with |- context [forOf ?b (ownKeys v)] => set (body := b) end.
  destruct (pushes_forOf body (ownKeys v)) as (added & Hp & Hfrom).
  { intros x. subst body. cbv beta.
    eexists. apply pushes_if; [apply pushes_push | apply pushes_skip]. }
  exists (added ++ []). split; [apply pushes_seq; [exact Hp | apply pushes_skip]|].
  rewrite app_nil_r. apply Forall_forall. intros f Hf.
  destruct (Hfrom f Hf) as (x & a & _ & Hpx & Hfa).
  subst body. cbv beta in Hpx.
  specialize (Hpx []). unfold push, skip, ret in Hpx.
  destruct (negb (includes validRangeOperators x));
    injection Hpx as Ha; rewrite <- Ha in Hfa; simpl in Hfa.
  - destruct Hfa as [<-|[]]. reflexivity.
  - contradiction.
Qed.

End AggregationFacts.

(** C10 as stated fails for the range clause: with [a] mapped and [a.b]
    not, a range query on [a.b] yields no finding at all, so no warning
    that the field is not found in the mapping. *)
Lemma range_on_extension_no_warning :
  MappingParser.lookup schemaA "a" = Some integerField
  /\ MappingParser.lookup schemaA "a.b" = None
  /\ ~ exists f,
        In f (ESValidator.validate RefJSON.numberToString schemaA RefJSON.parse
                rangeOnExtension)
        /\ ESValidator.severity f = ESValidator.Warning
        /\ ESValidator.message f = ESValidator.notFound "a.b".
Proof.
  split; [reflexivity|]. split; [reflexivity|].
  intros (f & Hin & _). vm_compute in Hin. exact Hin.
Qed.

(** The sort check builds the path of its finding from a [path] argument
    that [validate] does not pass: instead of the warning for the unmapped
    sort field the document gets the finding of the catch clause. *)
Lemma sort_on_extension_raises :
  ESValidator.validate RefJSON.numberToString schemaA RefJSON.parse
    sortOnExtension
  = [ESValidator.mkFinding ESValidator.Error
       "JSON syntax error: path is not iterable" None
       (Some 1) (Some 1) (Some 1) (Some 2)].
Proof. vm_compute. reflexivity. Qed.

(** A check that raises ends the validation: the match clause on the
    unmapped [a.b] that follows a clause whose [operator] is an object with
    a property [toString] is never reached, and the document gets the
    finding of the catch clause instead of the warning. *)
Lemma match_after_raise_no_warning :
  ESValidator.validate RefJSON.numberToString schemaA RefJSON.parse
    matchAfterRaise
  = [ESValidator.located ESValidator.Warning (ESValidator.notFound "x")
       [ESValidator.PKey "query"; ESValidator.PKey "match"; ESValidator.PKey "x"];
     ESValidator.mkFinding ESValidator.Error
       "JSON syntax error: Cannot convert object to primitive value" None
       (Some 1) (Some 1) (Some 1) (Some 2)].
Proof. vm_compute. reflexivity. Qed.

(** An aggregation under a name made of digits is skipped, whatever it
    holds: its unmapped field gets no warning. *)
Lemma digit_named_aggregation_no_warning :
  ESValidator.validate RefJSON.numberToString schemaA RefJSON.parse
    digitNamedAggregation
  = [].
Proof. vm_compute. reflexivity. Qed.

(** C10, amended.  Let [mapped] be a path of the schema and [fieldName] a
    dotted extension of it that the schema does not hold, so that the
    fallback lookup [getFieldType] would resolve [fieldName].  The
    field-existence checks of the match clauses (match, match_phrase,
    match_phrase_prefix), of the term clauses (term, terms), of exists, of
    multi_match (after the boost suffix is cut off, when every entry of
    [fields] is a string) and of aggregations (of a known type that is not
    exempt, under a name that is not made of digits) read the registry under
    the exact name only, and each pushes the warning
    [Field "fieldName" not found in mapping] with the path of the place.
    For the match clauses and the aggregations this is for a clause that
    holds no object with a property [toString]: converting such an object
    for a message raises and ends the validation.  The range clause reads
    the registry under the exact name only to check the type of a mapped
    field: on [fieldName] all it reports are errors, never a warning. *)
Theorem field_checks_use_exact_lookup :
  forall numberToString (fields : MappingParser.Registry) mapped rest fi,
    let fieldName := (mapped ++ "." ++ rest)%string in
    let warning path :=
      ESValidator.located ESValidator.Warning (ESValidator.notFound fieldName)
        path in
    MappingParser.lookup fields mapped = Some fi ->
    MappingParser.lookup fields fieldName = None ->
    MappingParser.getFieldType fields fieldName <> None
    /\ (forall rec path q,
          ESValidator.validateClause numberToString fields rec path "match" q
          = ESValidator.validateMatchQuery numberToString fields q
              (path ++ [ESValidator.PKey "match"])
          /\ ESValidator.validateClause numberToString fields rec path
               "match_phrase" q
             = ESValidator.validateMatchQuery numberToString fields q
                 (path ++ [ESValidator.PKey "match_phrase"])
          /\ ESValidator.validateClause numberToString fields rec path
               "match_phrase_prefix" q
             = ESValidator.validateMatchQuery numberToString fields q
                 (path ++ [ESValidator.PKey "match_phrase_prefix"])
          /\ ESValidator.validateClause numberToString fields rec path "term" q
             = ESValidator.validateTermQuery fields q
                 (path ++ [ESValidator.PKey "term"])
          /\ ESValidator.validateClause numberToString fields rec path "terms" q
             = ESValidator.validateTermQuery fields q
                 (path ++ [ESValidator.PKey "terms"])
          /\ ESValidator.validateClause numberToString fields rec path "exists" q
             = ESValidator.validateExistsQuery fields q
                 (path ++ [ESValidator.PKey "exists"])
          /\ ESValidator.validateClause numberToString fields rec path
               "multi_match" q
             = ESValidator.validateMultiMatchQuery fields q
                 (path ++ [ESValidator.PKey "multi_match"])
          /\ ESValidator.validateClause numberToString fields rec path "range" q
             = ESValidator.validateRangeQuery numberToString fields q
                 (path ++ [ESValidator.PKey "range"]))
    /\ (forall props path v,
          In (fieldName, v) props ->
          mentions "toString" (JSValue.VObj props) = false ->
          exists added,
            pushes (ESValidator.validateMatchQuery numberToString fields
                      (JSValue.VObj props) path) added
            /\ In (warning (path ++ [ESValidator.PKey fieldName])) added)
    /\ (forall props path v,
          In (fieldName, v) props ->
          exists added,
            pushes (ESValidator.validateTermQuery fields (JSValue.VObj props) path)
                   added
            /\ In (warning (path ++ [ESValidator.PKey fieldName])) added)
    /\ (forall props path,
          JSValue.getOwn props "field" = JSValue.VStr fieldName ->
          pushes (ESValidator.validateExistsQuery fields (JSValue.VObj props) path)
                 [warning (path ++ [ESValidator.PKey "field"])])
    /\ (forall props path l n s,
          JSValue.getOwn props "fields" = JSValue.VArr l ->
          Forall (fun v => JSValue.isString v = true) l ->
          nth_error l n = Some (JSValue.VStr s) ->
          hd EmptyString (JSString.split "^"%char s) = fieldName ->
          exists added,
            pushes (ESValidator.validateMultiMatchQuery fields
                      (JSValue.VObj props) path) added
            /\ In (warning (path ++ [ESValidator.PKey "fields";
                                     ESValidator.PIndex n])) added)
    /\ (forall props path aggName aggType config others,
          In (aggName, JSValue.VObj ((aggType, JSValue.VObj config) :: others))
             props ->
          mentions "toString" (JSValue.VObj props) = false ->
          JSString.isIndexLike aggName = false ->
          ESValidator.isValidAggregationType aggType = true ->
          JSString.includes
            ["filter"; "filters"; "multi_terms"; "diversified_sampler"] aggType
          = false ->
          JSValue.getOwn config "field" = JSValue.VStr fieldName ->
          exists added,
            pushes (ESValidator.validateAggregations numberToString fields
                      (JSValue.VObj props) path) added
            /\ In (warning (path ++ [ESValidator.PKey aggName;
                                     ESValidator.PKey aggType;
                                     ESValidator.PKey "field"])) added)
    /\ (forall path v,
          exists added,
            pushes (ESValidator.validateRangeQuery numberToString fields
                      (JSValue.VObj [(fieldName, v)]) path) added
            /\ Forall (fun f => ESValidator.severity f = ESValidator.Error) added).
Proof.
  intros numberToString fields mapped rest fi fieldName warning Hmapped Hnone.
  assert (Hun : ESValidator.unmapped fields fieldName = true)
    by now apply unmapped_extension.
  split; [now apply (getFieldType_extension fields mapped rest fi)|].
  split; [intros rec path q; repeat split; reflexivity|].
  split; [intros props path v Hin Hno;
          now apply (validateMatchQuery_warns numberToString fields props path
                       fieldName v)|].
  split; [intros props path v Hin;
          now apply (validateTermQuery_warns fields props path fieldName v)|].
  split; [intros props path Hfield;
          apply validateExistsQuery_warns;
          [exact Hfield | apply extension_nonempty | exact Hun]|].
  split.
  { intros props path l n s Hfields Hall Hn Hname.
    unfold warning. rewrite <- Hname.
    apply (validateMultiMatchQuery_warns fields props path l n s);
      try assumption. now rewrite Hname. }
  split.
  { intros props path aggName aggType config others Hin Hno Hidx Hvalid Hexempt
           Hfield.
    eapply validateAggregations_warns; eauto. apply extension_nonempty. }
  intros path v. now apply validateRangeQuery_unmapped.
Qed.

Lemma field_checks_use_exact_lookup_witness :
  (MappingParser.lookup schemaA "a" = Some integerField
   /\ MappingParser.lookup schemaA "a.b" = None)
  /\ MappingParser.getFieldType schemaA "a.b" <> None
  /\ ESValidator.validate RefJSON.numberToString schemaA RefJSON.parse
       matchOnExtension
     = [ESValidator.located ESValidator.Warning (ESValidator.notFound "a.b")
          [ESValidator.PKey "query"; ESValidator.PKey "match";
           ESValidator.PKey "a.b"]]
  /\ (exists added,
        pushes (ESValidator.validateMatchQuery RefJSON.numberToString schemaA
                  (JSValue.VObj [("a.b", JSValue.VStr "x")])
                  [ESValidator.PKey "query"; ESValidator.PKey "match"]) added
        /\ In (ESValidator.located ESValidator.Warning
                 (ESValidator.notFound "a.b")
                 [ESValidator.PKey "query"; ESValidator.PKey "match";
                  ESValidator.PKey "a.b"]) added)
  /\ (exists added,
        pushes (ESValidator.validateAggregations RefJSON.numberToString schemaA
                  (JSValue.VObj
                     [("by_b",
                       JSValue.VObj
                         [("terms",
                           JSValue.VObj [("field", JSValue.VStr "a.b")])])])
                  [ESValidator.PKey "aggs"]) added
        /\ In (ESValidator.located ESValidator.Warning
                 (ESValidator.notFound "a.b")
                 [ESValidator.PKey "aggs"; ESValidator.PKey "by_b";
                  ESValidator.PKey "terms"; ESValidator.PKey "field"]) added)
  /\ (exists added,
        pushes (ESValidator.validateRangeQuery RefJSON.numberToString schemaA
                  (JSValue.VObj
                     [("a.b", JSValue.VObj [("gte", JSValue.VNum (inject_Z 1))])])
                  [ESValidator.PKey "query"; ESValidator.PKey "range"]) added
        /\ Forall (fun f => ESValidator.severity f = ESValidator.Error) added).
Proof.
  destruct (field_checks_use_exact_lookup RefJSON.numberToString schemaA
              "a" "b" integerField eq_refl eq_refl)
    as (Hfallback & _ & Hmatch & _ & _ & _ & Haggs & Hrange).
  split; [split; reflexivity|].
  split; [exact Hfallback|].
  split; [reflexivity|].
  split.
  { exact (Hmatch [("a.b", JSValue.VStr "x")]
             [ESValidator.PKey "query"; ESValidator.PKey "match"]
             (JSValue.VStr "x") (or_introl eq_refl) eq_refl). }
  split.
  { exact (Haggs
             [("by_b",
               JSValue.VObj
                 [("terms", JSValue.VObj [("field", JSValue.VStr "a.b")])])]
             [ESValidator.PKey "aggs"] "by_b" "terms"
             [("field", JSValue.VStr "a.b")] [] (or_introl eq_refl)
             eq_refl eq_refl eq_refl eq_refl eq_refl). }
  exact (Hrange [ESValidator.PKey "query"; ESValidator.PKey "range"]
           (JSValue.VObj [("gte", JSValue.VNum (inject_Z 1))])).
Defined.

(** ** The context resolver *)

Section ResolverFacts.
Import DSLParser.
Variable JSON_parse : string -> completion JSValue.value.

(** On a text no step of the resolution raises. *)
Lemma getDSLContext_body_text text offset :
  exists ctx, getDSLContext_body JSON_parse (Some text) offset = Normal ctx.
Proof.
  unfold getDSLContext_body, partialParse, findPathToOffset, textOf.
  destruct (JSON_parse text); [eauto|].
  destruct (JSON_parse (truncate text)); eauto.
Qed.

End ResolverFacts.

(** C9.  [getDSLContext] returns a context for every argument and every
    offset, and raises nothing: when a step of the resolution raises, the
    result is the default context, whose location is [unknown], whose path
    is empty and which expects a key; when no step raises, the result is
    the context resolved.  On a text no step raises. *)
Theorem getDSLContext_never_raises :
  forall JSON_parse code offset,
    (exists ctx, DSLParser.getDSLContext JSON_parse code offset = Normal ctx)
    /\ (forall e,
          DSLParser.getDSLContext_body JSON_parse code offset = Throw e ->
          DSLParser.getDSLContext JSON_parse code offset
          = Normal DSLParser.getDefaultContext)
    /\ (forall ctx,
          DSLParser.getDSLContext_body JSON_parse code offset = Normal ctx ->
          DSLParser.getDSLContext JSON_parse code offset = Normal ctx)
    /\ DSLParser.location DSLParser.getDefaultContext = "unknown"
    /\ DSLParser.path DSLParser.getDefaultContext = []
    /\ DSLParser.expecting DSLParser.getDefaultContext = "key"
    /\ (forall text, exists ctx,
          DSLParser.getDSLContext_body JSON_parse (Some text) offset = Normal ctx).
Proof.
  intros JSON_parse code offset. unfold DSLParser.getDSLContext, DSLParser.tryCatch.
  split; [destruct (DSLParser.getDSLContext_body JSON_parse code offset); eauto|].
  split; [now intros e ->|]. split; [now intros ctx ->|].
  repeat (split; [reflexivity|]).
  intros text. apply getDSLContext_body_text.
Qed.

Lemma getDSLContext_never_raises_witness :
  DSLParser.getDSLContext_body RefJSON.parse None 3
  = Throw (TypeError "Cannot read properties of undefined (reading 'length')")
  /\ DSLParser.getDSLContext RefJSON.parse None 3
     = Normal DSLParser.getDefaultContext
  /\ DSLParser.getDSLContext RefJSON.parse (Some (JSString.json "{'query':{")) 10
     = Normal (DSLParser.mkContext ["query"] "query" None false (-1)%Z "key" 1
                 None (Some "query") None).
Proof.
  destruct (getDSLContext_never_raises RefJSON.parse None 3)
    as (_ & Hdefault & _).
  destruct (getDSLContext_never_raises RefJSON.parse
              (Some (JSString.json "{'query':{")) 10)
    as (_ & _ & Hresolved & _).
  split; [reflexivity|]. split.
  - exact (Hdefault _ eq_refl).
  - exact (Hresolved _ eq_refl).
Defined.

(** ** The completion provider *)

Section CompletionFacts.
Import JSString ESCompletionProvider.

Lemma filterSuggestions_prefix suggestions currentWord s :
  currentWord <> EmptyString ->
  In s (filterSuggestions suggestions currentWord) ->
  startsWith (toLowerCase (label s)) (toLowerCase currentWord) = true.
Proof.
  intros Hne Hin. unfold filterSuggestions in Hin.
  destruct (String.eqb_spec currentWord EmptyString); [contradiction|].
  now apply filter_In in Hin.
Qed.

Lemma deduplicate_from_labels seen suggestions :
  NoDup (map label (deduplicate_from seen suggestions))
  /\ forall l, In l (map label (deduplicate_from seen suggestions)) -> ~ In l seen.
Proof.
  revert seen. induction suggestions as [|s rest IH]; intros seen; simpl.
  - split; [constructor | intros l []].
  - destruct (includes seen (label s)) eqn:E; [apply IH|].
    destruct (IH (seen ++ [label s])) as [Hnd Hnot]. simpl. split.
    + constructor; [|exact Hnd].
      intros Hin. apply (Hnot _ Hin). apply in_or_app. right. now left.
    + intros l [<-|Hin].
      * intros Hseen. unfold includes in E.
        assert (existsb (String.eqb (label s)) seen = true) as Htrue.
        { apply existsb_exists. exists (label s). split; [exact Hseen|].
          apply String.eqb_refl. }
        congruence.
      * intros Hseen. apply (Hnot _ Hin). apply in_or_app. now left.
Qed.

End CompletionFacts.

(** C8, as the code has it.  (1) When a completion call returns and the
    token in progress is not empty, the label of every suggestion returned
    starts with the token, letter case aside.  (2) The returned list is not
    freed of repeated labels: [provideCompletionItems] appends the templates
    to the suggestions of the context and filters; it never calls
    [deduplicateSuggestions].  On the text above, with token [da], the
    aggregation [date_histogram] and the template of the same label are
    both returned.  (3) [deduplicateSuggestions] itself leaves no label
    twice. *)
Theorem completion_filters_but_keeps_duplicates :
  (forall numberToString JSON_parse currentFields text position items,
      ESCompletionProvider.provideCompletionItems numberToString JSON_parse
        currentFields text position = Normal items ->
      ESCompletionProvider.currentWordAt text position <> EmptyString ->
      Forall (fun s =>
                JSString.startsWith
                  (JSString.toLowerCase (ESCompletionProvider.label s))
                  (JSString.toLowerCase
                     (ESCompletionProvider.currentWordAt text position)) = true)
             items)
  /\ (ESCompletionProvider.currentWordAt aggsText aggsCursor = "da"
      /\ exists items,
          ESCompletionProvider.provideCompletionItems RefJSON.numberToString
            RefJSON.parse [] aggsText aggsCursor = Normal items
          /\ map ESCompletionProvider.label items
             = ["date_range"; "date_histogram"; "date_histogram"]
          /\ map ESCompletionProvider.kind items
             = [ESCompletionProvider.Function; ESCompletionProvider.Function;
                ESCompletionProvider.Snippet]
          /\ ~ NoDup (map ESCompletionProvider.label items))
  /\ (forall suggestions,
        NoDup (map ESCompletionProvider.label
                 (ESCompletionProvider.deduplicateSuggestions suggestions))).
Proof.
  split; [|split].
  - intros numberToString JSON_parse currentFields text position items Hret Hne.
    unfold ESCompletionProvider.provideCompletionItems in Hret.
    fold (ESCompletionProvider.currentWordAt text position) in Hret.
    destruct (DSLParser.getDSLContext _ _ _) as [ctx|]; [|discriminate].
    match type of Hret with
    | match ?b with _ => _ end = _ => destruct b as [suggestions|]
    end; [|discriminate].
    injection Hret as <-.
    apply Forall_forall. intros s Hin.
    apply in_map_iff in Hin as (s0 & <- & Hin0). simpl.
    eapply filterSuggestions_prefix; eassumption.
  - split; [reflexivity|]. eexists. split; [vm_compute; reflexivity|].
    split; [reflexivity|]. split; [reflexivity|].
    simpl. intros Hnd. inversion Hnd as [|? ? _ Hrest]; subst.
    inversion Hrest as [|? ? Hnotin _]; subst. apply Hnotin. now left.
  - intros suggestions. apply deduplicate_from_labels.
Qed.

Lemma completion_filters_but_keeps_duplicates_witness :
  exists items,
    ESCompletionProvider.provideCompletionItems RefJSON.numberToString
      RefJSON.parse [] aggsText aggsCursor = Normal items
    /\ ESCompletionProvider.currentWordAt aggsText aggsCursor <> EmptyString
    /\ Forall (fun s =>
                 JSString.startsWith
                   (JSString.toLowerCase (ESCompletionProvider.label s))
                   (JSString.toLowerCase
                      (ESCompletionProvider.currentWordAt aggsText aggsCursor))
                 = true)
              items.
Proof.
  destruct completion_filters_but_keeps_duplicates as (Hprefix & Hdup & _).
  destruct Hdup as (_ & items & Hret & _).
  exists items.
  assert (Hne : ESCompletionProvider.currentWordAt aggsText aggsCursor
                <> EmptyString) by (vm_compute; discriminate).
  split; [exact Hret|]. split; [exact Hne|].
  exact (Hprefix _ _ _ _ _ _ Hret Hne).
Defined.

(* ================================================================== *)
(** * Part IV. Further properties of the code                          *)
(* ================================================================== *)

(** ** The cache: the values it returns *)

Section LRUValueFacts.
Context {V : Type}.
Import LRUCache.
Implicit Types (m : JSMap V) (c : t V).

Lemma map_set_get key value m : map_get key (map_set key value m) = Some value.
Proof.
  induction m as [|[k v] m IH]; simpl.
  - now rewrite String.eqb_refl.
  - destruct (String.eqb k key) eqn:E; simpl; rewrite E; [reflexivity | exact IH].
Qed.

Lemma map_set_has key value m : map_has key (map_set key value m) = true.
Proof. apply map_has_get. exists value. apply map_set_get. Qed.

Lemma map_set_get_other key value k m :
  String.eqb key k = false ->
  map_get k (map_set key value m) = map_get k m.
Proof.
  intros Hne. induction m as [|[k0 v0] m IH]; simpl.
  - now rewrite Hne.
  - destruct (String.eqb k0 key) eqn:E; simpl.
    + apply String.eqb_eq in E. subst k0. now rewrite Hne.
    + now rewrite IH.
Qed.

Lemma map_delete_get_other key k m :
  String.eqb key k = false ->
  map_get k (map_delete key m) = map_get k m.
Proof.
  intros Hne. induction m as [|[k0 v0] m IH]; simpl; [reflexivity|].
  destruct (String.eqb k0 key) eqn:E; simpl.
  - apply String.eqb_eq in E. subst k0. now rewrite Hne.
  - now rewrite IH.
Qed.

(** Removing the first entry of a map without repeated keys removes its
    key. *)
Lemma map_delete_get_same key m :
  NoDup (map_keys m) -> map_get key (map_delete key m) = None.
Proof.
  induction m as [|[k0 v0] m IH]; simpl; intros Hnd; [reflexivity|].
  inversion Hnd as [|? ? Hnotin Hnd']; subst.
  destruct (String.eqb k0 key) eqn:E; simpl.
  - apply String.eqb_eq in E. subst k0.
    destruct (map_get key m) eqn:G; [|reflexivity].
    exfalso. apply Hnotin. apply map_has_In. apply map_has_get. eauto.
  - rewrite E. now apply IH.
Qed.

(** A [get] changes no binding. *)
Lemma get_binding c key k :
  map_get k (cache (snd (get c key))) = map_get k (cache c).
Proof.
  unfold get. destruct (map_has key (cache c)) eqn:Hhas; simpl; [|reflexivity].
  destruct (map_get key (cache c)) as [value|] eqn:Hget; simpl; [|reflexivity].
  destruct (String.eqb key k) eqn:E.
  - apply String.eqb_eq in E. subst k. now rewrite map_set_get.
  - rewrite map_set_get_other by exact E. now apply map_delete_get_other.
Qed.

(** A [set] binds its key and invents no other binding. *)
Lemma set_binding_other c key value k x :
  NoDup (keys c) ->
  String.eqb key k = false ->
  map_get k (cache (set c key value)) = Some x ->
  map_get k (cache c) = Some x.
Proof.
  intros Hnd Hne. unfold set. simpl. rewrite map_set_get_other by exact Hne.
  destruct (map_has key (cache c)).
  - now rewrite map_delete_get_other.
  - destruct (Nat.leb (maxSize c) (length (cache c))); [|trivial].
    destruct (cache c) as [|[k0 v0] m] eqn:Hc; simpl; [trivial|].
    rewrite String.eqb_refl. destruct (String.eqb k0 k) eqn:E.
    + apply String.eqb_eq in E. subst k0. intros Hget. exfalso.
      unfold keys in Hnd. rewrite Hc in Hnd. simpl in Hnd.
      inversion Hnd as [|? ? Hnotin _]; subst. apply Hnotin.
      apply map_has_In. apply map_has_get. eauto.
    + trivial.
Qed.

Lemma run_lastValue ops : forall c key current,
  0 < maxSize c -> lru_inv c ->
  (forall x, map_get key (cache c) = Some x -> current = Some x) ->
  forall x, map_get key (cache (run ops c)) = Some x ->
            lastValue ops key current = Some x.
Proof.
  induction ops as [|o ops IH]; intros c key current Hpos Hinv Hcur x Hx.
  - simpl in *. now apply Hcur.
  - destruct o as [k|k v]; simpl in *.
    + apply (IH (snd (get c k))); try assumption.
      * now rewrite get_maxSize.
      * now apply get_inv.
      * intros y Hy. rewrite get_binding in Hy. now apply Hcur.
    + apply (IH (set c k v)); try assumption.
      * now apply set_inv.
      * intros y Hy. destruct (String.eqb k key) eqn:E.
        -- apply String.eqb_eq in E. subst k. unfold set in Hy. simpl in Hy.
           rewrite map_set_get in Hy. exact Hy.
        -- apply Hcur. eapply set_binding_other; try eassumption. apply Hinv.
Qed.

End LRUValueFacts.

(** X1.  The cache never returns a stale or a foreign value.  After any
    sequence of [get] and [set] calls on a new cache of positive capacity,
    a [get] that returns a value returns the one the last [set] of that key
    stored. *)
Theorem lru_get_returns_last_set_value :
  forall (V : Type) (n : nat) (ops : list (LRUCache.op V)) (key : string) (v : V),
    0 < n ->
    fst (LRUCache.get (LRUCache.run ops (LRUCache.new n)) key) = Some v ->
    lastValue ops key None = Some v.
Proof.
  intros V n ops key v Hpos Hget.
  apply (run_lastValue ops (LRUCache.new n) key None).
  - exact Hpos.
  - apply new_inv.
  - simpl. discriminate.
  - unfold LRUCache.get in Hget.
    destruct (LRUCache.map_has key _); simpl in Hget; [|discriminate].
    destruct (LRUCache.map_get key _) as [x|]; simpl in Hget; [|discriminate].
    exact Hget.
Qed.

Lemma lru_get_returns_last_set_value_witness :
  let ops := [LRUCache.OpSet "a" 1; LRUCache.OpSet "b" 2; LRUCache.OpGet "a";
              LRUCache.OpSet "a" 3; LRUCache.OpSet "c" 4] in
  fst (LRUCache.get (LRUCache.run ops (LRUCache.new 2)) "a") = Some 3
  /\ lastValue ops "a" None = Some 3.
Proof.
  intros ops. split; [reflexivity|].
  apply (lru_get_returns_last_set_value nat 2 ops "a" 3); [lia | reflexivity].
Defined.

(** X2.  What [set] stores, [get] returns: for every state of the cache,
    directly after [set(key, value)] the cache has [key] and [get(key)]
    returns [value]. *)
Theorem lru_set_then_get :
  forall (V : Type) (c : LRUCache.t V) (key : string) (value : V),
    LRUCache.has (LRUCache.set c key value) key = true
    /\ fst (LRUCache.get (LRUCache.set c key value) key) = Some value.
Proof.
  intros V c key value.
  assert (Hhas : LRUCache.map_has key
                   (LRUCache.cache (LRUCache.set c key value)) = true)
    by (unfold LRUCache.set; simpl; apply map_set_has).
  split; [exact Hhas|].
  unfold LRUCache.get. rewrite Hhas. simpl.
  unfold LRUCache.set. simpl. now rewrite map_set_get.
Qed.

(** ** The mapping service: what its counters count *)

Section ServiceCounterFacts.
Import ESMappingService.

Lemma removeNth_length {A : Type} (l : list A) : forall n x,
  nth_error l n = Some x -> S (length (removeNth n l)) = length l.
Proof.
  induction l as [|y l IH]; intros [|n] x H; simpl in *; try discriminate.
  - reflexivity.
  - f_equal. eapply IH. exact H.
Qed.

Lemma step_counters_inv w e w' n :
  counters_inv w n -> step w e = Some w' ->
  counters_inv w' (if isCall e then S n else n).
Proof.
  intros (Hf & Hn & Hle & Hs & Hinv & Hmax) Hstep.
  destruct e as [caller url index hs| | |k outcome]; simpl in Hstep.
  - unfold fetchMapping_enter in Hstep.
    destruct (LRUCache.has (cache (service w)) (makeKey url index)).
    + pose proof (get_inv (cache (service w)) (makeKey url index) Hinv) as Hg.
      pose proof (get_maxSize (cache (service w)) (makeKey url index)) as Hm.
      destruct (LRUCache.get (cache (service w)) (makeKey url index)) as [r c'].
      simpl in Hg, Hm. injection Hstep as <-.
      unfold counters_inv, armed in *. simpl.
      split; [exact Hf|]. split; [lia|]. split; [lia|]. split; [exact Hs|].
      split; [exact Hg | congruence].
    + destruct (LRUCache.map_has (makeKey url index) (pendingRequests (service w))).
      * injection Hstep as <-.
        unfold counters_inv, armed in *. simpl.
        split; [exact Hf|]. split; [lia|]. split; [lia|]. split; [exact Hs|].
        split; assumption.
      * simpl in Hstep. injection Hstep as <-.
        unfold counters_inv, armed in *. simpl.
        split; [exact Hf|]. split; [lia|].
        split; [destruct (timeout (service w)); lia|]. split; [exact Hs|].
        split; assumption.
  - destruct (awaiting w) as [|[[caller key] awaited] rest]; [discriminate|].
    simpl in Hstep. injection Hstep as <-.
    unfold counters_inv, armed in *. simpl.
    split; [exact Hf|]. split; [exact Hn|]. split; [exact Hle|].
    split; [exact Hs|]. split; assumption.
  - destruct (awaiting w); [|discriminate].
    unfold armed in Hle.
    destruct (timeout (service w)); [|discriminate].
    injection Hstep as <-.
    unfold counters_inv, armed in *. simpl. rewrite !length_app. simpl.
    split; [lia|]. split; [exact Hn|]. split; [lia|]. split; [lia|].
    split; assumption.
  - destruct (awaiting w); [|discriminate].
    destruct (nth_error (inFlight w) k) as [args|] eqn:Hnth; [|discriminate].
    pose proof (removeNth_length _ _ _ Hnth) as Hlen.
    assert (Hplain : forall r,
              counters_inv
                {| service := service w; awaiting := [];
                   inFlight := removeNth k (inFlight w); sent := sent w;
                   resolved := resolved w; discarded := discarded w ++ [r];
                   nextRef := S (nextRef w) |} n).
    { intros r. unfold counters_inv. simpl. rewrite length_app. simpl.
      split; [exact Hf|]. split; [exact Hn|]. split; [exact Hle|].
      split; [lia|]. split; assumption. }
    unfold _fetchMapping_settle in Hstep.
    destruct outcome as [| | |data];
      try (injection Hstep as <-; now apply Hplain).
    destruct (MappingParser.parse data) as [fields|ex].
    + injection Hstep as <-.
      assert (Hset := set_inv (cache (service w)) (cacheKey args)
                        (RObject (nextRef w) fields)).
      unfold counters_inv, armed in *. simpl. rewrite length_app. simpl.
      try rewrite set_maxSize.
      split; [exact Hf|]. split; [exact Hn|]. split; [exact Hle|].
      split; [lia|]. split; [apply Hset; [lia | exact Hinv] | exact Hmax].
    + injection Hstep as <-. now apply Hplain.
Qed.

Lemma run_counters_inv es : forall w w' n,
  counters_inv w n -> run w es = Some w' -> counters_inv w' (n + callCount es).
Proof.
  induction es as [|e es IH]; simpl; intros w w' n Hinv Hrun.
  - injection Hrun as <-. unfold callCount. simpl. now rewrite Nat.add_0_r.
  - destruct (step w e) as [w1|] eqn:E; [|discriminate].
    pose proof (step_counters_inv _ _ _ _ Hinv E) as H1.
    pose proof (IH _ _ _ H1 Hrun) as H2.
    unfold callCount in *. simpl. destruct (isCall e); simpl in *.
    + now rewrite Nat.add_succ_r.
    + exact H2.
Qed.

Lemma init_counters_inv : counters_inv init 0.
Proof.
  unfold counters_inv. simpl.
  split; [reflexivity|]. split; [reflexivity|]. split; [apply Nat.le_refl|].
  split; [reflexivity|]. split; [apply new_inv | reflexivity].
Qed.

End ServiceCounterFacts.

(** X3.  What the statistics of the service count.  In every state the
    service reaches from its creation through calls of [fetchMapping],
    continuations, timer expiries and responses: [fetchCount] is the number
    of requests sent; every call counted as exactly one hit or one miss; no
    more requests were sent than misses counted, a miss more while the timer
    is armed; every request sent is in flight or has been answered; and the
    cache holds at most 50 registries under pairwise different keys. *)
Theorem service_counters_count :
  forall es w,
    ESMappingService.run ESMappingService.init es = Some w ->
    let s := ESMappingService.service w in
    let st := ESMappingService.stats s in
    ESMappingService.fetchCount st = length (ESMappingService.sent w)
    /\ ESMappingService.cacheHits st + ESMappingService.cacheMisses st
       = callCount es
    /\ ESMappingService.fetchCount st + armed s <= ESMappingService.cacheMisses st
    /\ length (ESMappingService.sent w)
       = length (ESMappingService.inFlight w)
         + length (ESMappingService.discarded w)
    /\ LRUCache.size (ESMappingService.cache s) <= 50
    /\ NoDup (LRUCache.keys (ESMappingService.cache s)).
Proof.
  intros es w Hrun s st.
  destruct (run_counters_inv es _ _ 0 init_counters_inv Hrun)
    as (Hf & Hn & Hle & Hs & [Hnd Hsz] & Hmax).
  fold s in Hf, Hn, Hle, Hnd, Hsz, Hmax. fold st in Hf, Hn, Hle.
  rewrite Hmax in Hsz. repeat split; assumption.
Qed.

Lemma service_counters_count_witness :
  let es := [ESMappingService.Call 1 sampleUrl sampleIndex [];
             ESMappingService.Resume;
             ESMappingService.TimerFires;
             ESMappingService.Response 0 (ESMappingService.Body sampleMapping);
             ESMappingService.Call 2 sampleUrl sampleIndex []] in
  exists w,
    ESMappingService.run ESMappingService.init es = Some w
    /\ ESMappingService.fetchCount
         (ESMappingService.stats (ESMappingService.service w))
       = length (ESMappingService.sent w)
    /\ ESMappingService.cacheHits
         (ESMappingService.stats (ESMappingService.service w))
       + ESMappingService.cacheMisses
           (ESMappingService.stats (ESMappingService.service w))
       = 2.
Proof.
  intros es.
  assert (H : exists w, ESMappingService.run ESMappingService.init es = Some w)
    by (eexists; vm_compute; reflexivity).
  destruct H as [w H]. exists w. split; [exact H|].
  pose proof (service_counters_count es w H) as P. cbv zeta in P.
  destruct P as (Hf & Hn & _). split; [exact Hf | exact Hn].
Defined.


(** ** The mapping service: the second call *)

Section ServiceHitFacts.
Import ESMappingService.

(** A call for a key in the cache returns what the cache holds, counts a
    hit and touches nothing but the order of the cache. *)
Lemma fetchMapping_enter_hit s url index hs value :
  LRUCache.map_get (makeKey url index) (LRUCache.cache (cache s)) = Some value ->
  exists cache',
    fetchMapping_enter s url index hs
    = (Returned value,
       {| cache := cache';
          pendingRequests := pendingRequests s;
          stats := mkStats (S (cacheHits (stats s))) (cacheMisses (stats s))
                           (fetchCount (stats s));
          timeout := timeout s |}).
Proof.
  intros Hget. unfold fetchMapping_enter.
  assert (Hhas : LRUCache.has (cache s) (makeKey url index) = true)
    by (apply map_has_get; eauto).
  rewrite Hhas. unfold LRUCache.get. unfold LRUCache.has in Hhas.
  rewrite Hhas, Hget. simpl. eexists. reflexivity.
Qed.

End ServiceHitFacts.

(** X4.  The registry reaches the second caller.  Take any state the service
    reaches with no suspended call and no request in flight, and a key not
    in the cache.  The first call for it resolves with [undefined]; once the
    timer has fired and the request has been answered with a body that
    [parse] accepts, a second call for the same key resolves at once with
    the registry object the first request produced, counts as a hit, and
    sends no further request. *)
Theorem fetchMapping_second_call_gets_registry :
  forall es w c1 c2 url index hs data fields,
    ESMappingService.run ESMappingService.init es = Some w ->
    ESMappingService.awaiting w = [] ->
    ESMappingService.inFlight w = [] ->
    LRUCache.has (ESMappingService.cache (ESMappingService.service w))
                 (ESMappingService.makeKey url index) = false ->
    MappingParser.parse data = Normal fields ->
    exists w',
      ESMappingService.run w
        [ESMappingService.Call c1 url index hs;
         ESMappingService.Resume;
         ESMappingService.TimerFires;
         ESMappingService.Response 0 (ESMappingService.Body data);
         ESMappingService.Call c2 url index hs]
      = Some w'
      /\ ESMappingService.resolved w'
         = ESMappingService.resolved w
           ++ [(c1, ESMappingService.RUndefined);
               (c2, ESMappingService.RObject (ESMappingService.nextRef w) fields)]
      /\ ESMappingService.sent w'
         = ESMappingService.sent w ++ [mappingUrl url index]
      /\ ESMappingService.inFlight w' = []
      /\ ESMappingService.awaiting w' = []
      /\ ESMappingService.cacheHits
           (ESMappingService.stats (ESMappingService.service w'))
         = S (ESMappingService.cacheHits
                (ESMappingService.stats (ESMappingService.service w)))
      /\ ESMappingService.cacheMisses
           (ESMappingService.stats (ESMappingService.service w'))
         = S (ESMappingService.cacheMisses
                (ESMappingService.stats (ESMappingService.service w))).
Proof.
  intros es w c1 c2 url index hs data fields Hrun Haw Hfl Hmiss Hparse.
  destruct (run_pending_inv es _ _ init_pending_inv Hrun) as [Hp _].
  rewrite Haw in Hp. simpl in Hp.
  unfold ESMappingService.run, ESMappingService.step at 1.
  unfold ESMappingService.fetchMapping_enter at 1.
  rewrite Hmiss, Hp. simpl. rewrite Haw. simpl.
  rewrite Hfl. simpl. rewrite Hparse.
  match goal with
  | |- context [ESMappingService.fetchMapping_enter ?s url index hs] =>
      destruct (fetchMapping_enter_hit s url index hs
                  (ESMappingService.RObject (ESMappingService.nextRef w) fields))
        as [cache' Henter]
  end.
  { simpl. apply map_set_get. }
  rewrite Henter. eexists. split; [reflexivity|]. simpl.
  rewrite <- app_assoc. simpl. repeat split; reflexivity.
Qed.

Lemma fetchMapping_second_call_gets_registry_witness :
  exists w',
    ESMappingService.run ESMappingService.init
      [ESMappingService.Call 1 sampleUrl sampleIndex [];
       ESMappingService.Resume;
       ESMappingService.TimerFires;
       ESMappingService.Response 0 (ESMappingService.Body sampleMapping);
       ESMappingService.Call 2 sampleUrl sampleIndex []]
    = Some w'
    /\ ESMappingService.resolved w'
       = [(1, ESMappingService.RUndefined);
          (2, ESMappingService.RObject 0 sampleRegistry)]
    /\ ESMappingService.sent w' = ["http://es:9200/logs/_mapping"].
Proof.
  destruct (fetchMapping_second_call_gets_registry
              [] ESMappingService.init 1 2 sampleUrl sampleIndex []
              sampleMapping sampleRegistry
              eq_refl eq_refl eq_refl eq_refl eq_refl)
    as (w' & Hrun & Hres & Hsent & _).
  exists w'. split; [exact Hrun|]. split; [exact Hres | exact Hsent].
Defined.


(** ** The mapping service: preloading *)

Section PreloadFacts.
Import ESMappingService MappingServiceQueries.

Lemma append_inj_r (p a b : string) : (p ++ a)%string = (p ++ b)%string -> a = b.
Proof.
  induction p as [|c p IH]; simpl; intros H; [exact H|].
  injection H as H. now apply IH.
Qed.

Lemma makeKey_inj url a b : makeKey url a = makeKey url b -> a = b.
Proof.
  unfold makeKey. intros H. apply append_inj_r in H.
  simpl in H. injection H as H. exact H.
Qed.

Lemma map_has_app {V : Type} key (m1 m2 : LRUCache.JSMap V) :
  LRUCache.map_has key (m1 ++ m2)
  = LRUCache.map_has key m1 || LRUCache.map_has key m2.
Proof.
  induction m1 as [|[k v] m1 IH]; simpl; [reflexivity|].
  now rewrite IH, orb_assoc.
Qed.

(** The calls of [preloadMappings] for names that are pairwise different,
    not cached and not pending: every call suspends, and each arms the
    timer anew. *)
Lemma preload_calls url hs names : forall w caller,
  pendingRequests (service w)
  = map (fun x => (snd (fst x), snd x)) (awaiting w) ->
  NoDup names ->
  (forall n, In n names ->
     LRUCache.has (cache (service w)) (makeKey url n) = false
     /\ LRUCache.map_has (makeKey url n) (pendingRequests (service w)) = false) ->
  exists w',
    run w (preloadMappings caller url names hs) = Some w'
    /\ awaiting w' = awaiting w ++ suspended caller url names
    /\ timeout (service w') = lastArmed url hs names (timeout (service w))
    /\ cache (service w') = cache (service w)
    /\ fetchCount (stats (service w')) = fetchCount (stats (service w))
    /\ inFlight w' = inFlight w
    /\ sent w' = sent w
    /\ resolved w' = resolved w.
Proof.
  induction names as [|n names IH]; intros w caller Hp Hnd Hfree.
  - exists w. simpl. rewrite app_nil_r. repeat split; reflexivity.
  - inversion Hnd as [|? ? Hnotin Hnd']; subst.
    destruct (Hfree n (or_introl eq_refl)) as [Hc Hpend].
    simpl. unfold fetchMapping_enter. rewrite Hc, Hpend. simpl.
    match goal with
    | |- context [run ?w1 _] => destruct (IH w1 (S caller)) as (w' & Hrun & Haw & Htm & Hca & Hfc & Hfl & Hsent & Hres)
    end.
    + simpl. rewrite map_set_absent by exact Hpend.
      rewrite map_app, Hp. reflexivity.
    + exact Hnd'.
    + intros m Hm. simpl. destruct (Hfree m (or_intror Hm)) as [Hc' Hp'].
      split; [exact Hc'|].
      rewrite map_set_absent by exact Hpend.
      rewrite map_has_app, Hp'. simpl.
      destruct (String.eqb (makeKey url n) (makeKey url m)) eqn:E; [|reflexivity].
      apply String.eqb_eq in E. apply makeKey_inj in E. subst m. contradiction.
    + exists w'. split; [exact Hrun|]. simpl in *.
      rewrite Haw, <- app_assoc. simpl.
      repeat split; assumption.
Qed.

(** The continuations of the suspended calls, one microtask each. *)
Lemma resume_all : forall l w,
  awaiting w = l ->
  exists w',
    run w (repeat Resume (length l)) = Some w'
    /\ awaiting w' = []
    /\ resolved w' = resolved w ++ map (fun x => (fst (fst x), snd x)) l
    /\ timeout (service w') = timeout (service w)
    /\ fetchCount (stats (service w')) = fetchCount (stats (service w))
    /\ inFlight w' = inFlight w
    /\ sent w' = sent w.
Proof.
  induction l as [|[[caller key] awaited] l IH]; intros w Haw.
  - exists w. simpl. rewrite app_nil_r. repeat split; try reflexivity. exact Haw.
  - simpl. rewrite Haw. simpl.
    match goal with
    | |- context [run ?w1 _] => destruct (IH w1 eq_refl) as (w' & Hrun & Ha & Hres & Htm & Hfc & Hfl & Hsent)
    end.
    exists w'. split; [exact Hrun|]. simpl in *.
    rewrite Hres, <- app_assoc. simpl. repeat split; assumption.
Qed.

Lemma suspended_length caller url names :
  length (suspended caller url names) = length names.
Proof.
  revert caller. induction names as [|n names IH]; intros caller; simpl;
    [reflexivity | now rewrite IH].
Qed.

Lemma suspended_resolved url names : forall caller,
  map (fun x : nat * string * result => (fst (fst x), snd x))
      (suspended caller url names)
  = map (fun c => (c, RUndefined)) (seq caller (length names)).
Proof.
  induction names as [|n names IH]; intros caller; simpl;
    [reflexivity | now rewrite IH].
Qed.

Lemma lastArmed_snoc url hs names last before :
  lastArmed url hs (names ++ [last]) before
  = Some (mkArgs url last hs (makeKey url last)).
Proof. unfold lastArmed. now rewrite fold_left_app. Qed.

End PreloadFacts.

(** X5.  [preloadMappings] loads one index only.  Take any state the service
    reaches with no suspended call, and names that are pairwise different
    and not cached.  After [preloadMappings] has called [fetchMapping] for
    every name, the calls have continued and the timer has fired, one
    request has been sent, the one for the name that came last: every
    earlier call re-arms the one debounce timer.  Every call has resolved
    with [undefined]. *)
Theorem preloadMappings_requests_last_only :
  forall es w caller url names last hs,
    ESMappingService.run ESMappingService.init es = Some w ->
    ESMappingService.awaiting w = [] ->
    NoDup (names ++ [last]) ->
    (forall n, In n (names ++ [last]) ->
       LRUCache.has (ESMappingService.cache (ESMappingService.service w))
                    (ESMappingService.makeKey url n) = false) ->
    exists w',
      ESMappingService.run w
        (MappingServiceQueries.preloadMappings caller url (names ++ [last]) hs
         ++ repeat ESMappingService.Resume (S (length names))
         ++ [ESMappingService.TimerFires])
      = Some w'
      /\ ESMappingService.sent w'
         = ESMappingService.sent w ++ [mappingUrl url last]
      /\ ESMappingService.inFlight w'
         = ESMappingService.inFlight w
           ++ [ESMappingService.mkArgs url last hs
                 (ESMappingService.makeKey url last)]
      /\ ESMappingService.resolved w'
         = ESMappingService.resolved w
           ++ map (fun c => (c, ESMappingService.RUndefined))
                  (seq caller (S (length names)))
      /\ ESMappingService.fetchCount
           (ESMappingService.stats (ESMappingService.service w'))
         = S (ESMappingService.fetchCount
                (ESMappingService.stats (ESMappingService.service w))).
Proof.
  intros es w caller url names last hs Hrun Haw Hnd Hfree.
  destruct (run_pending_inv es _ _ init_pending_inv Hrun) as [Hp _].
  destruct (preload_calls url hs (names ++ [last]) w caller Hp Hnd)
    as (w1 & Hrun1 & Haw1 & Htm1 & _ & Hfc1 & Hfl1 & Hsent1 & Hres1).
  { intros n Hn. split; [now apply Hfree|].
    rewrite Hp, Haw. reflexivity. }
  rewrite Haw in Haw1. simpl in Haw1.
  destruct (resume_all _ w1 Haw1)
    as (w2 & Hrun2 & Haw2 & Hres2 & Htm2 & Hfc2 & Hfl2 & Hsent2).
  rewrite suspended_length, length_app in Hrun2. simpl in Hrun2.
  rewrite Nat.add_1_r in Hrun2.
  rewrite (run_app _ _ _ _ Hrun1), (run_app _ _ _ _ Hrun2).
  rewrite lastArmed_snoc in Htm1. rewrite Htm1 in Htm2.
  simpl. rewrite Haw2, Htm2. eexists. split; [reflexivity|]. simpl.
  rewrite Hsent2, Hsent1, Hfl2, Hfl1, Hres2, Hres1, Hfc2, Hfc1.
  rewrite suspended_resolved, length_app. simpl. rewrite Nat.add_1_r.
  repeat split; reflexivity.
Qed.

Lemma preloadMappings_requests_last_only_witness :
  exists w',
    ESMappingService.run ESMappingService.init
      ([ESMappingService.Call 1 sampleUrl "logs" [];
        ESMappingService.Call 2 sampleUrl "users" [];
        ESMappingService.Call 3 sampleUrl "orders" []]
       ++ repeat ESMappingService.Resume 3
       ++ [ESMappingService.TimerFires])
    = Some w'
    /\ ESMappingService.sent w' = ["http://es:9200/orders/_mapping"]
    /\ ESMappingService.resolved w'
       = [(1, ESMappingService.RUndefined); (2, ESMappingService.RUndefined);
          (3, ESMappingService.RUndefined)].
Proof.
  assert (Hnd : NoDup (["logs"; "users"] ++ ["orders"])).
  { repeat constructor; simpl; intuition discriminate. }
  destruct (preloadMappings_requests_last_only
              [] ESMappingService.init 1 sampleUrl ["logs"; "users"] "orders" []
              eq_refl eq_refl Hnd (fun n _ => eq_refl))
    as (w' & Hrun & Hsent & _ & Hres & _).
  exists w'. split; [exact Hrun|]. split; [exact Hsent | exact Hres].
Defined.


(** ** The mapping service: the cached indices *)

Section CachedIndicesFacts.
Import JSString ESMappingService MappingServiceQueries.

Lemma split_without sep s : countChar sep s = 0 -> split sep s = [s].
Proof.
  induction s as [|c s IH]; simpl; intros H; [reflexivity|].
  rewrite Ascii.eqb_sym. destruct (Ascii.eqb sep c); [discriminate|].
  simpl in H. now rewrite IH.
Qed.

Lemma split_makeKey url index :
  countChar "#" url = 0 ->
  split "#" (makeKey url index) = url :: split "#" index.
Proof.
  intros Hurl. unfold makeKey.
  change (url ++ "#" ++ index)%string with (url ++ String "#" index)%string.
  rewrite split_app_sep, split_without by exact Hurl. reflexivity.
Qed.

End CachedIndicesFacts.

(** X6.  [getCachedIndices] recovers the index names from the cache keys as
    long as no endpoint address contains the separator [#]: when the keys of
    the cache were made from addresses without [#] and names without [#],
    the function returns exactly these names, in the order of the cache. *)
Theorem getCachedIndices_recovers_names :
  forall (s : ESMappingService.t) (pairs : list (string * string)),
    LRUCache.keys (ESMappingService.cache s)
    = map (fun p => ESMappingService.makeKey (fst p) (snd p)) pairs ->
    Forall (fun p => JSString.countChar "#" (fst p) = 0
                     /\ JSString.countChar "#" (snd p) = 0) pairs ->
    MappingServiceQueries.getCachedIndices s = map (fun p => Some (snd p)) pairs.
Proof.
  intros s pairs Hkeys Hclean.
  unfold MappingServiceQueries.getCachedIndices. rewrite Hkeys, map_map.
  apply map_ext_in. intros [url index] Hin. simpl.
  rewrite Forall_forall in Hclean. destruct (Hclean _ Hin) as [Hurl Hindex].
  simpl in Hurl, Hindex.
  rewrite split_makeKey by exact Hurl.
  rewrite split_without by exact Hindex. reflexivity.
Qed.

Lemma getCachedIndices_recovers_names_witness :
  exists w,
    ESMappingService.run ESMappingService.init
      [ESMappingService.Call 1 sampleUrl sampleIndex [];
       ESMappingService.Resume;
       ESMappingService.TimerFires;
       ESMappingService.Response 0 (ESMappingService.Body sampleMapping)]
    = Some w
    /\ MappingServiceQueries.getCachedIndices (ESMappingService.service w)
       = [Some "logs"].
Proof.
  eexists. split; [vm_compute; reflexivity|].
  apply (getCachedIndices_recovers_names _ [(sampleUrl, sampleIndex)]).
  - reflexivity.
  - repeat constructor.
Defined.

(** X7.  [getValueSuggestions] of the service fails on every cache miss.
    Take any state the service reaches with no suspended call and a key not
    in the cache.  The call of [fetchMapping] inside [getValueSuggestions]
    resolves with [undefined], and the lookup of the field in it raises
    TypeError, whatever the field and the context: the promise rejects.
    When the cache holds a registry for the key, the same call gives what
    the generator gives for what [getFieldType] finds. *)
Theorem getValueSuggestions_rejects_on_miss :
  forall numberToString now es w caller url index hs fieldName context,
    ESMappingService.run ESMappingService.init es = Some w ->
    ESMappingService.awaiting w = [] ->
    (LRUCache.has (ESMappingService.cache (ESMappingService.service w))
                  (ESMappingService.makeKey url index) = false ->
     exists w' fields,
       ESMappingService.run w
         [ESMappingService.Call caller url index hs; ESMappingService.Resume]
       = Some w'
       /\ ESMappingService.resolved w'
          = ESMappingService.resolved w ++ [(caller, fields)]
       /\ MappingServiceQueries.getValueSuggestions_resume numberToString now
            fields fieldName context
          = Throw (TypeError
                     ("Cannot read properties of undefined (reading '"
                      ++ fieldName ++ "')")))
    /\ (forall ref registry,
          LRUCache.map_get (ESMappingService.makeKey url index)
            (LRUCache.cache (ESMappingService.cache (ESMappingService.service w)))
          = Some (ESMappingService.RObject ref registry) ->
          exists w' fields,
            ESMappingService.run w [ESMappingService.Call caller url index hs]
            = Some w'
            /\ ESMappingService.resolved w'
               = ESMappingService.resolved w ++ [(caller, fields)]
            /\ MappingServiceQueries.getValueSuggestions_resume numberToString
                 now fields fieldName context
               = ValueSuggestionGenerator.getSuggestions numberToString now
                   (MappingParser.getFieldType registry fieldName) context).
Proof.
  intros numberToString now es w caller url index hs fieldName context Hrun Haw.
  split.
  - intros Hmiss.
    destruct (run_pending_inv es _ _ init_pending_inv Hrun) as [Hp _].
    rewrite Haw in Hp. simpl in Hp.
    unfold ESMappingService.run, ESMappingService.step.
    unfold ESMappingService.fetchMapping_enter.
    rewrite Hmiss, Hp. simpl. rewrite Haw. simpl.
    eexists. eexists. split; [reflexivity|]. simpl.
    split; reflexivity.
  - intros ref registry Hget.
    destruct (fetchMapping_enter_hit (ESMappingService.service w) url index hs
                _ Hget) as [cache' Henter].
    simpl. rewrite Henter. eexists. eexists. split; [reflexivity|]. simpl.
    split; reflexivity.
Qed.

Lemma getValueSuggestions_rejects_on_miss_witness :
  exists w' fields,
    ESMappingService.run ESMappingService.init
      [ESMappingService.Call 1 sampleUrl sampleIndex []; ESMappingService.Resume]
    = Some w'
    /\ ESMappingService.resolved w' = [(1, fields)]
    /\ MappingServiceQueries.getValueSuggestions_resume RefJSON.numberToString
         0 fields "age" "range"
       = Throw (TypeError "Cannot read properties of undefined (reading 'age')").
Proof.
  destruct (getValueSuggestions_rejects_on_miss
              RefJSON.numberToString 0 [] ESMappingService.init 1
              sampleUrl sampleIndex [] "age" "range" eq_refl eq_refl)
    as [Hmiss _].
  exact (Hmiss eq_refl).
Defined.


(** ** The mapping parser *)

Section ParserFacts.
Import JSString JSValue MappingParser.

Lemma parseProperties_obj_cons fieldName field props fields prefix :
  parseProperties (VObj ((fieldName, field) :: props)) fields prefix
  = match fieldStep field fields (fullPathOf prefix fieldName) with
    | Throw e => Throw e
    | Normal fields' => parseProperties (VObj props) fields' prefix
    end.
Proof. reflexivity. Qed.

Lemma parseProperties_obj props : forall fields prefix,
  parseProperties (VObj props) fields prefix = eachProperty prefix props fields.
Proof.
  induction props as [|[fieldName field] props IH]; intros fields prefix.
  - reflexivity.
  - rewrite parseProperties_obj_cons. cbn [eachProperty].
    destruct (fieldStep field fields (fullPathOf prefix fieldName));
      [apply IH | reflexivity].
Qed.

Lemma parseProperties_arr l fields prefix :
  parseProperties (VArr l) fields prefix = eachElement prefix 0 l fields.
Proof.
  simpl. generalize 0. revert fields.
  induction l as [|field l IH]; intros fields i; [reflexivity|].
  cbn [eachElement].
  match goal with
  | |- match ?x with Normal _ => _ | Throw _ => _ end = _ =>
      change x with (fieldStep field fields (fullPathOf prefix (ofNat i)))
  end.
  destruct (fieldStep field fields (fullPathOf prefix (ofNat i)));
    [apply IH | reflexivity].
Qed.

Lemma parseProperties_str s fields prefix :
  parseProperties (VStr s) fields prefix
  = eachFlat prefix (entries (VStr s)) fields.
Proof.
  simpl. generalize (indexed 0 (chars s)). intros ps. revert fields.
  induction ps as [|[fieldName field] ps IH]; intros fields; [reflexivity|].
  cbn [eachFlat].
  destruct (flatField field fields (fullPathOf prefix fieldName));
    [apply IH | reflexivity].
Qed.

Lemma eachElement_indexed prefix l : forall i fields,
  eachElement prefix i l fields = eachProperty prefix (indexed i l) fields.
Proof.
  induction l as [|field l IH]; intros i fields; simpl; [reflexivity|].
  destruct (fieldStep field fields (fullPathOf prefix (ofNat i)));
    [apply IH | reflexivity].
Qed.

Lemma eachFlat_chars prefix s : forall i fields,
  eachFlat prefix (indexed i (chars s)) fields
  = eachProperty prefix (indexed i (chars s)) fields.
Proof.
  induction s as [|c s IH]; intros i fields; [reflexivity|].
  cbn [chars indexed eachFlat eachProperty].
  change (fieldStep (VStr (String c EmptyString)) fields
            (fullPathOf prefix (ofNat i)))
    with (flatField (VStr (String c EmptyString)) fields
            (fullPathOf prefix (ofNat i))).
  destruct (flatField (VStr (String c EmptyString)) fields
              (fullPathOf prefix (ofNat i))); [apply IH | reflexivity].
Qed.

(** [parseProperties] is the loop over the enumerable properties of its
    argument, whatever that is. *)
Lemma parseProperties_entries properties fields prefix :
  parseProperties properties fields prefix
  = eachProperty prefix (entries properties) fields.
Proof.
  destruct properties; try reflexivity.
  - rewrite parseProperties_str. apply eachFlat_chars.
  - rewrite parseProperties_arr. apply eachElement_indexed.
  - apply parseProperties_obj.
Qed.

Lemma grows_trans f1 f2 f3 : grows f1 f2 -> grows f2 f3 -> grows f1 f3.
Proof.
  induction 1; intros H23; [exact H23 | |].
  - eapply grows_field. now apply IHgrows.
  - eapply grows_multi; [eassumption | now apply IHgrows].
Qed.

Lemma assign_key fields path fi : In path (registryKeys (assign fields path fi)).
Proof.
  induction fields as [|[k old] fields IH]; simpl; [now left|].
  destruct (String.eqb k path) eqn:E; simpl.
  - left. now apply String.eqb_eq.
  - right. exact IH.
Qed.

Lemma assign_keys_incl fields path fi k :
  In k (registryKeys fields) -> In k (registryKeys (assign fields path fi)).
Proof.
  induction fields as [|[k0 old] fields IH]; simpl; [contradiction|].
  destruct (String.eqb k0 path); simpl; intros [H|H]; auto.
Qed.


Lemma grows_keys f f' k : grows f f' -> In k (registryKeys f) -> In k (registryKeys f').
Proof.
  induction 1; intros Hk; [exact Hk | |]; apply IHgrows;
    now apply assign_keys_incl.
Qed.


Lemma parser_withProp_cases {A : Type} key (f : value -> A) d props :
  (exists v, In (key, v) props /\ getOwn props key = v
             /\ MappingParser.withProp key f d props = f v)
  \/ (getOwn props key = VUndefined /\ MappingParser.withProp key f d props = d).
Proof.
  induction props as [|[k v] props IH]; simpl; [now right|].
  destruct (String.eqb k key) eqn:E.
  - left. exists v. apply String.eqb_eq in E. subst k. repeat split. now left.
  - destruct IH as [(x & Hin & Hget & Hw)|[Hget Hw]].
    + left. exists x. repeat split; try assumption. now right.
    + right. now split.
Qed.

Lemma multiFieldsLoop_grows mfs : forall fields fullPath fields',
  In fullPath (registryKeys fields) ->
  multiFieldsLoop mfs fields fullPath = Normal fields' ->
  grows fields fields'.
Proof.
  induction mfs as [|[name multiField] mfs IH]; intros fields fullPath fields' Hkey H;
    simpl in H.
  - injection H as <-. constructor.
  - destruct (get multiField "type") as [t|]; [|discriminate].
    eapply grows_multi; [exact Hkey|].
    eapply IH; [|exact H]. now apply assign_keys_incl.
Qed.

Lemma flatField_grows field fields fullPath fields' :
  flatField field fields fullPath = Normal fields' ->
  grows fields fields' /\ In fullPath (registryKeys fields').
Proof.
  unfold flatField. destruct (get field "type"); [|discriminate].
  intros H. injection H as <-. split.
  - unfold fieldEntry. eapply grows_field. constructor.
  - apply assign_key.
Qed.

Lemma eachProperty_grows prefix ps : forall fields fields',
  Forall (fun kv => step_grows (snd kv)) ps ->
  eachProperty prefix ps fields = Normal fields' ->
  grows fields fields'.
Proof.
  induction ps as [|[name field] ps IH]; intros fields fields' Hall H; simpl in H.
  - injection H as <-. constructor.
  - inversion Hall as [|? ? Hstep Hrest]; subst. simpl in Hstep.
    destruct (fieldStep field fields (fullPathOf prefix name)) as [f1|] eqn:E;
      [|discriminate].
    destruct (Hstep _ _ _ E) as [Hg _].
    eapply grows_trans; [exact Hg | now apply IH].
Qed.

Lemma step_grows_flat v :
  (forall props, v <> VObj props) -> step_grows v.
Proof.
  intros Hflat fields fullPath fields' H.
  apply (flatField_grows v). destruct v; try exact H. now destruct (Hflat props).
Qed.

Lemma Forall_indexed {A : Type} (P : A -> Prop) (l : list A) : forall i,
  Forall P l -> Forall (fun kv => P (snd kv)) (indexed i l).
Proof.
  induction l as [|x l IH]; intros i H; simpl; constructor.
  - now inversion H.
  - apply IH. now inversion H.
Qed.

Lemma Forall_chars (P : value -> Prop) s :
  (forall c, P (VStr (String c EmptyString))) -> Forall P (chars s).
Proof. intros H. induction s; simpl; constructor; auto. Qed.

Lemma parseProperties_grows v : parse_grows v /\ step_grows v.
Proof.
  induction v as [| | | | |l IH|props IH] using value_ind_nested.
  1-5: split; [|apply step_grows_flat; discriminate];
    intros fields prefix fields' H; rewrite parseProperties_entries in H;
    eapply eachProperty_grows; [|exact H]; simpl; try constructor.
  - apply Forall_indexed. apply Forall_chars. intros c.
    apply step_grows_flat. discriminate.
  - split; [|apply step_grows_flat; discriminate].
    intros fields prefix fields' H. rewrite parseProperties_entries in H.
    eapply eachProperty_grows; [|exact H]. simpl.
    apply Forall_indexed. eapply Forall_impl; [|exact IH]. now intros x [_ Hx].
  - split.
    + intros fields prefix fields' H. rewrite parseProperties_entries in H.
      eapply eachProperty_grows; [|exact H]. simpl.
      eapply Forall_impl; [|exact IH]. now intros x [_ Hx].
    + intros fields fullPath fields' H. unfold fieldStep in H. cbv zeta in H.
      set (fields1 := assign fields fullPath (fieldEntry (VObj props))) in *.
      assert (H1 : grows fields fields1)
        by (unfold fields1, fieldEntry; eapply grows_field; constructor).
      assert (K1 : In fullPath (registryKeys fields1)) by apply assign_key.
      destruct (MappingParser.withProp _ _ _ props) as [fields2|] eqn:E;
        [|discriminate].
      assert (H2 : grows fields1 fields2).
      { destruct (parser_withProp_cases "properties"
                    (fun sub => if truthy sub
                                then parseProperties sub fields1 fullPath
                                else Normal fields1)
                    (Normal fields1) props)
          as [(sub & Hin & _ & Hw)|[_ Hw]]; rewrite Hw in E.
        - destruct (truthy sub).
          + rewrite Forall_forall in IH. destruct (IH _ Hin) as [Hp _].
            exact (Hp _ _ _ E).
          + injection E as <-. constructor.
        - injection E as <-. constructor. }
      assert (K2 : In fullPath (registryKeys fields2))
        by (eapply grows_keys; eassumption).
      destruct (truthy (getOwn props "fields")).
      * pose proof (multiFieldsLoop_grows _ _ _ _ K2 H) as H3.
        split; [eapply grows_trans; [exact H1|]; eapply grows_trans; eassumption|].
        eapply grows_keys; eassumption.
      * injection H as <-.
        split; [eapply grows_trans; eassumption | exact K2].
Qed.

Lemma parse_indices_grows indices : forall fields fields',
  parse_indices indices fields = Normal fields' -> grows fields fields'.
Proof.
  induction indices as [|[indexName indexData] indices IH];
    intros fields fields' H; simpl in H.
  - injection H as <-. constructor.
  - destruct (negb (truthy indexData)); [now apply IH|].
    destruct (get indexData "mappings") as [indexMapping|]; [|discriminate].
    destruct (negb (truthy indexMapping)); [now apply IH|].
    destruct (get indexMapping "properties") as [p|]; [|discriminate].
    destruct (typeofObject (if truthy p then p else VObj [])); [|now apply IH].
    destruct (parseProperties _ fields EmptyString) as [f1|] eqn:E; [|discriminate].
    eapply grows_trans; [|apply IH; exact H].
    exact (proj1 (parseProperties_grows _) _ _ _ E).
Qed.

(** *** Every declared field is registered *)

Lemma eachProperty_at prefix name field ps : forall fields fields',
  In (name, field) ps ->
  eachProperty prefix ps fields = Normal fields' ->
  exists f0 f1,
    grows fields f0
    /\ fieldStep field f0 (fullPathOf prefix name) = Normal f1
    /\ grows f1 fields'.
Proof.
  induction ps as [|[n0 x0] ps IH]; intros fields fields' Hin H; [contradiction|].
  simpl in H.
  destruct (fieldStep x0 fields (fullPathOf prefix n0)) as [f1|] eqn:E;
    [|discriminate].
  destruct Hin as [Heq|Hin].
  - injection Heq as -> ->. exists fields, f1.
    split; [constructor|]. split; [exact E|].
    eapply eachProperty_grows; [|exact H].
    apply Forall_forall. intros kv _. apply parseProperties_grows.
  - destruct (IH _ _ Hin H) as (g0 & g1 & Hg0 & Hstep & Hg1).
    exists g0, g1. split; [|now split].
    eapply grows_trans; [|exact Hg0].
    exact (proj1 (proj2 (parseProperties_grows x0) _ _ _ E)).
Qed.

Lemma declares_registered properties path :
  declares properties path ->
  forall fields prefix fields',
    parseProperties properties fields prefix = Normal fields' ->
    In (pathKey prefix path) (registryKeys fields').
Proof.
  induction 1 as [props name field Hin|props name fprops path Hin Htruthy _ IH];
    intros fields prefix fields' H; rewrite parseProperties_entries in H;
    simpl in H;
    destruct (eachProperty_at _ _ _ _ _ _ Hin H) as (f0 & f1 & _ & Hstep & Hg1).
  - eapply grows_keys; [exact Hg1|].
    exact (proj2 (proj2 (parseProperties_grows field) _ _ _ Hstep)).
  - eapply grows_keys; [exact Hg1|].
    change (pathKey prefix (name :: path))
      with (pathKey (fullPathOf prefix name) path).
    unfold fieldStep in Hstep. cbv zeta in Hstep.
    set (fields1 := assign f0 (fullPathOf prefix name) (fieldEntry (VObj fprops)))
      in *.
    destruct (MappingParser.withProp _ _ _ fprops) as [fields2|] eqn:E;
      [|discriminate].
    assert (K2 : In (pathKey (fullPathOf prefix name) path) (registryKeys fields2)).
    { destruct (parser_withProp_cases "properties"
                  (fun sub => if truthy sub
                              then parseProperties sub fields1
                                     (fullPathOf prefix name)
                              else Normal fields1)
                  (Normal fields1) fprops)
        as [(sub & _ & Hget & Hw)|[Hget _]].
      - rewrite Hw in E. rewrite Hget in Htruthy, IH. rewrite Htruthy in E.
        exact (IH _ _ _ E).
      - rewrite Hget in Htruthy. discriminate. }
    destruct (truthy (getOwn fprops "fields")).
    + eapply grows_keys; [|exact K2].
      eapply multiFieldsLoop_grows; [|exact Hstep].
      destruct (parser_withProp_cases "properties"
                  (fun sub => if truthy sub
                              then parseProperties sub fields1
                                     (fullPathOf prefix name)
                              else Normal fields1)
                  (Normal fields1) fprops)
        as [(sub & Hsub & _ & Hw)|[_ Hw]]; rewrite Hw in E.
      * destruct (truthy sub).
        -- eapply grows_keys;
             [exact (proj1 (parseProperties_grows sub) _ _ _ E)|].
           apply assign_key.
        -- injection E as <-. apply assign_key.
      * injection E as <-. apply assign_key.
    + injection Hstep as <-. exact K2.
Qed.

Lemma parse_indices_at indexName iprops mprops indices : forall fields fields',
  In (indexName, VObj iprops) indices ->
  getOwn iprops "mappings" = VObj mprops ->
  truthy (getOwn mprops "properties") = true ->
  typeofObject (getOwn mprops "properties") = true ->
  parse_indices indices fields = Normal fields' ->
  exists f0 f1,
    parseProperties (getOwn mprops "properties") f0 EmptyString = Normal f1
    /\ grows f1 fields'.
Proof.
  induction indices as [|[n0 x0] indices IH];
    intros fields fields' Hin Hm Htruthy Hobj H; [contradiction|].
  destruct Hin as [Heq|Hin].
  - injection Heq as -> ->. simpl in H. rewrite Hm in H. simpl in H.
    rewrite Htruthy, Hobj in H.
    destruct (parseProperties _ fields EmptyString) as [f1|] eqn:E; [|discriminate].
    exists fields, f1. split; [exact E|]. now apply parse_indices_grows in H.
  - simpl in H.
    destruct (negb (truthy x0)); [now apply (IH fields)|].
    destruct (get x0 "mappings") as [indexMapping|]; [|discriminate].
    destruct (negb (truthy indexMapping)); [now apply (IH fields)|].
    destruct (get indexMapping "properties") as [p|]; [|discriminate].
    destruct (typeofObject (if truthy p then p else VObj [])); [|now apply (IH fields)].
    destruct (parseProperties _ fields EmptyString) as [f1|]; [|discriminate].
    now apply (IH f1).
Qed.

Lemma declares_object properties path :
  declares properties path -> exists props, properties = VObj props.
Proof. destruct 1; eauto. Qed.

Lemma key_lookup fields k :
  In k (registryKeys fields) -> exists fi, lookup fields k = Some fi.
Proof.
  induction fields as [|[k0 fi0] fields IH]; simpl; [contradiction|].
  intros [->|Hin].
  - rewrite String.eqb_refl. eauto.
  - destruct (String.eqb k0 k); eauto.
Qed.

Lemma join_cons_cons sep a b rest :
  join sep (a :: b :: rest) = (a ++ sep ++ join sep (b :: rest))%string.
Proof. reflexivity. Qed.

Lemma append_assoc (a b c : string) : ((a ++ b) ++ c = a ++ (b ++ c))%string.
Proof. induction a as [|x a IH]; simpl; [reflexivity | now rewrite IH]. Qed.

Lemma append_nonempty (a b : string) : a <> EmptyString -> (a ++ b)%string <> EmptyString.
Proof. destruct a; [congruence | discriminate]. Qed.

(** With no empty name on the way, the key of a field is its names joined
    by dots. *)
Lemma pathKey_join path : forall prefix,
  prefix <> EmptyString ->
  pathKey prefix path = join "." (prefix :: path).
Proof.
  induction path as [|n path IH]; intros prefix Hne; [reflexivity|].
  change (pathKey prefix (n :: path)) with (pathKey (fullPathOf prefix n) path).
  unfold fullPathOf. destruct (String.eqb prefix EmptyString) eqn:E;
    [apply String.eqb_eq in E; contradiction|].
  rewrite IH by (now apply append_nonempty).
  rewrite (join_cons_cons "." prefix n path).
  destruct path as [|m path]; [reflexivity|].
  rewrite !join_cons_cons. now rewrite !append_assoc.
Qed.

Lemma pathKey_top path :
  path <> [] -> hd EmptyString path <> EmptyString ->
  pathKey EmptyString path = join "." path.
Proof.
  destruct path as [|n path]; [congruence|]. simpl. intros _ Hne.
  change (pathKey EmptyString (n :: path)) with (pathKey n path).
  now apply pathKey_join.
Qed.

Lemma declares_nonempty properties path : declares properties path -> path <> [].
Proof. destruct 1; discriminate. Qed.

(** *** No exception without [null] *)

Lemma nullFree_get v key :
  nullFree v = true ->
  exists x, get v key = Normal x /\ (truthy x = true -> nullFree x = true).
Proof.
  destruct v as [| |b|q|s|l|props]; simpl; intros Hnf; try discriminate.
  - eauto.
  - eauto.
  - destruct (String.eqb key "length"); [eauto|].
    destruct (asIndex key) as [i|]; [|eauto].
    destruct (charAt s i); eauto.
  - destruct (String.eqb key "length"); [eauto|].
    destruct (asIndex key) as [i|]; [|eauto].
    eexists. split; [reflexivity|]. intros Ht.
    rewrite forallb_forall in Hnf.
    destruct (nth_in_or_default i l VUndefined) as [Hin|Hd].
    + now apply Hnf.
    + rewrite Hd in Ht. discriminate.
  - eexists. split; [reflexivity|].
    induction props as [|[k x] props IH]; simpl in *; [discriminate|].
    apply andb_prop in Hnf as [Hx Hrest].
    destruct (String.eqb k key); [now intros _ | now apply IH].
Qed.

Lemma nullFree_entries v :
  nullFree v = true ->
  Forall (fun kv => nullFree (snd kv) = true) (entries v).
Proof.
  destruct v as [| |b|q|s|l|props]; simpl; intros Hnf; try constructor.
  - apply (Forall_indexed (fun x => nullFree x = true)). now apply Forall_chars.
  - apply (Forall_indexed (fun x => nullFree x = true)).
    apply Forall_forall. now apply forallb_forall.
  - apply Forall_forall. intros [k x] Hin.
    rewrite forallb_forall in Hnf. exact (Hnf _ Hin).
Qed.

Lemma multiFieldsLoop_total mfs : forall fields fullPath,
  Forall (fun kv => nullFree (snd kv) = true) mfs ->
  exists fields', multiFieldsLoop mfs fields fullPath = Normal fields'.
Proof.
  induction mfs as [|[name multiField] mfs IH]; intros fields fullPath Hall; simpl.
  - eauto.
  - inversion Hall as [|? ? Hx Hrest]; subst. simpl in Hx.
    destruct (nullFree_get multiField "type" Hx) as (t & -> & _).
    now apply IH.
Qed.

Lemma flatField_total field fields fullPath :
  nullFree field = true ->
  exists fields', flatField field fields fullPath = Normal fields'.
Proof.
  intros Hnf. unfold flatField.
  destruct (nullFree_get field "type" Hnf) as (t & -> & _). eauto.
Qed.

Lemma eachProperty_total prefix ps : forall fields,
  Forall (fun kv => nullFree (snd kv) = true -> step_total (snd kv)) ps ->
  Forall (fun kv => nullFree (snd kv) = true) ps ->
  exists fields', eachProperty prefix ps fields = Normal fields'.
Proof.
  induction ps as [|[name field] ps IH]; intros fields Hstep Hnf; simpl.
  - eauto.
  - inversion Hstep as [|? ? Hs Hsr]; inversion Hnf as [|? ? Hn Hnr]; subst.
    simpl in Hs, Hn.
    destruct (Hs Hn fields (fullPathOf prefix name)) as [f1 ->].
    now apply IH.
Qed.

Lemma step_total_flat v : (forall props, v <> VObj props) ->
  nullFree v = true -> step_total v.
Proof.
  intros Hflat Hnf fields fullPath.
  destruct (flatField_total v fields fullPath Hnf) as [f' H]. exists f'.
  destruct v; try exact H. now destruct (Hflat props).
Qed.

Lemma parseProperties_total v :
  nullFree v = true -> parse_total v /\ step_total v.
Proof.
  induction v as [| | | | |l IH|props IH] using value_ind_nested; intros Hnf;
    try discriminate.
  1-3: split; [|apply step_total_flat; [discriminate | exact Hnf]];
    intros fields prefix; rewrite parseProperties_entries;
    apply eachProperty_total.
  - constructor.
  - constructor.
  - constructor.
  - constructor.
  - simpl. apply (Forall_indexed (fun x => nullFree x = true -> step_total x)).
    apply Forall_chars. intros c _.
    apply step_total_flat; [discriminate | reflexivity].
  - now apply nullFree_entries.
  - split; [|apply step_total_flat; [discriminate | exact Hnf]].
    intros fields prefix. rewrite parseProperties_entries.
    apply eachProperty_total; [|now apply nullFree_entries].
    simpl. apply (Forall_indexed (fun x => nullFree x = true -> step_total x)).
    eapply Forall_impl; [|exact IH].
    intros x Hx Hn. now apply Hx.
  - split.
    + intros fields prefix. rewrite parseProperties_entries.
      apply eachProperty_total; [|now apply nullFree_entries].
      simpl. eapply Forall_impl; [|exact IH]. intros x Hx Hn. now apply Hx.
    + intros fields fullPath. unfold fieldStep. cbv zeta.
      set (fields1 := assign fields fullPath (fieldEntry (VObj props))).
      assert (H1 : exists fields2,
                 MappingParser.withProp "properties"
                   (fun sub => if truthy sub
                               then parseProperties sub fields1 fullPath
                               else Normal fields1)
                   (Normal fields1) props = Normal fields2).
      { destruct (parser_withProp_cases "properties"
                    (fun sub => if truthy sub
                                then parseProperties sub fields1 fullPath
                                else Normal fields1)
                    (Normal fields1) props)
          as [(sub & Hin & _ & ->)|[_ ->]]; [|eauto].
        destruct (truthy sub); [|eauto].
        rewrite Forall_forall in IH. apply (IH _ Hin).
        simpl in Hnf. rewrite forallb_forall in Hnf. exact (Hnf _ Hin). }
      destruct H1 as [fields2 ->].
      destruct (truthy (getOwn props "fields")) eqn:Ht; [|eauto].
      apply multiFieldsLoop_total. apply nullFree_entries.
      destruct (nullFree_get (VObj props) "fields" Hnf) as (x & Hx & Hn).
      simpl in Hx. injection Hx as <-. now apply Hn.
Qed.

Lemma parse_indices_total indices : forall fields,
  Forall (fun kv => nullFree (snd kv) = true) indices ->
  exists fields', parse_indices indices fields = Normal fields'.
Proof.
  induction indices as [|[indexName indexData] indices IH]; intros fields Hall; simpl.
  - eauto.
  - inversion Hall as [|? ? Hx Hrest]; subst. simpl in Hx.
    destruct (negb (truthy indexData)); [now apply IH|].
    destruct (nullFree_get indexData "mappings" Hx) as (indexMapping & -> & Hm).
    destruct (truthy indexMapping) eqn:Htm; simpl; [|now apply IH].
    destruct (nullFree_get indexMapping "properties" (Hm eq_refl))
      as (p & -> & Hp).
    destruct (typeofObject (if truthy p then p else VObj [])); [|now apply IH].
    assert (Hnf : nullFree (if truthy p then p else VObj []) = true)
      by (destruct (truthy p); [now apply Hp | reflexivity]).
    destruct (proj1 (parseProperties_total _ Hnf) fields EmptyString) as [f1 ->].
    now apply IH.
Qed.

End ParserFacts.


(** X8.  [parse] raises on [null] only.  On a mapping response that contains
    neither [null] nor [undefined] at any depth, [parse] returns a registry,
    whatever the shape of the response: objects, arrays, strings and numbers
    in unexpected places are stored or skipped, never a reason to fail.  A
    field definition that is [null] does make it raise. *)
Theorem parse_returns_without_null :
  (forall data,
     nullFree data = true ->
     exists fields, MappingParser.parse data = Normal fields)
  /\ MappingParser.parse nullFieldMapping
     = Throw (TypeError "Cannot read properties of null (reading 'type')").
Proof.
  split; [|reflexivity].
  intros data Hnf. unfold MappingParser.parse.
  destruct (negb (JSValue.truthy data) || negb (JSValue.typeofObject data));
    [eauto|].
  apply parse_indices_total. now apply nullFree_entries.
Qed.

Lemma parse_returns_without_null_witness :
  nullFree nestedMapping = true
  /\ exists fields, MappingParser.parse nestedMapping = Normal fields.
Proof.
  split; [reflexivity|].
  exact (proj1 parse_returns_without_null nestedMapping eq_refl).
Defined.

(** X9.  Every declared field is in the registry.  Let a mapping response
    have, under some index, [mappings.properties] equal to an object
    [properties], and let the names [path] lead through nested [properties]
    objects to a field.  When [parse] returns, the registry has an entry
    under these names joined by dots, provided the first name is not empty;
    so [getFieldType] finds the field by its dotted path. *)
Theorem parse_registers_declared_fields :
  forall indices indexName iprops mprops path fields,
    MappingParser.parse (JSValue.VObj indices) = Normal fields ->
    In (indexName, JSValue.VObj iprops) indices ->
    JSValue.getOwn iprops "mappings" = JSValue.VObj mprops ->
    declares (JSValue.getOwn mprops "properties") path ->
    hd EmptyString path <> EmptyString ->
    exists fi,
      MappingParser.lookup fields (JSString.join "." path) = Some fi
      /\ MappingParser.getFieldType fields (JSString.join "." path)
         = Some (MappingParser.Entry fi).
Proof.
  intros indices indexName iprops mprops path fields Hparse Hin Hm Hdecl Hne.
  unfold MappingParser.parse in Hparse. simpl in Hparse.
  destruct (declares_object _ _ Hdecl) as [props Hprops].
  destruct (parse_indices_at indexName iprops mprops indices [] fields Hin Hm)
    as (f0 & f1 & Hpp & Hg); try (rewrite Hprops; reflexivity); [exact Hparse|].
  pose proof (declares_registered _ _ Hdecl _ _ _ Hpp) as Hkey.
  rewrite pathKey_top in Hkey
    by (try exact Hne; eapply declares_nonempty; eassumption).
  destruct (key_lookup fields (JSString.join "." path)) as [fi Hfi].
  - eapply grows_keys; eassumption.
  - exists fi. split; [exact Hfi|].
    unfold MappingParser.getFieldType. now rewrite (read_stored _ _ _ Hfi).
Qed.

Lemma parse_registers_declared_fields_witness :
  exists fields fi,
    MappingParser.parse nestedMapping = Normal fields
    /\ MappingParser.lookup fields "user.name" = Some fi.
Proof.
  assert (Hdecl : declares nestedProperties ["user"; "name"]).
  { eapply declares_nested; [now left | reflexivity|].
    eapply declares_field. now left. }
  destruct (MappingParser.parse nestedMapping) as [fields|] eqn:Hparse;
    [|vm_compute in Hparse; discriminate].
  destruct (parse_registers_declared_fields _ "logs" _ _ ["user"; "name"] fields
              Hparse (or_introl eq_refl) eq_refl Hdecl)
    as (fi & Hfi & _); [discriminate|].
  exists fields, fi. split; [reflexivity | exact Hfi].
Defined.




(** ** The validator: what it can report *)

Section EmitFacts.
Import JSString JSValue MappingParser ESValidator.
Variable P : Finding -> Prop.

Lemma emits_ret {A : Type} (a : A) : emits P (ret a).
Proof. intros errors. exists []. simpl. now rewrite app_nil_r. Qed.

Lemma emits_skip : emits P skip.
Proof. apply emits_ret. Qed.

Lemma emits_lift {A : Type} (c : completion A) : emits P (lift c).
Proof. intros errors. exists []. simpl. now rewrite app_nil_r. Qed.

Lemma emits_push f : P f -> emits P (push f).
Proof. intros Hf errors. exists [f]. simpl. split; [reflexivity | now constructor]. Qed.

Lemma emits_bind {A B : Type} (m : M A) (k : A -> M B) :
  emits P m -> (forall a, emits P (k a)) -> emits P (bind m k).
Proof.
  intros Hm Hk errors. unfold bind.
  destruct (Hm errors) as (a1 & H1 & F1).
  destruct (m errors) as [[a|e] errors1]; simpl in H1; subst errors1.
  - destruct (Hk a (errors ++ a1)) as (a2 & H2 & F2).
    exists (a1 ++ a2). rewrite H2, app_assoc. split; [reflexivity|].
    now apply Forall_app.
  - exists a1. now split.
Qed.

(** After a raise nothing runs. *)
Lemma emits_throw {A B : Type} (e : exn) (k : A -> M B) :
  emits P (bind (lift (Throw e)) k).
Proof. intros errors. exists []. simpl. now rewrite app_nil_r. Qed.

Lemma emits_forEntries body ps :
  (forall k v, In (k, v) ps -> emits P (body k v)) ->
  emits P (forEntries body ps).
Proof.
  induction ps as [|[k v] ps IH]; intros Hall; simpl.
  - apply emits_skip.
  - apply emits_bind; [apply Hall; now left|].
    intros _. apply IH. intros k' v' Hin. apply Hall. now right.
Qed.

Lemma emits_forIndexed body l : forall i,
  (forall k v, In v l -> emits P (body k v)) ->
  emits P (forIndexed body i l).
Proof.
  induction l as [|v l IH]; intros i Hall; simpl.
  - apply emits_skip.
  - apply emits_bind; [apply Hall; now left|].
    intros _. apply IH. intros k' v' Hin. apply Hall. now right.
Qed.

Lemma emits_forIn body v :
  (forall k x, child x v -> emits P (body k x)) ->
  emits P (forIn body v).
Proof.
  intros Hall. destruct v; simpl; try apply emits_skip.
  - apply emits_forIndexed. intros k x Hin. apply Hall. now constructor.
  - apply emits_forEntries. intros k x Hin. apply Hall. econstructor. exact Hin.
Qed.

Lemma emits_forEach_from body l : forall i,
  (forall x n, In x l -> emits P (body x n)) ->
  emits P (forEach_from body i l).
Proof.
  induction l as [|v l IH]; intros i Hall; simpl.
  - apply emits_skip.
  - apply emits_bind; [apply Hall; now left|].
    intros _. apply IH. intros x n Hin. apply Hall. now right.
Qed.

Lemma emits_forEach body l :
  (forall x n, In x l -> emits P (body x n)) ->
  emits P (forEach body l).
Proof. apply emits_forEach_from. Qed.

Lemma emits_forOf body l :
  (forall x, emits P (body x)) -> emits P (forOf body l).
Proof.
  intros Hall. induction l as [|x l IH]; simpl.
  - apply emits_skip.
  - apply emits_bind; [apply Hall | intros _; exact IH].
Qed.

Lemma emits_withProp key (f : value -> M unit) d props :
  (forall v, In (key, v) props -> emits P (f v)) ->
  emits P d ->
  emits P (ESValidator.withProp key f d props).
Proof.
  intros Hf Hd. induction props as [|[k v] props IH]; simpl; [exact Hd|].
  destruct (String.eqb k key) eqn:E.
  - apply String.eqb_eq in E. subst k. apply Hf. now left.
  - apply IH. intros x Hin. apply Hf. now right.
Qed.

End EmitFacts.

Lemma emits_weaken (P Q : ESValidator.Finding -> Prop) {A : Type}
      (m : ESValidator.M A) :
  (forall f, P f -> Q f) -> emits P m -> emits Q m.
Proof.
  intros HPQ Hm errors. destruct (Hm errors) as (added & H & F).
  exists added. split; [exact H|]. eapply Forall_impl; eassumption.
Qed.

Ltac expected_finding :=
  first
    [ left; reflexivity
    | right; split;
      [ repeat split; reflexivity
      | simpl; intros Hsev;
        first [ discriminate Hsev | left; reflexivity | right; reflexivity ] ] ].

Ltac emits_step :=
  lazymatch goal with
  | |- emits _ (ESValidator.bind (ESValidator.lift (Throw _)) _) =>
      apply emits_throw
  | |- emits _ (ESValidator.bind _ _) => apply emits_bind; [|intros]
  | |- emits _ (ESValidator.push _) =>
      apply emits_push; first [ expected_finding | assumption ]
  | |- emits _ ESValidator.skip => apply emits_skip
  | |- emits _ (ESValidator.ret _) => apply emits_ret
  | |- emits _ (ESValidator.lift _) => apply emits_lift
  | |- emits _ (ESValidator.str _ _) => apply emits_lift
  | |- emits _ (ESValidator.forOf _ _) => apply emits_forOf; intros
  | |- emits _ (match ?x with _ => _ end) => destruct x
  end.

Ltac emits_all := cbv zeta; repeat emits_step.

Section ValidatorEmits.
Import JSString JSValue MappingParser ESValidator.
Variable numberToString : Q -> string.
Variable fields : Registry.

Lemma validateTopLevel_emits query : emits expected (validateTopLevel query).
Proof.
  unfold validateTopLevel. emits_all.
  apply emits_forIn. intros. emits_all.
Qed.

Lemma validateMatchOptions_emits options path :
  emits expected (validateMatchOptions numberToString options path).
Proof.
  unfold validateMatchOptions. apply emits_forIn. intros. emits_all.
Qed.

Lemma validateMatchQuery_emits matchQuery path :
  emits expected (validateMatchQuery numberToString fields matchQuery path).
Proof.
  unfold validateMatchQuery. emits_all.
  apply emits_forIn. intros. emits_all. apply validateMatchOptions_emits.
Qed.

Lemma validateTermQuery_emits termQuery path :
  emits expected (validateTermQuery fields termQuery path).
Proof.
  unfold validateTermQuery. emits_all.
  apply emits_forIn. intros. emits_all.
Qed.

Lemma validateRangeQuery_emits rangeQuery path :
  emits expected (validateRangeQuery numberToString fields rangeQuery path).
Proof. unfold validateRangeQuery. emits_all. Qed.

Lemma validateExistsQuery_emits existsQuery path :
  emits expected (validateExistsQuery fields existsQuery path).
Proof. unfold validateExistsQuery. emits_all. Qed.

Lemma validateMultiMatchQuery_emits multiMatchQuery path :
  emits expected (validateMultiMatchQuery fields multiMatchQuery path).
Proof.
  unfold validateMultiMatchQuery. emits_all.
  apply emits_forEach. intros. emits_all.
Qed.

Lemma validateBoolQuery_emits rec boolQuery path :
  (forall y p, descendant y boolQuery -> emits expected (rec y p)) ->
  emits expected (validateBoolQuery rec boolQuery path).
Proof.
  intros Hrec. unfold validateBoolQuery. emits_all.
  apply emits_forIn. intros clause clauseValue Hchild. emits_all.
  apply emits_forEach. intros subQuery n Hin. apply Hrec.
  eapply descendant_trans; [|apply descendant_child; exact Hchild].
  apply descendant_child. now constructor.
Qed.

Lemma validateNestedQuery_emits rec nestedQuery path :
  (forall y p, descendant y nestedQuery -> emits expected (rec y p)) ->
  emits expected (validateNestedQuery numberToString fields rec nestedQuery path).
Proof.
  intros Hrec. unfold validateNestedQuery. emits_all.
  apply emits_withProp; [|emits_all].
  intros q Hin. emits_all. apply Hrec.
  apply descendant_child. econstructor. exact Hin.
Qed.

Lemma validateClause_emits rec path queryType queryValue :
  (forall y p, descendant y queryValue -> emits expected (rec y p)) ->
  emits expected
    (validateClause numberToString fields rec path queryType queryValue).
Proof.
  intros Hrec. unfold validateClause.
  destruct (negb (isValidQueryType queryType)); [emits_all|].
  destruct (String.eqb queryType "bool"); [now apply validateBoolQuery_emits|].
  destruct (_ || _); [apply validateMatchQuery_emits|].
  destruct (_ || _); [apply validateTermQuery_emits|].
  destruct (String.eqb queryType "range"); [apply validateRangeQuery_emits|].
  destruct (String.eqb queryType "exists"); [apply validateExistsQuery_emits|].
  destruct (String.eqb queryType "multi_match");
    [apply validateMultiMatchQuery_emits|].
  destruct (String.eqb queryType "nested"); [now apply validateNestedQuery_emits|].
  emits_all.
Qed.

Lemma validateQuery_emits query : forall path,
  emits expected (validateQuery numberToString fields query path).
Proof.
  induction query as [query IH] using (well_founded_induction descendant_wf).
  intros path.
  destruct query as [| | | | |l|props]; try (simpl; emits_all).
  - simpl. apply emits_forIndexed. intros k v Hin.
    apply validateClause_emits. intros y p Hy.
    apply IH. eapply descendant_trans; [exact Hy|].
    apply descendant_child. now constructor.
  - simpl. apply emits_forEntries. intros k v Hin.
    apply validateClause_emits. intros y p Hy.
    apply IH. eapply descendant_trans; [exact Hy|].
    apply descendant_child. econstructor. exact Hin.
Qed.

Lemma validateAggregationConfig_emits rec aggType config path :
  (forall y p, child y config -> emits expected (rec y p)) ->
  emits expected
    (validateAggregationConfig numberToString fields rec aggType config path).
Proof.
  intros Hrec. unfold validateAggregationConfig.
  destruct (notAnObject config); [emits_all|].
  apply emits_bind; [emits_all|]. intros _.
  apply emits_bind; [emits_all|]. intros _.
  destruct config as [| | | | |l|props]; try apply emits_skip.
  assert (Hvia : emits expected
                   (ESValidator.withProp "aggregations"
                      (fun nestedAggs =>
                         if truthy nestedAggs then rec nestedAggs path else skip)
                      skip props)).
  { apply emits_withProp; [|apply emits_skip].
    intros v Hin. destruct (truthy v); [|apply emits_skip].
    apply Hrec. econstructor. exact Hin. }
  apply emits_withProp; [|exact Hvia].
  intros v Hin. destruct (truthy v); [|exact Hvia].
  apply Hrec. econstructor. exact Hin.
Qed.

Lemma validateAggregation_emits rec path aggName aggValue :
  (forall y p, descendant y aggValue -> emits expected (rec y p)) ->
  emits expected
    (validateAggregation numberToString fields rec path aggName aggValue).
Proof.
  intros Hrec. unfold validateAggregation.
  destruct (isIndexLike aggName); [apply emits_skip|].
  destruct (notAnObject aggValue); [emits_all|].
  destruct aggValue as [| | | | |l|props]; try emits_all.
  apply validateAggregationConfig_emits. intros y p0 Hy. apply Hrec.
  eapply descendant_trans; [apply descendant_child; exact Hy|].
  apply descendant_child. econstructor. now left.
Qed.

Lemma validateAggregations_emits aggs : forall path,
  emits expected (validateAggregations numberToString fields aggs path).
Proof.
  induction aggs as [aggs IH] using (well_founded_induction descendant_wf).
  intros path.
  destruct aggs as [| | | | |l|props]; try (simpl; emits_all).
  - simpl. apply emits_forIndexed. intros k v Hin.
    apply validateAggregation_emits. intros y p Hy.
    apply IH. eapply descendant_trans; [exact Hy|].
    apply descendant_child. now constructor.
  - simpl. apply emits_forEntries. intros k v Hin.
    apply validateAggregation_emits. intros y p Hy.
    apply IH. eapply descendant_trans; [exact Hy|].
    apply descendant_child. econstructor. exact Hin.
Qed.

(** [validateSort] without its [path] argument appends nothing. *)
Lemma validateSort_silent sort :
  emits (fun _ => False) (validateSort numberToString fields sort None).
Proof.
  unfold validateSort. destruct sort as [| | | | |items|props];
    try apply emits_skip.
  apply emits_forEach. intros sortItem index _.
  assert (Hbody : forall item : value,
            emits (fun _ => False)
              (forIn
                 (fun fieldName order =>
                    (if unmapped fields fieldName
                        && negb (includes ["_score"; "_doc"] fieldName) then
                       p <- lift (spread None) ;;
                       push (located Warning (sortNotFound fieldName)
                               (p ++ [PIndex index; PKey fieldName]))
                     else skip) ;;;
                    (if typeofObject order then
                       direction <- lift (get order "order") ;;
                       if truthy direction
                          && negb (includesValue ["asc"; "desc"] direction) then
                         got <- str numberToString direction ;;
                         p <- lift (spread None) ;;
                         push (located Error
                                 ("Sort order must be " ++ quoted "asc" ++ " or "
                                  ++ quoted "desc" ++ ", got " ++ quoted got)
                                 (p ++ [PIndex index; PKey fieldName; PKey "order"]))
                       else skip
                     else skip))
                 item)).
  { intros item. apply emits_forIn. intros fieldName order _.
    apply emits_bind.
    - destruct (_ && _); [apply emits_throw | apply emits_skip].
    - intros _. destruct (typeofObject order); [|apply emits_skip].
      apply emits_bind; [apply emits_lift|]. intros direction.
      destruct (_ && _); [|apply emits_skip].
      apply emits_bind; [apply emits_lift|]. intros got. apply emits_throw. }
  destruct sortItem as [| | | |name|l|props]; simpl typeofObject; cbv iota;
    try apply emits_skip; try apply Hbody.
  destruct (_ && _); [apply emits_throw | apply emits_skip].
Qed.

Lemma validateCommonFields_emits query :
  emits expected (validateCommonFields query).
Proof. unfold validateCommonFields. emits_all. Qed.

Lemma validateBody_emits JSON_parse dslText :
  emits expected (validateBody numberToString fields JSON_parse dslText).
Proof.
  unfold validateBody.
  apply emits_bind; [apply emits_lift|]. intros query.
  apply emits_bind; [apply validateTopLevel_emits|]. intros _.
  apply emits_bind; [apply emits_lift|]. intros q.
  apply emits_bind.
  { destruct (truthy q); [apply validateQuery_emits | apply emits_skip]. }
  intros _. apply emits_bind.
  { cbv zeta.
    match goal with
    | |- emits _ (if ?b then _ else _) => destruct b
    end; [apply validateAggregations_emits | apply emits_skip]. }
  intros _. apply emits_bind.
  { destruct (truthy (prop query "sort")); [|apply emits_skip].
    eapply emits_weaken; [|apply validateSort_silent]. contradiction. }
  intros _. apply validateCommonFields_emits.
Qed.

End ValidatorEmits.


Section ValidateShape.
Import JSString JSValue MappingParser ESValidator.

(** The result of [validate]: findings of the checks, then at most the one
    finding of the catch clause. *)
Lemma validate_shape numberToString fields JSON_parse text :
  exists body tail,
    validate numberToString fields JSON_parse text = body ++ tail
    /\ Forall expected body
    /\ (tail = [] \/ exists e, tail = [syntaxFinding text e]).
Proof.
  unfold validate.
  destruct (validateBody_emits numberToString fields JSON_parse text [])
    as (added & H & F).
  destruct (validateBody numberToString fields JSON_parse text [])
    as [[u|e] errors]; simpl in H; subst errors.
  - exists added, []. rewrite app_nil_r. repeat split; auto.
  - exists added, [syntaxFinding text e]. repeat split; eauto.
Qed.

Lemma orElse_positive n d : 1 <= n -> ESDiagnosticsProvider.orElse (Some n) d = n.
Proof. destruct n; [lia | reflexivity]. Qed.

End ValidateShape.

(** X11.  Sort validation reports nothing.  [validate] calls [validateSort]
    without the [path] argument, and every finding of [validateSort] is
    built from [[...path, ...]]: whatever the value of [sort], the call
    leaves the list of findings as it was.  It raises instead as soon as it
    has something to report: for a first sort entry that is a string naming
    a field outside the mapping, other than [_score] and [_doc], with
    TypeError. *)
Theorem validateSort_reports_nothing :
  forall numberToString fields sort errors,
    snd (ESValidator.validateSort numberToString fields sort None errors) = errors
    /\ forall name rest,
         sort = JSValue.VArr (JSValue.VStr name :: rest) ->
         ESValidator.unmapped fields name = true ->
         JSString.includes ["_score"; "_doc"] name = false ->
         fst (ESValidator.validateSort numberToString fields sort None errors)
         = Throw (TypeError "path is not iterable").
Proof.
  intros numberToString fields sort errors. split.
  - destruct (validateSort_silent numberToString fields sort errors)
      as (added & H & F).
    destruct added as [|f added]; [now rewrite app_nil_r in H|].
    inversion F as [|? ? Hf _]. contradiction.
  - intros name rest -> Hun Hnot. unfold ESValidator.validateSort.
    unfold ESValidator.forEach. cbn [ESValidator.forEach_from].
    unfold ESValidator.bind at 1. cbv beta iota.
    rewrite Hun, Hnot. reflexivity.
Qed.

Lemma validateSort_reports_nothing_witness :
  ESValidator.validateSort RefJSON.numberToString schemaA
    (JSValue.VArr [JSValue.VStr "a.b"]) None []
  = (Throw (TypeError "path is not iterable"), []).
Proof.
  destruct (validateSort_reports_nothing RefJSON.numberToString schemaA
              (JSValue.VArr [JSValue.VStr "a.b"]) []) as [Hsnd Hfst].
  specialize (Hfst "a.b" [] eq_refl eq_refl eq_refl).
  destruct (ESValidator.validateSort _ _ _ _ _) as [c errors].
  simpl in Hsnd, Hfst. now subst.
Defined.

(** X12.  Where the diagnostics are shown.  Every marker that
    [ESDiagnosticsProvider.validate] sets is of one of three kinds: the
    marker of the syntax error, at the position computed from the parser's
    message and one column wide; the marker of the root check, from column 1
    to column 10 of line 1; or a marker in the top left corner, line 1,
    column 1 to column 1.  So every finding about a query clause, an
    aggregation, a field or a paging value is shown in the corner, not at
    the place in the text it is about. *)
Theorem markers_sit_in_the_corner :
  forall numberToString JSON_parse text fields m,
    In m (ESDiagnosticsProvider.validate numberToString JSON_parse text fields) ->
    atCorner m
    \/ m = ESDiagnosticsProvider.mkMarker ESValidator.Error
             "Root must be an object" 1 1 1 10
    \/ exists e line column,
         m = ESDiagnosticsProvider.mkMarker ESValidator.Error
               ("JSON syntax error: " ++ exn_message e)
               line column line (column + 1)
         /\ 1 <= line /\ 1 <= column.
Proof.
  intros numberToString JSON_parse text fields m Hin.
  unfold ESDiagnosticsProvider.validate in Hin.
  apply in_map_iff in Hin as (f & <- & Hf).
  destruct (validate_shape numberToString
              (match fields with Some f0 => f0 | None => [] end)
              JSON_parse text) as (body & tail & Heq & Hbody & Htail).
  rewrite Heq in Hf. apply in_app_or in Hf as [Hf|Hf].
  - rewrite Forall_forall in Hbody.
    destruct (Hbody f Hf) as [->|[(H1 & H2 & H3 & H4) _]].
    + right. left. reflexivity.
    + left. unfold atCorner, ESDiagnosticsProvider.toMarker. simpl.
      rewrite H1, H2, H3, H4. repeat split; reflexivity.
  - destruct Htail as [->|[e ->]]; [contradiction|].
    destruct Hf as [<-|[]]. right. right.
    unfold ESValidator.syntaxFinding, ESValidator.getErrorPosition.
    set (lines := JSString.split JSString.newline _).
    assert (Hl : 1 <= length lines) by apply split_length_pos.
    exists e, (length lines), (String.length (last lines EmptyString) + 1).
    split; [|split; [exact Hl | lia]].
    unfold ESDiagnosticsProvider.toMarker.
    cbn [ESValidator.severity ESValidator.message ESValidator.startLineNumber
         ESValidator.startColumn ESValidator.endLineNumber ESValidator.endColumn].
    rewrite !orElse_positive by lia. reflexivity.
Qed.

Lemma markers_sit_in_the_corner_witness :
  ESDiagnosticsProvider.validate RefJSON.numberToString RefJSON.parse
    matchOnExtension (Some schemaA)
  = [ESDiagnosticsProvider.mkMarker ESValidator.Warning
       (ESValidator.notFound "a.b") 1 1 1 1]
  /\ atCorner
       (ESDiagnosticsProvider.mkMarker ESValidator.Warning
          (ESValidator.notFound "a.b") 1 1 1 1).
Proof.
  assert (Hrun : ESDiagnosticsProvider.validate RefJSON.numberToString
                   RefJSON.parse matchOnExtension (Some schemaA)
                 = [ESDiagnosticsProvider.mkMarker ESValidator.Warning
                      (ESValidator.notFound "a.b") 1 1 1 1])
    by (vm_compute; reflexivity).
  split; [exact Hrun|].
  destruct (markers_sit_in_the_corner RefJSON.numberToString RefJSON.parse
              matchOnExtension (Some schemaA)
              (ESDiagnosticsProvider.mkMarker ESValidator.Warning
                 (ESValidator.notFound "a.b") 1 1 1 1))
    as [Hc|[Hroot|(e & line & column & Heq & _)]].
  - rewrite Hrun. now left.
  - exact Hc.
  - discriminate Hroot.
  - discriminate Heq.
Defined.

(** X13.  The only findings of severity Info are the two about paging.
    Whatever the text, the schema and the parser: a finding of severity Info
    that [validate] returns is the one about a large [size] or the one about
    [from + size]; no check of a query, an aggregation or a field reports at
    that severity. *)
Theorem validate_infos_are_about_paging :
  forall numberToString fields JSON_parse text f,
    In f (ESValidator.validate numberToString fields JSON_parse text) ->
    ESValidator.severity f = ESValidator.Info ->
    f = largeSize \/ f = deepPagination.
Proof.
  intros numberToString fields JSON_parse text f Hin Hsev.
  destruct (validate_shape numberToString fields JSON_parse text)
    as (body & tail & Heq & Hbody & Htail).
  rewrite Heq in Hin. apply in_app_or in Hin as [Hf|Hf].
  - rewrite Forall_forall in Hbody.
    destruct (Hbody f Hf) as [->|[_ Hinfo]]; [discriminate Hsev | auto].
  - destruct Htail as [->|[e ->]]; [contradiction|].
    destruct Hf as [<-|[]].
    unfold ESValidator.syntaxFinding in Hsev.
    destruct (ESValidator.getErrorPosition _ _). discriminate Hsev.
Qed.

Lemma validate_infos_are_about_paging_witness :
  In largeSize
     (ESValidator.validate RefJSON.numberToString [] RefJSON.parse scenarioD)
  /\ (largeSize = largeSize \/ largeSize = deepPagination).
Proof.
  assert (Hin : In largeSize
                   (ESValidator.validate RefJSON.numberToString []
                      RefJSON.parse scenarioD))
    by (vm_compute; left; reflexivity).
  split; [exact Hin|].
  exact (validate_infos_are_about_paging RefJSON.numberToString []
           RefJSON.parse scenarioD largeSize Hin eq_refl).
Defined.


(** ** The context resolver: what the context holds *)

Section ClassifyFacts.
Import DSLParser.

Lemma last_map_snoc (keys : list string) k d :
  last (map Some (keys ++ [k])) d = Some k.
Proof.
  induction keys as [|x keys IH]; simpl; [reflexivity|].
  destruct (map Some (keys ++ [k])) eqn:E; [|exact IH].
  destruct keys; discriminate E.
Qed.

Lemma last_cons_default {A : Type} (x : A) l d d' :
  last (x :: l) d = last (x :: l) d'.
Proof.
  revert x. induction l as [|y l IH]; intros x; [reflexivity|].
  change (last (y :: l) d = last (y :: l) d'). apply IH.
Qed.

Lemma classify_spec items : forall ctx,
  let r := classify items ctx in
  path r = path ctx ++ keysOf items
  /\ inArray r = inArray ctx || existsb isMarker items
  /\ arrayIndex r = arrayIndex ctx
  /\ depth r = depth ctx
  /\ currentKey r = last (map Some (keysOf items)) (currentKey ctx)
  /\ parentKey r
     = match keysOf items with
       | [] => parentKey ctx
       | _ :: _ =>
           last (map Some (removelast (keysOf items))) (currentKey ctx)
       end.
Proof.
  induction items as [|item items IH]; intros ctx r.
  - subst r. simpl. rewrite app_nil_r, orb_false_r. repeat split; reflexivity.
  - subst r. cbn [classify]. unfold keysOf, isMarker in *. cbn [filter existsb].
    destruct (String.eqb item "[]") eqn:E; cbn [negb].
    + match goal with
      | |- context [classify items ?c] => destruct (IH c) as (Hp & Ha & Hi & Hd & Hc & Hpk)
      end.
      rewrite Hp, Ha, Hi, Hd, Hc, Hpk. simpl.
      rewrite orb_true_r. repeat split; reflexivity.
    + match goal with
      | |- context [classify items ?c] => destruct (IH c) as (Hp & Ha & Hi & Hd & Hc & Hpk)
      end.
      rewrite Hp, Ha, Hi, Hd, Hc, Hpk. clear IH Hp Ha Hi Hd Hc Hpk.
      set (keys := filter (fun i => negb (String.eqb i "[]")) items).
      assert (Hcur : forall d : option string,
                 last (map Some keys) (Some item)
                 = last (map Some (item :: keys)) d)
        by (intros d; simpl; destruct (map Some keys);
            [reflexivity | apply last_cons_default]).
      assert (Hpar : match keys with
                     | [] => currentKey ctx
                     | _ :: _ => last (map Some (removelast keys)) (Some item)
                     end
                     = last (map Some (removelast (item :: keys))) (currentKey ctx)).
      { destruct keys as [|k keys']; [reflexivity|].
        change (removelast (item :: k :: keys'))
          with (item :: removelast (k :: keys')).
        change (map Some (item :: removelast (k :: keys')))
          with (Some item :: map Some (removelast (k :: keys'))).
        generalize (map Some (removelast (k :: keys'))). intros [|o l];
          [reflexivity|].
        change (last (Some item :: o :: l) (currentKey ctx))
          with (last (o :: l) (currentKey ctx)).
        apply last_cons_default. }
      repeat match goal with
             | |- context [if ?b then _ else _] =>
                 match type of b with bool => destruct b end
             end; cbn [path inArray arrayIndex depth currentKey parentKey];
        (split; [now rewrite <- app_assoc|]);
        (split; [reflexivity|]); (split; [reflexivity|]);
        (split; [reflexivity|]); (split; [apply Hcur | exact Hpar]).
Qed.

End ClassifyFacts.

(** X14.  What the context holds.  For every path of items that the scan of
    the text produced, the context that [analyzePath] builds has: as [path]
    the items without the array markers; as [depth] the number of items,
    markers included; [inArray] exactly when there is a marker; as
    [currentKey] the last key and as [parentKey] the one before it, [null]
    when there is none; and [arrayIndex] [-1] always, since no item is a
    number. *)
Theorem analyzePath_context :
  forall items code offset,
    let ctx := DSLParser.analyzePath items code offset in
    DSLParser.path ctx = keysOf items
    /\ DSLParser.depth ctx = length items
    /\ DSLParser.inArray ctx = existsb isMarker items
    /\ DSLParser.currentKey ctx = lastKey (keysOf items)
    /\ DSLParser.parentKey ctx = lastKey (removelast (keysOf items))
    /\ DSLParser.arrayIndex ctx = (-1)%Z
    /\ DSLParser.expecting ctx = DSLParser.expectingAt code offset.
Proof.
  intros items code offset ctx. subst ctx. unfold DSLParser.analyzePath.
  cbv zeta.
  destruct (classify_spec items DSLParser.getDefaultContext)
    as (Hp & Ha & Hi & _ & Hc & Hpk).
  cbn [DSLParser.path DSLParser.depth DSLParser.inArray DSLParser.currentKey
       DSLParser.parentKey DSLParser.arrayIndex DSLParser.expecting].
  rewrite Hp, Ha, Hi, Hc, Hpk. simpl. unfold lastKey.
  repeat split; try reflexivity.
  destruct (keysOf items); reflexivity.
Qed.

Section ResolverTextFacts.
Import DSLParser.

Lemma getDSLContext_on_text JSON_parse text offset :
  getDSLContext JSON_parse (Some text) offset
  = Normal (analyzePath (findPath text offset) text offset).
Proof.
  unfold getDSLContext, tryCatch, getDSLContext_body, partialParse,
    findPathToOffset, textOf.
  destruct (JSON_parse text); [reflexivity|].
  destruct (JSON_parse (truncate text)); reflexivity.
Qed.

End ResolverTextFacts.

(** X15.  The syntax tree is not used.  On a text, [getDSLContext] returns
    the context of the path that the scan of the characters before the
    offset produces, whatever [JSON.parse] and [partialParse] make of the
    text: two parsers that disagree about every text lead to the same
    context. *)
Theorem getDSLContext_ignores_the_parse :
  forall JSON_parse1 JSON_parse2 text offset,
    DSLParser.getDSLContext JSON_parse1 (Some text) offset
    = Normal (DSLParser.analyzePath (DSLParser.findPath text offset) text offset)
    /\ DSLParser.getDSLContext JSON_parse1 (Some text) offset
       = DSLParser.getDSLContext JSON_parse2 (Some text) offset.
Proof.
  intros JSON_parse1 JSON_parse2 text offset.
  rewrite !getDSLContext_on_text. split; reflexivity.
Qed.


(** ** The completion provider: the word in progress *)

Section CurrentWordFacts.
Import JSString ESCompletionProvider.

Lemma substring0_substringFrom n : forall s,
  (substring0 n s ++ substringFrom n s)%string = s.
Proof.
  unfold substring0. induction n as [|n IH]; intros [|c r]; simpl; try reflexivity.
  now rewrite IH.
Qed.

Lemma substring0_length n : forall s,
  n <= String.length s -> String.length (substring0 n s) = n.
Proof.
  unfold substring0. induction n as [|n IH]; intros [|c r] H; simpl in *;
    try reflexivity; try lia.
  rewrite IH; lia.
Qed.

Lemma append_length (a b : string) :
  String.length (a ++ b) = String.length a + String.length b.
Proof. induction a as [|c a IH]; simpl; [reflexivity | now rewrite IH]. Qed.

Lemma trailingWord_suffix s : exists pre, s = (pre ++ trailingWord s)%string.
Proof.
  induction s as [|c r [pre IH]]; simpl.
  - now exists EmptyString.
  - destruct (isWord c && Nat.eqb _ _).
    + now exists EmptyString.
    + exists (String c pre). simpl. now rewrite <- IH.
Qed.

Lemma trailingWord_whole s :
  String.length (trailingWord s) = String.length s -> trailingWord s = s.
Proof.
  intros Hlen. destruct (trailingWord_suffix s) as [pre Hpre].
  rewrite Hpre in Hlen at 2. rewrite append_length in Hlen.
  destruct pre; [exact (eq_sym Hpre) | simpl in Hlen; lia].
Qed.

Lemma isWord_not_dquote c : isWord c = true -> Ascii.eqb dquote c = false.
Proof.
  intros Hw. destruct (Ascii.eqb dquote c) eqn:E; [|reflexivity].
  apply Ascii.eqb_eq in E. subst c. discriminate Hw.
Qed.

Lemma trailingWord_no_quote s : includesChar dquote (trailingWord s) = false.
Proof.
  induction s as [|c r IH]; [reflexivity|].
  cbn [trailingWord].
  destruct (isWord c) eqn:Hw; cbn [andb]; [|exact IH].
  destruct (Nat.eqb _ _) eqn:E; [|exact IH].
  apply Nat.eqb_eq in E. apply trailingWord_whole in E.
  cbn [includesChar]. rewrite isWord_not_dquote by exact Hw.
  cbn [orb]. now rewrite <- E.
Qed.

(** The position [lastIndexOf] finds: no occurrence follows it. *)
Lemma lastIndexOf_from_spec c s : forall i found,
  match lastIndexOf_from c s i found with
  | None => found = None /\ includesChar c s = false
  | Some j =>
      (i <= j /\ includesChar c (substringFrom (j - i + 1) s) = false)
      \/ (found = Some j /\ includesChar c s = false)
  end.
Proof.
  induction s as [|d r IH]; intros i found; simpl.
  - destruct found; [right|]; now split.
  - specialize (IH (S i) (if Ascii.eqb c d then Some i else found)).
    destruct (lastIndexOf_from c r (S i) _) as [j|].
    + destruct IH as [[Hle Hnone]|[Hfound Hnone]].
      * left. split; [lia|].
        replace (j - i + 1) with (S (j - S i + 1)) by lia. exact Hnone.
      * destruct (Ascii.eqb c d) eqn:E.
        -- injection Hfound as <-. left. split; [lia|].
           replace (i - i + 1) with 1 by lia. exact Hnone.
        -- right. simpl. now split.
    + destruct IH as [Hfound Hnone].
      destruct (Ascii.eqb c d); [discriminate|]. now split.
Qed.

Lemma lastIndexOf_some c s j :
  lastIndexOf c s = Some j -> includesChar c (substringFrom (j + 1) s) = false.
Proof.
  unfold lastIndexOf. intros H.
  pose proof (lastIndexOf_from_spec c s 0 None) as Hspec. rewrite H in Hspec.
  destruct Hspec as [[_ Hnone]|[Hfound _]]; [|discriminate].
  now rewrite Nat.sub_0_r in Hnone.
Qed.

Lemma lastIndexOf_none c s : lastIndexOf c s = None -> includesChar c s = false.
Proof.
  unfold lastIndexOf. intros H.
  pose proof (lastIndexOf_from_spec c s 0 None) as Hspec. rewrite H in Hspec.
  apply Hspec.
Qed.

Lemma extractCurrentWord_suffix line :
  exists pre, line = (pre ++ extractCurrentWord line)%string.
Proof.
  unfold extractCurrentWord. destruct (lastIndexOf dquote line) as [j|] eqn:E.
  - rewrite (lastIndexOf_some _ _ _ E).
    exists (substring0 (j + 1) line). now rewrite substring0_substringFrom.
  - apply trailingWord_suffix.
Qed.

Lemma substring_middle pre : forall word rest,
  String.substring (String.length pre) (String.length word) (pre ++ word ++ rest)
  = word.
Proof.
  induction pre as [|c pre IH]; intros word rest; simpl; [|apply IH].
  induction word as [|d word IHw]; simpl.
  - now destruct rest.
  - now rewrite IHw.
Qed.

End CurrentWordFacts.

(** X16.  The word in progress.  When the line up to the cursor holds a
    double quote, the word is everything behind the last one, whatever
    characters follow it: the branch for a closed quote is never taken,
    since nothing behind the last quote contains a quote.  Without a quote
    it is the longest run of word characters at the end.  In both cases the
    word is the end of the line up to the cursor and holds no quote. *)
Theorem extractCurrentWord_is_the_tail :
  forall line,
    (forall i,
       JSString.lastIndexOf JSString.dquote line = Some i ->
       ESCompletionProvider.extractCurrentWord line
       = JSString.substringFrom (i + 1) line)
    /\ (JSString.lastIndexOf JSString.dquote line = None ->
        ESCompletionProvider.extractCurrentWord line
        = ESCompletionProvider.trailingWord line)
    /\ JSString.includesChar JSString.dquote
         (ESCompletionProvider.extractCurrentWord line) = false
    /\ exists pre, line = (pre ++ ESCompletionProvider.extractCurrentWord line)%string.
Proof.
  intros line. split; [|split; [|split]].
  - intros i Hi. unfold ESCompletionProvider.extractCurrentWord.
    now rewrite Hi, (lastIndexOf_some _ _ _ Hi).
  - intros Hnone. unfold ESCompletionProvider.extractCurrentWord.
    now rewrite Hnone.
  - unfold ESCompletionProvider.extractCurrentWord.
    destruct (JSString.lastIndexOf JSString.dquote line) as [j|] eqn:E.
    + rewrite (lastIndexOf_some _ _ _ E). exact (lastIndexOf_some _ _ _ E).
    + apply trailingWord_no_quote.
  - apply extractCurrentWord_suffix.
Qed.

Lemma extractCurrentWord_is_the_tail_witness :
  let line := JSString.json "  'query': " in
  JSString.lastIndexOf JSString.dquote line = Some 8
  /\ ESCompletionProvider.extractCurrentWord line = ": ".
Proof.
  intros line. split; [reflexivity|].
  exact (proj1 (extractCurrentWord_is_the_tail line) 8 eq_refl).
Defined.

(** X17.  The range to replace is the word in progress.  For a cursor in a
    line, the range that [getWordRange] computes lies in that line, ends at
    the cursor, starts at column 1 or later, and the text of the line
    between its columns is the word that [extractCurrentWord] returns. *)
Theorem getWordRange_covers_the_word :
  forall lineContent position,
    1 <= ESCompletionProvider.column position <= String.length lineContent + 1 ->
    let line :=
      JSString.substring0 (ESCompletionProvider.column position - 1) lineContent in
    let word := ESCompletionProvider.extractCurrentWord line in
    let r := ESCompletionProvider.getWordRange line position in
    ESCompletionProvider.startLineNumber r = ESCompletionProvider.lineNumber position
    /\ ESCompletionProvider.endLineNumber r = ESCompletionProvider.lineNumber position
    /\ ESCompletionProvider.endColumn r = ESCompletionProvider.column position
    /\ 1 <= ESCompletionProvider.startColumn r
    /\ ESCompletionProvider.startColumn r + String.length word
       = ESCompletionProvider.endColumn r
    /\ String.substring (ESCompletionProvider.startColumn r - 1)
         (ESCompletionProvider.endColumn r - ESCompletionProvider.startColumn r)
         lineContent
       = word.
Proof.
  intros lineContent position Hcol line word r.
  destruct (extractCurrentWord_suffix line) as [pre Hpre]. fold word in Hpre.
  assert (Hline : String.length line = ESCompletionProvider.column position - 1).
  { pose proof (substring0_substringFrom
                  (ESCompletionProvider.column position - 1) lineContent) as Hsplit.
    fold line in Hsplit.
    unfold line. rewrite substring0_length; lia. }
  assert (Hlen : String.length pre + String.length word
                 = ESCompletionProvider.column position - 1)
    by (rewrite <- Hline, Hpre at 1; now rewrite append_length).
  subst r. unfold ESCompletionProvider.getWordRange. fold word. simpl.
  repeat split; try lia.
  replace (ESCompletionProvider.column position - String.length word - 1)
    with (String.length pre) by lia.
  replace (ESCompletionProvider.column position
           - (ESCompletionProvider.column position - String.length word))
    with (String.length word) by lia.
  pose proof (substring0_substringFrom
                (ESCompletionProvider.column position - 1) lineContent) as Hsplit.
  fold line in Hsplit. rewrite <- Hsplit, Hpre, append_assoc.
  apply substring_middle.
Qed.

Lemma getWordRange_covers_the_word_witness :
  let lineContent := JSString.json "  'que" in
  let position := ESCompletionProvider.mkPosition 3 7 in
  ESCompletionProvider.getWordRange lineContent position
  = ESCompletionProvider.mkRange 3 4 3 7
  /\ String.substring 3 3 lineContent = "que".
Proof.
  intros lineContent position.
  assert (Hcol : 1 <= ESCompletionProvider.column position
                 <= String.length lineContent + 1) by (simpl; lia).
  pose proof (getWordRange_covers_the_word lineContent position Hcol) as H.
  cbv zeta in H. destruct H as (_ & _ & _ & _ & _ & Hsub).
  split; [reflexivity | exact Hsub].
Defined.


Section FieldNameFacts.
Import JSString JSValue MappingParser ESCompletionProvider.
Variable numberToString : Q -> string.

Lemma printableRegistry_type (fields : Registry) name fi :
  printableRegistry fields = true -> In (name, fi) fields ->
  mentions "toString" (fi_type fi) = false.
Proof.
  unfold printableRegistry. rewrite forallb_forall. intros Hall Hin.
  specialize (Hall _ Hin). cbn [snd] in Hall. rewrite forallb_forall in Hall.
  assert (Htype : In (fi_type fi) (entryValues fi))
    by (destruct fi; now left).
  specialize (Hall _ Htype). now apply negb_true_iff in Hall.
Qed.

(** The field names are listed when the type of every entry converts to a
    string. *)
Lemma fieldNameSuggestions_total (entries : Registry) :
  (forall name fi, In (name, fi) entries ->
                   mentions "toString" (fi_type fi) = false) ->
  exists suggestions,
    fieldNameSuggestions numberToString entries = Normal suggestions.
Proof.
  induction entries as [|[name fi] rest IH]; intros Hall; [simpl; eauto|].
  cbn [fieldNameSuggestions].
  destruct (toStr_total numberToString (fi_type fi)) as [s ->];
    [apply (Hall name); now left|].
  destruct IH as [suggestions ->]; [|eauto].
  intros n f Hin. apply (Hall n). now right.
Qed.

Lemma insertIndexed_In n entry sorted x :
  In x (insertIndexed n entry sorted) -> x = (n, entry) \/ In x sorted.
Proof.
  induction sorted as [|[m other] rest IH]; simpl.
  - intros [<-|[]]. now left.
  - destruct (Nat.leb n m); simpl.
    + intros [<-|H]; auto.
    + intros [<-|H]; [auto|]. destruct (IH H); auto.
Qed.

Lemma indexedEntries_In (entries : Registry) x :
  In x (indexedEntries entries) -> In (snd x) entries.
Proof.
  induction entries as [|entry rest IH]; simpl; [auto|].
  destruct (arrayIndex (fst entry)) as [n|]; [|auto].
  intros H. apply insertIndexed_In in H as [->|H]; [now left | auto].
Qed.

(** The own properties of a registry are among its entries. *)
Lemma ownEntries_In (fields : Registry) entry :
  In entry (ownEntries fields) -> In entry fields.
Proof.
  unfold ownEntries. cbv zeta. intros H. apply in_app_or in H as [H|H].
  - apply in_map_iff in H as (x & <- & Hx).
    apply indexedEntries_In in Hx. now apply filter_In in Hx.
  - apply filter_In in H as [H _]. now apply filter_In in H.
Qed.

(** The one exception a conversion to a string raises. *)
Lemma toStr_throw v : forall e,
  toStr numberToString v = Throw e -> e = notPrimitive.
Proof.
  induction v using value_ind_nested; intros e; try (simpl; discriminate).
  - destruct b; discriminate.
  - rename H into IH. cbn [toStr].
    match goal with
    | |- match ?E with _ => _ end = _ -> _ =>
        assert (Heach : forall e', E = Throw e' -> e' = notPrimitive)
    end.
    { induction l as [|x l IHl]; [discriminate|].
      inversion IH as [|? ? Hx Hl]; subst. intros e'.
      assert (Hhead : forall e0,
                match x with
                | VUndefined | VNull => Normal EmptyString
                | _ => toStr numberToString x
                end = Throw e0 -> e0 = notPrimitive).
      { intros e0. destruct x; try discriminate; apply Hx. }
      destruct (match x with
                | VUndefined | VNull => Normal EmptyString
                | _ => toStr numberToString x
                end) as [sx|ex] eqn:Ex.
      - specialize (IHl Hl).
        match goal with
        | |- match ?R with _ => _ end = _ -> _ => destruct R as [ss|er] eqn:Er
        end; [discriminate|].
        intros [= <-]. now apply IHl.
      - intros [= <-]. now apply Hhead. }
    match goal with
    | |- match ?E with _ => _ end = _ -> _ => destruct E as [ss|e'] eqn:Ee
    end; [discriminate|].
    intros [= <-]. now apply Heach.
  - cbn [toStr]. destruct (hasOwn props "toString"); [|discriminate].
    now intros [= <-].
Qed.

(** Listing the field names raises exactly when the type of one of the
    entries does not convert to a string. *)
Lemma fieldNameSuggestions_throw (entries : Registry) : forall e,
  fieldNameSuggestions numberToString entries = Throw e <->
  e = notPrimitive
  /\ exists name fi,
       In (name, fi) entries
       /\ toStr numberToString (fi_type fi) = Throw notPrimitive.
Proof.
  induction entries as [|[name fi] rest IH]; intros e;
    cbn [fieldNameSuggestions].
  - split; [discriminate | intros (_ & n & f & [] & _)].
  - destruct (toStr numberToString (fi_type fi)) as [type|e0] eqn:Etype.
    + destruct (fieldNameSuggestions numberToString rest) as [l|e1] eqn:Erest.
      * split; [discriminate|]. intros (-> & n & f & [Heq|Hin] & Hthrow).
        -- injection Heq as <- <-. congruence.
        -- assert (Habs : Normal l = Throw notPrimitive).
           { apply (proj2 (IH notPrimitive)). split; [reflexivity|].
             now exists n, f. }
           discriminate Habs.
      * destruct (proj1 (IH e1) eq_refl) as (-> & n & f & Hin & H). split.
        -- intros [= <-]. split; [reflexivity|].
           exists n, f. split; [now right | exact H].
        -- intros (-> & _). reflexivity.
    + pose proof (toStr_throw _ _ Etype) as ->. split.
      * intros [= <-]. split; [reflexivity|]. exists name, fi.
        split; [now left | exact Etype].
      * intros (-> & _). reflexivity.
Qed.

(** The key suggestions raise exactly when they are the field names and
    listing these raises. *)
Lemma getKeySuggestions_throw fields ctx e :
  getKeySuggestions numberToString fields ctx = Throw e <->
  listsFieldNames ctx = true
  /\ fieldNameSuggestions numberToString (ownEntries fields) = Throw e.
Proof.
  unfold getKeySuggestions, listsFieldNames, getFieldNameSuggestions. cbv zeta.
  destruct (_ || _); [split; [discriminate | intros [H _]; discriminate H]|].
  destruct (_ && _); [split; [discriminate | intros [H _]; discriminate H]|].
  destruct (_ && _); [split; [discriminate | intros [H _]; discriminate H]|].
  destruct (String.eqb _ "bool_clause");
    [split; [discriminate | intros [H _]; discriminate H]|].
  destruct (DSLParser.queryType ctx);
    [|split; [discriminate | intros [H _]; discriminate H]].
  cbn [negb andb]. split; [auto | intros [_ H]; exact H].
Qed.

Lemma getKeySuggestions_total fields ctx :
  printableRegistry fields = true ->
  exists suggestions,
    getKeySuggestions numberToString fields ctx = Normal suggestions.
Proof.
  intros Hprint. unfold getKeySuggestions. cbv zeta.
  repeat match goal with
         | |- exists _, (if ?b then _ else _) = _ =>
             match type of b with
             | bool => destruct b; [eexists; reflexivity|]
             end
         end.
  destruct (DSLParser.queryType ctx); [|eexists; reflexivity].
  unfold getFieldNameSuggestions. apply fieldNameSuggestions_total.
  intros name fi Hin. apply (printableRegistry_type fields name); [exact Hprint|].
  now apply ownEntries_In.
Qed.

End FieldNameFacts.

(** X18.  Where a completion call raises.  A call raises exactly in two
    cases.  (a) The context resolved before the word in progress expects a
    value and a read of the field registry under its current key, a
    non-empty name, finds something truthy: a stored entry, or what the
    registry inherits under a name such as [constructor].
    [getValueSuggestions] then calls [getFieldValueSuggestions], which the
    class does not define, and nothing catches the TypeError.  (b) The
    context expects a key in a place where the names of the fields are
    suggested, and the type of one of the own entries of the registry does
    not convert to a string for the detail of its suggestion.  That does
    not happen for a registry none of whose values holds an object with a
    property [toString]: the key suggestions are then computed for every
    context. *)
Theorem value_completion_raises_on_mapped_key :
  forall numberToString JSON_parse fields text position,
    let word := ESCompletionProvider.currentWordAt text position in
    let offset :=
      ESCompletionProvider.getOffsetAt text position - String.length word in
    let before := JSString.substring0 offset text in
    let ctx :=
      DSLParser.analyzePath (DSLParser.findPath before offset) before offset in
    (forall e,
       ESCompletionProvider.provideCompletionItems numberToString JSON_parse
         fields text position = Throw e
       <-> ((e = TypeError "this.getFieldValueSuggestions is not a function"
             /\ DSLParser.expecting ctx = "value"
             /\ exists key m,
                  DSLParser.currentKey ctx = Some key
                  /\ key <> EmptyString
                  /\ MappingParser.read fields key = Some m)
            \/ (e = JSValue.notPrimitive
                /\ DSLParser.expecting ctx = "key"
                /\ listsFieldNames ctx = true
                /\ exists name fi,
                     In (name, fi) (MappingParser.ownEntries fields)
                     /\ JSValue.toStr numberToString (MappingParser.fi_type fi)
                        = Throw JSValue.notPrimitive)))
    /\ (printableRegistry fields = true ->
        forall context, exists suggestions,
          ESCompletionProvider.getKeySuggestions numberToString fields context
          = Normal suggestions).
Proof.
  intros numberToString JSON_parse fields text position word offset before ctx.
  split; [|intros Hprint context; now apply getKeySuggestions_total].
  intros e.
  unfold ESCompletionProvider.provideCompletionItems. cbv zeta.
  change (ESCompletionProvider.extractCurrentWord
            (JSString.substring0 (ESCompletionProvider.column position - 1)
               (ESCompletionProvider.getLineContent text
                  (ESCompletionProvider.lineNumber position))))
    with word.
  fold offset. fold before. rewrite getDSLContext_on_text. fold ctx.
  destruct (String.eqb (DSLParser.expecting ctx) "key") eqn:Ekey.
  - apply String.eqb_eq in Ekey.
    assert (Hkeys : forall e0,
              ESCompletionProvider.getKeySuggestions numberToString fields ctx
              = Throw e0
              <-> e0 = JSValue.notPrimitive
                  /\ listsFieldNames ctx = true
                  /\ exists name fi,
                       In (name, fi) (MappingParser.ownEntries fields)
                       /\ JSValue.toStr numberToString (MappingParser.fi_type fi)
                          = Throw JSValue.notPrimitive).
    { intros e0. rewrite getKeySuggestions_throw, fieldNameSuggestions_throw.
      tauto. }
    destruct (ESCompletionProvider.getKeySuggestions numberToString fields ctx)
      as [suggestions|e'] eqn:Hget.
    + split; [discriminate|].
      intros [(_ & Hval & _)|(He & _ & Hlists & Hentry)].
      * rewrite Hval in Ekey. discriminate Ekey.
      * assert (Hthrow : Normal suggestions = Throw e)
          by (apply Hkeys; auto).
        discriminate Hthrow.
    + split.
      * intros H. injection H as <-. right.
        destruct (proj1 (Hkeys e') eq_refl) as (He & Hlists & Hentry).
        auto.
      * intros [(_ & Hval & _)|(He & _ & Hlists & Hentry)].
        -- rewrite Hval in Ekey. discriminate Ekey.
        -- apply Hkeys. auto.
  - assert (Hnokey : DSLParser.expecting ctx <> "key")
      by (intros H; rewrite H in Ekey; discriminate Ekey).
    destruct (String.eqb (DSLParser.expecting ctx) "value") eqn:Eval.
    + apply String.eqb_eq in Eval.
      unfold ESCompletionProvider.getValueSuggestions. cbv zeta.
      destruct (DSLParser.currentKey ctx) as [key|].
      * destruct (String.eqb key EmptyString) eqn:Eempty; cbn [negb].
        -- apply String.eqb_eq in Eempty. split; [discriminate|].
           intros [(_ & _ & k & m & Hk & Hne & _)|(_ & Hkey & _)];
             [|contradiction].
           injection Hk as <-. contradiction.
        -- destruct (MappingParser.read fields key) as [m|] eqn:Hread.
           ++ split.
              ** intros H. injection H as <-. left. split; [reflexivity|].
                 split; [exact Eval|]. exists key, m.
                 split; [reflexivity|]. split; [|exact Hread].
                 intros ->. discriminate Eempty.
              ** intros [(-> & _)|(_ & Hkey & _)]; [reflexivity | contradiction].
           ++ split; [discriminate|].
              intros [(_ & _ & k & m & Hk & _ & Hl)|(_ & Hkey & _)];
                [|contradiction].
              injection Hk as <-. rewrite Hread in Hl. discriminate Hl.
      * split; [discriminate|].
        intros [(_ & _ & k & m & Hk & _)|(_ & Hkey & _)];
          [discriminate Hk | contradiction].
    + split; [discriminate|].
      intros [(_ & Hval & _)|(_ & Hkey & _)]; [|contradiction].
      rewrite Hval in Eval. discriminate Eval.
Qed.

Lemma value_completion_raises_on_mapped_key_witness :
  ESCompletionProvider.provideCompletionItems RefJSON.numberToString
    RefJSON.parse sampleRegistry ageValueText ageValueCursor
  = Throw (TypeError "this.getFieldValueSuggestions is not a function")
  /\ (printableRegistry sampleRegistry = true
      /\ exists suggestions,
           ESCompletionProvider.getKeySuggestions RefJSON.numberToString
             sampleRegistry DSLParser.getDefaultContext = Normal suggestions).
Proof.
  destruct (value_completion_raises_on_mapped_key RefJSON.numberToString
              RefJSON.parse sampleRegistry ageValueText ageValueCursor)
    as [Hiff Hkeys].
  split.
  - apply (proj2 (Hiff (TypeError
                          "this.getFieldValueSuggestions is not a function"))).
    left. split; [reflexivity|]. split; [reflexivity|].
    exists "age",
      (MappingParser.Entry
         (MappingParser.Field (JSValue.VStr "integer") JSValue.VUndefined
            JSValue.VUndefined JSValue.VUndefined JSValue.VUndefined
            false false [])).
    split; [reflexivity|]. split; [discriminate | reflexivity].
  - split; [reflexivity|]. exact (Hkeys eq_refl DSLParser.getDefaultContext).
Defined.


(** ** The completion provider: removing duplicates *)

Section DeduplicateFacts.
Import JSString ESCompletionProvider.

Lemma includes_iff l x : includes l x = true <-> In x l.
Proof.
  unfold includes. rewrite existsb_exists. split.
  - intros (y & Hin & Heq). apply String.eqb_eq in Heq. now subst.
  - intros Hin. exists x. split; [exact Hin | apply String.eqb_refl].
Qed.

Lemma deduplicate_from_keeps seen suggestions : forall l,
  In l (map label (deduplicate_from seen suggestions))
  <-> In l (map label suggestions) /\ ~ In l seen.
Proof.
  revert seen. induction suggestions as [|s rest IH]; intros seen l; simpl.
  - tauto.
  - destruct (includes seen (label s)) eqn:E.
    + apply includes_iff in E. rewrite IH. split.
      * intros [Hin Hnot]. tauto.
      * intros [[<-|Hin] Hnot]; [contradiction | tauto].
    + assert (Hnot : ~ In (label s) seen).
      { intros Hin. apply includes_iff in Hin. congruence. }
      simpl. rewrite IH. split.
      * intros [<-|[Hin Hns]]; [tauto|].
        split; [tauto|]. intros Hseen. apply Hns. apply in_or_app. now left.
      * intros [[<-|Hin] Hns]; [now left|].
        destruct (String.eqb (label s) l) eqn:El.
        -- apply String.eqb_eq in El. now left.
        -- right. split; [exact Hin|]. intros Happ.
           apply in_app_or in Happ as [Hseen|[Heq|[]]]; [contradiction|].
           subst l. rewrite String.eqb_refl in El. discriminate.
Qed.

Lemma deduplicate_from_id suggestions : forall seen,
  NoDup (map label suggestions) ->
  (forall l, In l (map label suggestions) -> ~ In l seen) ->
  deduplicate_from seen suggestions = suggestions.
Proof.
  induction suggestions as [|s rest IH]; intros seen Hnd Hdisj; simpl;
    [reflexivity|].
  simpl in Hnd. inversion Hnd as [|? ? Hnotin Hnd']; subst.
  destruct (includes seen (label s)) eqn:E.
  - apply includes_iff in E. exfalso. apply (Hdisj (label s)); [now left | exact E].
  - f_equal. apply IH; [exact Hnd'|].
    intros l Hin Happ. apply in_app_or in Happ as [Hseen|[Heq|[]]].
    + apply (Hdisj l); [now right | exact Hseen].
    + subst l. contradiction.
Qed.

End DeduplicateFacts.

(** X19.  [deduplicateSuggestions] loses no label.  The labels of its result
    are exactly the labels of its argument, and a list whose labels are
    pairwise different comes back unchanged. *)
Theorem deduplicateSuggestions_keeps_labels :
  forall suggestions,
    (forall l,
       In l (map ESCompletionProvider.label
               (ESCompletionProvider.deduplicateSuggestions suggestions))
       <-> In l (map ESCompletionProvider.label suggestions))
    /\ (NoDup (map ESCompletionProvider.label suggestions) ->
        ESCompletionProvider.deduplicateSuggestions suggestions = suggestions).
Proof.
  intros suggestions. split.
  - intros l. unfold ESCompletionProvider.deduplicateSuggestions.
    rewrite deduplicate_from_keeps. simpl. tauto.
  - intros Hnd. apply deduplicate_from_id; [exact Hnd | auto].
Qed.

Lemma deduplicateSuggestions_keeps_labels_witness :
  ESCompletionProvider.deduplicateSuggestions
    ESCompletionProvider.getQueryTypeSuggestions
  = ESCompletionProvider.getQueryTypeSuggestions.
Proof.
  apply (proj2 (deduplicateSuggestions_keeps_labels
                  ESCompletionProvider.getQueryTypeSuggestions)).
  vm_compute. repeat constructor; simpl; intuition discriminate.
Defined.


(** ** The context resolver: the scan *)

Section ScanFacts.
Import JSString DSLParser.

Lemma processChar_lookahead char st pos code pos' code' :
  nextIsColon code pos = nextIsColon code' pos' ->
  processChar char st pos code = processChar char st pos' code'.
Proof. intros H. unfold processChar. now rewrite H. Qed.

Lemma substringFrom_app pre : forall rest,
  substringFrom (String.length pre) (pre ++ rest) = rest.
Proof. induction pre as [|c pre IH]; intros rest; simpl; [now destruct rest | apply IH]. Qed.

Lemma charAt_app pre c rest :
  charAt (pre ++ String c rest) (String.length pre) = Some c.
Proof. unfold charAt. induction pre as [|d pre IH]; simpl; [reflexivity | exact IH]. Qed.

Lemma app_snoc_string pre c rest :
  (pre ++ String c rest)%string = ((pre ++ String c EmptyString) ++ rest)%string.
Proof. induction pre as [|d pre IH]; simpl; [reflexivity | now rewrite IH]. Qed.

Lemma scan_scanText rest : forall pre st,
  scan (pre ++ rest) (String.length pre) (String.length rest) st = scanText rest st.
Proof.
  induction rest as [|c r IH]; intros pre st; [reflexivity|].
  cbn [String.length scan scanText]. rewrite charAt_app.
  rewrite (processChar_lookahead (Some c) st (String.length pre)
             (pre ++ String c r) 0 (String c r)).
  - rewrite app_snoc_string.
    replace (S (String.length pre))
      with (String.length (pre ++ String c EmptyString))
      by (rewrite append_length; simpl; lia).
    apply IH.
  - unfold nextIsColon. rewrite app_snoc_string.
    replace (String.length pre + 1)
      with (String.length (pre ++ String c EmptyString))
      by (rewrite append_length; simpl; lia).
    rewrite substringFrom_app. reflexivity.
Qed.

Lemma findPath_scanText text :
  findPath text (String.length text) = s_path (scanText text initialState).
Proof. unfold findPath. exact (f_equal s_path (scan_scanText text EmptyString _)). Qed.

(** Inside a string literal the characters go to [currentKey]. *)
Lemma scanText_in_string s : forall rest p key e d,
  plain s = true ->
  scanText (s ++ rest) (mkState p true false key e d)
  = scanText rest (mkState p true false (appendKey key s) e d).
Proof.
  induction s as [|c s IH]; intros rest p key e d Hplain; [reflexivity|].
  simpl in Hplain. apply andb_prop in Hplain as [Hc Hs].
  unfold plainChar in Hc. apply andb_prop in Hc as [Hq Hb].
  apply negb_true_iff in Hq, Hb.
  cbn [append scanText]. unfold processChar at 1.
  cbn [s_escapeNext s_inString s_path s_currentKey s_expectingKey s_depth].
  rewrite Hb.
  assert (Hq' : isChar c QUOTE = false).
  { unfold isChar, QUOTE. destruct (String.eqb _ _) eqn:E; [|reflexivity].
    apply String.eqb_eq in E. injection E as ->.
    rewrite Ascii.eqb_refl in Hq. discriminate. }
  rewrite Hq'. rewrite IH by exact Hs. f_equal. f_equal.
  destruct s as [|c' s']; [reflexivity|].
  unfold appendKey. f_equal. rewrite append_assoc. reflexivity.
Qed.

(** Single steps of [processChar] outside and at the ends of string
    literals. *)
Lemma step_open_brace p k e d code :
  processChar (Some "{"%char) (mkState p false false k e d) 0 code
  = mkState p false false k true (d + 1)%Z.
Proof. reflexivity. Qed.

Lemma step_colon p k e d code :
  processChar (Some ":"%char) (mkState p false false k e d) 0 code
  = mkState p false false k false d.
Proof. reflexivity. Qed.

Lemma step_comma p k e d code :
  processChar (Some ","%char) (mkState p false false k e d) 0 code
  = mkState p false false k true d.
Proof. reflexivity. Qed.

Lemma step_quote_open p k e d code :
  processChar (Some dquote) (mkState p false false k e d) 0 code
  = mkState p true false k e d.
Proof. now destruct k. Qed.

Lemma step_quote_close_value p k d code :
  processChar (Some dquote) (mkState p true false k false d) 0 code
  = mkState p false false k false d.
Proof. now destruct k. Qed.

Lemma step_quote_close_key p key d rest :
  processChar (Some dquote) (mkState p true false (Some key) true d) 0
    (String dquote (String ":" rest))
  = mkState (p ++ [key]) false false None false d.
Proof. reflexivity. Qed.

Lemma appendKey_nonempty key s :
  s <> EmptyString ->
  appendKey key s
  = Some ((match key with Some k => k | None => EmptyString end) ++ s)%string.
Proof. destruct s; [congruence | reflexivity]. Qed.

End ScanFacts.

(** X20.  A string value runs into the next key.  Scan the text
    [{"a":"v","b":{] up to its end, for any non-empty keys [a] and [b] and
    any string value [v], all without quotes and backslashes.  The path
    found is [a] followed by [v] joined to [b]: the characters of the value
    stay in [currentKey] when its literal ends, so the next key is collected
    behind them, and the key [a] of the finished property is never removed.
    [getDSLContext] reports that path, with [v] joined to [b] as the current
    key and [a] as its parent, whatever the parser makes of the text. *)
Theorem string_value_runs_into_next_key :
  forall JSON_parse a v b,
    plain a = true -> plain v = true -> plain b = true ->
    a <> EmptyString -> b <> EmptyString ->
    let text := siblingText a v b in
    DSLParser.findPath text (String.length text) = [a; (v ++ b)%string]
    /\ exists ctx,
         DSLParser.getDSLContext JSON_parse (Some text) (String.length text)
         = Normal ctx
         /\ DSLParser.path ctx = keysOf [a; (v ++ b)%string]
         /\ DSLParser.currentKey ctx = lastKey (keysOf [a; (v ++ b)%string])
         /\ DSLParser.depth ctx = 2.
Proof.
  intros JSON_parse a v b Ha Hv Hb Hane Hbne text.
  assert (Hpath : DSLParser.findPath text (String.length text)
                  = [a; (v ++ b)%string]).
  { rewrite findPath_scanText. subst text.
    unfold siblingText, JSString.quoted, JSString.QUOTE.
    rewrite !append_assoc. cbn [append].
    cbn [scanText]. unfold DSLParser.initialState.
    rewrite step_open_brace, step_quote_open.
    rewrite scanText_in_string by exact Ha.
    rewrite (appendKey_nonempty None a Hane). cbn [append].
    cbn [scanText].
    rewrite step_quote_close_key, step_colon, step_quote_open.
    rewrite scanText_in_string by exact Hv.
    cbn [scanText].
    rewrite step_quote_close_value, step_comma, step_quote_open.
    rewrite scanText_in_string by exact Hb.
    rewrite (appendKey_nonempty _ b Hbne).
    cbn [scanText].
    rewrite step_quote_close_key, step_colon, step_open_brace.
    cbn [DSLParser.s_path app]. do 2 f_equal.
    destruct v; reflexivity. }
  split; [exact Hpath|].
  eexists. split; [apply getDSLContext_on_text|]. rewrite Hpath.
  pose proof (classify_spec [a; (v ++ b)%string] DSLParser.getDefaultContext)
    as (Hp & _ & _ & _ & Hc & _).
  unfold DSLParser.analyzePath. cbv zeta.
  cbn [DSLParser.path DSLParser.currentKey DSLParser.depth].
  rewrite Hp, Hc. repeat split; reflexivity.
Qed.

Lemma string_value_runs_into_next_key_witness :
  DSLParser.findPath (JSString.json "{'size':'x','query':{") 21
  = ["size"; "xquery"].
Proof.
  exact (proj1 (string_value_runs_into_next_key RefJSON.parse "size" "x" "query"
                  eq_refl eq_refl eq_refl
                  ltac:(discriminate) ltac:(discriminate))).
Defined.


(** ** The validator: paging values and the root *)

Section CommonFieldFacts.
Import JSString JSValue ESValidator.

Lemma isInteger_inject s : isInteger (VNum (inject_Z s)) = true.
Proof. simpl. rewrite Z.mod_1_r. reflexivity. Qed.

Lemma negative_inject s : negative (VNum (inject_Z s)) = Z.ltb s 0.
Proof. reflexivity. Qed.

Lemma Qle_bool_inject q s :
  Qeq q (inject_Z s) -> Qle_bool q (inject_Z 10000) = Z.leb s 10000.
Proof.
  intros Hq. apply Bool.eq_iff_eq_true.
  rewrite Qle_bool_iff, Z.leb_le, Hq, <- Zle_Qle. reflexivity.
Qed.

Lemma above10000_inject s : above10000 (VNum (inject_Z s)) = Z.ltb 10000 s.
Proof.
  unfold above10000. rewrite (Qle_bool_inject _ s) by reflexivity.
  now rewrite Z.ltb_antisym.
Qed.

Lemma above10000_plus f s :
  above10000 (plus (VNum (inject_Z f)) (VNum (inject_Z s)))
  = Z.ltb 10000 (f + s).
Proof.
  unfold plus, above10000. rewrite (Qle_bool_inject _ (f + s)).
  - now rewrite Z.ltb_antisym.
  - rewrite Qred_correct, inject_Z_plus. reflexivity.
Qed.

End CommonFieldFacts.

(** X21.  The findings about [size] and [from] when both are integers.  For
    a document whose [size] is the integer [s] and whose [from] is the
    integer [f], [validateCommonFields] reports, in this order: for [size] a
    warning when [s] is negative and otherwise the large-size info when [s]
    exceeds 10000; for [from] a warning when [f] is negative; and the
    deep-pagination info when [f + s] exceeds 10000.  So a valid [from]
    together with a [size] above 10000 always yields both infos.  Without
    [from] only the finding for [size] remains. *)
Theorem validateCommonFields_on_integers :
  forall query s,
    ESValidator.prop query "size" = JSValue.VNum (inject_Z s) ->
    let sizeFindings :=
      if Z.ltb s 0 then
        [ESValidator.plain ESValidator.Warning "size must be a non-negative integer"]
      else if Z.ltb 10000 s then [largeSize] else [] in
    (forall f,
       ESValidator.prop query "from" = JSValue.VNum (inject_Z f) ->
       pushes (ESValidator.validateCommonFields query)
         (sizeFindings
          ++ (if Z.ltb f 0 then
                [ESValidator.plain ESValidator.Warning
                   "from must be a non-negative integer"]
              else [])
          ++ (if Z.ltb 10000 (f + s) then [deepPagination] else [])))
    /\ (ESValidator.prop query "from" = JSValue.VUndefined ->
        pushes (ESValidator.validateCommonFields query) sizeFindings).
Proof.
  intros query s Hsize sizeFindings. subst sizeFindings. split.
  - intros f Hfrom errors. unfold ESValidator.validateCommonFields. cbv zeta.
    rewrite Hsize, Hfrom, above10000_plus, !isInteger_inject, !negative_inject,
      above10000_inject.
    cbn [JSValue.isUndefined negb orb andb].
    unfold ESValidator.bind, ESValidator.push, ESValidator.skip, ESValidator.ret.
    destruct (Z.ltb s 0), (Z.ltb 10000 s), (Z.ltb f 0), (Z.ltb 10000 (f + s));
      cbn [app]; rewrite <- ?app_assoc, ?app_nil_r; reflexivity.
  - intros Hfrom errors. unfold ESValidator.validateCommonFields. cbv zeta.
    rewrite Hsize, Hfrom, !isInteger_inject, !negative_inject, above10000_inject.
    cbn [JSValue.isUndefined JSValue.isInteger negb orb andb].
    unfold ESValidator.bind, ESValidator.push, ESValidator.skip, ESValidator.ret.
    destruct (Z.ltb s 0), (Z.ltb 10000 s);
      cbn [app]; rewrite <- ?app_assoc, ?app_nil_r; reflexivity.
Qed.

Lemma validateCommonFields_on_integers_witness :
  pushes
    (ESValidator.validateCommonFields
       (JSValue.VObj [("size", JSValue.VNum (inject_Z 50000));
                      ("from", JSValue.VNum (inject_Z 20))]))
    [largeSize; deepPagination].
Proof.
  exact (proj1 (validateCommonFields_on_integers
                  (JSValue.VObj [("size", JSValue.VNum (inject_Z 50000));
                                 ("from", JSValue.VNum (inject_Z 20))])
                  50000%Z eq_refl) 20%Z eq_refl).
Defined.

(** X22.  A root that is no object.  When the text parses to a number, a
    string or a boolean, [validate] returns the one finding about the root.
    When it parses to [null] it returns two: the finding about the root,
    and, since reading [query] of [null] raises inside the [try] block, a
    finding that calls the valid text a JSON syntax error, at line 1,
    column 1. *)
Theorem validate_root_not_an_object :
  forall numberToString fields JSON_parse text v,
    JSON_parse text = Normal v ->
    JSValue.notAnObject v = true ->
    v <> JSValue.VUndefined ->
    (v <> JSValue.VNull ->
     ESValidator.validate numberToString fields JSON_parse text = [rootFinding])
    /\ (v = JSValue.VNull ->
        ESValidator.validate numberToString fields JSON_parse text
        = [rootFinding;
           ESValidator.mkFinding ESValidator.Error
             "JSON syntax error: Cannot read properties of null (reading 'query')"
             None (Some 1) (Some 1) (Some 1) (Some 2)]).
Proof.
  intros numberToString fields JSON_parse text v Hparse Hroot Hdef.
  unfold ESValidator.validate, ESValidator.validateBody, ESValidator.bind,
    ESValidator.lift.
  rewrite Hparse. unfold ESValidator.validateTopLevel. rewrite Hroot.
  split.
  - intros Hnull.
    destruct v as [| |b|q|s|l|props]; try discriminate Hroot;
      try congruence; reflexivity.
  - intros ->. unfold ESValidator.push. cbn [JSValue.get].
    unfold ESValidator.syntaxFinding, ESValidator.getErrorPosition.
    cbn [exn_message].
    change (ESValidator.reportedPosition _) with 0.
    unfold JSString.substring0.
    assert (Hsub : String.substring 0 0 text = EmptyString)
      by (destruct text; reflexivity).
    rewrite Hsub. reflexivity.
Qed.

Lemma validate_root_not_an_object_witness :
  ESValidator.validate RefJSON.numberToString [] RefJSON.parse "null"
  = [rootFinding;
     ESValidator.mkFinding ESValidator.Error
       "JSON syntax error: Cannot read properties of null (reading 'query')"
       None (Some 1) (Some 1) (Some 1) (Some 2)].
Proof.
  exact (proj2 (validate_root_not_an_object RefJSON.numberToString []
                  RefJSON.parse "null" JSValue.VNull eq_refl eq_refl
                  ltac:(discriminate)) eq_refl).
Defined.


(** ** The context resolver: keys of finished properties *)

Section SiblingFacts.
Import JSString DSLParser.

Lemma step_digit p k e d code :
  processChar (Some "1"%char) (mkState p false false k e d) 0 code
  = mkState p false false k e d.
Proof. reflexivity. Qed.

Lemma scanText_numberEntry key rest p d :
  plain key = true -> key <> EmptyString ->
  scanText (numberEntry key ++ rest) (mkState p false false None true d)
  = scanText rest (mkState (p ++ [key]) false false None true d).
Proof.
  intros Hplain Hne. unfold numberEntry, quoted, QUOTE.
  rewrite !append_assoc. cbn [append]. cbn [scanText].
  rewrite step_quote_open, scanText_in_string by exact Hplain.
  rewrite (appendKey_nonempty None key Hne). cbn [append]. cbn [scanText].
  rewrite step_quote_close_key, step_colon, step_digit, step_comma.
  reflexivity.
Qed.

Lemma scanText_numberEntries keys : forall rest p d,
  Forall (fun k => plain k = true /\ k <> EmptyString) keys ->
  scanText (numberEntries keys ++ rest) (mkState p false false None true d)
  = scanText rest (mkState (p ++ keys) false false None true d).
Proof.
  induction keys as [|key keys IH]; intros rest p d Hall.
  - simpl. now rewrite app_nil_r.
  - inversion Hall as [|? ? [Hplain Hne] Hrest]; subst.
    cbn [numberEntries]. rewrite append_assoc.
    rewrite scanText_numberEntry by assumption.
    rewrite IH by exact Hrest. now rewrite <- app_assoc.
Qed.

Lemma findPath_objectText keys b :
  Forall (fun k => plain k = true /\ k <> EmptyString) (keys ++ [b]) ->
  findPath (objectText keys b) (String.length (objectText keys b)) = keys ++ [b].
Proof.
  intros Hall. apply Forall_app in Hall as [Hkeys Hb].
  inversion Hb as [|? ? [Hplain Hne] _]; subst.
  rewrite findPath_scanText.
  unfold objectText, quoted, QUOTE.
  cbn [append]. cbn [scanText]. unfold initialState.
  rewrite step_open_brace.
  rewrite scanText_numberEntries by exact Hkeys.
  rewrite !append_assoc. cbn [append]. cbn [scanText].
  rewrite step_quote_open, scanText_in_string by exact Hplain.
  rewrite (appendKey_nonempty None b Hne). cbn [append]. cbn [scanText].
  rewrite step_quote_close_key, step_colon, step_open_brace.
  reflexivity.
Qed.

End SiblingFacts.

(** X23.  The keys of finished properties stay in the path.  Scan the text
    [{"k1":1,...,"kn":1,"b":{] up to its end, for non-empty keys without
    quotes and backslashes.  The path found lists every key [k1] to [kn]
    before [b]: a key is removed from the path only by a closing brace, so
    the key of a property with a number as value is never removed.  Hence
    the depth of the context of a key grows with the number of properties
    before it in the same object. *)
Theorem finished_keys_stay_in_the_path :
  forall keys b,
    Forall (fun k => plain k = true /\ k <> EmptyString) (keys ++ [b]) ->
    let text := objectText keys b in
    DSLParser.findPath text (String.length text) = keys ++ [b]
    /\ DSLParser.depth
         (DSLParser.analyzePath (DSLParser.findPath text (String.length text))
            text (String.length text))
       = S (length keys).
Proof.
  intros keys b Hall text.
  assert (Hpath : DSLParser.findPath text (String.length text) = keys ++ [b])
    by (now apply findPath_objectText).
  split; [exact Hpath|].
  rewrite Hpath. unfold DSLParser.analyzePath. cbv zeta.
  cbn [DSLParser.depth]. rewrite length_app. simpl. lia.
Qed.

Lemma finished_keys_stay_in_the_path_witness :
  DSLParser.findPath (JSString.json "{'size':1,'from':1,'query':{") 28
  = ["size"; "from"; "query"].
Proof.
  assert (Hall : Forall (fun k => plain k = true /\ k <> EmptyString)
                        (["size"; "from"] ++ ["query"]))
    by (repeat constructor; discriminate).
  exact (proj1 (finished_keys_stay_in_the_path ["size"; "from"] "query" Hall)).
Defined.

(** X24.  [clearCache] does not cancel the debounce timer.  Take a state the
    service reaches with the timer armed, no call suspended and no request
    in flight.  Directly after [clearCache] the statistics are zero and the
    cache and the pending map are empty; but the timer still fires, the
    request it was armed for is sent, and when it is answered with a body
    that [parse] accepts the cleared cache holds that registry again and
    [fetchCount] is 1 beside zero misses. *)
Theorem clearCache_keeps_the_timer :
  forall es w args data fields,
    ESMappingService.run ESMappingService.init es = Some w ->
    ESMappingService.awaiting w = [] ->
    ESMappingService.inFlight w = [] ->
    ESMappingService.timeout (ESMappingService.service w) = Some args ->
    MappingParser.parse data = Normal fields ->
    ESMappingService.getStats (ESMappingService.service (cleared w))
    = (ESMappingService.mkStats 0 0 0, 0, 0)
    /\ exists w',
         ESMappingService.run (cleared w)
           [ESMappingService.TimerFires;
            ESMappingService.Response 0 (ESMappingService.Body data)]
         = Some w'
         /\ ESMappingService.sent w'
            = ESMappingService.sent w
              ++ [mappingUrl (ESMappingService.elasticsearchUrl args)
                    (ESMappingService.indexName args)]
         /\ LRUCache.cache (ESMappingService.cache (ESMappingService.service w'))
            = [(ESMappingService.cacheKey args,
                ESMappingService.RObject (ESMappingService.nextRef w) fields)]
         /\ ESMappingService.stats (ESMappingService.service w')
            = ESMappingService.mkStats 0 0 1.
Proof.
  intros es w args data fields Hrun Haw Hfl Htm Hparse.
  split; [reflexivity|].
  unfold ESMappingService.run, ESMappingService.step. simpl.
  rewrite Haw, Htm, Hfl. simpl. rewrite Hparse.
  eexists. split; [reflexivity|]. simpl.
  split; [reflexivity|]. split; [|reflexivity].
  unfold LRUCache.set. simpl.
  destruct (Nat.leb _ 0); reflexivity.
Qed.

Lemma clearCache_keeps_the_timer_witness :
  let w :=
    match ESMappingService.run ESMappingService.init
            [ESMappingService.Call 1 sampleUrl sampleIndex [];
             ESMappingService.Resume] with
    | Some w => w
    | None => ESMappingService.init
    end in
  exists w',
    ESMappingService.run (cleared w)
      [ESMappingService.TimerFires;
       ESMappingService.Response 0 (ESMappingService.Body sampleMapping)]
    = Some w'
    /\ LRUCache.cache (ESMappingService.cache (ESMappingService.service w'))
       = [("http://es:9200#logs", ESMappingService.RObject 0 sampleRegistry)]
    /\ ESMappingService.stats (ESMappingService.service w')
       = ESMappingService.mkStats 0 0 1.
Proof.
  intros w.
  destruct (clearCache_keeps_the_timer
              [ESMappingService.Call 1 sampleUrl sampleIndex [];
               ESMappingService.Resume]
              w
              (ESMappingService.mkArgs sampleUrl sampleIndex []
                 (ESMappingService.makeKey sampleUrl sampleIndex))
              sampleMapping sampleRegistry
              eq_refl eq_refl eq_refl eq_refl eq_refl)
    as (_ & w' & Hrun & _ & Hcache & Hstats).
  exists w'. split; [exact Hrun|]. split; [exact Hcache | exact Hstats].
Defined.


(** ** The validator: an array in the place of an object *)

Section ArrayFacts.
Import JSString JSValue MappingParser ESValidator.

Lemma string_of_uint_digits u :
  allDigits (NilEmpty.string_of_uint u) = true.
Proof. induction u; simpl; try reflexivity; exact IHu. Qed.

(** The decimal name of an array index: the test [/^\d+$/] accepts it. *)
Lemma ofNat_isIndexLike n : isIndexLike (ofNat n) = true.
Proof.
  unfold ofNat, isIndexLike.
  pose proof (string_of_uint_digits (Nat.to_uint n)) as H.
  destruct (Nat.to_uint n); simpl in *; try reflexivity; exact H.
Qed.

Lemma forIndexed_skipped body l : forall i,
  (forall n v, body (ofNat n) v = skip) ->
  pushes (forIndexed body i l) [].
Proof.
  induction l as [|v l IH]; intros i Hbody; simpl.
  - apply pushes_skip.
  - rewrite Hbody. apply (pushes_seq skip _ [] []); [apply pushes_skip | now apply IH].
Qed.

Lemma validateBoolQuery_array rec l path :
  pushes (validateBoolQuery rec (VArr l) path) [].
Proof.
  unfold validateBoolQuery. simpl. apply forIndexed_skipped.
  intros n v. now rewrite ofNat_isIndexLike.
Qed.

Lemma validateAggregations_array numberToString fields l path :
  pushes (validateAggregations numberToString fields (VArr l) path) [].
Proof.
  simpl. apply forIndexed_skipped.
  intros n v. unfold validateAggregation. now rewrite ofNat_isIndexLike.
Qed.

End ArrayFacts.

(** X25.  An array where clauses or aggregations are expected is accepted
    without a word.  The loops of [validateBoolQuery] and of
    [validateAggregations] skip every key made of digits, and the keys of an
    array are its indices: whatever the array holds, nothing is reported.
    So [validate] returns no finding for a document whose [aggs] is any
    array, nor for one whose query is a [bool] that is any array. *)
Theorem arrays_are_accepted_silently :
  forall numberToString fields JSON_parse text l,
    (JSON_parse text
     = Normal (JSValue.VObj [("aggs", JSValue.VArr l)]) ->
     ESValidator.validate numberToString fields JSON_parse text = [])
    /\ (JSON_parse text
        = Normal (JSValue.VObj
                    [("query", JSValue.VObj [("bool", JSValue.VArr l)])]) ->
        ESValidator.validate numberToString fields JSON_parse text = []).
Proof.
  intros numberToString fields JSON_parse text l. split; intros Hparse.
  - unfold ESValidator.validate, ESValidator.validateBody.
    unfold ESValidator.bind at 1, ESValidator.lift at 1. rewrite Hparse.
    unfold ESValidator.bind at 1. cbn [ESValidator.validateTopLevel].
    unfold ESValidator.validateTopLevel, ESValidator.bind, ESValidator.lift.
    cbn -[ESValidator.validateAggregations].
    now rewrite (validateAggregations_array numberToString fields l
                   [ESValidator.PKey "aggs"] []).
  - unfold ESValidator.validate, ESValidator.validateBody.
    unfold ESValidator.validateTopLevel, ESValidator.bind, ESValidator.lift.
    rewrite Hparse.
    cbn -[ESValidator.validateBoolQuery].
    unfold ESValidator.bind.
    now rewrite (validateBoolQuery_array
                   (ESValidator.validateQuery numberToString fields) l
                   [ESValidator.PKey "query"; ESValidator.PKey "bool"] []).
Qed.

Lemma arrays_are_accepted_silently_witness :
  RefJSON.parse (JSString.json "{'aggs':[1,'x']}")
  = Normal (JSValue.VObj
              [("aggs", JSValue.VArr [JSValue.VNum (inject_Z 1);
                                      JSValue.VStr "x"])])
  /\ ESValidator.validate RefJSON.numberToString [] RefJSON.parse
       (JSString.json "{'aggs':[1,'x']}") = [].
Proof.
  split; [reflexivity|].
  exact (proj1 (arrays_are_accepted_silently RefJSON.numberToString []
                  RefJSON.parse (JSString.json "{'aggs':[1,'x']}")
                  [JSValue.VNum (inject_Z 1); JSValue.VStr "x"]) eq_refl).
Defined.


(** ** The completion provider: keys inside [query] *)

Section QueryKeyFacts.
Import JSString DSLParser.

Lemma classify_app items1 : forall items2 ctx,
  classify (items1 ++ items2) ctx = classify items2 (classify items1 ctx).
Proof.
  induction items1 as [|item items1 IH]; intros items2 ctx; [reflexivity|].
  change ((item :: items1) ++ items2) with (item :: (items1 ++ items2)).
  cbn [classify]. destruct (String.eqb item "[]"); apply IH.
Qed.

(** Keys that are no query types leave [queryType] as it is. *)
Lemma classify_queryType items : forall ctx,
  Forall (fun k => isValidQueryType k = false) items ->
  queryType (classify items ctx) = queryType ctx.
Proof.
  induction items as [|item items IH]; intros ctx Hall; [reflexivity|].
  inversion Hall as [|? ? Hitem Hrest]; subst.
  cbn [classify]. destruct (String.eqb item "[]"); [now rewrite IH|].
  rewrite IH by exact Hrest. rewrite Hitem.
  repeat match goal with
         | |- context [if ?b then _ else _] =>
             match type of b with bool => destruct b end
         end; reflexivity.
Qed.

Lemma classify_query ctx :
  location (classify ["query"] ctx) = "query"
  /\ queryType (classify ["query"] ctx) = queryType ctx.
Proof. split; reflexivity. Qed.

Lemma keysOf_all items :
  Forall (fun k => isMarker k = false) items -> keysOf items = items.
Proof.
  induction 1 as [|k items Hk _ IH]; [reflexivity|].
  unfold keysOf in *. simpl. rewrite Hk. simpl. now rewrite IH.
Qed.

End QueryKeyFacts.

(** X26.  Query types are suggested in [query] only when it comes first.
    Take the context at the end of [{"k1":1,...,"kn":1,"query":{], for keys
    that are no query types.  With no property before [query] the key
    suggestions are the query types.  With one or more properties before it
    there is no key suggestion at all: their keys are still in the path, so
    the path is longer than the one element the provider looks for. *)
Theorem query_types_only_for_first_property :
  forall numberToString JSON_parse fields keys,
    Forall (fun k => plain k = true /\ k <> EmptyString) keys ->
    Forall (fun k => isMarker k = false) keys ->
    Forall (fun k => DSLParser.isValidQueryType k = false) keys ->
    let text := objectText keys "query" in
    exists ctx,
      DSLParser.getDSLContext JSON_parse (Some text) (String.length text)
      = Normal ctx
      /\ ESCompletionProvider.getKeySuggestions numberToString fields ctx
         = Normal match keys with
                  | [] => ESCompletionProvider.getQueryTypeSuggestions
                  | _ :: _ => []
                  end.
Proof.
  intros numberToString JSON_parse fields keys Hplain Hmarker Htype text.
  eexists. split; [apply getDSLContext_on_text|].
  assert (Hpath : DSLParser.findPath text (String.length text)
                  = keys ++ ["query"]).
  { apply findPath_objectText. apply Forall_app. split; [exact Hplain|].
    repeat constructor. discriminate. }
  rewrite Hpath.
  pose proof (classify_spec (keys ++ ["query"]) DSLParser.getDefaultContext)
    as (Hp & _).
  rewrite keysOf_all in Hp
    by (apply Forall_app; split; [exact Hmarker | repeat constructor]).
  pose proof (classify_app keys ["query"] DSLParser.getDefaultContext) as Happ.
  destruct (classify_query (DSLParser.classify keys DSLParser.getDefaultContext))
    as [Hloc Hqt].
  rewrite <- Happ in Hloc, Hqt.
  rewrite (classify_queryType keys _ Htype) in Hqt.
  unfold ESCompletionProvider.getKeySuggestions, DSLParser.analyzePath.
  cbv zeta.
  cbn [DSLParser.path DSLParser.location DSLParser.depth DSLParser.queryType].
  rewrite Hp, Hloc, Hqt. simpl DSLParser.path. simpl DSLParser.queryType.
  rewrite !length_app. cbn [length app].
  destruct keys as [|k keys']; [reflexivity|].
  cbn [length]. rewrite !Nat.add_1_r. reflexivity.
Qed.

Lemma query_types_only_for_first_property_witness :
  exists ctx,
    DSLParser.getDSLContext RefJSON.parse
      (Some (JSString.json "{'size':1,'query':{")) 19 = Normal ctx
    /\ ESCompletionProvider.getKeySuggestions RefJSON.numberToString [] ctx
       = Normal [].
Proof.
  assert (H1 : Forall (fun k => plain k = true /\ k <> EmptyString) ["size"])
    by (repeat constructor; discriminate).
  assert (H2 : Forall (fun k => isMarker k = false) ["size"])
    by (repeat constructor).
  assert (H3 : Forall (fun k => DSLParser.isValidQueryType k = false) ["size"])
    by (repeat constructor).
  exact (query_types_only_for_first_property RefJSON.numberToString
           RefJSON.parse [] ["size"] H1 H2 H3).
Defined.


(** ** The validator: where it can raise *)

Section ReturnFacts.
Import JSString JSValue MappingParser ESValidator.

Lemma returns_ret {A : Type} (a : A) : returns (ret a).
Proof. intros errors. eexists. eexists. reflexivity. Qed.

Lemma returns_skip : returns skip.
Proof. apply returns_ret. Qed.

Lemma returns_push f : returns (push f).
Proof. intros errors. eexists. eexists. reflexivity. Qed.

Lemma returns_bind {A B : Type} (m : M A) (k : A -> M B) :
  returns m -> (forall a, returns (k a)) -> returns (bind m k).
Proof.
  intros Hm Hk errors. unfold bind.
  destruct (Hm errors) as (a & errors1 & ->). apply Hk.
Qed.

Lemma returns_forEntries body ps :
  (forall k v, In (k, v) ps -> returns (body k v)) ->
  returns (forEntries body ps).
Proof.
  induction ps as [|[k v] ps IH]; intros Hall; simpl.
  - apply returns_skip.
  - apply returns_bind; [apply Hall; now left|].
    intros _. apply IH. intros k' v' Hin. apply Hall. now right.
Qed.

Lemma returns_forIndexed body l : forall i,
  (forall n v, In v l -> returns (body (ofNat n) v)) ->
  returns (forIndexed body i l).
Proof.
  induction l as [|v l IH]; intros i Hall; simpl.
  - apply returns_skip.
  - apply returns_bind; [apply Hall; now left|].
    intros _. apply IH. intros n v' Hin. apply Hall. now right.
Qed.

Lemma returns_forIn_any body v :
  (forall k x, returns (body k x)) -> returns (forIn body v).
Proof.
  intros Hall. destruct v; simpl; try apply returns_skip.
  - apply returns_forIndexed. auto.
  - apply returns_forEntries. auto.
Qed.

Lemma returns_forEach body l :
  (forall x n, In x l -> returns (body x n)) -> returns (forEach body l).
Proof.
  unfold forEach. generalize 0.
  induction l as [|v l IH]; intros i Hall; simpl.
  - apply returns_skip.
  - apply returns_bind; [apply Hall; now left|].
    intros _. apply IH. intros x n Hin. apply Hall. now right.
Qed.

Lemma returns_forOf body l :
  (forall x, returns (body x)) -> returns (forOf body l).
Proof.
  intros Hall. induction l as [|x l IH]; simpl.
  - apply returns_skip.
  - apply returns_bind; [apply Hall | intros _; exact IH].
Qed.

Lemma returns_withProp key (f : value -> M unit) d props :
  (forall v, In (key, v) props -> returns (f v)) ->
  returns d ->
  returns (ESValidator.withProp key f d props).
Proof.
  intros Hf Hd. induction props as [|[k v] props IH]; simpl; [exact Hd|].
  destruct (String.eqb k key) eqn:E.
  - apply String.eqb_eq in E. subst k. apply Hf. now left.
  - apply IH. intros x Hin. apply Hf. now right.
Qed.

Lemma pushes_returns m a : pushes m a -> returns m.
Proof. intros H errors. rewrite H. eexists. eexists. reflexivity. Qed.

End ReturnFacts.

Ltac returns_step :=
  lazymatch goal with
  | |- returns (ESValidator.bind _ _) => apply returns_bind; [|intros]
  | |- returns (ESValidator.push _) => apply returns_push
  | |- returns ESValidator.skip => apply returns_skip
  | |- returns (ESValidator.ret _) => apply returns_ret
  | |- returns (ESValidator.forOf _ _) => apply returns_forOf; intros
  | |- returns (ESValidator.forIn _ _) => apply returns_forIn_any; intros
  | |- returns (match ?x with _ => _ end) => destruct x
  end.

Ltac returns_all := cbv zeta; repeat returns_step.

Section ValidatorReturns.
Import JSString JSValue MappingParser ESValidator.
Variable numberToString : Q -> string.
Variable fields : Registry.

Lemma returns_forIn body v :
  (forall k x, child x v -> returns (body k x)) -> returns (forIn body v).
Proof.
  intros Hall. destruct v; simpl; try apply returns_skip.
  - apply returns_forIndexed. intros n x Hin. apply Hall. now constructor.
  - apply returns_forEntries. intros k x Hin. apply Hall.
    econstructor. exact Hin.
Qed.

(** The conversion of a value that holds no object with a property
    [toString] returns. *)
Lemma returns_str {A : Type} v (k : string -> M A) :
  mentions "toString" v = false ->
  (forall s, returns (k s)) -> returns (bind (str numberToString v) k).
Proof.
  intros Hno Hk errors. unfold bind, str, lift.
  destruct (toStr_total numberToString v Hno) as [s ->]. apply Hk.
Qed.

Lemma mentions_strings key l : mentions key (VArr (map VStr l)) = false.
Proof. simpl. induction l as [|s l IH]; simpl; [reflexivity | exact IH]. Qed.

Lemma entryProp_printable fi key v :
  forallb (fun x => negb (mentions "toString" x)) (entryValues fi) = true ->
  entryProp fi key = Some v -> mentions "toString" v = false.
Proof.
  intros Hall Hprop. rewrite forallb_forall in Hall.
  assert (Hval : forall x, In x (entryValues fi) ->
                           mentions "toString" x = false).
  { intros x Hx. apply negb_true_iff. now apply Hall. }
  destruct fi; cbn [entryProp entryValues] in *;
    repeat match type of Hprop with
           | (if ?b then _ else _) = _ => destruct b
           end;
    try discriminate Hprop; injection Hprop as <-;
    try reflexivity; try apply mentions_strings;
    apply Hval; simpl; auto 6.
Qed.

Lemma lookup_In (registry : Registry) name fi :
  lookup registry name = Some fi -> In (name, fi) registry.
Proof.
  induction registry as [|[k f] r IH]; simpl; [discriminate|].
  destruct (String.eqb_spec k name) as [->|].
  - intros [= ->]. now left.
  - intros H. right. now apply IH.
Qed.

(** Whatever a read of a printable registry finds, its type converts to a
    string. *)
Lemma read_printable name m :
  printableRegistry fields = true -> read fields name = Some m ->
  mentions "toString" (member_type m) = false.
Proof.
  intros Hprint Hread. unfold read in Hread.
  destruct (index fields name) as [m'|] eqn:Hindex; [|discriminate].
  destruct (truthyMember m'); [|discriminate]. injection Hread as ->.
  unfold index in Hindex.
  destruct (lookup fields name) as [fi|] eqn:Hname.
  - injection Hindex as <-. cbn [member_type].
    eapply printableRegistry_type; [exact Hprint|].
    eapply lookup_In. exact Hname.
  - destruct (lookup fields "__proto__") as [proto|] eqn:Hproto.
    + destruct (entryProp proto name) as [v|] eqn:Hprop.
      * injection Hindex as <-. cbn [member_type].
        change (slotProp v "type") with (prop v "type").
        apply mentions_prop. eapply entryProp_printable; [|exact Hprop].
        unfold printableRegistry in Hprint. rewrite forallb_forall in Hprint.
        exact (Hprint _ (lookup_In _ _ _ Hproto)).
      * destruct (includes objectPrototypeNames name); [|discriminate].
        now injection Hindex as <-.
    + destruct (includes objectPrototypeNames name); [|discriminate].
      now injection Hindex as <-.
Qed.

Lemma validateTopLevel_returns query : returns (validateTopLevel query).
Proof. unfold validateTopLevel. returns_all. Qed.

Lemma validateMatchOptions_returns options path :
  mentions "toString" options = false ->
  returns (validateMatchOptions numberToString options path).
Proof.
  intros Hno. unfold validateMatchOptions.
  apply returns_forIn. intros option optionValue Hchild.
  apply returns_bind;
    [destruct (negb _); [apply returns_push | apply returns_skip]|].
  intros _. destruct (_ && _); [|apply returns_skip].
  apply returns_str; [eapply mentions_child; eassumption|].
  intros got. apply returns_push.
Qed.

Lemma validateMatchQuery_returns matchQuery path :
  mentions "toString" matchQuery = false ->
  returns (validateMatchQuery numberToString fields matchQuery path).
Proof.
  intros Hno. unfold validateMatchQuery.
  destruct (notAnObject matchQuery); [apply returns_push|].
  destruct (Nat.eqb _ 0); [apply returns_push|].
  apply returns_forIn. intros fieldName fieldValue Hchild.
  apply returns_bind;
    [destruct (unmapped _ _); [apply returns_push | apply returns_skip]|].
  intros _. destruct (_ && _); [|apply returns_skip].
  apply validateMatchOptions_returns. eapply mentions_child; eassumption.
Qed.

Lemma validateTermQuery_returns termQuery path :
  returns (validateTermQuery fields termQuery path).
Proof. unfold validateTermQuery. returns_all. Qed.

Lemma validateRangeQuery_returns rangeQuery path :
  printableRegistry fields = true ->
  returns (validateRangeQuery numberToString fields rangeQuery path).
Proof.
  intros Hprint. unfold validateRangeQuery.
  destruct (notAnObject rangeQuery); [apply returns_push|].
  destruct (ownKeys rangeQuery) as [|fieldName [|? ?]]; try apply returns_push.
  cbv zeta. destruct (_ || _); [apply returns_push|].
  destruct (Nat.eqb _ 0); [apply returns_push|].
  apply returns_bind.
  { apply returns_forOf. intros op.
    destruct (negb _); [apply returns_push | apply returns_skip]. }
  intros _. destruct (read fields fieldName) as [m|] eqn:Hread;
    [|apply returns_skip].
  destruct (negb _); [|apply returns_skip].
  apply returns_str; [eapply read_printable; eassumption|].
  intros got. apply returns_push.
Qed.

Lemma validateExistsQuery_returns existsQuery path :
  returns (validateExistsQuery fields existsQuery path).
Proof. unfold validateExistsQuery. returns_all. Qed.

Lemma validateCommonFields_returns query : returns (validateCommonFields query).
Proof. unfold validateCommonFields. returns_all. Qed.

Lemma isIndexLike_not_queryType s :
  isIndexLike s = true -> isValidQueryType s = false.
Proof.
  intros Hidx. destruct (isValidQueryType s) eqn:E; [|reflexivity].
  unfold isValidQueryType in E. apply includes_iff in E.
  assert (Hall : forallb (fun t => negb (isIndexLike t)) validQueryTypes = true)
    by reflexivity.
  rewrite forallb_forall in Hall. specialize (Hall s E).
  rewrite Hidx in Hall. discriminate Hall.
Qed.

Lemma validateBoolQuery_returns rec boolQuery path :
  (forall y p, descendant y boolQuery -> returns (rec y p)) ->
  returns (validateBoolQuery rec boolQuery path).
Proof.
  intros Hrec. unfold validateBoolQuery.
  destruct (notAnObject boolQuery); [apply returns_push|].
  assert (Hbody : forall clause clauseValue,
            child clauseValue boolQuery ->
            returns
              (if isIndexLike clause then skip
               else if negb (includes validBoolClauses clause) then
                 push (located Error
                         ("Unknown bool clause: " ++ quoted clause
                          ++ ". Valid clauses are: " ++ join ", " validBoolClauses)
                         (path ++ [PKey clause]))
               else
                 match clauseValue with
                 | VArr subQueries =>
                     forEach (fun subQuery _ => rec subQuery (path ++ [PKey clause]))
                             subQueries
                 | _ =>
                     push (located Error (quoted clause ++ " must be an array")
                             (path ++ [PKey clause]))
                 end)).
  { intros clause clauseValue Hchild.
    destruct (isIndexLike clause); [apply returns_skip|].
    destruct (negb _); [apply returns_push|].
    destruct clauseValue as [| | | | |subQueries|props]; try apply returns_push.
    apply returns_forEach. intros subQuery n Hin. apply Hrec.
    eapply descendant_trans; [|apply descendant_child; exact Hchild].
    apply descendant_child. now constructor. }
  destruct boolQuery as [| | | | |l|props]; simpl; try apply returns_skip.
  - apply returns_forIndexed. intros n v Hin. apply Hbody. now constructor.
  - apply returns_forEntries. intros k v Hin. apply Hbody.
    econstructor. exact Hin.
Qed.

Lemma validateNestedQuery_returns rec nestedQuery path :
  mentions "toString" nestedQuery = false ->
  (forall y p, descendant y nestedQuery -> returns (rec y p)) ->
  returns (validateNestedQuery numberToString fields rec nestedQuery path).
Proof.
  intros Hno Hrec. unfold validateNestedQuery.
  destruct (notAnObject nestedQuery); [apply returns_push|]. cbv zeta.
  destruct (negb (truthy (prop nestedQuery "path"))); [apply returns_push|].
  apply returns_bind.
  { destruct nestedQuery as [| | | | |l|props]; try apply returns_push.
    apply returns_withProp; [|apply returns_push].
    intros q Hin. destruct (truthy q); [|apply returns_push].
    apply Hrec. apply descendant_child. econstructor. exact Hin. }
  intros _. apply returns_str; [now apply mentions_prop|]. intros name.
  destruct (read fields name); [|apply returns_skip].
  destruct (negb _); [apply returns_push | apply returns_skip].
Qed.

Lemma validateClause_returns rec path queryType queryValue :
  String.eqb queryType "multi_match" = false ->
  mentions "toString" queryValue = false ->
  printableRegistry fields = true ->
  (forall y p, descendant y queryValue -> returns (rec y p)) ->
  returns (validateClause numberToString fields rec path queryType queryValue).
Proof.
  intros Hmm Hno Hprint Hrec. unfold validateClause.
  destruct (negb (isValidQueryType queryType)); [apply returns_push|].
  destruct (String.eqb queryType "bool"); [now apply validateBoolQuery_returns|].
  destruct (_ || _); [now apply validateMatchQuery_returns|].
  destruct (_ || _); [apply validateTermQuery_returns|].
  destruct (String.eqb queryType "range"); [now apply validateRangeQuery_returns|].
  destruct (String.eqb queryType "exists"); [apply validateExistsQuery_returns|].
  rewrite Hmm.
  destruct (String.eqb queryType "nested"); [now apply validateNestedQuery_returns|].
  returns_all.
Qed.

(** A query that nowhere has a [multi_match] clause nor an object with a
    property [toString] is checked without an exception against a
    printable registry. *)
Lemma validateQuery_returns query : forall path,
  mentions "multi_match" query = false ->
  mentions "toString" query = false ->
  printableRegistry fields = true ->
  returns (validateQuery numberToString fields query path).
Proof.
  induction query as [query IH] using (well_founded_induction descendant_wf).
  intros path Hno Hstr Hprint.
  destruct query as [| | | | |l|props]; try (simpl; apply returns_push).
  - simpl. apply returns_forIndexed. intros n v Hin.
    assert (Hchild : child v (VArr l)) by now constructor.
    unfold validateClause.
    rewrite (isIndexLike_not_queryType _ (ofNat_isIndexLike n)).
    apply returns_push.
  - simpl. apply returns_forEntries. intros k v Hin.
    assert (Hchild : child v (VObj props)) by (econstructor; exact Hin).
    apply validateClause_returns.
    + simpl in Hno. destruct (String.eqb k "multi_match") eqn:E; [|reflexivity].
      assert (existsb (fun kv : string * value =>
                         let (k0, x0) := kv in
                         String.eqb k0 "multi_match"
                         || mentions "multi_match" x0) props = true).
      { apply existsb_exists. exists (k, v). split; [exact Hin|].
        now rewrite E. }
      congruence.
    + eapply mentions_child; eassumption.
    + exact Hprint.
    + intros y p Hy. apply IH.
      * eapply descendant_trans; [exact Hy | now apply descendant_child].
      * eapply mentions_descendant; [exact Hy|].
        eapply mentions_child; eassumption.
      * eapply mentions_descendant; [exact Hy|].
        eapply mentions_child; eassumption.
      * exact Hprint.
Qed.

Lemma validateAggregations_returns aggs path :
  mentions "toString" aggs = false ->
  returns (validateAggregations numberToString fields aggs path).
Proof.
  intros Hno.
  destruct (validateAggregations_pushes numberToString fields aggs path Hno)
    as [a Ha].
  eapply pushes_returns. exact Ha.
Qed.

End ValidatorReturns.


(** X27.  Where the checks can raise.  Let the text parse to an object or an
    array in which [sort] is absent or falsy, whose [query] nowhere has a
    property named [multi_match], and in which no object has a property
    named [toString]; and let no value of the registry hold an object with
    such a property.  Then no check raises: the catch clause of [validate]
    does not run, the result is what the checks pushed, and no finding calls
    the text a JSON syntax error.  A [multi_match] query whose [fields]
    holds a number does raise, and so does an aggregation whose [field] is
    an object with a property [toString], which cannot be converted to the
    name to look up: in both cases the valid text is reported as a syntax
    error. *)
Theorem validate_raises_only_in_known_places :
  forall numberToString fields JSON_parse text root,
    JSON_parse text = Normal root ->
    JSValue.notAnObject root = false ->
    JSValue.truthy (ESValidator.prop root "sort") = false ->
    mentions "multi_match" (ESValidator.prop root "query") = false ->
    mentions "toString" root = false ->
    printableRegistry fields = true ->
    (ESValidator.validateBody numberToString fields JSON_parse text []
     = (Normal tt, ESValidator.validate numberToString fields JSON_parse text)
     /\ forall e,
          ~ In (ESValidator.syntaxFinding text e)
               (ESValidator.validate numberToString fields JSON_parse text))
    /\ ESValidator.validate RefJSON.numberToString [] RefJSON.parse
         multiMatchOnNumber
       = [ESValidator.mkFinding ESValidator.Error
            "JSON syntax error: field.split is not a function"
            None (Some 1) (Some 1) (Some 1) (Some 2)]
    /\ ESValidator.validate RefJSON.numberToString [] RefJSON.parse
         aggsOnUnprintable
       = [ESValidator.mkFinding ESValidator.Error
            "JSON syntax error: Cannot convert object to primitive value"
            None (Some 1) (Some 1) (Some 1) (Some 2)].
Proof.
  intros numberToString fields JSON_parse text root Hparse Hroot Hsort Hmm
         Hstr Hprint.
  split; [|split; reflexivity].
  assert (Hret : returns
                   (ESValidator.validateBody numberToString fields JSON_parse text)).
  { unfold ESValidator.validateBody. intros errors.
    unfold ESValidator.bind at 1, ESValidator.lift at 1. rewrite Hparse.
    revert errors.
    apply returns_bind; [apply validateTopLevel_returns|]. intros _.
    assert (Hget : JSValue.get root "query"
                   = Normal (ESValidator.prop root "query")).
    { unfold ESValidator.prop.
      destruct root; try discriminate Hroot; reflexivity. }
    intros errors. unfold ESValidator.bind at 1, ESValidator.lift at 1.
    rewrite Hget. revert errors.
    apply returns_bind.
    { destruct (JSValue.truthy (ESValidator.prop root "query"));
        [|apply returns_skip].
      apply validateQuery_returns;
        [exact Hmm | now apply mentions_prop | exact Hprint]. }
    intros _. apply returns_bind.
    { cbv zeta.
      destruct (JSValue.truthy (ESValidator.prop root "aggs")).
      - destruct (JSValue.truthy (ESValidator.prop root "aggs"));
          [|apply returns_skip].
        apply validateAggregations_returns. now apply mentions_prop.
      - destruct (JSValue.truthy (ESValidator.prop root "aggregations"));
          [|apply returns_skip].
        apply validateAggregations_returns. now apply mentions_prop. }
    intros _. apply returns_bind.
    { rewrite Hsort. apply returns_skip. }
    intros _. apply validateCommonFields_returns. }
  destruct (Hret []) as ([] & findings & Hbody).
  assert (Hval : ESValidator.validate numberToString fields JSON_parse text
                 = findings)
    by (unfold ESValidator.validate; now rewrite Hbody).
  rewrite Hval. split; [exact Hbody|].
  intros e Hin.
  destruct (validateBody_emits numberToString fields JSON_parse text [])
    as (added & Hadded & Hall).
  rewrite Hbody in Hadded. simpl in Hadded. subst added.
  rewrite Forall_forall in Hall.
  destruct (Hall _ Hin) as [Heq|[(Hline & _) _]].
  - unfold ESValidator.syntaxFinding in Heq.
    destruct (ESValidator.getErrorPosition _ _). discriminate Heq.
  - unfold ESValidator.syntaxFinding in Hline.
    destruct (ESValidator.getErrorPosition _ _). discriminate Hline.
Qed.

Lemma validate_raises_only_in_known_places_witness :
  ESValidator.validateBody RefJSON.numberToString schemaA RefJSON.parse
    matchOnExtension []
  = (Normal tt,
     ESValidator.validate RefJSON.numberToString schemaA RefJSON.parse
       matchOnExtension).
Proof.
  refine (proj1 (proj1 (validate_raises_only_in_known_places
                          RefJSON.numberToString schemaA RefJSON.parse
                          matchOnExtension _ _ _ _ _ _ _))).
  - vm_compute. reflexivity.
  - reflexivity.
  - reflexivity.
  - reflexivity.
  - reflexivity.
  - reflexivity.
Defined.


(** ** Reads of the registry and conversions, on concrete values *)

(** What a read of [protoRegistry] finds: the stored entries under their
    names, the entry that is the prototype under [__proto__], the properties
    of that entry under their names, the built-in members under theirs, and
    nothing elsewhere.  A property of the prototype entry that is
    [undefined] is found and falsy. *)
Lemma protoRegistry_reads :
  MappingParser.index protoRegistry "b"
  = Some (MappingParser.Entry (typedField "keyword"))
  /\ MappingParser.index protoRegistry "__proto__"
     = Some (MappingParser.Entry (typedField "text"))
  /\ MappingParser.index protoRegistry "type"
     = Some (MappingParser.Slot (JSValue.VStr "text"))
  /\ MappingParser.index protoRegistry "analyzer"
     = Some (MappingParser.Slot JSValue.VUndefined)
  /\ MappingParser.read protoRegistry "analyzer" = None
  /\ MappingParser.read protoRegistry "isNested" = None
  /\ MappingParser.read protoRegistry "multiFields"
     = Some (MappingParser.Slot (JSValue.VArr []))
  /\ MappingParser.index protoRegistry "hasOwnProperty"
     = Some (MappingParser.Inherited "hasOwnProperty")
  /\ MappingParser.index protoRegistry "c" = None
  /\ MappingParser.index [] "__proto__"
     = Some (MappingParser.Inherited "__proto__")
  /\ MappingParser.index [] "type" = None.
Proof. repeat split; reflexivity. Qed.

(** [Object.entries] of [protoRegistry]: the array indices first, in
    ascending order, then the other names in the order of their creation;
    [__proto__] is no own property.  The field name suggestions follow that
    order. *)
Lemma protoRegistry_field_names :
  map fst (MappingParser.ownEntries protoRegistry) = ["0"; "1"; "b"]
  /\ ESCompletionProvider.getFieldNameSuggestions RefJSON.numberToString
       protoRegistry
     = Normal
         [ESCompletionProvider.suggest "0" ESCompletionProvider.Property "date";
          ESCompletionProvider.suggest "1" ESCompletionProvider.Property "long";
          ESCompletionProvider.suggest "b" ESCompletionProvider.Property
            "keyword"].
Proof. split; reflexivity. Qed.

(** The conversion of values to strings: arrays join their elements, with
    nothing for [null]; an object prints as [[object Object]] unless it has
    a property [toString], own, which makes the conversion raise, also
    inside an array. *)
Lemma toStr_examples :
  JSValue.toStr RefJSON.numberToString
    (JSValue.VArr [JSValue.VStr "a"; JSValue.VNull;
                   JSValue.VArr [JSValue.VBool true; JSValue.VStr "b"]])
  = Normal "a,,true,b"
  /\ JSValue.toStr RefJSON.numberToString (JSValue.VArr []) = Normal EmptyString
  /\ JSValue.toStr RefJSON.numberToString
       (JSValue.VObj [("valueOf", JSValue.VNum (inject_Z 1))])
     = Normal "[object Object]"
  /\ JSValue.toStr RefJSON.numberToString
       (JSValue.VObj [("toString", JSValue.VNum (inject_Z 1))])
     = Throw JSValue.notPrimitive
  /\ JSValue.toStr RefJSON.numberToString
       (JSValue.VArr [JSValue.VStr "a";
                      JSValue.VObj [("toString", JSValue.VNull)]])
     = Throw JSValue.notPrimitive.
Proof. repeat split; reflexivity. Qed.

(** The checks on names that the registry inherits.  In the empty schema a
    match on [a] is warned about, a match on [constructor] is not; a range
    on [constructor] is told that the type of the field is [undefined]; a
    nested query on the path [toString] is told that the field is not
    nested. *)
Lemma inherited_names_are_mapped :
  ESValidator.validate RefJSON.numberToString [] RefJSON.parse
    (JSString.json "{'query':{'match':{'a':'x','constructor':'y'}}}")
  = [ESValidator.located ESValidator.Warning (ESValidator.notFound "a")
       [ESValidator.PKey "query"; ESValidator.PKey "match"; ESValidator.PKey "a"]]
  /\ ESValidator.validate RefJSON.numberToString [] RefJSON.parse
       (JSString.json "{'query':{'range':{'constructor':{'gte':1}}}}")
     = [ESValidator.located ESValidator.Warning
          ("range query is typically used with numeric/date fields, got "
           ++ JSString.quoted "undefined")
          [ESValidator.PKey "query"; ESValidator.PKey "range";
           ESValidator.PKey "constructor"]]
  /\ ESValidator.validate RefJSON.numberToString [] RefJSON.parse
       (JSString.json "{'query':{'nested':{'path':'toString','query':{}}}}")
     = [ESValidator.located ESValidator.Error
          ("Field " ++ JSString.quoted "toString" ++ " is not a nested field")
          [ESValidator.PKey "query"; ESValidator.PKey "nested";
           ESValidator.PKey "path"]]
  /\ ESValidator.validate RefJSON.numberToString [] RefJSON.parse
       (JSString.json "{'sort':['constructor']}")
     = [].
Proof. repeat split; vm_compute; reflexivity. Qed.

(** The generator on what [getFieldType] finds: nothing for an inherited
    member, which has no type; for a date field whose format is the name of
    an inherited member, that member itself in front of the date
    expressions; and an exception for a format that cannot be converted to
    a property name. *)
Lemma getSuggestions_examples :
  ValueSuggestionGenerator.getSuggestions RefJSON.numberToString 0
    (MappingParser.getFieldType [] "constructor") "range"
  = Normal []
  /\ ValueSuggestionGenerator.getSuggestions RefJSON.numberToString 0
       (Some (MappingParser.Entry
                (MappingParser.Field (JSValue.VStr "date") JSValue.VUndefined
                   JSValue.VUndefined JSValue.VUndefined
                   (JSValue.VStr "valueOf") false false [])))
       EmptyString
     = Normal
         (ValueSuggestionGenerator.Builtin "valueOf"
          :: map ValueSuggestionGenerator.Plain
                 ValueSuggestionGenerator.dateExpressions)
  /\ ValueSuggestionGenerator.getSuggestions RefJSON.numberToString 5000
       (Some (MappingParser.Entry
                (MappingParser.Field (JSValue.VStr "date") JSValue.VUndefined
                   JSValue.VUndefined JSValue.VUndefined
                   (JSValue.VStr "epoch_second") false false [])))
       EmptyString
     = Normal
         (ValueSuggestionGenerator.Plain
            (ValueSuggestionGenerator.mkSuggestion "5" "Epoch seconds")
          :: map ValueSuggestionGenerator.Plain
                 ValueSuggestionGenerator.dateExpressions)
  /\ ValueSuggestionGenerator.getSuggestions RefJSON.numberToString 0
       (Some (MappingParser.Entry
                (MappingParser.Field (JSValue.VStr "date") JSValue.VUndefined
                   JSValue.VUndefined JSValue.VUndefined
                   (JSValue.VObj [("toString", JSValue.VNull)]) false false [])))
       EmptyString
     = Throw JSValue.notPrimitive.
Proof. repeat split; reflexivity. Qed.
